(* ===== verification/_CoqProject ===== *)
-Q . S2P
Prelude.v
GoTime.v
Errors.v
GoStrings.v
Meta.v
Event.v
RateLimiter.v
BTree.v
PriorityQueue.v
PriorityQueueFacts.v
PQSpin.v
PQTrace.v
PQMetrics.v
PQDepth.v
QueueLoops.v
QueueInstr.v
QueueLaws.v
Conditions.v
Runtime.v
TraceLogic.v
Worker.v
Protocol.v
WorkerFacts.v
Cooperation.v
Convergence.v
Deletion.v
Controller.v
ControllerFacts.v
Logging.v
ContextValues.v
CertWatcher.v
CertWatch.v
MetricsServer.v
MetricsServe.v
Shutdown.v
Builder.v
Clients.v
Quickstart.v
MetricsRegistry.v
Telemetry.v
Threads.v
Serving.v
Backlog.v
Lifecycle.v
Recovery.v
Assembly.v
InFlight.v
System.v
Pool.v
StatusProjection.v
ProjectionExamples.v
ShutdownExamples.v
Concrete.v
ConvergenceExamples.v
QuickstartExamples.v
Examples.v
Witnesses.v
QueueWitnesses.v
SystemExamples.v
LifecycleExamples.v
RuntimeExamples.v
