(* ===== verification/Prelude.v ===== *)
(** * unstructured-runtime: the verification library (root file)

    unstructured-runtime is a library for Kubernetes controllers over unstructured objects.  An informer
    watches one kind of custom resource and turns every relevant change into an event; the events go
    through a priority queue without duplicates to a pool of workers; a worker fetches the object and
    drives an external client that observes, creates, updates or deletes the external resource behind
    it, and records what it did in the object's annotations, finalizers and status conditions.  Around
    that core there are the packages that build a controller, shut it down, project values onto its
    status, and export metrics, traces and logs.  This library models that program, package by
    package, and proves what makes it correct.

    ** How to read it

    A definition has the name of the Go function, type or constant it translates wherever Rocq allows
    it; a part of a function that has a definition of its own is named after what it does.  Data is as
    the code has it: structs are records, [int64] values and durations are integers in [Z] with their
    wrap-around or saturation written out ([wrap64], [sat64] below; durations are nanoseconds), maps are
    stdpp's [gmap], byte slices and strings are [string], a Go variable of an interface or pointer type
    is an [option] where nil matters.  Code that can panic returns an [outcome]; code that can fail
    returns a Go [error] beside or in place of its value; the worker and the informer's handlers are
    programs in a state monad that also records every call they make.

    Code of other modules is an interface, a type class with its operations and, apart from them, the
    laws the program relies on, as documented: [BTree]/[BTreeLaws] (google/btree), [RateLimiter]
    (client-go), [MetaObject]/[MetaObjectLaws], [UnstructuredObject]/[UnstructuredLaws] (apimachinery),
    [World] (dynamic client, external client, clock, recorder), [ProjectionDeps]/[ProjectionLaws] (jq,
    deep copy, nested fields); smaller dependencies are section variables (the murmur3 sum, go-cmp's
    diff, [tls.X509KeyPair], the OpenTelemetry propagator).  Inside the program, [QueueMetrics] and
    [WorkQueue] are the interfaces the Go code has between its own components; [QueueSafe] and
    [ForgetfulQueue] (QueueLaws) state what the controller relies on of its queue and are discharged
    for the priority queue, bare and instrumented, as are [ServingQueue] and [SharedQueue] (Serving), on
    which the loop of a worker and the informer rely; [Handler] (Logging) is slog's interface;
    [ObjectLaws] and [Cooperative] (Cooperation) state when the surroundings of a worker let it get
    anywhere.  Concrete instances of all of them (Concrete, ConvergenceExamples,
    ProjectionExamples, RuntimeExamples) show that the laws can hold and let the definitions run.

    ** Files and what they model (paths under src/pkg, but for the example)

    Foundations
    - Prelude: machine integers, outcomes, error monad notations, shared tactics and list lemmas.
    - GoTime: time.Time, durations, RFC 3339 formatting and parsing with their round trip.
    - GoStrings: strings.Split and Join, errors.Join, strconv.Quote, the text of JSON strings.
    - Errors: errors/errors.go and test/cmp.go.

    Data
    - Meta: meta/meta.go; annotations, finalizers, the three create marks, policies.
    - Event: controller/event/*.go and controller/objectref/objectref.go; events, digests, rules.
    - Conditions: tools/unstructured/unstructured.go and condition/condition.go.

    The queue
    - RateLimiter: workqueue/workqueue.go, with its float64 arithmetic.
    - BTree: the ordered set the queue sorts its items in, as an interface and as a sorted list.
    - PriorityQueue: controller/priorityqueue/priorityqueue.go, a definition per method.
    - PriorityQueueFacts, PQSpin, PQTrace: order and invariant; what [spin] hands out against a reference
      definition; runs of any number of goroutines as a step relation.
    - PQMetrics, PQDepth: controller/priorityqueue/metrics.go, and that the gauges tell the truth;
      QueueLoops: the loops that write the debug log and set the gauges of unfinished work.
    - QueueInstr, QueueLaws: controller/queue_instrumentation.go over the interface [WorkQueue].

    The controller
    - Runtime: the surroundings of a worker and tools/tools.go (writes through the dynamic client).
    - Worker: controller/worker.go, complete.
    - TraceLogic, Protocol: a logic for the calls programs make; the protocol of a reconciliation as an
      abstract specification, and that [processItem] refines it.
    - WorkerFacts: the outcomes of single events.
    - Cooperation, Convergence, Deletion: surroundings that cooperate, as laws, with rules for running the
      worker's programs there; that reconciliation converges in them, and what a deletion does.
    - Controller, ControllerFacts: options, [New], the informer's handlers of controller/controller.go.
    - Threads: handlers and workers again as threads whose accesses to the queue and to the map [items]
      can be interleaved, proved to do what the programs do.
    - System: the informer, [spin] and any number of workers as one step relation over these threads.
    - Shutdown: [Controller.Run] and its drain as a step relation.
    - Serving, Backlog: GetWithPriority as one call; the keys in a queue as work to do.
    - Lifecycle: informer, queue and worker together in surroundings that cooperate, from any history of
      notifications to the worker at rest; Recovery: the same after surroundings that did not.
    - Assembly: the controller that [New] builds, with the bare or the instrumented queue, to which the
      informer has its own way.
    - Pool: the workers of System are those of Shutdown.
    - InFlight: what an iteration of a worker does to the gauge of reconciles in flight.

    Around it
    - Builder: controller/builder; Clients: listwatcher, pluralizer, signals and [GetConfig];
      Quickstart: the program of src/examples/quickstart, over Builder, Shutdown and Clients.
    - StatusProjection: tools/statusprojection.
    - ContextValues: context; Logging: logging; Telemetry: telemetry.
    - MetricsRegistry: metrics, workqueue/metrics, certwatcher/metrics and the collectors of
      controller/controller.go.
    - MetricsServer, MetricsServe: metrics/server, up to the handlers and the listener, and how it serves
      and ends; CertWatcher, CertWatch: certwatcher, its operations, and [Start] and [Watch] at work.

    Runs: Concrete is a small cluster, ConvergenceExamples one that cooperates; they and Examples,
    SystemExamples, LifecycleExamples, ProjectionExamples, ShutdownExamples, QuickstartExamples,
    RuntimeExamples, Witnesses and QueueWitnesses evaluate the definitions and apply the theorems to concrete
    inputs.

    ** What the theorems show

    A reconciliation ([Protocol], [WorkerFacts]).  Whatever the API server, the external client and the
    clock answer, the calls made for one event follow the protocol: [processItem_refines]; in
    particular a create is announced by a stored mark ([write_ahead]), finalizers are only lost for a
    reason ([finalizers_guarded]), at most one external change is made ([one_external_change]), and what
    is queued is what the last observation calls for, for the object fetched after it, or the event in
    processing again while an interrupted create may still show up ([enqueues_what_it_saw]).  [handshake_history]: over
    any history of attempts the marks tell an interrupted create from a finished one.  The other
    theorems give the calls and answers of paused, missing, failing and finished events.

    A life ([Lifecycle], [Recovery], [Convergence], [Deletion], [Assembly]).  In surroundings that cooperate,
    an idle controller that is told of a live object, by notifications in any number and in any
    interleaving with the turns of its worker, brings the object in order and is idle again, provided
    none asks for a deletion, an update is only asked for when the resource exists, and an interrupted
    create can be judged ([reconciles], [decidable]; [schedule_converges]; [notifications_converge] has the worker rest after each of them and allows more
    of the later ones; [converges] is the same of events alone).  It gets there too after any history in
    surroundings that do as they please, under the same conditions on what is left queued
    ([outage_recovered]).  Notified of a deletion it removes external
    resource and object, and what follows brings nothing back ([deletion_completes]).  A controller that
    [New] returned starts idle ([New_idle]); but the queue's telemetry does not see what the informer adds
    ([informer_unseen]).

    The queue ([PQTrace], [PQDepth], [Instrumented]).  In every reachable state: no key is handed out
    twice, no wake-up is lost, what is handed out is the ready and unlocked items in the order of the queue,
    each to a worker that is there when [spin] comes by ([spin_hands_eligible]; a worker that comes in the
    middle of a walk can get a later item than one that stays, [handed_before_left]), additions
    merge by priority and due time, the gauges are those of the items, and the instrumented queue refines
    the bare one and counts the keys enqueued and not received.
    [exposed_depth] carries the gauges on to the series the metrics server serves.

    The composition ([Threads], [System]).  [informer_as_thread] and [iteration_as_thread] relate the
    programs to their threads; over any interleaving of the threads [no_digest_lost] shows that the
    de-duplication by digest never hides an object for good, except after a failure to make a trace id
    ([shortid_failure_leaks]), and [one_worker_per_key] that a key has one worker.  A key is a whole
    event, so an object can have two (SystemExamples.two_workers_one_object).

    Shutdown ([Shutdown]).  [grace_respected]: no reconcile is cancelled before the window is over;
    [drain_terminates], [run_returns]: the workers run out of moves and [Run] can return;
    [serving_refined]: while [Run] serves, its workers are those of System.  [program_exits] puts a program
    around it: flags and signals in, exit code out; the panic of a goroutine, which nothing recovers, is a
    step of that program ([q_crash]).

    The surroundings: [Project_written], [Project_degrades] and [normalize_safe] of the status
    projection, whose only panic is the write into a nil map ([Project_nil_panics]); [watcher_invariant], and [disk_taken_over]: a pair of files that is in place for longer
    than the watcher's interval is in use, announced or not; [start_serves], and [serve_ends]: the server
    can return when its context has ended, within a minute or when its connections close; [gauge_balanced]; [trace_continues];
    [delays_exponential] with the bounds of int64 and float64; the round trips of conditions and of the
    failed object reference, and of times with and without fractions; [derived_line]: what a handler
    derived from the recommended one writes of a record; and the theorems of Builder, Logging, ContextValues and Clients.

    ** Choices, bounds and fuel

    - Recursion is structural, over lists, strings or the elements of the B-tree, but for two kinds of
      loop with fuel: writing a number's digits, with as many rounds as the widest number has digits,
      and the loop of [RemoveFinalizer], with the length of the slice it ranges over, which is how often
      Go's range runs.
    - The queue's methods that change its tree or its locked keys hold its locks, so each is one step.
      [spin]'s iteration holds them too, and its hand-offs over the channel go to parked workers.
      GetWithPriority takes no lock: workers count themselves while [spin] walks, before any item of the
      tree, as the argument [arrive] tells ([during] of System has the workers that come, and the ones
      that leave without a Done).  A worker counts itself and wakes [spin] up in one step.  One reading
      of the clock stands for the readings within one iteration; a [select] that finds a getter gone is
      the argument [accept].
    - The counter of additions is a uint64; statements over runs of the system assume that it has not
      reached its end ([roomy]).
    - JSON between [SetConditions] and [GetConditions] keeps a string's valid UTF-8 and replaces other bytes
      by U+FFFD ([jsonText]).
    - Durations that the code turns into float64 seconds for a metric stay in nanoseconds.
    - A step of System is one access to the shared state.  What a worker does between its first and last
      accesses is one addition to the queue at most ([iteration_as_thread]); System allows any number.  The
      system runs up to the call of ShutDown; Shutdown has what follows, with the work of a worker as
      one busy state.
    - Convergence is stated with the two events it takes at most, the second the one the first queues;
      so three answers of the queue are enough for the worker to wait again after a notification, which
      is the fuel of [follow], and [playOut] has two turns for each event of the backlog and each
      notification, and one to find the queue empty.  Each addition takes one of the counter's values,
      which [idle] reserves: two for a notification, four for a step of an outage.
    - Histories of Lifecycle and Recovery have one worker, and a handler or a turn of the worker runs to its
      end; System has several workers, access by access, but says nothing of the cluster.
    - An outage leaves trace ids alone: without them an event is leaked ([shortid_failure_leaks]).  What
      it leaves in the queue must be events of the object that do not delete it, and updates only if the
      resource exists: [timely].
    - A tick of the certificate watcher is served when it is due, and a read of its two files is one step.
    - Liveness of the queue and of a shutdown is stated as: a state that should not be quiet is not
      ([no_lost_wakeup]); the moves of a drain are bounded ([drain_terminates]); and a return stays
      reachable ([run_returns]).  No fairness of the scheduler is assumed.

    ** Not modelled, and why

    - The informer's cache, HTTP and TLS serving, file-system and signal delivery, the OpenTelemetry and
      Prometheus clients, jq: other modules, reached through the interfaces above.
    - Log output of the worker and the controller, and the spans' attributes and statuses.
    - [errors.Is] and [errors.As] (dynamic types), and the encoding of log records. *)

From stdpp Require Export base gmap strings list fin_maps sorting relations.
From Stdlib Require Export ZArith Lia Ascii.

#[export] Set Warnings "-clear-no-such-hyp".
Open Scope Z_scope.

(** ** Machine integers *)

Definition min_int64 : Z := - 2 ^ 63.
Definition max_int64 : Z := 2 ^ 63 - 1.

(** Two's complement wrap-around of Go's int64 (and of int on 64-bit targets). *)
Definition wrap64 (z : Z) : Z := (z + 2 ^ 63) mod 2 ^ 64 - 2 ^ 63.

(** Saturation to the int64 range, as [time.Time.Sub] does. *)
Definition sat64 (z : Z) : Z := Z.max min_int64 (Z.min max_int64 z).

(** Go's operators on int64: addition and multiplication wrap, [-|] is the saturating difference. *)
Declare Scope go_scope.
Delimit Scope go_scope with go.
Notation "x +! y" := (wrap64 (x + y)) (at level 50, left associativity) : go_scope.
Notation "x *! y" := (wrap64 (x * y)) (at level 40, left associativity) : go_scope.
Notation "x -| y" := (sat64 (x - y)) (at level 50, left associativity) : go_scope.
Open Scope go_scope.

(** ** Outcomes of Go code: a value, or a run-time panic *)

Inductive outcome (A : Type) : Type :=
| Ret (a : A)
| Panic (why : string).
Arguments Ret {A} a.
Arguments Panic {A} why.

#[export] Instance outcome_ret : MRet outcome := @Ret.
#[export] Instance outcome_bind : MBind outcome := fun A B f x =>
  match x with Ret a => f a | Panic w => Panic w end.

Definition is_panic {A} (x : outcome A) : bool :=
  match x with Ret _ => false | Panic _ => true end.

(** ** Tactics of the development *)

(** [lia] also reasons about [/], [mod], [Z.quot] and [Z.rem] by constants. *)
Ltac Zify.zify_post_hook ::= Z.to_euclidean_division_equations.

(** Case analysis on the scrutinee of an [if] or a [match] of the goal, keeping the equation. *)
Ltac case_goal :=
  match goal with
  | |- context [match ?x with _ => _ end] => destruct x eqn:?
  end.

(** Turns the boolean tests of the code into propositions [lia] understands. *)
Ltac bool_to_prop :=
  repeat match goal with
  | H : andb _ _ = true |- _ => apply andb_true_iff in H as [? ?]
  | H : orb _ _ = false |- _ => apply orb_false_iff in H as [? ?]
  | H : negb _ = true |- _ => apply negb_true_iff in H
  | H : negb _ = false |- _ => apply negb_false_iff in H
  | H : bool_decide _ = true |- _ => apply bool_decide_eq_true in H
  | H : bool_decide _ = false |- _ => apply bool_decide_eq_false in H
  | H : (_ <? _)%Z = true |- _ => apply Z.ltb_lt in H
  | H : (_ <? _)%Z = false |- _ => apply Z.ltb_ge in H
  | H : (_ <=? _)%Z = true |- _ => apply Z.leb_le in H
  | H : (_ <=? _)%Z = false |- _ => apply Z.leb_gt in H
  | H : (_ =? _)%Z = true |- _ => apply Z.eqb_eq in H
  | H : (_ =? _)%Z = false |- _ => apply Z.eqb_neq in H
  | H : String.eqb _ _ = true |- _ => apply String.eqb_eq in H
  | H : String.eqb _ _ = false |- _ => apply String.eqb_neq in H
  end.

(** ** Generic lemmas *)

Lemma wrap64_id z : min_int64 <= z <= max_int64 -> wrap64 z = z.
Proof. unfold min_int64, max_int64, wrap64. intros H. rewrite Z.mod_small; lia. Qed.

Lemma wrap64_range z : min_int64 <= wrap64 z <= max_int64.
Proof.
  unfold min_int64, max_int64, wrap64.
  pose proof (Z.mod_pos_bound (z + 2 ^ 63) (2 ^ 64) ltac:(lia)). lia.
Qed.

Lemma sat64_id z : min_int64 <= z <= max_int64 -> sat64 z = z.
Proof. unfold sat64, min_int64, max_int64. change (2 ^ 63) with 9223372036854775808. lia. Qed.

Lemma sat64_range z : min_int64 <= sat64 z <= max_int64.
Proof. unfold sat64, min_int64, max_int64. change (2 ^ 63) with 9223372036854775808. lia. Qed.

Lemma sat64_lt z d : min_int64 < d <= max_int64 -> sat64 z < d <-> z < d.
Proof. unfold sat64, min_int64, max_int64. change (2 ^ 63) with 9223372036854775808. lia. Qed.

(** A boolean check over an interval of integers, for facts proved by computation. *)
Lemma forallb_seqZ (P : Z -> bool) (m n : Z) :
  forallb P (seqZ m n) = true -> forall i, m <= i < m + n -> P i = true.
Proof.
  intros H i Hi. rewrite forallb_forall in H. apply H.
  apply list_elem_of_In, elem_of_seqZ. lia.
Qed.

Lemma string_app_assoc (a b c : string) : (a +:+ b +:+ c = (a +:+ b) +:+ c)%string.
Proof. induction a as [|x a IH]; [done|]. exact (f_equal (String x) IH). Qed.

Lemma string_app_nil_r (a : string) : (a +:+ "" = a)%string.
Proof. induction a as [|x a IH]; [done|]. exact (f_equal (String x) IH). Qed.

Lemma pair_snd {A B} (p : A * B) b : p.2 = b -> p = (p.1, b).
Proof. destruct p. by intros <-. Qed.

Lemma drop_S_middle {A} (a b : list A) x : drop (S (length a)) (a ++ x :: b) = b.
Proof. induction a as [|y a IH]; [by destruct b | exact IH]. Qed.

(** Deleting a list of keys, one after the other. *)
Lemma lookup_foldr_delete {K A} `{Countable K} (ks : list K) (a : gmap K A) k :
  foldr delete a ks !! k = if bool_decide (k ∈ ks) then None else a !! k.
Proof.
  induction ks as [|k' ks IH]; simpl; [done|].
  destruct (decide (k' = k)) as [->|Hne].
  - rewrite lookup_delete_eq, bool_decide_true; [done|]. by left.
  - rewrite lookup_delete_ne, IH by done.
    case_bool_decide as Hk; [by rewrite bool_decide_true by (by right)|].
    rewrite bool_decide_false; [done|]. intros [E|?]%elem_of_cons; [by apply Hne|done].
Qed.

Lemma foldr_delete_comm {K A} `{Countable K} (ks : list K) k (m : gmap K A) :
  foldr delete (delete k m) ks = delete k (foldr delete m ks).
Proof. induction ks as [|k' ks IH]; simpl; [done|]. by rewrite IH, delete_delete. Qed.

Lemma filter_ne_id {A} `{EqDecision A} (x : A) (l : list A) :
  x ∉ l -> filter (fun y => y <> x) l = l.
Proof.
  induction l as [|y l IH]; [done|]. intros [Hy Hl]%not_elem_of_cons.
  rewrite filter_cons_True by congruence. by rewrite IH.
Qed.

Lemma string_length_app (a b : string) :
  String.length (a +:+ b)%string = (String.length a + String.length b)%nat.
Proof. induction a as [|x a IH]; [done|]. exact (f_equal S IH). Qed.

Lemma StronglySorted_filter_sub {A} (R : A -> A -> Prop) (P : A -> Prop) `{!forall x, Decision (P x)}
  (l : list A) : StronglySorted R l -> StronglySorted R (filter P l).
Proof.
  induction 1 as [|x l Hs IH Hx]; [constructor|].
  rewrite filter_cons. case_decide; [|done]. constructor; [done|].
  apply Forall_forall. intros y [_ Hy]%list_elem_of_filter.
  by apply (proj1 (Forall_forall _ _) Hx).
Qed.

(** A key more, or one less, in a finite set. *)
Lemma size_add_le {K} `{Countable K} (k : K) (ks : gset K) : (size ({[ k ]} ∪ ks) <= S (size ks))%nat.
Proof.
  pose proof (size_union_alt {[ k ]} ks) as Esz. rewrite size_singleton in Esz.
  pose proof (subseteq_size (ks ∖ {[ k ]}) ks ltac:(set_solver)). lia.
Qed.

Lemma size_served {K} `{Countable K} (k : K) (ks : gset K) : k ∈ ks -> size ks = S (size (ks ∖ {[ k ]})).
Proof.
  intros Hk. rewrite (union_difference_singleton_L k ks Hk) at 1.
  rewrite size_union by set_solver. by rewrite size_singleton.
Qed.

(** ** Automation *)

(** [go]: ranges of machine integers; [go_simpl]: normal forms of strings and lists. *)
Create HintDb go.
#[export] Hint Resolve wrap64_range sat64_range : go.
Create Rewrite HintDb go_simpl.
#[export] Hint Rewrite string_app_nil_r string_length_app @drop_S_middle : go_simpl.
