(* ===== verification/GoTime.v ===== *)
(** * Go's time package, as far as the program uses it

    [Time] is an instant (nanoseconds since the zero Time, 0001-01-01T00:00:00Z) with the UTC offset of
    its location; [Format] and [Parse] are those of the layout [time.RFC3339], the only one the
    program uses.  [Parse] is the general layout-driven parser: the fast path of the library accepts
    a subset of its inputs with the same results. *)

From S2P Require Import Prelude.

Module GoTime.

(** ** Durations and instants *)

Definition Nanosecond : Z := 1.
Definition Millisecond : Z := 1000000.
Definition Second : Z := 1000000000.
Definition Minute : Z := 60 * Second.

Record Time : Type := mkTime {
  ns : Z;   (* nanoseconds since 0001-01-01T00:00:00 UTC *)
  off : Z   (* seconds east of UTC of the location, for display *)
}.

#[export] Instance Time_eq_dec : EqDecision Time.
Proof. solve_decision. Defined.

#[export] Instance Time_countable : Countable Time.
Proof.
  refine (inj_countable' (fun t => (ns t, off t)) (fun '(a, b) => mkTime a b) _).
  by intros [].
Defined.

Definition zeroTime : Time := mkTime 0 0.

Definition IsZero (t : Time) : bool := ns t =? 0.
Definition Before (t u : Time) : bool := ns t <? ns u.
Definition After (t u : Time) : bool := ns u <? ns t.
Definition Equal (t u : Time) : bool := ns t =? ns u.
Definition Sub (t u : Time) : Z := ns t -| ns u.
Definition Add (t : Time) (d : Z) : Time := mkTime (ns t + d) (off t).
Definition UTC (t : Time) : Time := mkTime (ns t) 0.

(** [time.Since(t)] at the clock reading [now]. *)
Definition Since (now t : Time) : Z := Sub now t.

(** The instant with the sub-second part dropped, which is what RFC 3339 keeps of it. *)
Definition truncSec (t : Time) : Time := mkTime (ns t / Second * Second) (off t).

Arguments truncSec : simpl never.

(** ** The proleptic Gregorian calendar *)

Definition isLeap (y : Z) : bool :=
  (y mod 4 =? 0) && (negb (y mod 100 =? 0) || (y mod 400 =? 0)).

Definition daysBefore (m : Z) : Z :=
  nth (Z.to_nat m) [0; 31; 59; 90; 120; 151; 181; 212; 243; 273; 304; 334; 365] 0.

Definition daysIn (m y : Z) : Z :=
  if (m =? 2) && isLeap y then 29 else daysBefore m - daysBefore (m - 1).

(** Days from 0001-01-01 to the first day of year [y]. *)
Definition daysToYear (y : Z) : Z :=
  let z := y - 1 in 365 * z + z / 4 - z / 100 + z / 400.

Definition daysFromDate (y m d : Z) : Z :=
  daysToYear y + daysBefore (m - 1)
  + (if isLeap y && (2 <? m) then 1 else 0) + (d - 1).

(** Year and zero-based day of the year of a day number. *)
Definition yearDay (days : Z) : Z * Z :=
  let n400 := days / 146097 in let d := days mod 146097 in
  let n100 := Z.min 3 (d / 36524) in let d := d - 36524 * n100 in
  let n4 := d / 1461 in let d := d mod 1461 in
  let n1 := Z.min 3 (d / 365) in let d := d - 365 * n1 in
  (400 * n400 + 100 * n100 + 4 * n4 + n1 + 1, d).

(** Month (1..12) and day (1..31) of a day of the year. *)
Definition monthDay (leap : bool) (yday : Z) : Z * Z :=
  if leap && (yday =? 59) then (2, 29) else
  let day := if leap && (59 <? yday) then yday - 1 else yday in
  let month := day / 31 in
  let end_ := daysBefore (month + 1) in
  if end_ <=? day then (month + 2, day - end_ + 1)
  else (month + 1, day - daysBefore month + 1).

(** ** Format(time.RFC3339) *)

Definition digit (n : Z) : ascii := ascii_of_N (48 + Z.to_N n).

Fixpoint decimal (fuel : nat) (n : Z) (acc : string) : string :=
  match fuel with
  | O => acc
  | S k => let acc := String (digit (n mod 10)) acc in
           if n / 10 =? 0 then acc else decimal k (n / 10) acc
  end.

Fixpoint zeros (n : nat) (s : string) : string :=
  match n with O => s | S k => String "0" (zeros k s) end.

(** [appendInt]: the decimal form of [x] zero-padded to [width]; 20 digits hold every int. *)
Definition appendInt (x : Z) (width : nat) : string :=
  let s := decimal 20 (Z.abs x) EmptyString in
  let s := zeros (width - String.length s) s in
  if x <? 0 then String "-" s else s.

Definition formatZone (o : Z) : string :=
  if o =? 0 then "Z"%string else
  let zone := Z.quot o 60 in
  ((if (zone <? 0)%Z then "-" else "+") +:+ appendInt (Z.abs zone / 60) 2
    +:+ ":" +:+ appendInt (Z.abs zone mod 60) 2)%string.

(** The last zeros of a text are left out. *)
Fixpoint trimZeros (s : string) : string :=
  match s with
  | EmptyString => EmptyString
  | String c s =>
    match trimZeros s with
    | EmptyString => if Ascii.eqb c "0" then EmptyString else String c EmptyString
    | s => String c s
    end
  end.

(** [appendNano] for the layout's ".999999999". *)
Definition appendNano (nanosec : Z) : string :=
  if nanosec =? 0 then EmptyString else String "." (trimZeros (appendInt nanosec 9)).

(** [appendFormatRFC3339], with the nanoseconds or without. *)
Definition appendFormatRFC3339 (nanos : bool) (t : Time) : string :=
  let sec := ns t / Second + off t in
  let '(year, yday) := yearDay (sec / 86400) in
  let '(month, day) := monthDay (isLeap year) yday in
  let sod := sec mod 86400 in
  (appendInt year 4 +:+ "-" +:+ appendInt month 2 +:+ "-" +:+ appendInt day 2 +:+ "T"
   +:+ appendInt (sod / 3600) 2 +:+ ":" +:+ appendInt (sod / 60 mod 60) 2
   +:+ ":" +:+ appendInt (sod mod 60) 2
   +:+ (if nanos then appendNano (ns t mod Second) else EmptyString) +:+ formatZone (off t))%string.

(** Format(time.RFC3339) and Format(time.RFC3339Nano). *)
Definition FormatRFC3339 (t : Time) : string := appendFormatRFC3339 false t.
Definition FormatRFC3339Nano (t : Time) : string := appendFormatRFC3339 true t.

(** ** Parse(time.RFC3339, _) *)

Definition digitVal (c : ascii) : option Z :=
  let n := Z.of_N (N_of_ascii c) in
  if (48 <=? n) && (n <=? 57) then Some (n - 48) else None.

(** [getnum]: two digits, or one when [fixed] is false. *)
Definition getnum (s : string) (fixed : bool) : option (Z * string) :=
  match s with
  | String a s' =>
    match digitVal a with
    | None => None
    | Some x =>
      match s' with
      | String b s'' =>
        match digitVal b with
        | Some y => Some (10 * x + y, s'')
        | None => if fixed then None else Some (x, s')
        end
      | EmptyString => if fixed then None else Some (x, s')
      end
    end
  | EmptyString => None
  end.

Definition getYear (s : string) : option (Z * string) :=
  match getnum s true with
  | Some (hi, s') =>
    match getnum s' true with
    | Some (lo, s'') => Some (100 * hi + lo, s'')
    | None => None
    end
  | None => None
  end.

Definition skip (c : ascii) (s : string) : option string :=
  match s with
  | String a s' => if Ascii.eqb a c then Some s' else None
  | EmptyString => None
  end.

Definition guard (b : bool) : option unit := if b then Some () else None.

(** The digits of a fraction: its first nine scaled to nanoseconds, and the rest of the input. *)
Fixpoint fracDigits (scale : Z) (acc : Z) (s : string) : Z * string :=
  match s with
  | String c s' =>
    match digitVal c with
    | Some x => fracDigits (scale / 10) (acc + x * scale) s'
    | None => (acc, s)
    end
  | EmptyString => (acc, s)
  end.

(** An optional fraction after the seconds: a period or a comma and at least one digit. *)
Definition getFrac (s : string) : Z * string :=
  match s with
  | String c (String d _ as s') =>
    if (Ascii.eqb c "." || Ascii.eqb c ",") && bool_decide (is_Some (digitVal d))
    then fracDigits 100000000 0 s' else (0, s)
  | _ => (0, s)
  end.

(** A numeric zone: the sign, two hour digits, a colon, two minute digits, and nothing after them. *)
Definition getOffset (sg : ascii) (s : string) : option Z :=
  '(hr, s) ← getnum s true; s ← skip ":" s; '(mm, s) ← getnum s true;
  _ ← guard (hr <=? 24); _ ← guard (mm <=? 60);
  match s with
  | EmptyString =>
    if Ascii.eqb sg "+" then Some ((hr * 60 + mm) * 60)
    else if Ascii.eqb sg "-" then Some (- ((hr * 60 + mm) * 60)) else None
  | _ => None
  end.

Definition getZone (s : string) : option Z :=
  match s with
  | String sg s' =>
    if Ascii.eqb sg "Z" then match s' with EmptyString => Some 0 | _ => None end
    else getOffset sg s'
  | EmptyString => None
  end.

Definition ParseRFC3339 (s : string) : option Time :=
  '(year, s) ← getYear s; s ← skip "-" s;
  '(month, s) ← getnum s true; _ ← guard ((1 <=? month) && (month <=? 12)); s ← skip "-" s;
  '(day, s) ← getnum s true; s ← skip "T" s;
  '(hour, s) ← getnum s false; _ ← guard (hour <? 24); s ← skip ":" s;
  '(mi, s) ← getnum s true; _ ← guard (mi <? 60); s ← skip ":" s;
  '(sec, s) ← getnum s true; _ ← guard (sec <? 60);
  let '(nsec, s) := getFrac s in
  o ← getZone s;
  _ ← guard ((1 <=? day) && (day <=? daysIn month year));
  Some (mkTime
    ((daysFromDate year month day * 86400 + hour * 3600 + mi * 60 + sec - o) * Second + nsec) o).

Example format_ex :
  FormatRFC3339 (mkTime 63871416000123456789 7200) = "2025-01-02T14:00:00+02:00"%string.
Proof. vm_compute. reflexivity. Qed.

(** The general parser takes one-digit hours, a comma and more than nine fraction digits. *)
Example parse_ex :
  ParseRFC3339 "2024-02-29T2:00:00,1234567899Z" = Some (mkTime 63844768800123456789 0).
Proof. vm_compute. reflexivity. Qed.

(** ** The calendar *)

Lemma isLeap_spec y :
  isLeap y = true <-> y mod 4 = 0 /\ (y mod 100 <> 0 \/ y mod 400 = 0).
Proof.
  unfold isLeap. rewrite andb_true_iff, orb_true_iff, negb_true_iff, !Z.eqb_eq, Z.eqb_neq. done.
Qed.

(** Splitting off up to three blocks of [k] days from [4 * k + 1], the step of [yearDay]. *)
Lemma cap3_spec k r :
  0 < k -> 0 <= r < 4 * k + 1 ->
  let n := Z.min 3 (r / k) in
  0 <= n <= 3 /\ 0 <= r - k * n < k + (if n =? 3 then 1 else 0).
Proof.
  intros Hk Hr n.
  pose proof (Z.div_mod r k ltac:(lia)). pose proof (Z.mod_pos_bound r k Hk).
  pose proof (Z.div_pos r k ltac:(lia) Hk).
  destruct (Z.min_spec 3 (r / k)) as [[? E]|[? E]]; subst n; rewrite E; simpl.
  - nia.
  - destruct (r / k =? 3) eqn:E3; bool_to_prop; nia.
Qed.

Lemma yearDay_spec days y d :
  yearDay days = (y, d) ->
  daysToYear y + d = days /\ 0 <= d < 365 + (if isLeap y then 1 else 0).
Proof.
  unfold yearDay. intros [= <- <-].
  pose proof (Z.div_mod days 146097 ltac:(lia)).
  pose proof (Z.mod_pos_bound days 146097 ltac:(lia)).
  set (q := days / 146097) in *. set (r := days mod 146097) in *. clearbody q r.
  pose proof (cap3_spec 36524 r ltac:(lia) ltac:(lia)) as [Hc Hc2]. simpl in Hc, Hc2.
  set (n100 := Z.min 3 (r / 36524)) in *. clearbody n100.
  set (r1 := r - 36524 * n100) in *.
  assert (Hr : r = 36524 * n100 + r1) by lia. clearbody r1.
  pose proof (Z.div_mod r1 1461 ltac:(lia)).
  pose proof (Z.mod_pos_bound r1 1461 ltac:(lia)).
  set (n4 := r1 / 1461) in *. set (r2 := r1 mod 1461) in *. clearbody n4 r2.
  pose proof (cap3_spec 365 r2 ltac:(lia) ltac:(lia)) as [Hd Hd2]. simpl in Hd, Hd2.
  set (n1 := Z.min 3 (r2 / 365)) in *. clearbody n1.
  set (r3 := r2 - 365 * n1) in *.
  assert (Hr2 : r2 = 365 * n1 + r3) by lia. clearbody r3.
  assert (0 <= n4 <= 24) as Hn4 by (destruct (n100 =? 3); lia).
  split.
  - unfold daysToYear. clear Hc2 Hd2. rewrite Z.add_simpl_r. remember (400 * q + 100 * n100 + 4 * n4 + n1) as z eqn:Ez.
    assert (z / 4 = 100 * q + 25 * n100 + n4) as -> by lia.
    assert (z / 100 = 4 * q + n100) as -> by lia.
    assert (z / 400 = q) as -> by lia. lia.
  - destruct (isLeap _) eqn:E.
    + destruct (n1 =? 3); lia.
    + apply not_true_iff_false in E. rewrite isLeap_spec in E.
      destruct (n1 =? 3) eqn:E1; bool_to_prop; [|lia]. subst n1.
      destruct (n100 =? 3) eqn:E2; bool_to_prop; lia.
Qed.

(** Every day of a year has the month and day [monthDay] gives it. *)
Lemma monthDay_spec (leap : bool) yday m d :
  0 <= yday < 365 + (if leap then 1 else 0) -> monthDay leap yday = (m, d) ->
  1 <= m <= 12 /\
  1 <= d <= (if (m =? 2) && leap then 29 else daysBefore m - daysBefore (m - 1)) /\
  daysBefore (m - 1) + (if leap && (2 <? m) then 1 else 0) + (d - 1) = yday.
Proof.
  intros Hr E.
  set (chk := fun (leap : bool) (yday : Z) => let '(m, d) := monthDay leap yday in
    (1 <=? m) && (m <=? 12) && (1 <=? d)
    && (d <=? (if (m =? 2) && leap then 29 else daysBefore m - daysBefore (m - 1)))
    && (daysBefore (m - 1) + (if leap && (2 <? m) then 1 else 0) + (d - 1) =? yday)).
  assert (chk leap yday = true) as H.
  { destruct leap.
    - apply (forallb_seqZ (chk true) 0 366); [by vm_compute | lia].
    - apply (forallb_seqZ (chk false) 0 365); [by vm_compute | lia]. }
  unfold chk in H. rewrite E in H. bool_to_prop. lia.
Qed.

(** The calendar date of a day number leads back to the day number. *)
Lemma date_roundtrip days y yd m d :
  yearDay days = (y, yd) -> monthDay (isLeap y) yd = (m, d) ->
  daysFromDate y m d = days /\ 1 <= m <= 12 /\ 1 <= d <= daysIn m y.
Proof.
  intros E1 E2. apply yearDay_spec in E1 as [? ?].
  eapply monthDay_spec in E2 as (? & ? & ?); [|done].
  unfold daysFromDate, daysIn. lia.
Qed.

(** ** Decimal fields *)

Lemma appendInt2 n :
  0 <= n < 100 ->
  appendInt n 2 = String (digit (n / 10)) (String (digit (n mod 10)) EmptyString).
Proof.
  intros Hn. apply (String.eqb_eq _ _).
  apply (forallb_seqZ (fun n => String.eqb (appendInt n 2)
    (String (digit (n / 10)) (String (digit (n mod 10)) EmptyString))) 0 100); [by vm_compute | lia].
Qed.

Lemma appendInt4 n :
  0 <= n < 10000 ->
  appendInt n 4 = (appendInt (n / 100) 2 +:+ appendInt (n mod 100) 2)%string.
Proof.
  intros Hn. apply (String.eqb_eq _ _).
  apply (forallb_seqZ (fun n => String.eqb (appendInt n 4)
    (appendInt (n / 100) 2 +:+ appendInt (n mod 100) 2)%string) 0 10000); [by vm_compute | lia].
Qed.

Lemma digitVal_digit n : 0 <= n < 10 -> digitVal (digit n) = Some n.
Proof.
  intros Hn.
  pose proof (forallb_seqZ (fun n => bool_decide (digitVal (digit n) = Some n)) 0 10
    ltac:(by vm_compute) n ltac:(lia)) as H. by apply bool_decide_eq_true in H.
Qed.

Lemma getnum_appendInt n b s :
  0 <= n < 100 -> getnum (appendInt n 2 +:+ s)%string b = Some (n, s).
Proof.
  intros Hn. rewrite appendInt2 by done. simpl.
  rewrite !digitVal_digit by lia. do 2 f_equal. lia.
Qed.

Lemma getYear_appendInt y s :
  0 <= y < 10000 -> getYear (appendInt y 4 +:+ s)%string = Some (y, s).
Proof.
  intros Hy. rewrite appendInt4, <- string_app_assoc by done. unfold getYear.
  rewrite !getnum_appendInt by lia. do 2 f_equal. lia.
Qed.

Lemma skip_app c s : skip c (String c EmptyString +:+ s)%string = Some s.
Proof. simpl. by rewrite Ascii.eqb_refl. Qed.

Lemma guard_true b : b = true -> guard b = Some ().
Proof. by intros ->. Qed.

(** One field, separator or range check of the parser, on a text made by the formatter. *)
Ltac parse_step :=
  first [ rewrite getYear_appendInt by lia | rewrite skip_app
        | rewrite getnum_appendInt by lia | rewrite guard_true by lia ];
  cbn [mbind option_bind].

(** Offsets the RFC 3339 text can carry: whole minutes, at most 24 hours. *)
Definition offsetOk (o : Z) : Prop := o mod 60 = 0 /\ Z.abs o <= 24 * 3600 .

Lemma getOffset_appendInt sg hr mm :
  0 <= hr <= 24 -> 0 <= mm < 60 ->
  getOffset sg (appendInt hr 2 +:+ ":" +:+ appendInt mm 2)%string =
  (if Ascii.eqb sg "+" then Some ((hr * 60 + mm) * 60)
   else if Ascii.eqb sg "-" then Some (- ((hr * 60 + mm) * 60)) else None).
Proof.
  intros Hh Hm. unfold getOffset. rewrite <- (string_app_nil_r (appendInt mm 2)).
  by repeat parse_step.
Qed.

Lemma getZone_sign sg s :
  Ascii.eqb sg "Z" = false -> getZone (String sg EmptyString +:+ s)%string = getOffset sg s.
Proof.
  intros H. transitivity (if Ascii.eqb sg "Z"
    then match s with EmptyString => Some 0 | _ => None end else getOffset sg s); [done|].
  by rewrite H.
Qed.

Lemma getZone_formatZone o : offsetOk o -> getZone (formatZone o) = Some o.
Proof.
  intros [Hm Hb]. unfold formatZone. destruct (o =? 0) eqn:E; bool_to_prop; [by subst|].
  destruct (Z.quot o 60 <? 0) eqn:Ez; bool_to_prop;
    rewrite getZone_sign, getOffset_appendInt by (done || lia); cbn; f_equal; lia.
Qed.

Lemma getFrac_sign c s :
  (Ascii.eqb c "." || Ascii.eqb c ",") = false ->
  getFrac (String c EmptyString +:+ s)%string = (0, (String c EmptyString +:+ s)%string).
Proof.
  intros H. destruct s as [|a s]; [done|].
  transitivity (if (Ascii.eqb c "." || Ascii.eqb c ",") && bool_decide (is_Some (digitVal a))
    then fracDigits 100000000 0 (String a s) else (0, String c (String a s))); [done|].
  by rewrite H.
Qed.

Lemma getFrac_formatZone o : getFrac (formatZone o) = (0, formatZone o).
Proof.
  unfold formatZone. destruct (o =? 0); [done|].
  destruct (_ <? 0); by rewrite getFrac_sign.
Qed.

(** ** Instants that can be written *)

(** Instants RFC 3339 can write: a four-digit year at a whole-minute offset. *)
Definition formattable (t : Time) : Prop :=
  offsetOk (off t) /\ 0 <= (yearDay ((ns t / Second + off t) / 86400)).1 < 10000.

Lemma daysIn_le m y : 1 <= m <= 12 -> 1 <= daysIn m y <= 31.
Proof.
  intros Hm. unfold daysIn.
  pose proof (forallb_seqZ (fun m => let k := daysBefore m - daysBefore (m - 1) in
    (1 <=? k) && (k <=? 31)) 1 12 ltac:(by vm_compute) m ltac:(lia)) as H.
  cbn beta zeta in H. bool_to_prop. case_match; lia.
Qed.

(** ** Fractions *)

(** The last [k] digits of a number. *)
Fixpoint digits (k : nat) (n : Z) : string :=
  match k with
  | O => EmptyString
  | S k => (digits k (n / 10) +:+ String (digit (n mod 10)) EmptyString)%string
  end.

Lemma string_app_cons c s t : (String c s +:+ t = String c (s +:+ t))%string.
Proof. done. Qed.

Lemma zeros_app k s t : (zeros k s +:+ t = zeros k (s +:+ t))%string.
Proof. induction k as [|k IH]; [done|]. exact (f_equal (String "0") IH). Qed.

Lemma digits_0 k : digits k 0 = zeros k EmptyString.
Proof.
  assert (Hz : forall k s, zeros k (String "0" s) = String "0" (zeros k s)).
  { clear. induction k as [|k IH]; intros s; [done|]. cbn [zeros]. by rewrite IH. }
  induction k as [|k IH]; [done|]. cbn [digits]. change (0 / 10) with 0. rewrite IH, zeros_app. apply Hz.
Qed.

(** The decimal form, padded, is those digits. *)
Lemma padded_decimal f : forall k n acc, (0 < k)%nat -> (k <= f)%nat -> 0 <= n < 10 ^ Z.of_nat k ->
  zeros (k + String.length acc - String.length (decimal f n acc)) (decimal f n acc) =
  (digits k n +:+ acc)%string.
Proof.
  induction f as [|f IH]; intros k n acc Hk Hkf Hn; [lia|]. destruct k as [|k]; [lia|].
  cbn [decimal digits]. rewrite <- string_app_assoc, string_app_cons.
  change (EmptyString +:+ acc)%string with acc.
  destruct (Z.eqb_spec (n / 10) 0) as [E|E].
  - rewrite E, digits_0, zeros_app. cbn [String.length].
    by replace (S k + String.length acc - S (String.length acc))%nat with k by lia.
  - destruct k as [|k]; [exfalso; simpl in Hn; lia|].
    rewrite <- (IH (S k) (n / 10) (String (digit (n mod 10)) acc)); [|lia|lia|].
    { cbn [String.length]. f_equal. lia. }
    rewrite (Nat2Z.inj_succ (S k)), Z.pow_succ_r in Hn by lia. lia.
Qed.

Lemma appendInt_digits k n : (0 < k <= 20)%nat -> 0 <= n < 10 ^ Z.of_nat k -> appendInt n k = digits k n.
Proof.
  intros Hk Hn. unfold appendInt. rewrite Z.abs_eq by lia. rewrite (proj2 (Z.ltb_ge n 0)) by lia.
  pose proof (padded_decimal 20 k n EmptyString ltac:(lia) ltac:(lia) Hn) as H.
  cbn [String.length] in H. by rewrite Nat.add_0_r, string_app_nil_r in H.
Qed.

Lemma trimZeros_zero s : trimZeros (s +:+ "0")%string = trimZeros s.
Proof. induction s as [|c s IH]; [done|]. rewrite string_app_cons. cbn [trimZeros]. by rewrite IH. Qed.

Lemma trimZeros_other s c :
  Ascii.eqb c "0" = false -> trimZeros (s +:+ String c EmptyString)%string = (s +:+ String c EmptyString)%string.
Proof.
  intros Hc. induction s as [|a s IH]; [simpl; by rewrite Hc|].
  rewrite string_app_cons. cbn [trimZeros]. rewrite IH. by destruct s.
Qed.

Lemma digit_nonzero n : 0 < n < 10 -> Ascii.eqb (digit n) "0" = false.
Proof.
  intros Hn. pose proof (forallb_seqZ (fun n => negb (Ascii.eqb (digit n) "0")) 1 9
    ltac:(by vm_compute) n ltac:(lia)) as H. by apply negb_true_iff in H.
Qed.

(** The digits that are left are those of the number without its last zeros. *)
Lemma trimZeros_digits k : forall n, 0 < n < 10 ^ Z.of_nat k ->
  exists k' n', (0 < k' <= k)%nat /\ trimZeros (digits k n) = digits k' n' /\
    n = n' * 10 ^ Z.of_nat (k - k') /\ 0 <= n'.
Proof.
  induction k as [|k IH]; intros n Hn; [simpl in Hn; lia|].
  destruct (Z.eq_dec (n mod 10) 0) as [E|E].
  - destruct (IH (n / 10)) as (k' & n' & Hk & Et & En & Hn').
    { rewrite Nat2Z.inj_succ, Z.pow_succ_r in Hn by lia. lia. }
    exists k', n'. split; [lia|]. split_and!; [|  |done].
    + cbn [digits]. rewrite E. change (String (digit 0) EmptyString) with "0"%string.
      by rewrite trimZeros_zero.
    + replace (S k - k')%nat with (S (k - k')) by lia. rewrite Nat2Z.inj_succ, Z.pow_succ_r by lia. lia.
  - exists (S k), n. split; [lia|]. split_and!; [| |lia].
    + apply trimZeros_other, digit_nonzero. lia.
    + rewrite Nat.sub_diag. lia.
Qed.

Lemma fracDigits_digits k : forall j acc n s, 0 <= j -> 0 <= n < 10 ^ Z.of_nat k ->
  fracDigits (10 ^ (Z.of_nat k + j) / 10) acc (digits k n +:+ s)%string =
  fracDigits (10 ^ j / 10) (acc + n * 10 ^ j) s.
Proof.
  induction k as [|k IH]; intros j acc n s Hj Hn.
  - assert (n = 0) as -> by (simpl in Hn; lia). cbn [digits]. change (EmptyString +:+ s)%string with s. f_equal; lia.
  - cbn [digits]. rewrite <- string_app_assoc, string_app_cons. change (EmptyString +:+ s)%string with s.
    replace (Z.of_nat (S k) + j) with (Z.of_nat k + (j + 1)) by lia. rewrite IH; [|lia|].
    2: { rewrite Nat2Z.inj_succ, Z.pow_succ_r in Hn by lia. lia. }
    assert (Ej : 10 ^ (j + 1) / 10 = 10 ^ j).
    { rewrite Z.pow_add_r by lia. apply Z.div_mul. lia. }
    rewrite Ej. cbn [fracDigits]. rewrite digitVal_digit by lia. f_equal.
    rewrite Z.pow_add_r by lia. rewrite (Z.div_mod n 10) at 3 by lia. lia.
Qed.

Lemma digits_head k n : (0 < k)%nat -> 0 <= n -> exists d s, digits k n = String (digit d) s /\ 0 <= d < 10.
Proof.
  intros Hk. revert n. induction k as [|[|k] IH]; intros n Hn; [lia| |].
  - exists (n mod 10), EmptyString. split; [done|lia].
  - destruct (IH ltac:(lia) (n / 10) ltac:(lia)) as (d & s & E & Hd).
    change (digits (S (S k)) n) with
      (digits (S k) (n / 10) +:+ String (digit (n mod 10)) EmptyString)%string.
    rewrite E. by eexists _, _.
Qed.

(** What is written of a fraction is read back. *)
Lemma getFrac_appendNano n s :
  0 <= n < Second -> getFrac s = (0, s) ->
  (forall acc scale, fracDigits scale acc s = (acc, s)) ->
  getFrac (appendNano n +:+ s)%string = (n, s).
Proof.
  intros Hn Hs Hd. unfold appendNano. destruct (Z.eqb_spec n 0) as [->|Hne]; [done|].
  rewrite (appendInt_digits 9 n) by (unfold Second in Hn; lia).
  destruct (trimZeros_digits 9 n) as (k & m & Hk & -> & En & Hm); [unfold Second in Hn; lia|].
  assert (Hlt : m < 10 ^ Z.of_nat k).
  { apply (Z.mul_lt_mono_pos_r (10 ^ Z.of_nat (9 - k))); [apply Z.pow_pos_nonneg; lia|].
    rewrite <- En, <- Z.pow_add_r by lia. replace (Z.of_nat k + Z.of_nat (9 - k)) with 9 by lia.
    unfold Second in Hn. lia. }
  pose proof (fracDigits_digits k (Z.of_nat (9 - k)) 0 m s ltac:(lia) ltac:(lia)) as Hf.
  replace (Z.of_nat k + Z.of_nat (9 - k)) with 9 in Hf by lia. change (10 ^ 9 / 10) with 100000000 in Hf.
  rewrite Hd, <- En in Hf. destruct (digits_head k m ltac:(lia) Hm) as (d & t & E & Hdig).
  rewrite E in *. rewrite !string_app_cons in *. cbn [getFrac] in *. rewrite digitVal_digit by done.
  rewrite bool_decide_true by (by eexists). exact Hf.
Qed.

Lemma fracDigits_formatZone o scale acc : fracDigits scale acc (formatZone o) = (acc, formatZone o).
Proof. unfold formatZone. destruct (o =? 0); [done|]. by destruct (_ <? 0). Qed.

(** ** The round trips *)

Lemma parse_append nanos t :
  formattable t -> ParseRFC3339 (appendFormatRFC3339 nanos t) = Some (if nanos then t else truncSec t).
Proof.
  intros [Ho Hy]. unfold appendFormatRFC3339, ParseRFC3339.
  set (sec := ns t / Second + off t) in *.
  destruct (yearDay (sec / 86400)) as [y yd] eqn:Ey. simpl in Hy.
  destruct (monthDay (isLeap y) yd) as [m d] eqn:Em.
  destruct (date_roundtrip _ _ _ _ _ Ey Em) as (Hd & Hm & Hdm).
  pose proof (daysIn_le m y Hm).
  assert (0 <= sec mod 86400 < 86400) as Hs by lia.
  set (sod := sec mod 86400) in *.
  repeat parse_step.
  assert (Hf : getFrac ((if nanos then appendNano (ns t mod Second) else EmptyString) +:+ formatZone (off t))%string =
    (if nanos then ns t mod Second else 0, formatZone (off t))).
  { destruct nanos; [|apply getFrac_formatZone]. apply getFrac_appendNano;
      [unfold Second; lia|apply getFrac_formatZone|intros; apply fracDigits_formatZone]. }
  rewrite Hf, getZone_formatZone by done. cbn [mbind option_bind]. rewrite Hd. f_equal. unfold truncSec. destruct t as [z o]. cbn [ns off] in *.
  subst sod sec. destruct nanos; f_equal; unfold Second; lia.
Qed.

Theorem parse_format t :
  formattable t -> ParseRFC3339 (FormatRFC3339 t) = Some (truncSec t).
Proof. apply (parse_append false). Qed.

(** With the nanoseconds nothing is lost. *)
Theorem parse_formatNano t : formattable t -> ParseRFC3339 (FormatRFC3339Nano t) = Some t.
Proof. apply (parse_append true). Qed.

(** Formatting keeps the order of instants up to the second. *)
Lemma truncSec_le t u : ns t <= ns u -> ns (truncSec t) <= ns (truncSec u).
Proof. unfold truncSec, Second. simpl. lia. Qed.

Lemma truncSec_bound t : ns (truncSec t) <= ns t < ns (truncSec t) + Second.
Proof. unfold truncSec, Second. simpl. lia. Qed.

Lemma truncSec_UTC_formattable t :
  0 <= ns t < 315537897600 * Second -> formattable (UTC t).
Proof.
  intros Ht. split; [split; [done | simpl; lia]|]. cbn [ns off UTC].
  destruct (yearDay ((ns t / Second + 0) / 86400)) as [y d] eqn:E. apply yearDay_spec in E as [E Hd]. simpl.
  unfold daysToYear, Second in *. destruct (isLeap y); lia.
Qed.
End GoTime.
