(* ===== verification/Errors.v ===== *)
(** * pkg/errors: wrapped errors

    An [error] is an error value of Go without its pointer identity: an opaque leaf with its text,
    or the [*fmt.wrapError] that [fmt.Errorf] builds for a [%w] verb, which keeps the formatted
    text and the wrapped error.  A Go variable of type [error] is an [option error], [None] being
    nil.  [Is] and [As], which compare pointers and dynamic types, are not modelled. *)

From S2P Require Import Prelude.

Module Errors.

Inductive error : Type :=
| errorString (text : string)
| wrapError (msg : string) (err : error).

#[export] Instance error_eq_dec : EqDecision error.
Proof. solve_decision. Defined.

(** The [Error] method. *)
Definition Error (e : error) : string :=
  match e with errorString s => s | wrapError m _ => m end.

Definition New (text : string) : error := errorString text.

(** errors.Unwrap of the standard library. *)
Definition Unwrap (err : option error) : option error :=
  match err with Some (wrapError _ e) => Some e | _ => None end.

(** [fmt.Errorf("%s: %w", message, err)] *)
Definition errorfW (message : string) (e : error) : error :=
  wrapError (message +:+ ": " +:+ Error e) e.

Definition WithMessage (err : option error) (message : string) : option error :=
  match err with None => None | Some e => Some (errorfW message e) end.

Definition Wrap (err : option error) (message : string) : option error := WithMessage err message.

(** [formatted]: [fmt.Sprintf] of the format and its arguments. *)
Definition WithMessagef (err : option error) (formatted : string) : option error :=
  match err with None => None | Some e => Some (errorfW formatted e) end.

Definition Wrapf (err : option error) (formatted : string) : option error := WithMessagef err formatted.

(** The loop of [Cause] on a non-nil error: follow [Unwrap] while there is an [Unwrap] method. *)
Fixpoint causeOf (e : error) : error :=
  match e with wrapError _ e' => causeOf e' | errorString _ => e end.

Definition Cause (err : option error) : option error :=
  match err with None => None | Some e => Some (causeOf e) end.

(** How many layers of wrapping an error has. *)
Fixpoint depth (e : error) : nat :=
  match e with wrapError _ e' => S (depth e') | errorString _ => O end.

Lemma causeOf_leaf e : exists s, causeOf e = errorString s.
Proof. induction e; simpl; eauto. Qed.

(** ** Comparison in tests *)

(** Same dynamic type, of the two that this package makes. *)
Definition sameType (a b : error) : bool :=
  match a, b with
  | errorString _, errorString _ | wrapError _ _, wrapError _ _ => true
  | _, _ => false
  end.

Definition EquateErrors (a b : option error) : bool :=
  match a, b with
  | Some a, Some b => if negb (sameType a b) then false else String.eqb (Error a) (Error b)
  | None, None => true
  | _, _ => false
  end.

(** A comparison of errors is an equivalence, as go-cmp asks of a Comparer; it does not look at what is
    wrapped. *)
Theorem EquateErrors_equivalence :
  Equivalence (fun a b => EquateErrors a b = true) /\
  forall m a b, Error a = Error b -> EquateErrors (Some (errorfW m a)) (Some (errorfW m b)) = true.
Proof.
  split.
  - split.
    + intros [[]|]; cbn; [apply String.eqb_refl..|done].
    + intros [[]|] [[]|]; cbn; rewrite ?String.eqb_eq; congruence.
    + intros [[]|] [[]|] [[]|]; cbn; rewrite ?String.eqb_eq; congruence.
  - intros m a b E. cbn. rewrite E. apply String.eqb_refl.
Qed.

(** Wrapping layers from the outside in. *)
Definition wrapAll (ms : list string) (err : option error) : option error :=
  foldr (fun m e => Wrap e m) err ms.

(** Whatever the layers of [Wrap], [Cause] gives the innermost error, which does not unwrap,
    and nil stays nil. *)
Theorem Cause_wrapAll ms err :
  Cause (wrapAll ms err) = Cause err /\ Unwrap (Cause (wrapAll ms err)) = None.
Proof.
  assert (H : Cause (wrapAll ms err) = Cause err).
  { induction ms as [|m ms IH]; [done|]. simpl. rewrite <- IH.
    by destruct (wrapAll ms err). }
  split; [done|]. rewrite H. destruct err as [e|]; [|done].
  simpl. by destruct (causeOf_leaf e) as [s ->].
Qed.

(** The text of a wrapped error lists the messages, outermost first, before the cause's text. *)
Theorem Error_wrapAll ms e :
  exists e', wrapAll ms (Some e) = Some e' /\
    Error e' = foldr (fun m s => m +:+ ": " +:+ s)%string (Error e) ms.
Proof.
  induction ms as [|m ms IH]; [by exists e|].
  destruct IH as (e' & IH & HE). exists (errorfW m e'). simpl. rewrite IH. simpl.
  by rewrite HE.
Qed.

End Errors.
