(* ===== verification/GoStrings.v ===== *)
(** * Text: what the code uses of Go's strings, strconv and errors packages

    Strings are sequences of bytes. *)

From S2P Require Import Prelude Errors.
Import Errors.

Module GoStrings.

(** [strings.Split] at a separator of one byte. *)
Fixpoint Split (sep : ascii) (s : string) : list string :=
  match s with
  | EmptyString => [EmptyString]
  | String c s =>
    if Ascii.eqb c sep then EmptyString :: Split sep s else
    match Split sep s with
    | p :: ps => String c p :: ps
    | [] => [String c EmptyString]
    end
  end.

(** [strings.Join] *)
Fixpoint Join (sep : string) (l : list string) : string :=
  match l with
  | [] => EmptyString
  | [s] => s
  | s :: l => s +:+ sep +:+ Join sep l
  end.

(** [errors.Join] on errors none of which is nil: nil without errors, else an error with their texts on
    a line each.  ([errors.Unwrap] gives nil on it, as it does on an [errorString].) *)
Definition newline : string := String (ascii_of_N 10) EmptyString.
Definition joinErrors (errs : list error) : option error :=
  match errs with [] => None | _ => Some (New (Join newline (Error <$> errs))) end.

(** [strconv.Quote], as [%q] uses it; bytes from 128 on are taken for printable text. *)
Definition hexDigit (n : N) : ascii := ascii_of_N (if (n <? 10)%N then 48 + n else 87 + n).

Definition quoteChar (c : ascii) : string :=
  let n := N_of_ascii c in
  let bs := String "\"%char in
  if (n =? 34)%N || (n =? 92)%N then bs (String c "") else
  if (n =? 7)%N then bs "a" else if (n =? 8)%N then bs "b" else if (n =? 9)%N then bs "t" else
  if (n =? 10)%N then bs "n" else if (n =? 11)%N then bs "v" else if (n =? 12)%N then bs "f" else
  if (n =? 13)%N then bs "r" else
  if (n <? 32)%N || (n =? 127)%N
  then bs (String "x" (String (hexDigit (n / 16)) (String (hexDigit (n mod 16)) "")))
  else String c "".

Fixpoint quoteBody (s : string) : string :=
  match s with EmptyString => EmptyString | String c s => quoteChar c +:+ quoteBody s end.

Definition quotationMark : ascii := ascii_of_N 34.
Definition Quote (s : string) : string :=
  String quotationMark (quoteBody s +:+ String quotationMark EmptyString).

(** ** What encoding/json makes of a string *)

(** [lo <= c <= hi] as bytes. *)
Definition byteIn (lo hi : N) (c : ascii) : bool :=
  ((lo <=? N_of_ascii c) && (N_of_ascii c <=? hi))%N.
Definition tail (c : ascii) : bool := byteIn 128 191 c.

(** The encodings of one character in two, three and four bytes that [utf8.DecodeRune] accepts: no
    longer than needed, no surrogates, none past the last character. *)
Definition two (a b : ascii) : bool := byteIn 194 223 a && tail b.
Definition three (a b c : ascii) : bool :=
  (byteIn 224 224 a && byteIn 160 191 b || byteIn 237 237 a && byteIn 128 159 b ||
   (byteIn 225 236 a || byteIn 238 239 a) && tail b) && tail c.
Definition four (a b c d : ascii) : bool :=
  (byteIn 240 240 a && byteIn 144 191 b || byteIn 244 244 a && byteIn 128 143 b ||
   byteIn 241 243 a && tail b) && tail c && tail d.

(** U+FFFD in UTF-8. *)
Definition replacement (s : string) : string :=
  String (ascii_of_N 239) (String (ascii_of_N 191) (String (ascii_of_N 189) s)).

(** A string after [json.Marshal] and [json.Unmarshal]: every byte that is not part of the encoding of a
    character is replaced. *)
Fixpoint jsonText (s : string) : string :=
  match s with
  | EmptyString => EmptyString
  | String a s1 =>
    if byteIn 0 127 a then String a (jsonText s1) else
    match s1 with
    | EmptyString => replacement (jsonText s1)
    | String b s2 =>
      if two a b then String a (String b (jsonText s2)) else
      match s2 with
      | EmptyString => replacement (jsonText s1)
      | String c s3 =>
        if three a b c then String a (String b (String c (jsonText s3))) else
        match s3 with
        | EmptyString => replacement (jsonText s1)
        | String d s4 =>
          if four a b c d then String a (String b (String c (String d (jsonText s4))))
          else replacement (jsonText s1)
        end
      end
    end
  end.

Fixpoint isASCII (s : string) : bool :=
  match s with EmptyString => true | String c s => byteIn 0 127 c && isASCII s end.

(** A string of ASCII characters stays, and no other string becomes one. *)
Lemma jsonText_ascii (s : string) : isASCII s = true -> jsonText s = s.
Proof.
  induction s as [|c s IH]; [done|]. cbn [isASCII]. intros [Hc Hs]%andb_true_iff. cbn [jsonText].
  by rewrite Hc, IH.
Qed.

Lemma jsonText_ascii_inv (s : string) : isASCII (jsonText s) = true -> jsonText s = s.
Proof.
  induction s as [|a s1 IH]; [done|]. cbn [jsonText]. destruct (byteIn 0 127 a) eqn:Ea.
  - cbn [isASCII]. intros [_ Hs]%andb_true_iff. by rewrite IH.
  - assert (Hbad : forall r, isASCII (String a r) = false) by (intros r; cbn [isASCII]; by rewrite Ea).
    repeat case_match; by rewrite ?Hbad.
Qed.

Lemma jsonText_eq_ascii (s t : string) : isASCII t = true -> jsonText s = t <-> s = t.
Proof.
  intros Ht. split; [|by intros ->; apply jsonText_ascii]. intros <-. symmetry.
  by apply jsonText_ascii_inv.
Qed.

(** ** Properties *)

Lemma Split_cons sep s : exists p ps, Split sep s = p :: ps.
Proof.
  destruct s as [|c s]; cbn [Split]; [by eexists _, _|].
  destruct (Ascii.eqb c sep); [by eexists _, _|]. destruct (Split sep s); by eexists _, _.
Qed.

(** Joining the pieces gives the text back, so different texts have different pieces. *)
Lemma Join_Split sep s : Join (String sep EmptyString) (Split sep s) = s.
Proof.
  induction s as [|c s IH]; [done|]. cbn [Split].
  destruct (Ascii.eqb c sep) eqn:Ec.
  - apply Ascii.eqb_eq in Ec as ->. destruct (Split_cons sep s) as (p & ps & Es).
    rewrite Es in *. change (String sep (Join (String sep "") (p :: ps)) = String sep s). by rewrite IH.
  - destruct (Split_cons sep s) as (p & ps & Es). rewrite Es in *. rewrite <- IH. by destruct ps.
Qed.

Lemma Split_inj sep s1 s2 : Split sep s1 = Split sep s2 -> s1 = s2.
Proof. intros E. by rewrite <- (Join_Split sep s1), E, Join_Split. Qed.

End GoStrings.
