(* ===== verification/Meta.v ===== *)
(** * pkg/meta: annotations, finalizers and policies of a managed resource

    The object is any implementation of the metadata interface [MetaObject] (metav1.Object of
    apimachinery): its accessors are operations of a type class, and [MetaObjectLaws] states what
    the library relies on, that a setter is seen by its own getter and by no other. *)

From S2P Require Import Prelude GoTime.
Import GoTime.

(** ** The interface of a Kubernetes object's metadata *)

Class MetaObject (O : Type) : Type := {
  GetAnnotations : O -> option (gmap string string);   (* None: the nil map *)
  SetAnnotations : O -> option (gmap string string) -> O;
  GetLabels : O -> option (gmap string string);
  SetLabels : O -> option (gmap string string) -> O;
  GetFinalizers : O -> list string;
  SetFinalizers : O -> list string -> O;
  GetDeletionTimestamp : O -> option Time;              (* None: the nil pointer *)
  GetCreationTimestamp : O -> Time;
  GetAPIVersion : O -> string;
  GetKind : O -> string;
  GetName : O -> string;
  GetNamespace : O -> string;
  GetResourceVersion : O -> string
}.

Class MetaObjectLaws (O : Type) `{MetaObject O} : Prop := {
  get_set_annotations o m : GetAnnotations (SetAnnotations o m) = m;
  get_set_labels o m : GetLabels (SetLabels o m) = m;
  get_set_finalizers o f : GetFinalizers (SetFinalizers o f) = f;
  finalizers_set_annotations o m : GetFinalizers (SetAnnotations o m) = GetFinalizers o;
  annotations_set_finalizers o f : GetAnnotations (SetFinalizers o f) = GetAnnotations o;
  deletion_set_annotations o m :
    GetDeletionTimestamp (SetAnnotations o m) = GetDeletionTimestamp o;
  deletion_set_finalizers o f :
    GetDeletionTimestamp (SetFinalizers o f) = GetDeletionTimestamp o
}.

Module Meta.

(** ** The annotation vocabulary *)

Definition AnnotationKeyExternalName : string := "krateo.io/external-name".
Definition AnnotationKeyTraceparent : string := "krateo.io/traceparent".
Definition AnnotationKeyTracestate : string := "krateo.io/tracestate".
Definition AnnotationKeyExternalCreatePending : string := "krateo.io/external-create-pending".
Definition AnnotationKeyExternalCreateSucceeded : string := "krateo.io/external-create-succeeded".
Definition AnnotationKeyExternalCreateFailed : string := "krateo.io/external-create-failed".
Definition AnnotationKeyReconciliationPaused : string := "krateo.io/paused".
Definition AnnotationKeyConnectorVerbose : string := "krateo.io/connector-verbose".
Definition AnnotationKeyManagementPolicy : string := "krateo.io/management-policy".
Definition AnnotationKeyDeletionPolicy : string := "krateo.io/deletion-policy".

Definition ManagementPolicyDefault : string := "default".
Definition ManagementPolicyObserveCreateUpdate : string := "observe-create-update".
Definition ManagementPolicyObserveDelete : string := "observe-delete".
Definition ManagementPolicyObserve : string := "observe".
Definition DeletionPolicyOrphan : string := "orphan".
Definition DeletionPolicyDelete : string := "delete".
Definition ActionCreate : string := "create".
Definition ActionUpdate : string := "update".
Definition ActionDelete : string := "delete".

(** ** Slices: the removal loop of [RemoveFinalizer]

    The loop ranges over the slice it shrinks: [buf] is the backing array both share, [len] the
    length of the shrunk slice [f], [i] the index and [k] the iterations left. *)
Fixpoint removeLoop (k i : nat) (buf : list string) (len : nat) (x : string)
  : outcome (list string) :=
  match k with
  | O => Ret (take len buf)
  | S k' =>
    if bool_decide (buf !! i = Some x) then
      if bool_decide (S i <= len)%nat then
        removeLoop k' (S i)
          (take i buf ++ drop (S i) (take len buf) ++ drop (len - 1) buf) (len - 1) x
      else Panic "slice bounds out of range"
    else removeLoop k' (S i) buf len x
  end.

Section Meta.
Context {O : Type} `{MetaObject O}.

(** ** Finalizers *)

Definition AddFinalizer (o : O) (finalizer : string) : O :=
  let f := GetFinalizers o in
  if existsb (String.eqb finalizer) f then o else SetFinalizers o (f ++ [finalizer]).

Definition RemoveFinalizer (o : O) (finalizer : string) : outcome O :=
  let f := GetFinalizers o in
  f' ← removeLoop (length f) 0 f (length f) finalizer; mret (SetFinalizers o f').

Definition FinalizerExists (o : O) (finalizer : string) : bool :=
  existsb (String.eqb finalizer) (GetFinalizers o).

(** ** Labels and annotations *)

Definition AddLabels (o : O) (labels : gmap string string) : O :=
  match GetLabels o with
  | None => SetLabels o (Some labels)
  | Some l => SetLabels o (Some (labels ∪ l))
  end.

Definition RemoveLabels (o : O) (labels : list string) : O :=
  match GetLabels o with
  | None => o
  | Some l => SetLabels o (Some (foldr delete l labels))
  end.

Definition AddAnnotations (o : O) (annotations : gmap string string) : O :=
  match GetAnnotations o with
  | None => SetAnnotations o (Some annotations)
  | Some a => SetAnnotations o (Some (annotations ∪ a))
  end.

Definition RemoveAnnotations (o : O) (annotations : list string) : O :=
  match GetAnnotations o with
  | None => o
  | Some a => SetAnnotations o (Some (foldr delete a annotations))
  end.

(** [o.GetAnnotations()[k]] with its presence flag, and without. *)
Definition lookupAnnotation (o : O) (k : string) : option string :=
  a ← GetAnnotations o; a !! k.
Definition annotation (o : O) (k : string) : string := default EmptyString (lookupAnnotation o k).

(** ** Life cycle *)

Definition WasDeleted (o : O) : bool :=
  match GetDeletionTimestamp o with None => false | Some t => negb (IsZero t) end.

Definition WasCreated (o : O) : bool := negb (IsZero (GetCreationTimestamp o)).

Definition GetExternalName (o : O) : string := annotation o AnnotationKeyExternalName.
Definition SetExternalName (o : O) (name : string) : O :=
  AddAnnotations o {[ AnnotationKeyExternalName := name ]}.

(** ** The external-create handshake *)

Definition annotationTime (o : O) (k : string) : Time :=
  match ParseRFC3339 (annotation o k) with Some t => t | None => zeroTime end.

Definition GetExternalCreatePending (o : O) : Time :=
  annotationTime o AnnotationKeyExternalCreatePending.
Definition SetExternalCreatePending (o : O) (t : Time) : O :=
  AddAnnotations o {[ AnnotationKeyExternalCreatePending := FormatRFC3339 t ]}.

Definition GetExternalCreateSucceeded (o : O) : Time :=
  annotationTime o AnnotationKeyExternalCreateSucceeded.
Definition SetExternalCreateSucceeded (o : O) (t : Time) : O :=
  AddAnnotations o {[ AnnotationKeyExternalCreateSucceeded := FormatRFC3339 t ]}.

Definition GetExternalCreateFailed (o : O) : Time :=
  annotationTime o AnnotationKeyExternalCreateFailed.
Definition SetExternalCreateFailed (o : O) (t : Time) : O :=
  AddAnnotations o {[ AnnotationKeyExternalCreateFailed := FormatRFC3339 t ]}.

Definition ExternalCreateIncomplete (o : O) : bool :=
  let pending := GetExternalCreatePending o in
  let succeeded := GetExternalCreateSucceeded o in
  let failed := GetExternalCreateFailed o in
  if IsZero pending then false else
  let latest := if After failed succeeded then failed else succeeded in
  After pending latest.

(** The two windows, at the clock reading [now]. *)
Definition ExternalCreateSucceededDuring (now : Time) (o : O) (d : Z) : bool :=
  let t := GetExternalCreateSucceeded o in
  if IsZero t then false else Since now t <? d.

Definition ExternalCreatePendingDuring (now : Time) (o : O) (d : Z) : bool :=
  let t := GetExternalCreatePending o in
  if IsZero t then false else Since now t <? d.

(** ** Switches and policies *)

Definition IsPaused (o : O) : bool :=
  String.eqb (annotation o AnnotationKeyReconciliationPaused) "true".
Definition IsVerbose (o : O) : bool :=
  String.eqb (annotation o AnnotationKeyConnectorVerbose) "true".

Definition orDefault (s d : string) : string := match s with EmptyString => d | _ => s end.

Definition managementPolicy (o : O) : string :=
  orDefault (annotation o AnnotationKeyManagementPolicy) ManagementPolicyDefault.
Definition deletionPolicy (o : O) : string :=
  orDefault (annotation o AnnotationKeyDeletionPolicy) DeletionPolicyDelete.

Definition IsActionAllowed (o : O) (action : string) : bool :=
  let p := managementPolicy o in
  if String.eqb action ActionCreate || String.eqb action ActionUpdate then
    String.eqb p ManagementPolicyDefault || String.eqb p ManagementPolicyObserveCreateUpdate
  else String.eqb p ManagementPolicyDefault || String.eqb p ManagementPolicyObserveDelete.

Definition ShouldDelete (o : O) : bool :=
  let mp := managementPolicy o in
  let dp := deletionPolicy o in
  if String.eqb dp DeletionPolicyDelete && String.eqb mp ManagementPolicyDefault then true else
  if String.eqb mp ManagementPolicyObserveDelete then true else false.

Definition ShouldOnlyObserve (o : O) : bool :=
  String.eqb (managementPolicy o) ManagementPolicyObserve.

Definition ShouldCreate (o : O) : bool :=
  let mp := managementPolicy o in
  String.eqb mp ManagementPolicyDefault || String.eqb mp ManagementPolicyObserveCreateUpdate.

Definition ShouldUpdate (o : O) : bool :=
  let mp := managementPolicy o in
  String.eqb mp ManagementPolicyDefault || String.eqb mp ManagementPolicyObserveCreateUpdate.

End Meta.

(** ** Histories of external creation

    One attempt writes the pending mark at [started]; it then records its outcome, or the process
    dies before it can. *)
Inductive result : Type :=
| Crashed
| Succeeded (t : Time)
| Failed (t : Time).

Record attempt : Type := mkAttempt { started : Time; ended : result }.

Definition runAttempt {O} `{MetaObject O} (o : O) (a : attempt) : O :=
  let o := SetExternalCreatePending o (started a) in
  match ended a with
  | Crashed => o
  | Succeeded t => SetExternalCreateSucceeded o t
  | Failed t => SetExternalCreateFailed o t
  end.

Definition runAttempts {O} `{MetaObject O} (o : O) (l : list attempt) : O := foldl runAttempt o l.

(** The second in which an attempt wrote its last mark. *)
Definition lastMark (a : attempt) : Z :=
  match ended a with
  | Crashed => ns (truncSec (started a))
  | Succeeded t | Failed t => ns (truncSec t)
  end.

Definition crashed (a : attempt) : bool :=
  match ended a with Crashed => true | _ => false end.

Definition attemptOk (a : attempt) : Prop :=
  formattable (started a) /\
  match ended a with
  | Crashed => True
  | Succeeded t | Failed t => formattable t /\ ns (started a) <= ns t
  end.

(** Every attempt starts in a later second than the last mark before it. *)
Fixpoint wellTimed (b : Z) (l : list attempt) : Prop :=
  match l with
  | [] => True
  | a :: l => attemptOk a /\ b < ns (truncSec (started a)) /\ wellTimed (lastMark a) l
  end.

(** ** The removal loop *)

Lemma removeLoop_skip x k m i buf len :
  (forall j, (i <= j < i + k)%nat -> buf !! j <> Some x) ->
  removeLoop (k + m) i buf len x = removeLoop m (i + k) buf len x.
Proof.
  revert i. induction k as [|k IH]; intros i Hj; simpl.
  - by replace (i + 0)%nat with i by lia.
  - rewrite bool_decide_false by (apply Hj; lia).
    rewrite IH by (intros j ?; apply Hj; lia). f_equal. lia.
Qed.

Lemma removeLoop_absent x k i buf len :
  (forall j, (i <= j < i + k)%nat -> buf !! j <> Some x) ->
  removeLoop k i buf len x = Ret (take len buf).
Proof.
  intros Hj. replace k with (k + 0)%nat by lia. by rewrite removeLoop_skip.
Qed.

Lemma removeLoop_once x a b :
  x ∉ a -> x ∉ b ->
  removeLoop (length (a ++ x :: b)) 0 (a ++ x :: b) (length (a ++ x :: b)) x = Ret (a ++ b).
Proof.
  intros Ha Hb. rewrite length_app. rewrite removeLoop_skip; simpl.
  2:{ intros j Hj Hx. rewrite lookup_app_l in Hx by lia. by apply list_elem_of_lookup_2 in Hx. }
  rewrite list_lookup_middle by done. rewrite !bool_decide_true by (done || lia).
  rewrite take_app_length, (take_ge (a ++ _)) by (rewrite length_app; simpl; lia).
  rewrite drop_S_middle, removeLoop_absent.
  - f_equal. rewrite app_assoc, take_app_le by (rewrite length_app; simpl; lia).
    apply take_ge. rewrite length_app. simpl. lia.
  - intros j Hj Hx. apply Hb.
    rewrite app_assoc in Hx. destruct (decide (j < length (a ++ b))%nat).
    + rewrite lookup_app_l, lookup_app_r in Hx by (rewrite ?length_app in *; lia).
      by apply list_elem_of_lookup_2 in Hx.
    + rewrite length_app in n. 
      rewrite lookup_app_r, lookup_drop, length_app in Hx by (rewrite length_app; lia).
      rewrite lookup_app_r in Hx by lia.
      apply lookup_cons_Some in Hx as [[? _]|[_ Hx]]; [lia|].
      by apply list_elem_of_lookup_2 in Hx.
Qed.

(** A last element met again after an earlier removal: the slice expression is out of range. *)
Lemma removeLoop_panics x n k i buf len :
  (S i + k = n)%nat -> length buf = n -> buf !! (n - 1)%nat = Some x -> (len <= n - 1)%nat ->
  is_panic (removeLoop (S k) i buf len x) = true.
Proof.
  revert i buf len. induction k as [|k IH]; intros i buf len Hn Hl Hx Hlen.
  - simpl. replace (n - 1)%nat with i in Hx by lia.
    case_bool_decide; [|done]. case_bool_decide; [lia|done].
  - cbn [removeLoop]. case_bool_decide as Hi; [|apply IH; done || lia].
    case_bool_decide; [|done]. apply IH; [lia| | |lia].
    + rewrite !length_app, !length_drop, !length_take. lia.
    + rewrite lookup_app_r by (rewrite length_take; lia).
      rewrite lookup_app_r by (rewrite length_drop, !length_take; lia).
      rewrite lookup_drop, <- Hx. f_equal.
      rewrite length_drop, !length_take. lia.
Qed.

Lemma removeLoop_twice x a :
  x ∈ a ->
  is_panic (removeLoop (length (a ++ [x])) 0 (a ++ [x]) (length (a ++ [x])) x) = true.
Proof.
  intros (c & d & -> & Hc)%list_elem_of_split_l. rewrite <- app_assoc. simpl.
  set (e := d ++ [x]). set (n := length (c ++ x :: e)).
  assert (n = length c + S (S (length d)))%nat as Hn
    by (unfold n, e; repeat (rewrite length_app; simpl); lia).
  replace n with (length c + S (S (length d)))%nat at 1 by lia.
  rewrite removeLoop_skip.
  2:{ intros j Hj Hx. rewrite lookup_app_l in Hx by lia. by apply list_elem_of_lookup_2 in Hx. }
  simpl. rewrite list_lookup_middle, !bool_decide_true by (done || lia).
  rewrite take_app_length, (take_ge (c ++ _)), drop_S_middle by (fold n; lia).
  assert (drop (n - 1) (c ++ x :: e) = [x]) as ->.
  { unfold e. rewrite app_comm_cons, app_assoc.
    replace (n - 1)%nat with (length (c ++ x :: d)) by (rewrite length_app; simpl; lia).
    apply drop_app_length. }
  assert (length (c ++ e) = n - 1)%nat by (unfold e; repeat (rewrite length_app; simpl); lia).
  rewrite app_assoc. apply (removeLoop_panics x n); [lia| | |lia].
  - rewrite length_app. simpl. lia.
  - by apply list_lookup_middle.
Qed.

Section MetaProps.
Context {O : Type} `{MetaObjectLaws O}.
Implicit Types (o : O) (k : string) (t : Time).

(** ** Annotations as a finite map *)

Lemma lookup_AddAnnotations o m k :
  lookupAnnotation (AddAnnotations o m) k =
  match m !! k with Some v => Some v | None => lookupAnnotation o k end.
Proof.
  unfold lookupAnnotation, AddAnnotations.
  destruct (GetAnnotations o) as [a|]; rewrite get_set_annotations; simpl.
  - rewrite lookup_union. by destruct (m !! k), (a !! k).
  - by destruct (m !! k).
Qed.

Lemma lookup_RemoveAnnotations o ks k :
  lookupAnnotation (RemoveAnnotations o ks) k =
  if bool_decide (k ∈ ks) then None else lookupAnnotation o k.
Proof.
  unfold lookupAnnotation, RemoveAnnotations.
  destruct (GetAnnotations o) as [a|] eqn:E.
  - rewrite get_set_annotations. simpl. apply lookup_foldr_delete.
  - rewrite E. simpl. by case_bool_decide.
Qed.

Lemma annotationTime_set o k t :
  formattable t -> annotationTime (AddAnnotations o {[ k := FormatRFC3339 t ]}) k = truncSec t.
Proof.
  intros Ht. unfold annotationTime, annotation.
  rewrite lookup_AddAnnotations, lookup_singleton_eq. simpl. by rewrite parse_format.
Qed.

Lemma annotationTime_set_ne o k k' v :
  k <> k' -> annotationTime (AddAnnotations o {[ k := v ]}) k' = annotationTime o k'.
Proof.
  intros Hne. unfold annotationTime, annotation.
  by rewrite lookup_AddAnnotations, lookup_singleton_ne.
Qed.

Lemma deletion_AddAnnotations o m :
  GetDeletionTimestamp (AddAnnotations o m) = GetDeletionTimestamp o.
Proof. unfold AddAnnotations. destruct (GetAnnotations o); apply deletion_set_annotations. Qed.

Lemma finalizers_AddAnnotations o m : GetFinalizers (AddAnnotations o m) = GetFinalizers o.
Proof. unfold AddAnnotations. destruct (GetAnnotations o); apply finalizers_set_annotations. Qed.

Lemma lookupAnnotation_SetFinalizers o f k :
  lookupAnnotation (SetFinalizers o f) k = lookupAnnotation o k.
Proof. unfold lookupAnnotation. by rewrite annotations_set_finalizers. Qed.

(** ** The create-tracking handshake *)

(** The specification of [ExternalCreateIncomplete]: the pending mark is set, and it is strictly
    newer than both of the other marks. *)
Definition incomplete_spec (pending succeeded failed : Time) : Prop :=
  ns pending <> 0 /\ ns succeeded < ns pending /\ ns failed < ns pending.

Lemma ExternalCreateIncomplete_spec o :
  ExternalCreateIncomplete o = true <->
  incomplete_spec (GetExternalCreatePending o) (GetExternalCreateSucceeded o)
    (GetExternalCreateFailed o).
Proof.
  unfold ExternalCreateIncomplete, incomplete_spec, IsZero, After.
  destruct (ns (GetExternalCreatePending o) =? 0) eqn:E; bool_to_prop; [split; [done|lia]|].
  destruct (ns (GetExternalCreateSucceeded o) <? ns (GetExternalCreateFailed o)) eqn:E2;
    bool_to_prop; rewrite Z.ltb_lt; lia.
Qed.

Ltac mark_lookup :=
  split_and!; first [by apply annotationTime_set | apply annotationTime_set_ne; discriminate].

(** The three marks after one of them is written. *)
Lemma marks_after_pending o t :
  formattable t -> let o' := SetExternalCreatePending o t in
  GetExternalCreatePending o' = truncSec t /\
  GetExternalCreateSucceeded o' = GetExternalCreateSucceeded o /\
  GetExternalCreateFailed o' = GetExternalCreateFailed o.
Proof. intros Ht. by mark_lookup. Qed.

Lemma marks_after_succeeded o t :
  formattable t -> let o' := SetExternalCreateSucceeded o t in
  GetExternalCreatePending o' = GetExternalCreatePending o /\
  GetExternalCreateSucceeded o' = truncSec t /\
  GetExternalCreateFailed o' = GetExternalCreateFailed o.
Proof. intros Ht. by mark_lookup. Qed.

Lemma marks_after_failed o t :
  formattable t -> let o' := SetExternalCreateFailed o t in
  GetExternalCreatePending o' = GetExternalCreatePending o /\
  GetExternalCreateSucceeded o' = GetExternalCreateSucceeded o /\
  GetExternalCreateFailed o' = truncSec t.
Proof. intros Ht. by mark_lookup. Qed.

(** No mark is later than [b]. *)
Definition marksUpTo (b : Z) o : Prop :=
  0 <= b /\ ns (GetExternalCreatePending o) <= b /\ ns (GetExternalCreateSucceeded o) <= b /\
  ns (GetExternalCreateFailed o) <= b.

Lemma runAttempt_marks b o a :
  marksUpTo b o -> attemptOk a -> b < ns (truncSec (started a)) ->
  marksUpTo (lastMark a) (runAttempt o a) /\
  ExternalCreateIncomplete (runAttempt o a) = crashed a.
Proof.
  intros (Hb & Hp & Hs & Hf) [Hst Hend] Hlt.
  pose proof (marks_after_pending o _ Hst) as (Ep & Es & Ef).
  assert (Hspec : forall o' p s f, GetExternalCreatePending o' = p ->
    GetExternalCreateSucceeded o' = s -> GetExternalCreateFailed o' = f ->
    marksUpTo (lastMark a) o' /\ ExternalCreateIncomplete o' = crashed a <->
    0 <= lastMark a /\ ns p <= lastMark a /\ ns s <= lastMark a /\ ns f <= lastMark a /\
    (if crashed a then incomplete_spec p s f else ~ incomplete_spec p s f)).
  { intros o' p s f <- <- <-. pose proof (ExternalCreateIncomplete_spec o'). unfold marksUpTo.
    destruct (ExternalCreateIncomplete o'), (crashed a); naive_solver. }
  unfold incomplete_spec in Hspec.
  destruct a as [st [|t|t]]; unfold runAttempt, lastMark, crashed in *; cbn [started ended] in *.
  - apply (Hspec _ _ _ _ Ep Es Ef). lia.
  - destruct Hend as [Ht Hle]. apply truncSec_le in Hle.
    destruct (marks_after_succeeded (SetExternalCreatePending o st) t Ht) as (Ep' & Es' & Ef').
    rewrite Ep in Ep'. rewrite Ef in Ef'. apply (Hspec _ _ _ _ Ep' Es' Ef'). lia.
  - destruct Hend as [Ht Hle]. apply truncSec_le in Hle.
    destruct (marks_after_failed (SetExternalCreatePending o st) t Ht) as (Ep' & Es' & Ef').
    rewrite Ep in Ep'. rewrite Es in Es'. apply (Hspec _ _ _ _ Ep' Es' Ef'). lia.
Qed.

(** C20. The handshake over any history of attempts: provided attempts do not share a second, the
    creation is judged incomplete exactly when the process died during the last attempt. *)
Theorem handshake_history b o l :
  marksUpTo b o -> wellTimed b l ->
  ExternalCreateIncomplete (runAttempts o l) =
  match last l with None => ExternalCreateIncomplete o | Some a => crashed a end.
Proof.
  revert b o. induction l as [|a l IH]; intros b o Hm Hw; [done|].
  destruct Hw as (Ha & Hlt & Hw).
  destruct (runAttempt_marks b o a Hm Ha Hlt) as [Hm' Hi].
  change (runAttempts o (a :: l)) with (runAttempts (runAttempt o a) l).
  rewrite (IH _ _ Hm' Hw). destruct l as [|a' l]; [exact Hi|]. rewrite last_cons_cons.
  destruct (last (a' :: l)) eqn:E; [done|]. by apply last_None in E.
Qed.

(** Why attempts must not share a second: RFC 3339 drops the fraction, so a retry that starts in
    the second of the recorded failure and then dies is not seen as incomplete. *)
Theorem same_second_retry_hidden o t1 t2 :
  formattable t1 -> formattable t2 -> ns (truncSec t1) = ns (truncSec t2) ->
  ExternalCreateIncomplete
    (runAttempt (SetExternalCreateFailed o t1) (mkAttempt t2 Crashed)) = false.
Proof.
  intros H1 H2 E. apply not_true_iff_false. rewrite ExternalCreateIncomplete_spec.
  unfold runAttempt, incomplete_spec. cbn [started ended].
  destruct (marks_after_failed o t1 H1) as (_ & _ & Ef).
  destruct (marks_after_pending (SetExternalCreateFailed o t1) t2 H2) as (Ep & _ & Ef').
  rewrite Ep, Ef', Ef. lia.
Qed.

(** ** Finalizers *)

Lemma filter_eq_nil {A} `{EqDecision A} (x : A) (l : list A) :
  length (filter (fun y => y = x) l) = 0%nat -> x ∉ l.
Proof.
  intros Hl%nil_length_inv Hx. assert (Hin : x ∈ filter (fun y => y = x) l)
    by (by apply list_elem_of_filter). rewrite Hl in Hin. by apply not_elem_of_nil in Hin.
Qed.

(** C38. Removing a finalizer that occurs at most once, whatever else the list holds twice, does not panic and
    is one call of SetFinalizers, with the others in their order: the finalizer is gone, and nothing
    but the finalizers is written. *)
Theorem RemoveFinalizer_once o x :
  (length (filter (fun y => y = x) (GetFinalizers o)) <= 1)%nat ->
  RemoveFinalizer o x = Ret (SetFinalizers o (filter (fun y => y <> x) (GetFinalizers o))) /\
  x ∉ filter (fun y => y <> x) (GetFinalizers o).
Proof.
  intros Hone. split; [|by intros [Hx _]%list_elem_of_filter].
  unfold RemoveFinalizer. set (f := GetFinalizers o) in *.
  assert (removeLoop (length f) 0 f (length f) x = Ret (filter (fun y => y <> x) f)) as ->; [|done].
  destruct (decide (x ∈ f)) as [Hin|Hin].
  - apply list_elem_of_split in Hin as (a & b & E). rewrite E in Hone |- *.
    rewrite filter_app, filter_cons_True, length_app in Hone by done. cbn [length] in Hone.
    assert (x ∉ a) by (apply filter_eq_nil; lia). assert (x ∉ b) by (apply filter_eq_nil; lia).
    rewrite removeLoop_once by done.
    rewrite filter_app, filter_cons_False by (intros Hc; by apply Hc). by rewrite !filter_ne_id.
  - rewrite removeLoop_absent by (intros j _ Hj; by apply list_elem_of_lookup_2 in Hj).
    by rewrite take_ge, filter_ne_id.
Qed.

(** A finalizer listed twice, the second time at the end, makes [RemoveFinalizer] panic. *)
Theorem RemoveFinalizer_duplicate_panics o x a :
  GetFinalizers o = a ++ [x] -> x ∈ a -> is_panic (RemoveFinalizer o x) = true.
Proof.
  intros E Hin. unfold RemoveFinalizer. rewrite E.
  pose proof (removeLoop_twice x a Hin) as Hp. by destruct (removeLoop _ _ _ _ _).
Qed.

(** ** Policies *)

(** When the external resource of a deleted object may be deleted. *)
Theorem ShouldDelete_spec o :
  ShouldDelete o = true <->
  (managementPolicy o = ManagementPolicyDefault /\ deletionPolicy o = DeletionPolicyDelete)
  \/ managementPolicy o = ManagementPolicyObserveDelete.
Proof.
  unfold ShouldDelete.
  destruct (String.eqb_spec (deletionPolicy o) DeletionPolicyDelete),
    (String.eqb_spec (managementPolicy o) ManagementPolicyDefault),
    (String.eqb_spec (managementPolicy o) ManagementPolicyObserveDelete); naive_solver.
Qed.

(** The three policy predicates agree with [IsActionAllowed]; an object under the read-only policy
    allows no action. *)
Theorem policies_agree o :
  ShouldCreate o = IsActionAllowed o ActionCreate /\
  ShouldUpdate o = IsActionAllowed o ActionUpdate /\
  (ShouldDelete o = true -> IsActionAllowed o ActionDelete = true) /\
  (ShouldOnlyObserve o = true -> ShouldCreate o = false /\ ShouldUpdate o = false /\
     ShouldDelete o = false).
Proof.
  unfold ShouldCreate, ShouldUpdate, ShouldDelete, ShouldOnlyObserve, IsActionAllowed. simpl.
  split_and!; [done|done| |].
  - by destruct (String.eqb (managementPolicy o) ManagementPolicyDefault),
      (String.eqb (managementPolicy o) ManagementPolicyObserveDelete),
      (String.eqb (deletionPolicy o) DeletionPolicyDelete).
  - intros E%String.eqb_eq. rewrite E. by destruct (String.eqb (deletionPolicy o) _).
Qed.

End MetaProps.
End Meta.
