(* ===== verification/Event.v ===== *)
(** * pkg/controller/event and pkg/controller/objectref

    Object references, events and their digest, the action-to-event map and the annotation rules.
    The 64-bit murmur3 sum is third-party code, the parameter [sum64] of the digest. *)

From S2P Require Import Prelude GoTime.
Import GoTime.

Module Event.

(** ** References and events *)

Record ObjectRef : Type := mkRef {
  APIVersion : string; Kind : string; Name : string; Namespace : string }.

Definition ObjectRefString (o : ObjectRef) : string :=
  (APIVersion o +:+ "." +:+ Kind o +:+ " as " +:+ Name o +:+ "@" +:+ Namespace o)%string.

(** A string type in the source; its four constants. *)
Definition EventType : Type := string.
Definition Observe : EventType := "Observe".
Definition Create : EventType := "Create".
Definition Update : EventType := "Update".
Definition Delete : EventType := "Delete".

Record Event : Type := mkEvent {
  eventType : EventType; objectRef : ObjectRef; QueuedAt : Time }.

#[export] Instance ObjectRef_eq_dec : EqDecision ObjectRef.
Proof. solve_decision. Defined.

#[export] Instance ObjectRef_countable : Countable ObjectRef.
Proof.
  refine (inj_countable' (fun r => (APIVersion r, Kind r, Name r, Namespace r))
    (fun '(a, k, n, s) => mkRef a k n s) _).
  by intros [].
Defined.

#[export] Instance Event_eq_dec : EqDecision Event.
Proof. solve_decision. Defined.

#[export] Instance Event_countable : Countable Event.
Proof.
  refine (inj_countable' (fun e => (eventType e, objectRef e, QueuedAt e))
    (fun '(t, r, q) => mkEvent t r q) _).
  by intros [].
Defined.

Definition CompareTo (e other : Event) : Z :=
  if Before (QueuedAt e) (QueuedAt other) then -1 else
  if After (QueuedAt e) (QueuedAt other) then 1 else 0.

(** ** The digest *)

(** [fmt.Sprintf("%v", cleanEvent{...})]: the field values of the nested structs in braces,
    separated by spaces; the time the event was queued is not a field of [cleanEvent]. *)
Definition cleanText (t : EventType) (r : ObjectRef) : string :=
  ("{" +:+ t +:+ " {" +:+ APIVersion r +:+ " " +:+ Kind r +:+ " " +:+ Name r +:+ " "
   +:+ Namespace r +:+ "}}")%string.

(** [strconv.FormatUint(n, 16)] *)
Definition hexDigit (n : Z) : ascii :=
  if n <? 10 then ascii_of_N (48 + Z.to_N n) else ascii_of_N (87 + Z.to_N n).

Fixpoint hexLoop (fuel : nat) (n : Z) (acc : string) : string :=
  match fuel with
  | O => acc
  | S k => let acc := String (hexDigit (n mod 16)) acc in
           if n / 16 =? 0 then acc else hexLoop k (n / 16) acc
  end.

(** Sixteen digits hold any uint64. *)
Definition FormatUint16 (n : Z) : string := hexLoop 16 n EmptyString.

Definition DigestForEvent (sum64 : string -> Z) (ev : Event) : string :=
  FormatUint16 (sum64 (cleanText (eventType ev) (objectRef ev))).

(** ** Actions on the custom resource *)

Definition ActionCustomResource : Type := string.
Definition CRCreated : ActionCustomResource := "Create".
Definition CRUpdated : ActionCustomResource := "Update".
Definition CRDeleted : ActionCustomResource := "Delete".
Definition CRObserved : ActionCustomResource := "Observe".

(** A Go map type: [None] is the nil map. *)
Definition ActionsEvent : Type := option (gmap ActionCustomResource EventType).

Definition defaultActions : gmap ActionCustomResource EventType :=
  <[ CRCreated := Observe ]> (<[ CRUpdated := Update ]>
    (<[ CRDeleted := Delete ]> {[ CRObserved := Observe ]})).

Definition NewDefaultActionsEvent : ActionsEvent := Some defaultActions.

(** On a non-nil receiver; the method allocates a nil map. *)
Definition MutateEvent (ae : ActionsEvent) (action : ActionCustomResource) (t : EventType)
  : ActionsEvent := Some (<[ action := t ]> (default ∅ ae)).

(** A missing key of the package's map gives the empty event type. *)
Definition GetEventType (ae : ActionsEvent) (action : ActionCustomResource) : EventType :=
  match ae with
  | None => default EmptyString (defaultActions !! action)
  | Some m => match m !! action with
              | Some v => v
              | None => default EmptyString (defaultActions !! action)
              end
  end.

(** ** Annotation rules *)

Definition Action : Type := string.
Definition OnChange : Action := "OnChange".
Definition OnDelete : Action := "OnDelete".
Definition OnCreate : Action := "OnCreate".
Definition OnAny : Action := "OnAny".

Record AnnotationEvent : Type := mkAnnotationEvent {
  aeEventType : EventType; aeAnnotation : string; aeOnAction : Action }.

Abbreviation AnnotationEvents := (list AnnotationEvent).

Definition NewAnnotationEvents (evts : list AnnotationEvent) : AnnotationEvents := evts.

Definition HasAnnotation (ae : AnnotationEvents) (annotation : string) : bool :=
  existsb (fun e => String.eqb (aeAnnotation e) annotation) ae.

Definition Remove (ae : AnnotationEvents) (annotation : string) : AnnotationEvents :=
  filter (fun e => aeAnnotation e <> annotation) ae.

Definition Add (ae : AnnotationEvents) (t : EventType) (annotation : string) (action : Action)
  (overwrite : bool) : AnnotationEvents :=
  let new := mkAnnotationEvent t annotation action in
  if overwrite then Remove ae annotation ++ [new]
  else if HasAnnotation ae annotation then ae else ae ++ [new].

(** ** Lemmas: the digest *)

(** A text without spaces: what Kubernetes allows in names, kinds, groups and event types. *)
Fixpoint noSpace (s : string) : bool :=
  match s with EmptyString => true | String c s => negb (Ascii.eqb c " ") && noSpace s end.

Definition noSpaceEvent (e : Event) : bool :=
  noSpace (eventType e) && noSpace (APIVersion (objectRef e)) && noSpace (Kind (objectRef e))
  && noSpace (Name (objectRef e)) && noSpace (Namespace (objectRef e)).

Lemma app_space_inj a b x y :
  noSpace a = true -> noSpace b = true ->
  (a +:+ String " " x = b +:+ String " " y)%string -> a = b /\ x = y.
Proof.
  revert b. induction a as [|c a IH]; intros [|d b] Ha Hb E; simpl in *; simplify_eq.
  - done.
  - bool_to_prop. by destruct (IH b) as [-> ->].
Qed.

Lemma string_app_inj_r (a b s : string) : (a +:+ s = b +:+ s)%string -> a = b.
Proof.
  revert b. induction a as [|c a IH]; intros [|d b] E; [done| | |].
  1,2: apply (f_equal String.length) in E; autorewrite with go_simpl in E; simpl in E; lia.
  simpl in E. simplify_eq. by rewrite (IH b).
Qed.

Lemma cleanText_inj t1 r1 t2 r2 q1 q2 :
  noSpaceEvent (mkEvent t1 r1 q1) = true -> noSpaceEvent (mkEvent t2 r2 q2) = true ->
  cleanText t1 r1 = cleanText t2 r2 -> t1 = t2 /\ r1 = r2.
Proof.
  unfold noSpaceEvent, cleanText. simpl. intros H1 H2 E. bool_to_prop.
  injection E as E. destruct r1, r2; simpl in *.
  repeat (apply app_space_inj in E as [-> E]; [|done|done]; try injection E as E).
  by apply string_app_inj_r in E as ->.
Qed.

(** Reading the digits back. *)
Definition hexVal (c : ascii) : Z :=
  let n := Z.of_N (N_of_ascii c) in if n <? 58 then n - 48 else n - 87.

Fixpoint hexRead (acc : Z) (s : string) : Z :=
  match s with EmptyString => acc | String c s => hexRead (16 * acc + hexVal c) s end.

Lemma hexVal_hexDigit n : 0 <= n < 16 -> hexVal (hexDigit n) = n.
Proof.
  intros Hn. pose proof (forallb_seqZ (fun n => hexVal (hexDigit n) =? n) 0 16
    ltac:(by vm_compute) n ltac:(lia)) as H. by apply Z.eqb_eq in H.
Qed.

Lemma hexRead_hexLoop fuel n acc :
  0 <= n < 16 ^ Z.of_nat fuel -> hexRead 0 (hexLoop fuel n acc) = hexRead n acc.
Proof.
  revert n acc. induction fuel as [|k IH]; intros n acc Hn.
  - simpl in *. f_equal. lia.
  - assert (16 ^ Z.of_nat (S k) = 16 * 16 ^ Z.of_nat k) as E
      by (rewrite Nat2Z.inj_succ, Z.pow_succ_r; lia).
    cbn [hexLoop]. destruct (n / 16 =? 0) eqn:E0; bool_to_prop.
    + simpl. rewrite hexVal_hexDigit by lia. f_equal. lia.
    + rewrite IH by lia. simpl. rewrite hexVal_hexDigit by lia. f_equal. lia.
Qed.

Lemma FormatUint16_inj m n :
  0 <= m < 2 ^ 64 -> 0 <= n < 2 ^ 64 -> FormatUint16 m = FormatUint16 n -> m = n.
Proof.
  intros Hm Hn E. apply (f_equal (hexRead 0)) in E. unfold FormatUint16 in E.
  by rewrite !hexRead_hexLoop in E by (simpl Z.of_nat; change (16 ^ 16) with (2 ^ 64); lia).
Qed.

(** Two events have the same digest exactly when the hash does not tell their texts apart; without
    spaces in their fields the texts differ unless the type and the reference are the same.  So
    the queueing time never matters, and only a hash collision can merge two different events. *)
Theorem digest_spec (sum64 : string -> Z) e1 e2 :
  (forall s, 0 <= sum64 s < 2 ^ 64) ->
  noSpaceEvent e1 = true -> noSpaceEvent e2 = true ->
  (DigestForEvent sum64 e1 = DigestForEvent sum64 e2 <->
   sum64 (cleanText (eventType e1) (objectRef e1)) = sum64 (cleanText (eventType e2) (objectRef e2)))
  /\ (cleanText (eventType e1) (objectRef e1) = cleanText (eventType e2) (objectRef e2) <->
      eventType e1 = eventType e2 /\ objectRef e1 = objectRef e2).
Proof.
  intros Hs H1 H2. split; split.
  - by apply FormatUint16_inj.
  - unfold DigestForEvent. by intros ->.
  - destruct e1, e2. by apply (cleanText_inj _ _ _ _ _ _ H1 H2).
  - by intros [-> ->].
Qed.

(** ** Lemmas: actions and rules *)

(** The configured event of an action is the last one set, else the default, and a nil map behaves
    as the defaults. *)
Theorem GetEventType_MutateEvent ae a t b :
  GetEventType (MutateEvent ae a t) b = (if bool_decide (a = b) then t else GetEventType ae b) /\
  GetEventType None b = GetEventType NewDefaultActionsEvent b.
Proof.
  split.
  - unfold GetEventType, MutateEvent. case_bool_decide as E.
    + subst. by rewrite lookup_insert_eq.
    + rewrite lookup_insert_ne by done. destruct ae as [m|]; simpl; [done|].
      by rewrite lookup_empty.
  - unfold GetEventType, NewDefaultActionsEvent. by destruct (defaultActions !! b).
Qed.

Definition annotationsOf (ae : AnnotationEvents) : list string := aeAnnotation <$> ae.

Lemma HasAnnotation_spec ae a : HasAnnotation ae a = true <-> a ∈ annotationsOf ae.
Proof.
  unfold HasAnnotation, annotationsOf. rewrite existsb_exists, list_elem_of_fmap.
  setoid_rewrite String.eqb_eq. setoid_rewrite list_elem_of_In. naive_solver.
Qed.

Lemma annotationsOf_Remove ae a :
  annotationsOf (Remove ae a) = filter (fun b => b <> a) (annotationsOf ae).
Proof.
  unfold annotationsOf, Remove. induction ae as [|e ae IH]; [done|].
  rewrite fmap_cons. destruct (decide (aeAnnotation e = a)) as [Ea|Ea].
  - do 2 rewrite filter_cons_False by (intros Hc; by apply Hc). exact IH.
  - do 2 rewrite filter_cons_True by done. rewrite fmap_cons. by f_equal.
Qed.

(** The rule of an annotation, the first of the list. *)
Definition ruleOf (ae : AnnotationEvents) (a : string) : option AnnotationEvent :=
  head (filter (fun e => aeAnnotation e = a) ae).

Lemma annotationsOf_app ae r : annotationsOf (ae ++ [r]) = annotationsOf ae ++ [aeAnnotation r].
Proof. unfold annotationsOf. by rewrite fmap_app. Qed.

Lemma ruleOf_is_Some ae a : a ∈ annotationsOf ae <-> is_Some (ruleOf ae a).
Proof.
  unfold ruleOf, annotationsOf. rewrite list_elem_of_fmap. split.
  - intros (e & -> & He). destruct (filter _ ae) as [|r l] eqn:E; [|by eexists].
    assert (e ∈ filter (fun e' => aeAnnotation e' = aeAnnotation e) ae) as Hin
      by (by apply list_elem_of_filter).
    rewrite E in Hin. by apply not_elem_of_nil in Hin.
  - intros [r Hr]. apply head_Some_elem_of, list_elem_of_filter in Hr as [<- ?]. eauto.
Qed.

Lemma ruleOf_app_new ae r b :
  ruleOf (ae ++ [r]) b =
  match ruleOf ae b with
  | Some r' => Some r'
  | None => if bool_decide (b = aeAnnotation r) then Some r else None
  end.
Proof.
  unfold ruleOf. rewrite filter_app. destruct (filter _ ae); [|done]. simpl.
  rewrite filter_cons, filter_nil. repeat case_decide; case_bool_decide; naive_solver.
Qed.

Lemma ruleOf_Remove ae a b :
  ruleOf (Remove ae a) b = if bool_decide (a = b) then None else ruleOf ae b.
Proof.
  unfold ruleOf, Remove. rewrite list_filter_filter. case_bool_decide as E.
  - subst. induction ae as [|e ae IH]; [done|].
    by rewrite filter_cons_False by (by intros [? ?]).
  - f_equal. apply list_filter_iff. naive_solver.
Qed.

(** [Add] keeps one rule per annotation; it installs the new rule when it may overwrite or when
    there was none, and it never touches the rule of another annotation. *)
Theorem Add_spec ae t a act ow :
  NoDup (annotationsOf ae) ->
  NoDup (annotationsOf (Add ae t a act ow)) /\
  ruleOf (Add ae t a act ow) a =
    (if ow then Some (mkAnnotationEvent t a act)
     else match ruleOf ae a with Some r => Some r | None => Some (mkAnnotationEvent t a act) end) /\
  (forall b, b <> a -> ruleOf (Add ae t a act ow) b = ruleOf ae b).
Proof.
  intros Hnd. unfold Add. destruct ow; [|destruct (HasAnnotation ae a) eqn:Eh].
  - split_and!.
    + rewrite annotationsOf_app, annotationsOf_Remove. apply NoDup_app. split_and!.
      * by apply NoDup_filter.
      * intros b [Hb _]%list_elem_of_filter [Hb'|Hb']%elem_of_cons; [done|].
        by apply not_elem_of_nil in Hb'.
      * apply NoDup_singleton.
    + by rewrite ruleOf_app_new, ruleOf_Remove, !bool_decide_true by done.
    + intros b Hb. rewrite ruleOf_app_new, ruleOf_Remove.
      rewrite !bool_decide_false by (simpl; congruence). by destruct (ruleOf ae b).
  - split_and!; [done| |done].
    apply HasAnnotation_spec, ruleOf_is_Some in Eh as [r Er]. by rewrite Er.
  - assert (ruleOf ae a = None) as Er.
    { apply eq_None_not_Some. rewrite <- ruleOf_is_Some, <- HasAnnotation_spec. by rewrite Eh. }
    split_and!.
    + rewrite annotationsOf_app. apply NoDup_app. split_and!; [done| |apply NoDup_singleton].
      intros b Hb [->|Hb']%elem_of_cons; [|by apply not_elem_of_nil in Hb'].
      apply HasAnnotation_spec in Hb. simpl in Hb. by rewrite Hb in Eh.
    + by rewrite ruleOf_app_new, Er, bool_decide_true by done.
    + intros b Hb. rewrite ruleOf_app_new, bool_decide_false by done.
      by destruct (ruleOf ae b).
Qed.

End Event.
