(* ===== verification/RateLimiter.v ===== *)
(** * pkg/workqueue: the exponential rate limiter with a reset window

    [RateLimiter] is the interface the queue and the controller use (TypedRateLimiter of
    client-go); the module implements it as the code does, with its float64 arithmetic: the only
    floats the code makes are integers, so a float is its integer value after rounding, an infinity
    or NaN. *)

From S2P Require Import Prelude GoTime.
Import GoTime.

(** The clock reading is an argument of the operations that read the clock. *)
Class RateLimiter (T R : Type) : Type := {
  rlWhen : Time -> T -> R -> Z * R;
  rlNumRequeues : T -> R -> Z;
  rlForget : Time -> T -> R -> R
}.

(** Forgetting an item always resets its count: what client-go's own limiters do. *)
Class ForgetResets (T R : Type) `{RateLimiter T R} : Prop := {
  numRequeues_forget now (x : T) (r : R) : rlNumRequeues x (rlForget now x r) = 0
}.

Module RateLimiting.

(** ** float64 *)

Inductive float64 : Type :=
| Finite (z : Z)
| Infinite (positive : bool)
| NaN.

(** [float64(n)] of an int64: 53 significant bits, ties to even. *)
Definition roundFloat64 (n : Z) : Z :=
  let a := Z.abs n in
  if a <? 2 ^ 53 then n else
  let k := Z.log2 a - 52 in
  let q := a / 2 ^ k in
  let r := a mod 2 ^ k in
  let q' := if (2 * r <? 2 ^ k) || ((2 * r =? 2 ^ k) && Z.even q) then q else q + 1 in
  Z.sgn n * (q' * 2 ^ k).

(** [float64(n) * math.Pow(2, float64(exp))] for [0 <= exp]: exact, except that [Pow] overflows to
    infinity; a product over the largest float is left finite, both compare above MaxInt64. *)
Definition timesPow2 (n exp : Z) : float64 :=
  let a := roundFloat64 n in
  if exp <=? 1023 then Finite (a * 2 ^ exp)
  else if a =? 0 then NaN else Infinite (0 <? a).

(** [b > math.MaxInt64]: the constant becomes the float 2^63. *)
Definition aboveMaxInt64 (b : float64) : bool :=
  match b with Finite z => 2 ^ 63 <? z | Infinite p => p | NaN => false end.

(** Conversion to int64; the language leaves the result open when the value does not fit, and
    [outOfRange] is the platform's choice. *)
Definition toInt64 (outOfRange : Z) (b : float64) : Z :=
  match b with
  | Finite z => if (min_int64 <=? z) && (z <=? max_int64) then z else outOfRange
  | _ => outOfRange
  end.

(** ** The limiter *)

Record FailureRequest : Type := mkFailure { Attempts : Z; LastAttempt : Time }.

Section Limiter.
Context {T : Type} `{Countable T}.

Record Limiter : Type := mkLimiter {
  failures : gmap T FailureRequest;
  baseDelay : Z;
  maxDelay : Z
}.

Definition NewExponentialTimedFailureRateLimiter (base max : Z) : Limiter :=
  mkLimiter ∅ base max.

Definition setFailure (r : Limiter) (x : T) (f : FailureRequest) : Limiter :=
  mkLimiter (<[ x := f ]> (failures r)) (baseDelay r) (maxDelay r).

(** [failures[item]], the zero value for an item never seen. *)
Definition failureOf (r : Limiter) (x : T) : FailureRequest :=
  default (mkFailure 0 zeroTime) (failures r !! x).

Definition stale (r : Limiter) (now : Time) (f : FailureRequest) : bool :=
  (2 *! maxDelay r) <? Since now (LastAttempt f).

Definition When (outOfRange : Z) (now : Time) (x : T) (r : Limiter) : Z * Limiter :=
  match failures r !! x with
  | None => (baseDelay r, setFailure r x (mkFailure 1 now))
  | Some f =>
    if stale r now f then (0, r) else
    let exp := Attempts f in
    let r' := setFailure r x (mkFailure (Attempts f +! 1) now) in
    let backoff := timesPow2 (baseDelay r) exp in
    if aboveMaxInt64 backoff then (maxDelay r, r') else
    let calculated := toInt64 outOfRange backoff in
    if maxDelay r <? calculated then (maxDelay r, r') else (calculated, r')
  end.

Definition NumRequeues (x : T) (r : Limiter) : Z := Attempts (failureOf r x).

Definition Forget (now : Time) (x : T) (r : Limiter) : Limiter :=
  if stale r now (failureOf r x)
  then mkLimiter (delete x (failures r)) (baseDelay r) (maxDelay r) else r.

#[export] Instance Limiter_RateLimiter : RateLimiter T Limiter := {
  rlWhen := When min_int64;   (* the conversion of amd64 *)
  rlNumRequeues := NumRequeues;
  rlForget := Forget
}.

(** ** Repeated failures *)

(** The delays of consecutive failures of one item at the given clock readings. *)
Fixpoint delays (oor : Z) (x : T) (nows : list Time) (r : Limiter) : list Z :=
  match nows with
  | [] => []
  | now :: nows => let '(d, r') := When oor now x r in d :: delays oor x nows r'
  end.

(** Each reading is within the reset window of the one before. *)
Fixpoint withinWindow (max : Z) (prev : Time) (nows : list Time) : Prop :=
  match nows with
  | [] => True
  | now :: nows => Since now prev <= 2 * max /\ withinWindow max now nows
  end.

Lemma roundFloat64_exact n : Z.abs n < 2 ^ 53 -> roundFloat64 n = n.
Proof. intros Hn. unfold roundFloat64. by rewrite (proj2 (Z.ltb_lt _ _)). Qed.

(** Delays the code can represent: [base] is exact as a float, twice [max] is a duration, and no
    doubling of [base] hits 2^63 exactly. *)
Definition delaysOk (base max : Z) : Prop :=
  0 < base <= max /\ base < 2 ^ 53 /\ 2 * max <= max_int64 /\ (forall k, 0 <= k -> base * 2 ^ k <> 2 ^ 63).

Lemma When_retry oor now x r n last :
  delaysOk (baseDelay r) (maxDelay r) -> 0 <= n < 1023 ->
  failures r !! x = Some (mkFailure n last) -> Since now last <= 2 * maxDelay r ->
  When oor now x r =
  (Z.min (maxDelay r) (baseDelay r * 2 ^ n), setFailure r x (mkFailure (n + 1) now)).
Proof.
  intros (Hb & Hf & Hm & Hne) Hn Hx Hw. unfold When. rewrite Hx. unfold stale. simpl.
  unfold max_int64 in *.
  rewrite (wrap64_id (2 * maxDelay r)) by (unfold min_int64, max_int64; lia).
  rewrite (wrap64_id (n + 1)) by (unfold min_int64, max_int64; lia).
  rewrite (proj2 (Z.ltb_ge _ _)) by lia.
  unfold timesPow2. rewrite roundFloat64_exact by lia.
  rewrite (proj2 (Z.leb_le n 1023)) by lia. cbn [aboveMaxInt64 toInt64].
  set (p := baseDelay r * 2 ^ n) in *.
  assert (0 < p) by (apply Z.mul_pos_pos; [lia | apply Z.pow_pos_nonneg; lia]).
  specialize (Hne n ltac:(lia)). fold p in Hne.
  destruct (2 ^ 63 <? p) eqn:E; bool_to_prop.
  - f_equal. lia.
  - unfold min_int64, max_int64. rewrite !(proj2 (Z.leb_le _ _)) by lia. simpl.
    destruct (maxDelay r <? p) eqn:E2; bool_to_prop; f_equal; lia.
Qed.

Lemma delays_retry oor x nows r n last :
  delaysOk (baseDelay r) (maxDelay r) -> 0 <= n -> n + Z.of_nat (length nows) <= 1023 ->
  failures r !! x = Some (mkFailure n last) -> withinWindow (maxDelay r) last nows ->
  delays oor x nows r =
  (fun k => Z.min (maxDelay r) (baseDelay r * 2 ^ k)) <$> seqZ n (Z.of_nat (length nows)).
Proof.
  revert r n last. induction nows as [|now nows IH]; intros r n last Hok Hn Hlen Hx Hw; [done|].
  destruct Hw as [Hw Hws]. simpl length in *.
  cbn [delays]. rewrite (When_retry oor now x r n last) by (done || lia).
  rewrite seqZ_cons by lia. rewrite fmap_cons. f_equal.
  rewrite (IH _ (n + 1) now); simpl; try done; try lia.
  - do 2 f_equal; lia.
  - by rewrite lookup_insert_eq.
Qed.

(** C39. When the base delay is positive, less than 2^53 and at most the greatest, twice the
    greatest is a duration, and no doubling of the base is exactly 2^63, then the k-th consecutive
    failure (from 0) of an item waits [min max (base * 2^k)], for the first 1023 failures, each
    within the window after the one before. *)
Theorem delays_exponential oor x base max now0 nows :
  delaysOk base max -> (length nows < 1023)%nat -> withinWindow max now0 nows ->
  delays oor x (now0 :: nows) (NewExponentialTimedFailureRateLimiter base max) =
  (fun k => Z.min max (base * 2 ^ k)) <$> seqZ 0 (Z.of_nat (length (now0 :: nows))).
Proof.
  intros Hok Hlen Hw. cbn [delays length]. unfold When at 1. simpl failures.
  rewrite lookup_empty. rewrite seqZ_cons by lia. rewrite fmap_cons. f_equal.
  - destruct Hok. simpl. lia.
  - rewrite (delays_retry oor x nows _ 1 now0); simpl; try done; try lia.
    + do 2 f_equal; lia.
    + by rewrite lookup_insert_eq.
Qed.

(** Within the window, forgetting keeps the count, so a retry limit is reached; after it, the count
    is reset; and a stale item that is not forgotten gets no delay and no count. *)
Theorem Forget_window now x r f :
  failures r !! x = Some f ->
  NumRequeues x (Forget now x r) = (if stale r now f then 0 else Attempts f) /\
  (stale r now f = true -> forall oor, When oor now x r = (0, r)).
Proof.
  intros Hx. split.
  - unfold Forget, NumRequeues, failureOf. rewrite Hx. simpl.
    destruct (stale r now f); simpl; [by rewrite lookup_delete_eq | by rewrite Hx].
  - intros Hs oor. unfold When. by rewrite Hx, Hs.
Qed.

(** The cap misses one value: a doubling that is exactly 2^63 is not above MaxInt64 as a float, and
    its conversion to a duration is out of range. *)
Theorem When_overflow oor now x r n last :
  failures r !! x = Some (mkFailure n last) -> stale r now (mkFailure n last) = false ->
  0 <= n <= 1023 -> 0 < baseDelay r < 2 ^ 53 -> baseDelay r * 2 ^ n = 2 ^ 63 -> oor <= maxDelay r ->
  (When oor now x r).1 = oor.
Proof.
  intros Hx Hs Hn Hb Hp Hoor. unfold When. rewrite Hx, Hs. unfold timesPow2. simpl.
  rewrite roundFloat64_exact by lia. rewrite (proj2 (Z.leb_le n 1023)) by lia. rewrite Hp.
  cbn [aboveMaxInt64 toInt64]. rewrite Z.ltb_irrefl.
  replace ((min_int64 <=? 2 ^ 63) && (2 ^ 63 <=? max_int64)) with false by done.
  by rewrite (proj2 (Z.ltb_ge _ _)).
Qed.

End Limiter.
Arguments Limiter T {_ _}.
End RateLimiting.
