(* ===== verification/BTree.v ===== *)
(** * The ordered set behind the queue

    The interface of google/btree's [BTreeG] the priority queue uses ([ReplaceOrInsert], [Delete],
    [Ascend]), with the laws its documentation states for a strict weak order, and a sorted-list
    implementation that shows the laws can hold and that the examples run on. *)

From S2P Require Import Prelude.

Class StrictWeakOrder {A} (less : A -> A -> bool) : Prop := {
  less_irrefl x : less x x = false;
  less_trans x y z : less x y = true -> less y z = true -> less x z = true;
  (** [less] compares: what is below [z] is either below [y], or [y] is below [z]. *)
  less_cotrans x y z : less x z = true -> less x y = true \/ less y z = true
}.

Arguments less_irrefl {A less _} x.
Arguments less_trans {A less _} x y z.
Arguments less_cotrans {A less _} x y z.

(** Equal for the tree: neither is less than the other. *)
Definition same {A} (less : A -> A -> bool) (x y : A) : bool := negb (less x y) && negb (less y x).

Class BTree {A} (less : A -> A -> bool) (B : Type) : Type := {
  btNew : B;
  ReplaceOrInsert : A -> B -> B;
  btDelete : A -> B -> B * option A;
  (** the elements an [Ascend] with an always-true iterator visits, in that order *)
  Ascend : B -> list A;
  (** the values of the type that are trees *)
  btOk : B -> Prop
}.
Arguments btNew {A} less {B _}.
Arguments ReplaceOrInsert {A} less {B _} x b.
Arguments btDelete {A} less {B _} x b.
Arguments Ascend {A} less {B _} b.
Arguments btOk {A} less {B _} b.

Class BTreeLaws {A} (less : A -> A -> bool) (B : Type) `{BTree A less B} : Prop := {
  btNew_ok : btOk less (btNew less);
  btNew_empty : Ascend less (btNew less) = [];
  Ascend_sorted b : btOk less b -> StronglySorted (fun x y => less x y = true) (Ascend less b);
  insert_ok x b : btOk less b -> btOk less (ReplaceOrInsert less x b);
  delete_ok x b : btOk less b -> btOk less (btDelete less x b).1;
  elem_insert x b y : btOk less b ->
    y ∈ Ascend less (ReplaceOrInsert less x b) <->
    y = x \/ (y ∈ Ascend less b /\ same less x y = false);
  elem_delete x b y : btOk less b ->
    y ∈ Ascend less (btDelete less x b).1 <-> y ∈ Ascend less b /\ same less x y = false;
  delete_result x b : btOk less b ->
    (btDelete less x b).2 = head (filter (fun y => same less x y = true) (Ascend less b))
}.

Module SortedList.

Section SortedList.
Context {A : Type} (less : A -> A -> bool).

Fixpoint insertSorted (x : A) (l : list A) : list A :=
  match l with
  | [] => [x]
  | y :: l' => if less x y then x :: l else y :: insertSorted x l'
  end.

Definition without (x : A) (l : list A) : list A := filter (fun y => same less x y = false) l.

#[export] Instance list_BTree : BTree less (list A) := {
  btNew := [];
  ReplaceOrInsert x l := insertSorted x (without x l);
  btDelete x l := (without x l, head (filter (fun y => same less x y = true) l));
  Ascend l := l;
  btOk := StronglySorted (fun x y => less x y = true)
}.

Lemma elem_insertSorted x l y : y ∈ insertSorted x l <-> y = x \/ y ∈ l.
Proof.
  induction l as [|z l IH]; simpl; [by rewrite list_elem_of_singleton; set_solver|].
  destruct (less x z); rewrite !elem_of_cons, ?IH, ?elem_of_cons; naive_solver.
Qed.

Lemma elem_without x l y : y ∈ without x l <-> y ∈ l /\ same less x y = false.
Proof. unfold without. rewrite list_elem_of_filter. naive_solver. Qed.

Lemma without_sorted x l :
  StronglySorted (fun x y => less x y = true) l ->
  StronglySorted (fun x y => less x y = true) (without x l).
Proof. apply StronglySorted_filter_sub. Qed.

Context `{StrictWeakOrder A less}.

Lemma insertSorted_sorted x l :
  (forall y, y ∈ l -> same less x y = false) ->
  StronglySorted (fun x y => less x y = true) l ->
  StronglySorted (fun x y => less x y = true) (insertSorted x l).
Proof.
  induction l as [|z l IH]; intros Hne Hs; simpl; [by repeat constructor|].
  apply StronglySorted_inv in Hs as [Hs Hz]. destruct (less x z) eqn:E.
  - constructor; [by constructor|]. constructor; [done|].
    eapply Forall_impl; [exact Hz|]. intros y Hy. by eapply less_trans.
  - constructor; [apply IH; [|done]; intros y Hy; apply Hne; by right|].
    apply Forall_forall. intros y [->|Hy]%elem_insertSorted.
    + specialize (Hne z ltac:(by left)). unfold same in Hne. rewrite E in Hne. simpl in Hne.
      by apply negb_false_iff in Hne.
    + by apply (proj1 (Forall_forall _ _) Hz).
Qed.

#[export] Instance list_BTreeLaws : BTreeLaws less (list A).
Proof.
  split; simpl.
  - constructor.
  - done.
  - done.
  - intros x b Hb. apply insertSorted_sorted; [|by apply without_sorted].
    by intros y [_ ?]%elem_without.
  - intros x b Hb. by apply without_sorted.
  - intros x b y _. by rewrite elem_insertSorted, elem_without.
  - intros x b y _. apply elem_without.
  - done.
Qed.

End SortedList.
End SortedList.
