(* ===== verification/PriorityQueue.v ===== *)
(** * pkg/controller/priorityqueue: the state and operations of the queue

    The fields of [priorityqueue[T]] as a record, one definition per method.  The two channels
    are turned into what they carry: [itemOrWaiterAdded] is the content of the buffered channel, and
    the hand-off over [get] is the list of items a [spin] iteration gives to parked workers.  Go
    pointers to items: the map and the tree hold the same object, so a change of an item is
    written to both.  The tree, the rate limiter and the metrics are interfaces. *)

From S2P Require Import Prelude GoTime RateLimiter BTree.
Import GoTime.

(** The calls a queue makes on its metrics (interface [queueMetrics]). *)
Class QueueMetrics (T M : Type) : Type := {
  mAdd : Time -> T -> Z -> M -> M;
  mGet : Time -> T -> Z -> M -> M;
  mUpdateDepth : Z -> Z -> M -> M;
  mDone : Time -> T -> Z -> M -> M;
  mRetry : M -> M
}.

Module PriorityQueue.

(** ** Items and their order *)

Record item (T : Type) : Type := mkItem {
  Key : T;
  AddedCounter : Z;        (* uint64 *)
  Priority : Z;
  ReadyAt : option Time    (* None: the nil pointer *)
}.
Arguments mkItem {T}.
Arguments Key {T}.
Arguments AddedCounter {T}.
Arguments Priority {T}.
Arguments ReadyAt {T}.

#[export] Instance item_eq_dec `{EqDecision T} : EqDecision (item T).
Proof. solve_decision. Defined.

Definition less {T} (a b : item T) : bool :=
  match ReadyAt a, ReadyAt b with
  | None, Some _ => true
  | Some _, None => false
  | ra, rb =>
    let tie := if Priority a =? Priority b then AddedCounter a <? AddedCounter b
               else Priority b <? Priority a in
    match ra, rb with
    | Some ta, Some tb => if negb (Equal ta tb) then Before ta tb else tie
    | _, _ => tie
    end
  end.

Record AddOpts : Type := mkAddOpts { After : Z; RateLimited : bool; optPriority : Z }.

(** ** The queue *)

Section Queue.
Context {T : Type} `{Countable T}.
Context {B R M : Type} `{!BTree (@less T) B} `{!RateLimiter T R} `{!QueueMetrics T M}.

Record PQ : Type := mkPQ {
  items : gmap T (item T);
  queue : B;
  addedCounter : Z;
  becameReady : gset T;
  metrics : M;
  itemOrWaiterAdded : bool;
  rateLimiter : R;
  locked : gset T;
  lockedPriority : gmap T Z;
  shutdown : bool;
  waiters : Z
}.

Definition New (rl : R) (m : M) : PQ :=
  mkPQ ∅ (btNew less) 0 ∅ m false rl ∅ ∅ false 0.

Definition notifyItemOrWaiterAdded (w : PQ) : PQ :=
  mkPQ (items w) (queue w) (addedCounter w) (becameReady w) (metrics w) true (rateLimiter w)
    (locked w) (lockedPriority w) (shutdown w) (waiters w).

(** The fields an addition changes. *)
Definition withItems (w : PQ) its q c m : PQ :=
  mkPQ its q c (becameReady w) m (itemOrWaiterAdded w) (rateLimiter w) (locked w)
    (lockedPriority w) (shutdown w) (waiters w).

Definition withLimiter (w : PQ) rl m : PQ :=
  mkPQ (items w) (queue w) (addedCounter w) (becameReady w) m (itemOrWaiterAdded w) rl (locked w)
    (lockedPriority w) (shutdown w) (waiters w).

(** The delay of one key: the given one, or the limiter's when that is asked for and shorter. *)
Definition effectiveAfter (now : Time) (o : AddOpts) (key : T) (rl : R) : Z * R :=
  if RateLimited o then
    let '(rlAfter, rl') := rlWhen now key rl in
    (if (After o =? 0) || (rlAfter <? After o) then rlAfter else After o, rl')
  else (After o, rl).

(** [readyAt] replaces [old]: nil is the earliest of all. *)
Definition earlier (readyAt old : option Time) : bool :=
  match old with
  | None => false
  | Some t => match readyAt with None => true | Some u => Before u t end
  end.

(** A key that is in the queue: the item is taken out, changed and put back. *)
Definition updateItem (now : Time) (o : AddOpts) (readyAt : option Time) (w : PQ) (old : item T)
  : outcome PQ :=
  let '(q, deleted) := btDelete less old (queue w) in
  match deleted with
  | None => Panic "nil pointer dereference"
  | Some it =>
    let key := Key it in
    let ready := bool_decide (key ∈ becameReady w) in
    let '(it, m) :=
      if Priority it <? optPriority o then
        (mkItem key (AddedCounter it) (optPriority o) (ReadyAt it),
         if bool_decide (ReadyAt it = None) || ready
         then mUpdateDepth (Priority it) (optPriority o) (metrics w) else metrics w)
      else (it, metrics w) in
    let '(it, m) :=
      if earlier readyAt (ReadyAt it) then
        (mkItem key (AddedCounter it) (Priority it) readyAt,
         if bool_decide (readyAt = None) && negb ready then mAdd now key (Priority it) m else m)
      else (it, m) in
    Ret (withItems w (<[ key := it ]> (items w)) (ReplaceOrInsert less it q) (addedCounter w) m)
  end.

(** One iteration of the loop of [AddWithOpts]. *)
Definition addItem (now : Time) (o : AddOpts) (w : PQ) (key : T) : outcome PQ :=
  let '(after, rl) := effectiveAfter now o key (rateLimiter w) in
  let delayed := 0 <? after in
  let readyAt := if delayed then Some (Add now after) else None in
  let w := withLimiter w rl (if delayed then mRetry (metrics w) else metrics w) in
  match items w !! key with
  | None =>
    let it := mkItem key (addedCounter w) (optPriority o) readyAt in
    Ret (withItems w (<[ key := it ]> (items w)) (ReplaceOrInsert less it (queue w))
      ((addedCounter w + 1) mod 2 ^ 64)
      (if delayed then metrics w else mAdd now key (optPriority o) (metrics w)))
  | Some old => updateItem now o readyAt w old
  end.

Fixpoint addItems (now : Time) (o : AddOpts) (w : PQ) (keys : list T) : outcome PQ :=
  match keys with
  | [] => Ret w
  | key :: keys => w ← addItem now o w key; addItems now o w keys
  end.

Definition AddWithOpts (now : Time) (o : AddOpts) (keys : list T) (w : PQ) : outcome PQ :=
  if shutdown w then Ret w else
  w' ← addItems now o w keys;
  mret (match keys with [] => w' | _ => notifyItemOrWaiterAdded w' end).

Definition AddKey (now : Time) (key : T) (w : PQ) : outcome PQ :=
  AddWithOpts now (mkAddOpts 0 false 0) [key] w.
Definition AddAfter (now : Time) (key : T) (after : Z) (w : PQ) : outcome PQ :=
  AddWithOpts now (mkAddOpts after false 0) [key] w.
Definition AddRateLimited (now : Time) (key : T) (w : PQ) : outcome PQ :=
  AddWithOpts now (mkAddOpts 0 true 0) [key] w.

(** ** Workers that come for an item *)

(** A worker counts itself and wakes [spin] up, past the check for a shutdown. *)
Definition countWaiter (w : PQ) : PQ :=
  notifyItemOrWaiterAdded
    (mkPQ (items w) (queue w) (addedCounter w) (becameReady w) (metrics w) (itemOrWaiterAdded w)
       (rateLimiter w) (locked w) (lockedPriority w) (shutdown w) (waiters w + 1)).

(** [GetWithPriority] up to its select: false when the queue is shut down already. *)
Definition enterGet (w : PQ) : PQ * bool :=
  if shutdown w then (w, false) else (countWaiter w, true).

(** [n] workers past that check: [GetWithPriority] takes no lock, so they come at any time. *)
Fixpoint getters (n : nat) (w : PQ) : PQ :=
  match n with O => w | S n => countWaiter (getters n w) end.

(** ** spin *)

(** An item's readiness at [now]: how long it still has to wait, if it has. *)
Definition notReady (now : Time) (it : item T) : option Z :=
  match ReadyAt it with
  | None => None
  | Some t => let d := Sub t now in if 0 <? d then Some d else None
  end.

(** The first half of the visit of an item: it counts as added when its delay has passed. *)
Definition markReady (now : Time) (w : PQ) (it : item T) : PQ :=
  match ReadyAt it with
  | None => w
  | Some _ =>
    if bool_decide (Key it ∈ becameReady w) then w
    else mkPQ (items w) (queue w) (addedCounter w) ({[ Key it ]} ∪ becameReady w)
           (mAdd now (Key it) (Priority it) (metrics w)) (itemOrWaiterAdded w) (rateLimiter w)
           (locked w) (lockedPriority w) (shutdown w) (waiters w)
  end.

(** The second half: the item is taken for a waiter. *)
Definition takeItem (now : Time) (w : PQ) (it : item T) : PQ :=
  mkPQ (delete (Key it) (items w)) (queue w) (addedCounter w) (becameReady w ∖ {[ Key it ]})
    (mGet now (Key it) (Priority it) (metrics w)) (itemOrWaiterAdded w) (rateLimiter w)
    ({[ Key it ]} ∪ locked w) (<[ Key it := Priority it ]> (lockedPriority w)) (shutdown w)
    (waiters w - 1).

(** What the walk over the tree yields: the state, the items to delete from the tree, the items
    received by workers, and the timer to the next item that is not ready. *)
Record walk : Type := mkWalk {
  wState : PQ; toDelete : list (item T); handed : list (item T); nextReady : option Z }.

(** The iterator of [Ascend].  [arrive k]: the workers that count themselves between the item visited
    before that of key [k] and the load of [waiters] at it.  After a shutdown a hand-off may be
    abandoned, as [accept] tells. *)
Fixpoint ascend (now : Time) (arrive : T -> nat) (accept : T -> bool) (l : list (item T)) (w : PQ)
  : walk :=
  match l with
  | [] => mkWalk w [] [] None
  | it :: l =>
    match notReady now it with
    | Some d => mkWalk w [] [] (Some d)
    | None =>
      let w := getters (arrive (Key it)) (markReady now w it) in
      if waiters w =? 0 then ascend now arrive accept l w else
      if bool_decide (Key it ∈ locked w) then ascend now arrive accept l w else
      let w := takeItem now w it in
      if shutdown w && negb (accept (Key it)) then mkWalk w [it] [] None else
      let r := ascend now arrive accept l w in
      mkWalk (wState r) (it :: toDelete r) (it :: handed r) (nextReady r)
    end
  end.

Definition deleteAll (l : list (item T)) (q : B) : B :=
  foldl (fun q it => (btDelete less it q).1) q l.

(** The select that wakes [spin] up takes what is in the channel. *)
Definition wakeUp (w : PQ) : PQ :=
  mkPQ (items w) (queue w) (addedCounter w) (becameReady w) (metrics w) false (rateLimiter w)
    (locked w) (lockedPriority w) (shutdown w) (waiters w).

(** One iteration of the loop of [spin], from the time it wakes up.  Woken up by its timer it leaves
    the channel as it is, which costs one more iteration.  The walk holds both locks of the queue, so
    only the workers that come and a ShutDown get in between; a ShutDown in its middle is one before it
    and an [accept] that is true up to there. *)
Definition spin (now : Time) (arrive : T -> nat) (accept : T -> bool) (w : PQ)
  : PQ * list (item T) * option Z :=
  let r := ascend now arrive accept (Ascend less (queue w)) (wakeUp w) in
  let s := wState r in
  (mkPQ (items s) (deleteAll (toDelete r) (queue s)) (addedCounter s) (becameReady s) (metrics s)
     (itemOrWaiterAdded s) (rateLimiter s) (locked s) (lockedPriority s) (shutdown s) (waiters s),
   handed r, nextReady r).

(** ** Done and the rest *)

(** The result of a select that received [it]. *)
Definition receive (w : PQ) (it : item T) : T * Z * bool := (Key it, Priority it, shutdown w).

Definition Forget (now : Time) (key : T) (w : PQ) : PQ :=
  withLimiter w (rlForget now key (rateLimiter w)) (metrics w).

Definition NumRequeues (key : T) (w : PQ) : Z := rlNumRequeues key (rateLimiter w).

Definition ShuttingDown (w : PQ) : bool := shutdown w.

Definition Done (now : Time) (key : T) (w : PQ) : PQ :=
  let priority := default 0 (lockedPriority w !! key) in
  notifyItemOrWaiterAdded
    (mkPQ (items w) (queue w) (addedCounter w) (becameReady w)
       (mDone now key priority (metrics w)) (itemOrWaiterAdded w) (rateLimiter w)
       (locked w ∖ {[ key ]}) (delete key (lockedPriority w)) (shutdown w) (waiters w)).

Definition ShutDown (w : PQ) : PQ :=
  mkPQ (items w) (queue w) (addedCounter w) (becameReady w) (metrics w) (itemOrWaiterAdded w)
    (rateLimiter w) (locked w) (lockedPriority w) true (waiters w).

Definition ShutDownWithDrain (w : PQ) : PQ := ShutDown w.

(** The ready prefix of the tree. *)
Fixpoint countReady (now : Time) (l : list (item T)) : Z :=
  match l with
  | [] => 0
  | it :: l =>
    match ReadyAt it with
    | None => 1 + countReady now l
    | Some t => if ns t <=? ns now then 1 + countReady now l else 0
    end
  end.

Definition Len (now : Time) (w : PQ) : Z := countReady now (Ascend less (queue w)).

End Queue.
Arguments PQ T {_ _} B R M.
Arguments mkWalk {T _ _ B R M}.
End PriorityQueue.
