(* ===== verification/PriorityQueueFacts.v ===== *)
(** * The priority queue: order, well-formedness and refinement

    The order of the items, the invariant that ties the map, the tree and the counters together, the
    map of items as the abstract specification of the queue, and what each operation does to it. *)

From S2P Require Import Prelude GoTime RateLimiter BTree PriorityQueue.
Import GoTime PriorityQueue.

Module PQFacts.

(** ** The order *)

Definition tieP {T} (a b : item T) : Prop :=
  Priority b < Priority a \/ (Priority a = Priority b /\ AddedCounter a < AddedCounter b).

(** Undelayed items first, then by due time, then by priority, then by age. *)
Definition lessP {T} (a b : item T) : Prop :=
  match ReadyAt a, ReadyAt b with
  | None, Some _ => True
  | Some _, None => False
  | None, None => tieP a b
  | Some ta, Some tb => ns ta < ns tb \/ (ns ta = ns tb /\ tieP a b)
  end.

Lemma less_iff {T} (a b : item T) : less a b = true <-> lessP a b.
Proof.
  assert (Htie : (if Priority a =? Priority b then AddedCounter a <? AddedCounter b
                  else Priority b <? Priority a) = true <-> tieP a b).
  { unfold tieP. destruct (Priority a =? Priority b) eqn:E; bool_to_prop; rewrite Z.ltb_lt; lia. }
  unfold less, lessP, Equal, Before. destruct (ReadyAt a) as [ta|], (ReadyAt b) as [tb|]; try done.
  destruct (ns ta =? ns tb) eqn:E; bool_to_prop; simpl.
  - rewrite Htie. intuition lia.
  - rewrite Z.ltb_lt. intuition lia.
Qed.

#[export] Instance less_order {T} : StrictWeakOrder (@less T).
Proof.
  split.
  - intros x. apply not_true_iff_false. rewrite less_iff. unfold lessP, tieP.
    destruct (ReadyAt x); lia.
  - intros x y z. rewrite !less_iff. unfold lessP, tieP.
    destruct (ReadyAt x), (ReadyAt y), (ReadyAt z); lia || tauto.
  - intros x y z. rewrite !less_iff. unfold lessP, tieP.
    destruct (ReadyAt x), (ReadyAt y), (ReadyAt z); lia || tauto.
Qed.

Lemma less_self {T} (x : item T) : less x x = false.
Proof. apply (less_irrefl (less := less)). Qed.

Lemma less_asym {T} (x y : item T) : less x y = true -> less y x = false.
Proof.
  intros Hxy. apply not_true_iff_false. intros Hyx.
  pose proof (less_trans x y x Hxy Hyx) as E. by rewrite less_self in E.
Qed.

Lemma same_refl {T} (x : item T) : same less x x = true.
Proof. unfold same. by rewrite less_self. Qed.

Lemma same_counter {T} (x y : item T) :
  same less x y = true -> Priority x = Priority y /\ AddedCounter x = AddedCounter y.
Proof.
  unfold same. intros Hs. apply andb_true_iff in Hs as [H1 H2].
  apply negb_true_iff, not_true_iff_false in H1, H2. rewrite less_iff in H1, H2.
  unfold lessP, tieP in *. destruct (ReadyAt x), (ReadyAt y); try lia; tauto.
Qed.

(** ** Well-formed queues *)

Section Facts.
Context {T : Type} `{Countable T}.
Context {B R M : Type} `{!BTree (@less T) B, !BTreeLaws (@less T) B} `{!RateLimiter T R}
  `{!QueueMetrics T M}.
Implicit Types (w : PQ T B R M) (it : item T) (key : T) (now : Time) (o : AddOpts).

(** The items of the tree, in the order [spin] visits them. *)
Definition elems w : list (item T) := Ascend less (queue w).

Record WF w : Prop := mkWF {
  wf_tree : btOk less (queue w);
  wf_items k it : items w !! k = Some it <-> it ∈ elems w /\ Key it = k;
  wf_counter it : it ∈ elems w -> 0 <= AddedCounter it < addedCounter w;
  wf_inj a b : a ∈ elems w -> b ∈ elems w -> AddedCounter a = AddedCounter b -> a = b;
  wf_range : 0 <= addedCounter w < 2 ^ 64;
  wf_locked : dom (lockedPriority w) = locked w;
  wf_ready k : k ∈ becameReady w -> is_Some (items w !! k);
  wf_waiters : 0 <= waiters w
}.

Lemma New_WF rl m : WF (New rl m).
Proof.
  split; unfold elems; simpl.
  - apply btNew_ok.
  - intros k it. rewrite btNew_empty, lookup_empty. split; [done|]. by intros [?%not_elem_of_nil _].
  - intros it. rewrite btNew_empty. by intros ?%not_elem_of_nil.
  - intros a b. rewrite btNew_empty. by intros ?%not_elem_of_nil.
  - lia.
  - by rewrite dom_empty_L.
  - intros k. by intros ?%not_elem_of_empty.
  - done.
Qed.

Lemma wf_same w a b : WF w -> a ∈ elems w -> b ∈ elems w -> same less a b = true -> a = b.
Proof. intros Hw Ha Hb [_ ?]%same_counter. by apply (wf_inj w Hw). Qed.

Lemma wf_sorted w : WF w -> StronglySorted (fun x y => less x y = true) (elems w).
Proof. intros Hw. apply Ascend_sorted, Hw. Qed.

Lemma sorted_NoDup (l : list (item T)) :
  StronglySorted (fun x y => less x y = true) l -> NoDup l.
Proof.
  induction 1 as [|x l Hs IH Hx]; constructor; [|done].
  intros Hin. apply (proj1 (Forall_forall _ _) Hx) in Hin. by rewrite less_self in Hin.
Qed.

Lemma wf_key_inj w a b : WF w -> a ∈ elems w -> b ∈ elems w -> Key a = Key b -> a = b.
Proof.
  intros Hw Ha Hb E.
  assert (items w !! Key a = Some a) as Ea by (by apply (wf_items w Hw)).
  assert (items w !! Key a = Some b) as Eb by (by apply (wf_items w Hw)).
  congruence.
Qed.

Lemma wf_NoDup_keys w : WF w -> NoDup (Key <$> elems w).
Proof.
  intros Hw. apply NoDup_fmap_2_strong; [|by apply sorted_NoDup, wf_sorted].
  intros a b Ha Hb. by apply (wf_key_inj w).
Qed.

(** ** The specification of an addition *)

(** The delay asked for, as a due time. *)
Definition dueTime now o key w : option Time :=
  let after := (effectiveAfter now o key (rateLimiter w)).1 in
  if 0 <? after then Some (Add now after) else None.

(** The entry of a key after an addition: a new item, or the old one with the greater priority and
    the earlier due time; the place in line is kept. *)
Definition mergeItem (due : option Time) (prio : Z) it : item T :=
  mkItem (Key it) (AddedCounter it) (Z.max (Priority it) prio)
    (if earlier due (ReadyAt it) then due else ReadyAt it).

Definition merged now o key w : item T :=
  match items w !! key with
  | None => mkItem key (addedCounter w) (optPriority o) (dueTime now o key w)
  | Some it => mergeItem (dueTime now o key w) (optPriority o) it
  end.

(** The metrics calls of a merge: the depth follows a counted item to its new priority, and an item
    that was waiting and is now due is counted. *)
Definition mergeMetrics now (due : option Time) (prio : Z) (ready : bool) it (m : M) : M :=
  let m := if (Priority it <? prio) && (bool_decide (ReadyAt it = None) || ready)
           then mUpdateDepth (Priority it) prio m else m in
  if earlier due (ReadyAt it) && bool_decide (due = None) && negb ready
  then mAdd now (Key it) (Z.max (Priority it) prio) m else m.

Lemma delete_elem w it :
  WF w -> it ∈ elems w -> (btDelete less it (queue w)).2 = Some it.
Proof.
  intros Hw Hin. rewrite delete_result by apply Hw.
  destruct (filter _ (Ascend less (queue w))) as [|y l] eqn:E; simpl.
  - assert (it ∈ filter (fun y => same less it y = true) (Ascend less (queue w))) as Hf
      by (apply list_elem_of_filter; split; [apply same_refl | done]).
    rewrite E in Hf. by apply not_elem_of_nil in Hf.
  - assert (y ∈ filter (fun y => same less it y = true) (Ascend less (queue w))) as Hf
      by (rewrite E; by left).
    apply list_elem_of_filter in Hf as [Hs Hy]. f_equal. symmetry. by eapply wf_same.
Qed.

(** Membership in the tree after an item was taken out and another put in its place. *)
Lemma elem_replace w it it' x :
  WF w -> it ∈ elems w -> AddedCounter it' = AddedCounter it ->
  x ∈ Ascend less (ReplaceOrInsert less it' (btDelete less it (queue w)).1) <->
  x = it' \/ (x ∈ elems w /\ x <> it).
Proof.
  intros Hw Hin Hc.
  rewrite elem_insert, elem_delete by (try apply delete_ok; apply Hw).
  assert (Hx : x ∈ elems w -> same less it x = false <-> x <> it).
  { intros Hxe. split.
    - intros Hs ->. by rewrite same_refl in Hs.
    - intros Hne. apply not_true_iff_false. intros Hs. apply Hne. symmetry. by eapply wf_same. }
  split.
  - intros [->|[[Hxe Hs] _]]; [by left|right]. split; [done|]. by apply Hx.
  - intros [->|[Hxe Hne]]; [by left|right]. split; [split; [done|by apply Hx]|].
    apply not_true_iff_false. intros [_ Hs]%same_counter.
    apply Hne. apply (wf_inj w Hw); congruence.
Qed.

(** Membership in the tree after an item with a fresh counter was added. *)
Lemma elem_add w it' x :
  WF w -> AddedCounter it' = addedCounter w ->
  x ∈ Ascend less (ReplaceOrInsert less it' (queue w)) <-> x = it' \/ x ∈ elems w.
Proof.
  intros Hw Hc. rewrite elem_insert by apply Hw. split; [naive_solver|].
  intros [->|Hx]; [by left|right]. split; [done|]. apply not_true_iff_false.
  intros [_ Hs]%same_counter. apply (wf_counter w Hw) in Hx. lia.
Qed.

(** What an addition leaves alone. *)
Definition sameWorkers w w' : Prop :=
  becameReady w' = becameReady w /\ locked w' = locked w /\ lockedPriority w' = lockedPriority w /\
  shutdown w' = shutdown w /\ waiters w' = waiters w.

(** Putting [it'] in place of the entry of its key keeps the queue well formed. *)
Lemma WF_replace w w' it it' :
  WF w -> it ∈ elems w -> Key it' = Key it -> AddedCounter it' = AddedCounter it ->
  items w' = <[ Key it := it' ]> (items w) ->
  queue w' = ReplaceOrInsert less it' (btDelete less it (queue w)).1 ->
  addedCounter w' = addedCounter w -> sameWorkers w w' -> WF w'.
Proof.
  intros Hw Hin Hk Hc Hits Hq Hctr (Hbr & Hl & Hlp & _ & Hwt).
  assert (Hel : forall x, x ∈ elems w' <-> x = it' \/ (x ∈ elems w /\ x <> it)).
  { intros x. unfold elems at 1. rewrite Hq. by apply elem_replace. }
  split.
  - rewrite Hq. by apply insert_ok, delete_ok, Hw.
  - intros k x. rewrite Hits, Hel. destruct (decide (Key it = k)) as [<-|Hne].
    + rewrite lookup_insert_eq. split; [intros [= <-]; eauto|].
      intros [[->|[Hx Hxi]] Hkx]; [done|]. destruct Hxi. by apply (wf_key_inj w).
    + rewrite lookup_insert_ne by done. rewrite (wf_items w Hw). split.
      * intros [Hx <-]. split; [right; split; [done|congruence]|done].
      * intros [[->|[Hx _]] <-]; [congruence|done].
  - intros x [->|[Hx _]]%Hel; rewrite Hctr, ?Hc; by apply (wf_counter w Hw).
  - intros a b [->|[Ha Hai]]%Hel [->|[Hb Hbi]]%Hel E; [done| | |by apply (wf_inj w Hw)].
    + destruct Hbi. apply (wf_inj w Hw); congruence.
    + destruct Hai. apply (wf_inj w Hw); congruence.
  - rewrite Hctr. apply Hw.
  - rewrite Hlp, Hl. apply Hw.
  - intros k. rewrite Hbr, Hits. intros Hkr%(wf_ready w Hw).
    destruct (decide (Key it = k)) as [<-|?]; [by rewrite lookup_insert_eq|].
    by rewrite lookup_insert_ne.
  - rewrite Hwt. apply Hw.
Qed.

(** A new entry with the next counter keeps the queue well formed. *)
Lemma WF_add w w' it' :
  WF w -> items w !! Key it' = None -> AddedCounter it' = addedCounter w ->
  items w' = <[ Key it' := it' ]> (items w) -> queue w' = ReplaceOrInsert less it' (queue w) ->
  addedCounter w' = addedCounter w + 1 -> addedCounter w + 1 < 2 ^ 64 -> sameWorkers w w' -> WF w'.
Proof.
  intros Hw Hnone Hc Hits Hq Hctr Hlt (Hbr & Hl & Hlp & _ & Hwt).
  assert (Hel : forall x, x ∈ elems w' <-> x = it' \/ x ∈ elems w).
  { intros x. unfold elems at 1. rewrite Hq. by apply elem_add. }
  pose proof (wf_range w Hw).
  split.
  - rewrite Hq. by apply insert_ok, Hw.
  - intros k x. rewrite Hits, Hel. destruct (decide (Key it' = k)) as [<-|Hne].
    + rewrite lookup_insert_eq. split; [intros [= <-]; eauto|].
      intros [[->|Hx] Hkx]; [done|].
      assert (items w !! Key it' = Some x) by (by apply (wf_items w Hw)). congruence.
    + rewrite lookup_insert_ne by done. rewrite (wf_items w Hw). naive_solver.
  - intros x [->|Hx]%Hel; [lia|]. apply (wf_counter w Hw) in Hx. lia.
  - intros a b [->|Ha]%Hel [->|Hb]%Hel E; [done| | |by apply (wf_inj w Hw)].
    + apply (wf_counter w Hw) in Hb. lia.
    + apply (wf_counter w Hw) in Ha. lia.
  - lia.
  - rewrite Hlp, Hl. apply Hw.
  - intros k. rewrite Hbr, Hits. intros Hkr%(wf_ready w Hw).
    destruct (decide (Key it' = k)) as [<-|?]; [by rewrite lookup_insert_eq|].
    by rewrite lookup_insert_ne.
  - rewrite Hwt. apply Hw.
Qed.

Lemma updateItem_eq now o due w it :
  WF w -> it ∈ elems w ->
  let it' := mergeItem due (optPriority o) it in
  updateItem now o due w it =
  Ret (withItems w (<[ Key it := it' ]> (items w))
    (ReplaceOrInsert less it' (btDelete less it (queue w)).1) (addedCounter w)
    (mergeMetrics now due (optPriority o) (bool_decide (Key it ∈ becameReady w)) it (metrics w))).
Proof.
  intros Hw Hin. unfold updateItem. pose proof (delete_elem w it Hw Hin) as Hd.
  destruct (btDelete less it (queue w)) as [q deleted]. simpl in Hd. subst deleted. simpl.
  unfold mergeItem, mergeMetrics. destruct it as [k c p r]. simpl.
  destruct (p <? optPriority o) eqn:E; bool_to_prop; simpl;
    [rewrite Z.max_r by lia|rewrite Z.max_l by lia];
    destruct (earlier due r), (bool_decide (due = None)), (bool_decide (k ∈ becameReady w));
    reflexivity.
Qed.

(** An addition, in full: it does not panic; the entry of the key becomes the merged one and no
    other entry changes; the queue stays well formed. *)
Lemma addItem_spec now o w key :
  WF w -> addedCounter w + 1 < 2 ^ 64 ->
  exists w', addItem now o w key = Ret w' /\ WF w' /\
    items w' = <[ key := merged now o key w ]> (items w) /\ sameWorkers w w' /\
    addedCounter w' = addedCounter w + (if decide (is_Some (items w !! key)) then 0 else 1).
Proof.
  intros Hw Hlt. pose proof (wf_range w Hw). unfold addItem, merged, dueTime.
  destruct (effectiveAfter now o key (rateLimiter w)) as [after rl]. cbn [fst].
  set (due := if 0 <? after then Some (Add now after) else None).
  set (w0 := withLimiter w rl _).
  assert (WF w0) as Hw0 by (destruct Hw; by split).
  change (items w0) with (items w). destruct (items w !! key) as [it|] eqn:Hit.
  - pose proof (proj1 (wf_items w Hw key it) Hit) as [Hin <-].
    rewrite (updateItem_eq now o due w0 it Hw0 Hin). eexists. split; [done|].
    rewrite decide_True by eauto. split; [|split; [done|split; [done|simpl; lia]]].
    by apply (WF_replace w0 _ it (mergeItem due (optPriority o) it)).
  - eexists. split; [done|]. rewrite decide_False by (intros [? ?]; congruence).
    assert ((addedCounter w0 + 1) mod 2 ^ 64 = addedCounter w + 1) as Hmod
      by (apply Z.mod_small; simpl; lia).
    split; [|split; [done|split; done]].
    by apply (WF_add w0 _ (mkItem key (addedCounter w) (optPriority o) due)).
Qed.

End Facts.
End PQFacts.
