(* ===== verification/PQSpin.v ===== *)
(** * The priority queue: additions in bulk, and what one iteration of [spin] hands out

    The items a walk over the tree gives to workers are computed here by a reference definition,
    [eligible]: of the ready prefix of the tree, less the keys in processing, as many as there are
    workers, those included that come during the walk.  [requested] is the reference for the due
    times of an addition. *)

From S2P Require Import Prelude GoTime RateLimiter BTree PriorityQueue PriorityQueueFacts.
Import GoTime PriorityQueue PQFacts.

Module PQSpin.

Section Spin.
Context {T : Type} `{Countable T}.
Context {B R M : Type} `{!BTree (@less T) B, !BTreeLaws (@less T) B} `{!RateLimiter T R}
  `{!QueueMetrics T M}.
Implicit Types (w : PQ T B R M) (it : item T) (key : T) (now : Time) (o : AddOpts).

(** ** Additions *)

(** [due] is no later than [old]; nil is the earliest. *)
Definition noLater (due old : option Time) : Prop :=
  match due, old with
  | None, _ => True
  | Some _, None => False
  | Some t, Some u => ns t <= ns u
  end.

Lemma noLater_refl d : noLater d d.
Proof. destruct d; simpl; lia || done. Qed.

Lemma noLater_trans a b c : noLater a b -> noLater b c -> noLater a c.
Proof. destruct a, b, c; simpl; lia || tauto. Qed.

Lemma mergeItem_noLater due prio it :
  noLater (ReadyAt (mergeItem due prio it)) (ReadyAt it) /\
  noLater (ReadyAt (mergeItem due prio it)) due.
Proof.
  unfold mergeItem. cbn [ReadyAt]. unfold earlier, Before.
  destruct (ReadyAt it) as [t|], due as [u|]; simpl; try done.
  destruct (ns u <? ns t) eqn:E; bool_to_prop; simpl; lia.
Qed.

Lemma wf_lookup_Key w k it : WF w -> items w !! k = Some it -> Key it = k.
Proof. intros Hw Hl. by apply (wf_items w Hw) in Hl as [_ ?]. Qed.

Lemma wf_lookup_elem w k it : WF w -> items w !! k = Some it -> it ∈ elems w.
Proof. intros Hw Hl. by apply (wf_items w Hw) in Hl as [? _]. Qed.

Lemma addItems_spec now o keys : forall w,
  WF w -> addedCounter w + Z.of_nat (length keys) < 2 ^ 64 ->
  exists w', addItems now o w keys = Ret w' /\ WF w' /\ sameWorkers w w' /\
    (forall k, k ∉ keys -> items w' !! k = items w !! k) /\
    (forall k it, items w !! k = Some it -> exists it', items w' !! k = Some it' /\
       AddedCounter it' = AddedCounter it /\ noLater (ReadyAt it') (ReadyAt it) /\
       Priority it' = if decide (k ∈ keys) then Z.max (Priority it) (optPriority o)
                      else Priority it) /\
    (forall k, k ∈ keys -> items w !! k = None -> exists it', items w' !! k = Some it' /\
       addedCounter w <= AddedCounter it' /\ Priority it' = optPriority o).
Proof.
  induction keys as [|key keys IH]; intros w Hw Hlt; cbn [addItems length] in *.
  { exists w. split; [done|]. split; [done|]. split; [by repeat split|]. split; [done|].
    split; [|by intros k ?%not_elem_of_nil].
    intros k it Hk. exists it. split_and!; [done|done|apply noLater_refl|].
    by rewrite decide_False by apply not_elem_of_nil. }
  destruct (addItem_spec now o w key Hw ltac:(lia)) as (w1 & -> & Hw1 & Hits & Hsame & Hctr).
  destruct (IH w1 Hw1) as (w' & E & Hw' & Hsame' & Hout & Hold & Hnew).
  { rewrite Hctr. case_decide; lia. }
  pose proof (wf_range w Hw).
  exists w'. split; [exact E|]. split; [done|]. split.
  { unfold sameWorkers in *. intuition congruence. }
  assert (Hk1 : forall k, k <> key -> items w1 !! k = items w !! k).
  { intros k Hk. by rewrite Hits, lookup_insert_ne by done. }
  assert (Hkey : items w1 !! key = Some (merged now o key w)).
  { by rewrite Hits, lookup_insert_eq. }
  unfold merged in Hkey.
  split; [|split].
  - intros k [Hne Hk]%not_elem_of_cons. by rewrite Hout, Hk1.
  - intros k it Hk. destruct (decide (k = key)) as [->|Hne].
    + rewrite Hk in Hkey. destruct (Hold _ _ Hkey) as (it' & ? & Hc & Hn & Hp).
      exists it'. split_and!; [done|by rewrite Hc| |].
      * eapply noLater_trans; [exact Hn|]. apply mergeItem_noLater.
      * rewrite Hp. rewrite (decide_True (P := key ∈ key :: keys)) by left.
        simpl. case_decide; lia.
    + rewrite <- Hk1 in Hk by done. destruct (Hold _ _ Hk) as (it' & ? & ? & ? & Hp).
      exists it'. split_and!; [done..|]. rewrite Hp.
      destruct (decide (k ∈ keys)) as [Hin|Hin].
      * by rewrite decide_True by (by right).
      * rewrite decide_False; [done|]. by intros [?|?]%elem_of_cons.
  - intros k Hin Hk. destruct (decide (k = key)) as [->|Hne].
    + rewrite Hk in Hkey. destruct (Hold _ _ Hkey) as (it' & ? & Hc & _ & Hp).
      exists it'. split_and!; [done|rewrite Hc; simpl; lia|]. rewrite Hp. simpl.
      case_decide; lia.
    + apply elem_of_cons in Hin as [?|Hin]; [done|].
      rewrite <- Hk1 in Hk by done. destruct (Hnew k Hin Hk) as (it' & ? & ? & ?).
      exists it'. split_and!; [done| |done]. rewrite Hctr in *. case_decide; lia.
Qed.

(** The due times a call asks for, key by key: none when the delay is not positive; with a limiter its
    delay, or the given one if that is shorter and not 0. *)
Fixpoint requested now o (rl : R) (keys : list T) : list (T * option Time) :=
  match keys with
  | [] => []
  | key :: keys =>
    let '(delay, rl) :=
      if RateLimited o then
        let '(d, rl) := rlWhen now key rl in (if After o =? 0 then d else Z.min d (After o), rl)
      else (After o, rl) in
    (key, if 0 <? delay then Some (Add now delay) else None) :: requested now o rl keys
  end.

Lemma requested_cons now o key keys w :
  requested now o (rateLimiter w) (key :: keys) =
  (key, dueTime now o key w) ::
  requested now o (effectiveAfter now o key (rateLimiter w)).2 keys.
Proof.
  cbn [requested]. unfold dueTime, effectiveAfter. destruct (RateLimited o); [|done].
  destruct (rlWhen now key (rateLimiter w)) as [d rl]. cbn [fst snd].
  destruct (After o =? 0); [done|]. cbn [orb]. unfold Z.min, Z.ltb.
  destruct (Z.compare_spec d (After o)) as [->|?|?]; done.
Qed.

Lemma addItem_limiter now o w key w' :
  addItem now o w key = Ret w' -> rateLimiter w' = (effectiveAfter now o key (rateLimiter w)).2.
Proof.
  unfold addItem. destruct (effectiveAfter now o key (rateLimiter w)) as [after rl]. cbn [snd].
  set (w0 := withLimiter w rl _). destruct (items w0 !! key) as [old|]; [|by intros [= <-]].
  unfold updateItem. destruct (btDelete less old (queue w0)) as [q [it|]]; [|done].
  intros Hr. repeat case_match; by injection Hr as <-.
Qed.

(** [d] is the earliest of the due times in [P]. *)
Definition earliest (P : option Time -> Prop) (d : option Time) : Prop :=
  P d /\ forall u, P u -> noLater d u.

Lemma mergeItem_one due prio it :
  ReadyAt (mergeItem due prio it) = due \/ ReadyAt (mergeItem due prio it) = ReadyAt it.
Proof. unfold mergeItem. cbn. destruct (earlier _ _); tauto. Qed.

(** What is due when after an addition: the earliest of the old due time and those asked for. *)
Lemma addItems_due now o keys : forall w w',
  WF w -> addedCounter w + Z.of_nat (length keys) < 2 ^ 64 -> addItems now o w keys = Ret w' ->
  forall k it', items w' !! k = Some it' ->
  earliest (fun d => (exists it, items w !! k = Some it /\ ReadyAt it = d) \/
                     (k, d) ∈ requested now o (rateLimiter w) keys) (ReadyAt it').
Proof.
  induction keys as [|key keys IH]; intros w w' Hw Hlt; cbn [addItems length] in *.
  { intros [= <-] k it' Hk. split; [left; by exists it'|].
    intros u [(it & Hit & <-)|?%not_elem_of_nil]; [|done]. simplify_eq. apply noLater_refl. }
  destruct (addItem_spec now o w key Hw ltac:(lia)) as (w1 & E1 & Hw1 & Hits & _ & Hctr).
  rewrite E1. cbn -[requested]. intros E k it' Hk.
  destruct (IH w1 w' Hw1 ltac:(rewrite Hctr; case_decide; lia) E k it' Hk) as [Hone Hall].
  rewrite (addItem_limiter _ _ _ _ _ E1), Hits in Hone, Hall. rewrite requested_cons.
  unfold earliest. setoid_rewrite elem_of_cons. destruct (decide (k = key)) as [->|Hne]; cycle 1.
  { rewrite lookup_insert_ne in Hone, Hall by done. split; [naive_solver|].
    intros u [?|[?|?]]; naive_solver. }
  rewrite lookup_insert_eq in Hone, Hall.
  assert (Hm : noLater (ReadyAt it') (ReadyAt (merged now o key w))) by (apply Hall; eauto).
  unfold merged in Hone, Hm. split.
  - destruct Hone as [(it & [= <-] & <-)|?]; [|naive_solver].
    destruct (items w !! key) as [old|]; [|naive_solver].
    destruct (mergeItem_one (dueTime now o key w) (optPriority o) old) as [-> | ->]; naive_solver.
  - intros u [(it & Hit & <-)|[E2|?]]; [|injection E2 as ->|by apply Hall; right];
      (eapply noLater_trans; [exact Hm|]).
    + rewrite Hit. apply mergeItem_noLater.
    + destruct (items w !! key) as [old|]; [apply mergeItem_noLater|apply noLater_refl].
Qed.

(** ** The reference of a walk *)

Definition isReady now it : bool := bool_decide (notReady now it = None).

Fixpoint readyPrefix now (l : list (item T)) : list (item T) :=
  match l with
  | [] => []
  | it :: l => if isReady now it then it :: readyPrefix now l else []
  end.

(** The wait for the first item that is not ready. *)
Fixpoint firstWait now (l : list (item T)) : option Z :=
  match l with
  | [] => None
  | it :: l => match notReady now it with Some d => Some d | None => firstWait now l end
  end.

(** What is handed out: [n] workers wait and [arrive] tells who comes on the way; every ready item that
    is not in processing goes to a worker as long as there is one. *)
Fixpoint eligible now (arrive : T -> nat) (lk : gset T) (n : Z) (l : list (item T))
  : list (item T) :=
  match l with
  | [] => []
  | it :: l =>
    if isReady now it then
      let n := n + Z.of_nat (arrive (Key it)) in
      if (0 <? n) && bool_decide (Key it ∉ lk) then it :: eligible now arrive lk (n - 1) l
      else eligible now arrive lk n l
    else []
  end.

(** The workers that come while the walk passes [l]. *)
Definition came (arrive : T -> nat) (l : list (item T)) : nat :=
  foldr (fun it n => arrive (Key it) + n)%nat 0%nat l.

Lemma came_app arrive l1 l2 : came arrive (l1 ++ l2) = (came arrive l1 + came arrive l2)%nat.
Proof. induction l1 as [|it l IH]; [done|]. cbn. unfold came in IH. by rewrite IH, Nat.add_assoc. Qed.

Lemma readyPrefix_cons_ready now it l :
  notReady now it = None -> readyPrefix now (it :: l) = it :: readyPrefix now l.
Proof. intros E. simpl. unfold isReady. by rewrite bool_decide_true. Qed.

Lemma readyPrefix_cons_wait now it l d : notReady now it = Some d -> readyPrefix now (it :: l) = [].
Proof. intros E. simpl. unfold isReady. rewrite bool_decide_false; [done|congruence]. Qed.

Lemma readyPrefix_incl now l it : it ∈ readyPrefix now l -> it ∈ l /\ notReady now it = None.
Proof.
  induction l as [|a l IH]; simpl; [by intros ?%not_elem_of_nil|].
  unfold isReady. case_bool_decide as E; [|by intros ?%not_elem_of_nil].
  intros [->|Hin]%elem_of_cons; [split; [by left|done]|]. split; [right|]; by apply IH.
Qed.

Lemma eligible_cons now arrive lk n it l :
  notReady now it = None ->
  eligible now arrive lk n (it :: l) =
  let n := n + Z.of_nat (arrive (Key it)) in
  if (0 <? n) && bool_decide (Key it ∉ lk) then it :: eligible now arrive lk (n - 1) l
  else eligible now arrive lk n l.
Proof. intros E. cbn [eligible]. unfold isReady. by rewrite bool_decide_true. Qed.

Lemma eligible_wait now arrive lk n it l d :
  notReady now it = Some d -> eligible now arrive lk n (it :: l) = [].
Proof. intros E. cbn [eligible]. unfold isReady. rewrite bool_decide_false; [done|congruence]. Qed.

Lemma eligible_sublist now arrive lk l : forall n,
  eligible now arrive lk n l `sublist_of` filter (fun it => Key it ∉ lk) (readyPrefix now l).
Proof.
  induction l as [|it l IH]; intros n; cbn [eligible readyPrefix]; [constructor|].
  destruct (isReady now it); [|constructor]. cbn zeta. rewrite filter_cons.
  repeat case_bool_decide; repeat case_decide; repeat case_match; try done; bool_to_prop;
    (by apply sublist_skip || by apply sublist_cons || done).
Qed.

Lemma eligible_props now arrive lk n l it :
  it ∈ eligible now arrive lk n l -> it ∈ l /\ notReady now it = None /\ Key it ∉ lk.
Proof.
  intros Hin. pose proof (elem_of_sublist _ _ _ Hin (eligible_sublist now arrive lk l n)) as Hf.
  apply list_elem_of_filter in Hf as [? Hi%readyPrefix_incl]. tauto.
Qed.

(** Only the keys of the list matter. *)
Lemma eligible_ext now arrive (lk lk' : gset T) l : forall n,
  (forall it, it ∈ l -> Key it ∈ lk <-> Key it ∈ lk') ->
  eligible now arrive lk n l = eligible now arrive lk' n l.
Proof.
  induction l as [|it l IH]; intros n Hl; cbn [eligible]; [done|].
  destruct (isReady now it); [|done]. cbn zeta.
  rewrite (bool_decide_ext (Key it ∉ lk) (Key it ∉ lk')) by (rewrite Hl; [done|by left]).
  rewrite !IH by (intros x Hx; apply Hl; by right). done.
Qed.

Lemma filter_ext_in {A} (P Q : A -> Prop) `{!forall x, Decision (P x), !forall x, Decision (Q x)}
  (l : list A) : (forall x, x ∈ l -> P x <-> Q x) -> filter P l = filter Q l.
Proof.
  induction l as [|a l IH]; intros Hl; [done|]. rewrite !filter_cons, IH by set_solver.
  by rewrite (decide_ext (P a) (Q a)) by (apply Hl; left).
Qed.

(** Who gets one: an item that is not in processing is handed out when more workers waited or came up
    to it than items were handed out before it. *)
Lemma eligible_position now arrive lk l : forall n pre it post,
  NoDup (Key <$> l) -> readyPrefix now l = pre ++ it :: post ->
  it ∈ eligible now arrive lk n l <->
  ((Key it ∉ lk) /\
   Z.of_nat (length (filter (fun x => x ∈ eligible now arrive lk n l) pre)) <
     n + Z.of_nat (came arrive (pre ++ [it]))).
Proof.
  induction l as [|a l IH]; intros n pre it post Hnd Hp; cbn [readyPrefix] in Hp;
    [by destruct pre|].
  destruct (isReady now a) eqn:Ea; [|by destruct pre]. cbn [eligible]. rewrite Ea. cbn zeta.
  apply NoDup_cons in Hnd as [Ha Hnd]. set (n' := n + Z.of_nat (arrive (Key a))).
  assert (Hout : forall m, a ∉ eligible now arrive lk m l).
  { intros m [Hin _]%eligible_props. apply Ha, list_elem_of_fmap. by exists a. }
  destruct pre as [|a' pre]; injection Hp as <- Hp.
  { cbn [filter list_filter length came foldr app]. rewrite Nat.add_0_r. fold n'.
    destruct (0 <? n') eqn:En; bool_to_prop; [|naive_solver lia].
    case_bool_decide as Hk; cbn [andb]; [|naive_solver]. split; [|by left]. split; [done|lia]. }
  assert (Hne : it <> a).
  { intros ->. apply Ha, list_elem_of_fmap. exists a. split; [done|].
    apply (readyPrefix_incl now l a). rewrite Hp. apply elem_of_app. right. by left. }
  assert (Hpre : forall x, x ∈ pre -> x <> a).
  { intros x Hx ->. apply Ha, list_elem_of_fmap. exists a. split; [done|].
    apply (readyPrefix_incl now l a). rewrite Hp. apply elem_of_app. by left. }
  cbn [app came foldr]. fold (came arrive (pre ++ [it])). rewrite filter_cons.
  destruct ((0 <? n') && bool_decide (Key a ∉ lk)).
  - rewrite elem_of_cons, (IH (n' - 1) pre it post Hnd Hp).
    rewrite decide_True by (by left). cbn [length].
    rewrite (filter_ext_in (fun x => x ∈ a :: eligible now arrive lk (n' - 1) l)
      (fun x => x ∈ eligible now arrive lk (n' - 1) l)); [naive_solver lia|].
    intros x Hx%Hpre. rewrite elem_of_cons. naive_solver.
  - rewrite (IH n' pre it post Hnd Hp), decide_False by done. naive_solver lia.
Qed.

(** When nobody comes, the first ones go to the workers that wait. *)
Lemma eligible_nobody now arrive lk l : forall n,
  came arrive (readyPrefix now l) = 0%nat ->
  eligible now arrive lk n l =
  take (Z.to_nat n) (filter (fun it => Key it ∉ lk) (readyPrefix now l)).
Proof.
  induction l as [|it l IH]; intros n Hz; cbn [eligible readyPrefix] in *; [by destruct (Z.to_nat n)|].
  destruct (isReady now it); [|by destruct (Z.to_nat n)]. cbn in Hz. fold (came arrive) in Hz.
  apply Nat.eq_add_0 in Hz as [Hz1 Hz]. cbn zeta. rewrite Hz1, Z.add_0_r, filter_cons.
  case_bool_decide as Hk; [rewrite decide_True by done|rewrite decide_False by tauto].
  - destruct (0 <? n) eqn:En; bool_to_prop; cbn [andb]; rewrite !IH by done.
    + replace (Z.to_nat n) with (S (Z.to_nat (n - 1))) by lia. done.
    + replace (Z.to_nat n) with 0%nat by lia. done.
  - rewrite andb_false_r. by apply IH.
Qed.

(** What comes after an item that has to wait has to wait at least as long. *)
Lemma notReady_mono now (a b : item T) d :
  less a b = true -> notReady now a = Some d -> exists d', notReady now b = Some d' /\ d <= d'.
Proof.
  rewrite less_iff. unfold lessP, notReady. destruct (ReadyAt a) as [ta|]; [|done].
  destruct (ReadyAt b) as [tb|]; [|done]. unfold Sub. intros Hl.
  assert (sat64 (ns ta - ns now) <= sat64 (ns tb - ns now)) as Hle by (unfold sat64; lia).
  destruct (0 <? sat64 (ns ta - ns now)) eqn:E; [|done]. intros [= <-]. bool_to_prop.
  exists (sat64 (ns tb - ns now)). rewrite (proj2 (Z.ltb_lt _ _)) by lia. done.
Qed.

Lemma firstWait_least now (l : list (item T)) it d :
  StronglySorted (fun x y => less x y = true) l -> it ∈ l -> notReady now it = Some d ->
  exists d', firstWait now l = Some d' /\ d' <= d.
Proof.
  induction 1 as [|a l Hs IH Ha]; [by intros ?%not_elem_of_nil|].
  intros [->|Hin]%elem_of_cons Hd; simpl.
  - rewrite Hd. eauto with lia.
  - destruct (notReady now a) as [da|] eqn:Ea; [|by apply IH]. exists da. split; [done|].
    apply (proj1 (Forall_forall _ _) Ha) in Hin. destruct (notReady_mono _ _ _ _ Hin Ea) as (?&?&?).
    simplify_eq. done.
Qed.

(** The ready prefix of the tree is all that is ready. *)
Lemma readyPrefix_all now (l : list (item T)) it :
  StronglySorted (fun x y => less x y = true) l ->
  it ∈ readyPrefix now l <-> it ∈ l /\ notReady now it = None.
Proof.
  intros Hs. split; [apply readyPrefix_incl|]. intros [Hin Hr].
  induction Hs as [|a l Hs IH Ha]; [done|]. simpl. unfold isReady.
  case_bool_decide as E.
  - apply elem_of_cons in Hin as [->|Hin]; [by left|right; by apply IH].
  - destruct (notReady now a) as [d|] eqn:Ea; [|done].
    apply elem_of_cons in Hin as [->|Hin]; [congruence|].
    apply (proj1 (Forall_forall _ _) Ha) in Hin.
    destruct (notReady_mono _ _ _ _ Hin Ea) as (?&?&?). congruence.
Qed.

(** ** The walk *)

Lemma getters_frame n w :
  items (getters n w) = items w /\ queue (getters n w) = queue w /\
  addedCounter (getters n w) = addedCounter w /\ becameReady (getters n w) = becameReady w /\
  metrics (getters n w) = metrics w /\ rateLimiter (getters n w) = rateLimiter w /\
  locked (getters n w) = locked w /\ lockedPriority (getters n w) = lockedPriority w /\
  shutdown (getters n w) = shutdown w /\ waiters (getters n w) = waiters w + Z.of_nat n /\
  itemOrWaiterAdded (getters n w) = itemOrWaiterAdded w || (0 <? n)%nat.
Proof.
  induction n as [|n IH].
  { cbn. split_and!; try done; [lia|by rewrite orb_false_r]. }
  destruct IH as (?&?&?&?&?&?&?&?&?&?&?). cbn. split_and!; try done; [lia|by rewrite orb_true_r].
Qed.

(** The state at the load of [waiters] of a visit: the item is marked and workers came. *)
Lemma visit_frame now n it w :
  let w1 := getters n (markReady now w it) in
  items w1 = items w /\ queue w1 = queue w /\ addedCounter w1 = addedCounter w /\
  rateLimiter w1 = rateLimiter w /\ locked w1 = locked w /\
  lockedPriority w1 = lockedPriority w /\ shutdown w1 = shutdown w /\
  waiters w1 = waiters w + Z.of_nat n /\
  itemOrWaiterAdded w1 = itemOrWaiterAdded w || (0 <? n)%nat /\
  (forall k, k ∈ becameReady w1 <-> k ∈ becameReady w \/ (k = Key it /\ ReadyAt it <> None)).
Proof.
  cbn zeta. destruct (getters_frame n (markReady now w it)) as
    (-> & -> & -> & -> & _ & -> & -> & -> & -> & -> & ->).
  unfold markReady. destruct (ReadyAt it) as [t|].
  - case_bool_decide as E; simpl; split_and!; try done; intros k; set_solver.
  - split_and!; try done. intros k. naive_solver.
Qed.

(** What the walk never changes. *)
Lemma ascend_frame now arrive accept l : forall w,
  let s := wState (ascend now arrive accept l w) in
  queue s = queue w /\ addedCounter s = addedCounter w /\ rateLimiter s = rateLimiter w /\
  shutdown s = shutdown w.
Proof.
  induction l as [|it l IH]; intros w; cbn [ascend]; [done|].
  destruct (notReady now it); [done|].
  pose proof (visit_frame now (arrive (Key it)) it w) as (_ & Eq & Ec & Er & _ & _ & Es & _).
  cbn zeta. set (w1 := getters _ _) in *. rewrite <- Eq, <- Ec, <- Er, <- Es.
  repeat case_match; try apply IH; [done|]. exact (IH (takeItem now w1 it)).
Qed.

(** Everything that leaves the tree was eligible, in the order of the tree; all of it is received
    unless the queue is shutting down. *)
Lemma ascend_taken now arrive accept l : forall w, NoDup (Key <$> l) -> 0 <= waiters w ->
  let r := ascend now arrive accept l w in
  let out := eligible now arrive (locked w) (waiters w) l in
  handed r `prefix_of` toDelete r /\ toDelete r `prefix_of` out /\
  (shutdown w = false ->
   handed r = out /\ toDelete r = handed r /\ nextReady r = firstWait now l).
Proof.
  induction l as [|it l IH]; intros w Hnd Hnn; cbn [ascend firstWait].
  { by split_and!. }
  apply NoDup_cons in Hnd as [Hit Hnd].
  destruct (notReady now it) as [d|] eqn:En.
  { rewrite (eligible_wait _ _ _ _ _ _ _ En). by split_and!. }
  rewrite (eligible_cons _ _ _ _ _ _ En).
  pose proof (visit_frame now (arrive (Key it)) it w) as (_ & _ & _ & _ & El & _ & Es & Ew & _).
  cbn zeta. set (w1 := getters _ _) in *. rewrite <- Ew.
  pose proof (IH w1 Hnd ltac:(lia)) as Hpass. rewrite El, Es in Hpass.
  destruct (waiters w1 =? 0) eqn:E0; bool_to_prop.
  { rewrite (proj2 (Z.ltb_ge 0 (waiters w1))) by lia. exact Hpass. }
  rewrite (proj2 (Z.ltb_lt 0 (waiters w1))) by lia. cbn [andb]. rewrite El.
  destruct (decide (Key it ∈ locked w)) as [Hl|Hl].
  { rewrite bool_decide_true, bool_decide_false by tauto. exact Hpass. }
  rewrite bool_decide_false, bool_decide_true by done. clear Hpass.
  specialize (IH (takeItem now w1 it) Hnd).
  cbn [locked waiters shutdown takeItem] in *. rewrite Es in *.
  rewrite (eligible_ext _ _ _ (locked w)) in IH; cycle 1.
  { intros x Hx. rewrite El, elem_of_union, elem_of_singleton. split; [|by right].
    intros [Ek|?]; [|done]. destruct Hit. apply list_elem_of_fmap. by exists x. }
  destruct IH as (IH1 & IH2 & IH3); [lia|].
  destruct (shutdown w && negb (accept (Key it))) eqn:Esd; cbn [handed toDelete nextReady].
  - split; [apply prefix_nil|]. split; [apply prefix_cons, prefix_nil|].
    intros E. by rewrite E in Esd.
  - split; [by apply prefix_cons|]. split; [by apply prefix_cons|].
    intros E. destruct (IH3 E) as (<- & -> & ->). done.
Qed.

(** The state the walk leaves, in terms of what it took. *)
Lemma ascend_state now arrive accept l : forall w,
  let r := ascend now arrive accept l w in
  let ks := Key <$> toDelete r in
  items (wState r) = foldr delete (items w) ks /\
  locked (wState r) = list_to_set ks ∪ locked w /\
  dom (lockedPriority (wState r)) = list_to_set ks ∪ dom (lockedPriority w).
Proof.
  induction l as [|it l IH]; intros w; cbn [ascend].
  { cbn. split_and!; [done|set_solver|set_solver]. }
  destruct (notReady now it) as [d|] eqn:En.
  { cbn. split_and!; [done|set_solver|set_solver]. }
  pose proof (visit_frame now (arrive (Key it)) it w) as (Ei & _ & _ & _ & El & Elp & _).
  cbn zeta. set (w1 := getters _ _) in *.
  assert (Hpass := IH w1). cbn zeta in Hpass. rewrite Ei, El, Elp in Hpass.
  destruct (waiters w1 =? 0); [exact Hpass|]. case_bool_decide; [exact Hpass|]. clear Hpass.
  destruct (shutdown _ && _); cbn [toDelete wState fmap list_fmap foldr list_to_set].
  - cbn [takeItem items locked lockedPriority]. rewrite Ei, El, Elp.
    split_and!; [done|set_solver|rewrite dom_insert_L; set_solver].
  - destruct (IH (takeItem now w1 it)) as (-> & -> & ->).
    cbn [takeItem items locked lockedPriority]. rewrite Ei, El, Elp.
    split_and!; [apply foldr_delete_comm|set_solver|rewrite dom_insert_L; set_solver].
Qed.

(** The count of the waiting workers and the wake-up they leave behind. *)
Lemma ascend_waiters now arrive accept l : forall w, 0 <= waiters w ->
  let r := ascend now arrive accept l w in
  0 <= waiters (wState r) /\
  (shutdown w = false ->
   waiters (wState r) = waiters w + Z.of_nat (came arrive (readyPrefix now l)) -
     Z.of_nat (length (toDelete r)) /\
   itemOrWaiterAdded (wState r) =
     itemOrWaiterAdded w || (0 <? came arrive (readyPrefix now l))%nat).
Proof.
  induction l as [|it l IH]; intros w Hnn; cbn [ascend].
  { cbn. rewrite orb_false_r. split_and!; [done|]. intros _. split; [lia|done]. }
  destruct (notReady now it) as [d|] eqn:En.
  { rewrite (readyPrefix_cons_wait _ _ _ _ En). cbn. rewrite orb_false_r.
    split_and!; [done|]. intros _. split; [lia|done]. }
  rewrite (readyPrefix_cons_ready _ _ _ En). cbn [came foldr]. fold (came arrive (readyPrefix now l)).
  pose proof (visit_frame now (arrive (Key it)) it w) as (_ & _ & _ & _ & _ & _ & Es & Ew & Ef & _).
  cbn zeta. set (w1 := getters _ _) in *.
  assert (Eor : forall b (n m : nat), b || (0 <? n + m)%nat = b || (0 <? n)%nat || (0 <? m)%nat).
  { intros b n m. rewrite <- orb_assoc. f_equal. apply eq_true_iff_eq.
    rewrite orb_true_iff, !Nat.ltb_lt. lia. }
  rewrite Eor, <- Ef, <- Es.
  assert (Hpass := IH w1 ltac:(lia)). cbn zeta in Hpass.
  destruct (waiters w1 =? 0) eqn:E0; [|case_bool_decide]; cycle 1.
  1: { destruct Hpass as [? Hp]. split; [done|]. intros Hs. destruct (Hp Hs). split; [lia|done]. }
  2: { destruct Hpass as [? Hp]. split; [done|]. intros Hs. destruct (Hp Hs). split; [lia|done]. }
  clear Hpass. bool_to_prop. cbn [takeItem shutdown].
  destruct (shutdown w1 && _) eqn:Esd; cbn [toDelete wState takeItem waiters length].
  - split; [lia|]. intros E. by rewrite E in Esd.
  - destruct (IH (takeItem now w1 it)) as [? Hp]; cbn [takeItem waiters] in *; [lia|].
    split; [done|]. intros Hs. destruct (Hp Hs) as [-> ->]. cbn [takeItem itemOrWaiterAdded]. split; [lia|done].
Qed.

(** The walk over [l] meets [k] as an item whose delay has passed. *)
Definition metReady now (l : list (item T)) k : Prop :=
  exists it, it ∈ readyPrefix now l /\ Key it = k /\ ReadyAt it <> None.

Lemma metReady_cons now it l k :
  notReady now it = None ->
  metReady now (it :: l) k <-> (k = Key it /\ ReadyAt it <> None) \/ metReady now l k.
Proof.
  intros E. unfold metReady. rewrite (readyPrefix_cons_ready _ _ _ E).
  setoid_rewrite elem_of_cons. naive_solver.
Qed.

(** The keys that count as ready after the walk: those that did or that the walk met, if they are
    still in the tree. *)
Lemma ascend_ready now arrive accept l : forall w k, NoDup (Key <$> l) ->
  let r := ascend now arrive accept l w in
  (k ∈ becameReady (wState r) ->
     (k ∉ (Key <$> toDelete r)) /\ (k ∈ becameReady w \/ metReady now l k)) /\
  (shutdown w = false -> (k ∉ (Key <$> toDelete r)) -> (k ∈ becameReady w \/ metReady now l k) ->
   k ∈ becameReady (wState r)).
Proof.
  induction l as [|it l IH]; intros w k Hnd; cbn [ascend].
  { cbn. unfold metReady. cbn. setoid_rewrite elem_of_nil. naive_solver. }
  destruct (notReady now it) as [d|] eqn:En.
  { unfold metReady. rewrite (readyPrefix_cons_wait _ _ _ _ En). cbn.
    setoid_rewrite elem_of_nil. naive_solver. }
  rewrite (metReady_cons _ _ _ _ En).
  pose proof (visit_frame now (arrive (Key it)) it w) as (_ & _ & _ & _ & _ & _ & Es & _ & _ & Eb).
  specialize (Eb k). cbn zeta. set (w1 := getters _ _) in *.
  apply NoDup_cons in Hnd as [Hit Hnd].
  assert (Hmet : metReady now l (Key it) -> False).
  { intros (x & [Hx _]%readyPrefix_incl & Ek & _). apply Hit, list_elem_of_fmap. by exists x. }
  assert (Hpass : let r := ascend now arrive accept l w1 in
    (k ∈ becameReady (wState r) -> (k ∉ (Key <$> toDelete r)) /\
      (k ∈ becameReady w \/ (k = Key it /\ ReadyAt it <> None) \/ metReady now l k)) /\
    (shutdown w = false -> (k ∉ (Key <$> toDelete r)) ->
      (k ∈ becameReady w \/ (k = Key it /\ ReadyAt it <> None) \/ metReady now l k) ->
      k ∈ becameReady (wState r))).
  { destruct (IH w1 k Hnd) as [IH1 IH2]. rewrite Es in IH2. rewrite Eb in IH1, IH2. cbn zeta. tauto. }
  destruct (waiters w1 =? 0); [exact Hpass|].
  case_bool_decide as Hl; [exact Hpass|]. clear Hpass.
  destruct (shutdown (takeItem now w1 it) && _) eqn:Esd.
  - cbn [toDelete wState takeItem becameReady shutdown fmap list_fmap] in *.
    rewrite Es in Esd. rewrite elem_of_difference, Eb.
    split; [|intros E; by rewrite E in Esd]. intros [Hk Hne]. split; [set_solver|tauto].
  - destruct (IH (takeItem now w1 it) k Hnd) as [IH1 IH2].
    cbn [toDelete wState takeItem becameReady shutdown fmap list_fmap] in *.
    rewrite Es in IH2. rewrite elem_of_difference, Eb, elem_of_singleton in IH1, IH2.
    rewrite not_elem_of_cons. split.
    + intros Hk. destruct (IH1 Hk) as [Hks Hd]. split; [|tauto]. split; [|done].
      intros ->. tauto.
    + intros Hs [Hne Hks] Hd. apply IH2; tauto.
Qed.

(** ** One iteration of spin *)

Lemma deleteAll_elems w ds : WF w -> forall q,
  btOk less q -> (forall x, x ∈ Ascend less q -> x ∈ elems w) -> (forall x, x ∈ ds -> x ∈ elems w) ->
  btOk less (deleteAll ds q) /\
  forall x, x ∈ Ascend less (deleteAll ds q) <-> x ∈ Ascend less q /\ x ∉ ds.
Proof.
  intros Hw. induction ds as [|d ds IH]; intros q Hq Hincl Hds; simpl.
  { split; [done|]. intros x. set_solver. }
  assert (Hd : d ∈ elems w) by (apply Hds; by left).
  destruct (IH (btDelete less d q).1) as [Hok Hel].
  - by apply delete_ok.
  - intros x Hx. apply elem_delete in Hx as [Hx _]; [|done]. by apply Hincl.
  - intros x Hx. apply Hds. by right.
  - split; [done|]. intros x. rewrite Hel, elem_delete by done. split.
    + intros [[Hx Hs] Hnd]. split; [done|]. intros [->|?]%elem_of_cons; [|done].
      by rewrite same_refl in Hs.
    + intros [Hx Hnd]. apply not_elem_of_cons in Hnd as [Hne Hnd]. split; [split; [done|]|done].
      apply not_true_iff_false. intros Hs. apply Hne. symmetry.
      exact (wf_same w d x Hw Hd (Hincl x Hx) Hs).
Qed.

(** A queue that has lost some items, and is otherwise the same as far as well-formedness goes. *)
Lemma WF_without w w' gone :
  WF w -> btOk less (queue w') -> (forall it, it ∈ gone -> it ∈ elems w) ->
  (forall it, it ∈ elems w' <-> it ∈ elems w /\ it ∉ gone) ->
  items w' = foldr delete (items w) (Key <$> gone) -> addedCounter w' = addedCounter w ->
  dom (lockedPriority w') = locked w' ->
  (forall k, k ∈ becameReady w' -> (k ∉ (Key <$> gone)) /\ is_Some (items w !! k)) ->
  0 <= waiters w' -> WF w'.
Proof.
  intros Hw Hok Hgone Hel Hi Hc Hl Hr Hwt.
  assert (Hkey : forall it, it ∈ elems w -> Key it ∈ (Key <$> gone) -> it ∈ gone).
  { intros it Hit (y & Ey & Hy)%list_elem_of_fmap.
    by rewrite (wf_key_inj w it y Hw Hit (Hgone y Hy) Ey). }
  split; [done| | | | |done| |done].
  - intros k it. rewrite Hi, lookup_foldr_delete, Hel. case_bool_decide as Hk.
    + split; [done|]. intros [[Hit Hnt] <-]. by destruct Hnt; apply Hkey.
    + rewrite (wf_items w Hw). split; [|by intros [[Hit _] <-]].
      intros [Hit <-]. split_and!; [done| |done]. intros Hx. apply Hk, list_elem_of_fmap. by exists it.
  - intros it [Hit _]%Hel. rewrite Hc. by apply (wf_counter w Hw).
  - intros a b [Ha _]%Hel [Hb _]%Hel. by apply (wf_inj w Hw).
  - rewrite Hc. apply Hw.
  - intros k [Hk Hs]%Hr. by rewrite Hi, lookup_foldr_delete, bool_decide_false.
Qed.

(** [spin] keeps the queue well formed; the items that leave the tree were eligible. *)
Lemma spin_spec now arrive accept w :
  WF w ->
  let out := eligible now arrive (locked w) (waiters w) (elems w) in
  let n := came arrive (readyPrefix now (elems w)) in
  exists taken,
    let w' := (spin now arrive accept w).1.1 in
    (spin now arrive accept w).1.2 `prefix_of` taken /\ taken `prefix_of` out /\
    (shutdown w = false ->
     taken = out /\ (spin now arrive accept w).1.2 = out /\
     (spin now arrive accept w).2 = firstWait now (elems w) /\
     (forall k, k ∈ becameReady w' <-> (k ∉ (Key <$> out)) /\
        (k ∈ becameReady w \/ metReady now (elems w) k)) /\
     waiters w' = waiters w + Z.of_nat n - Z.of_nat (length out) /\
     itemOrWaiterAdded w' = (0 <? n)%nat) /\
    WF w' /\ (forall it, it ∈ elems w' <-> it ∈ elems w /\ it ∉ taken) /\
    locked w' = list_to_set (Key <$> taken) ∪ locked w /\
    items w' = foldr delete (items w) (Key <$> taken) /\
    shutdown w' = shutdown w /\ rateLimiter w' = rateLimiter w /\ addedCounter w' = addedCounter w.
Proof.
  intros Hw. pose proof (wf_NoDup_keys w Hw) as Hnd. pose proof (wf_waiters w Hw) as Hnn. unfold spin.
  change (Ascend less (queue w)) with (elems w).
  set (r := ascend now arrive accept (elems w) (wakeUp w)). exists (toDelete r). cbn [fst snd].
  pose proof (ascend_taken now arrive accept (elems w) (wakeUp w) Hnd Hnn) as (Hp1 & Hp2 & Hrun).
  pose proof (ascend_state now arrive accept (elems w) (wakeUp w)) as (Hi & Hl & Hlp).
  pose proof (ascend_waiters now arrive accept (elems w) (wakeUp w) Hnn) as (Hwt & Hwrun).
  pose proof (ascend_frame now arrive accept (elems w) (wakeUp w)) as (Hq & Hc & Hrl & Hs).
  fold r in Hp1, Hp2, Hrun, Hi, Hl, Hlp, Hwt, Hwrun, Hq, Hc, Hrl, Hs.
  cbn [wakeUp queue items locked lockedPriority waiters shutdown rateLimiter addedCounter
    itemOrWaiterAdded] in *.
  assert (Hds : forall x, x ∈ toDelete r -> x ∈ elems w).
  { intros x Hx. destruct Hp2 as [tl Ht].
    by apply (eligible_props now arrive (locked w) (waiters w)); rewrite Ht; apply elem_of_app; left. }
  destruct (deleteAll_elems w (toDelete r) Hw (queue (wState r))) as [Hok Hel];
    [rewrite Hq; apply Hw|by rewrite Hq|done|].
  rewrite Hq in Hel.
  split; [done|]. split; [done|]. split.
  { intros Hsd. destruct (Hrun Hsd) as (E1 & E2 & E3), (Hwrun Hsd) as [E4 E5].
    split_and!; [by rewrite E2|done|done| |by rewrite E4, E2, E1|done].
    intros k. rewrite <- E1, <- E2. cbn [becameReady].
    pose proof (ascend_ready now arrive accept (elems w) (wakeUp w) k Hnd) as [Hr1 Hr2].
    fold r in Hr1, Hr2. cbn [wakeUp becameReady shutdown] in *. tauto. }
  split; [|split; [intros it; unfold elems; cbn [queue]; by rewrite Hq, Hel|by split_and!]].
  apply (WF_without w _ (toDelete r)); cbn [queue items addedCounter lockedPriority locked waiters];
    [done|exact Hok|done| |by rewrite Hi|done|by rewrite Hlp, Hl, (wf_locked w Hw)| |done].
  - intros it. unfold elems. cbn [queue]. by rewrite Hq, Hel.
  - intros k. cbn [becameReady]. intros Hk.
    destruct (proj1 (ascend_ready now arrive accept (elems w) (wakeUp w) k Hnd) Hk) as [Hks Hd].
    split; [done|].
    destruct Hd as [Hd|(it & [Hit _]%readyPrefix_incl & <- & _)]; [by apply (wf_ready w Hw)|].
    exists it. by apply (wf_items w Hw).
Qed.

End Spin.
End PQSpin.
