(* ===== verification/PQTrace.v ===== *)
(** * The priority queue: runs

    The operations of the queue as a step relation, in any order and from any number of goroutines.
    Additions, Done and the walk of [spin] exclude each other by the queue's locks, so a run is a
    sequence of them; GetWithPriority takes no lock, so workers come both between two operations
    ([step_get]) and in the middle of a walk (the [arrive] of [step_spin]).  The invariants
    of the reachable states: well-formedness, at most one worker per key, and no lost wake-up of
    [spin].  Also the statements about single operations that a client of the queue relies on. *)

From S2P Require Import Prelude GoTime RateLimiter BTree PriorityQueue PriorityQueueFacts PQSpin.
Import GoTime PriorityQueue PQFacts PQSpin.

Module PQTrace.

(** What workers see: an item received, a key released. *)
Inductive qevent (T : Type) : Type :=
| EvHand (it : item T)
| EvDone (key : T).
Arguments EvHand {T} it.
Arguments EvDone {T} key.

Section Runs.
Context {T : Type} `{Countable T}.
Context {B R M : Type} `{!BTree (@less T) B, !BTreeLaws (@less T) B} `{!RateLimiter T R}
  `{!QueueMetrics T M}.
Implicit Types (w : PQ T B R M) (it : item T) (key : T) (now : Time) (o : AddOpts).

(** The queue and what [spin] is waiting for: the time it ran last and its timer. *)
Record Run : Type := mkRun { runQueue : PQ T B R M; lastSpin : Time; timer : option Z }.

Inductive qstep : Run -> list (qevent T) -> Run -> Prop :=
| step_add now o keys w w' t tm :
    AddWithOpts now o keys w = Ret w' -> addedCounter w + Z.of_nat (length keys) < 2 ^ 64 ->
    qstep (mkRun w t tm) [] (mkRun w' t tm)
| step_get w t tm :
    qstep (mkRun w t tm) [] (mkRun (enterGet w).1 t tm)
| step_spin now arrive accept w w' t tm out tm' :
    spin now arrive accept w = (w', out, tm') ->
    qstep (mkRun w t tm) (EvHand <$> out) (mkRun w' now tm')
| step_done now key w t tm :
    qstep (mkRun w t tm) [EvDone key] (mkRun (Done now key w) t tm)
| step_forget now key w t tm :
    qstep (mkRun w t tm) [] (mkRun (Forget now key w) t tm)
| step_shutdown w t tm :
    qstep (mkRun w t tm) [] (mkRun (ShutDown w) t tm).

Inductive qruns (r0 : Run) : list (qevent T) -> Run -> Prop :=
| runs_nil : qruns r0 [] r0
| runs_step tr r tr' r' : qruns r0 tr r -> qstep r tr' r' -> qruns r0 (tr ++ tr') r'.

(** ** Well-formedness of every reachable queue *)

Lemma AddWithOpts_run now o keys w w' :
  WF w -> AddWithOpts now o keys w = Ret w' -> addedCounter w + Z.of_nat (length keys) < 2 ^ 64 ->
  WF w' /\ locked w' = locked w /\ waiters w' = waiters w /\ shutdown w' = shutdown w /\
  (w' = w \/ itemOrWaiterAdded w' = true).
Proof.
  intros Hw Ha Hlt. unfold AddWithOpts in Ha. destruct (shutdown w) eqn:Es.
  { injection Ha as <-. split_and!; try done. by left. }
  destruct (addItems_spec now o keys w Hw Hlt) as (w1 & E & Hw1 & (Hb & Hl & Hlp & Hs & Hwt) & _).
  destruct keys as [|k keys].
  { simpl in Ha. injection Ha as <-. split_and!; try done. by left. }
  rewrite E in Ha. injection Ha as <-. split_and!; simpl; try congruence; [|by right].
  destruct Hw1. by split.
Qed.

Lemma enterGet_WF w : WF w -> WF (enterGet w).1.
Proof.
  intros Hw. unfold enterGet. destruct (shutdown w); [done|]. simpl. destruct Hw. split; try done.
  simpl. lia.
Qed.

Lemma Done_WF now key w : WF w -> WF (Done now key w).
Proof.
  intros Hw. unfold Done. destruct Hw. split; try done. simpl.
  by rewrite dom_delete_L, wf_locked.
Qed.

Lemma Forget_WF now key w : WF w -> WF (Forget now key w).
Proof. intros Hw. destruct Hw. by split. Qed.

Lemma ShutDown_WF w : WF w -> WF (ShutDown w).
Proof. intros Hw. destruct Hw. by split. Qed.

Lemma qstep_WF r tr r' : qstep r tr r' -> WF (runQueue r) -> WF (runQueue r').
Proof.
  destruct 1 as [now o keys w w' t tm Ha Hc|w t tm|now arrive accept w w' t tm out tm' Hs|
    now key w t tm|now key w t tm|w t tm]; simpl; intros Hw.
  - by eapply AddWithOpts_run.
  - by apply enterGet_WF.
  - destruct (spin_spec now arrive accept w Hw) as (taken & Hsp). rewrite Hs in Hsp. apply Hsp.
  - by apply Done_WF.
  - by apply Forget_WF.
  - by apply ShutDown_WF.
Qed.

Lemma qruns_WF r0 tr r : WF (runQueue r0) -> qruns r0 tr r -> WF (runQueue r).
Proof. intros Hw. induction 1; [done|]. by eapply qstep_WF. Qed.

(** ** One worker per key *)

(** The keys received and not released since. *)
Definition outstanding1 (s : gset T) (e : qevent T) : gset T :=
  match e with EvHand it => {[ Key it ]} ∪ s | EvDone key => s ∖ {[ key ]} end.
Definition outstanding (tr : list (qevent T)) : gset T := foldl outstanding1 ∅ tr.

(** No key is received while it is outstanding. *)
Definition exclusive (tr : list (qevent T)) : Prop :=
  forall tr1 it tr2, tr = tr1 ++ EvHand it :: tr2 -> Key it ∉ outstanding tr1.

Lemma outstanding_snoc tr e : outstanding (tr ++ [e]) = outstanding1 (outstanding tr) e.
Proof. unfold outstanding. by rewrite foldl_app. Qed.

Lemma exclusive_snoc tr e :
  exclusive tr -> match e with EvHand it => Key it ∉ outstanding tr | EvDone _ => True end ->
  exclusive (tr ++ [e]).
Proof.
  intros Hex He tr1 it tr2 E. destruct (decide (tr2 = [])) as [->|Hne].
  - apply app_inj_tail in E as [-> ->]. done.
  - destruct (exists_last Hne) as (tr3 & x & ->).
    rewrite app_comm_cons, app_assoc in E. apply app_inj_tail in E as [E _]. by eapply Hex.
Qed.

Lemma hand_all (l : list (item T)) : forall tr (lk : gset T),
  exclusive tr -> outstanding tr ⊆ lk -> NoDup (Key <$> l) -> (forall it, it ∈ l -> Key it ∉ lk) ->
  exclusive (tr ++ (EvHand <$> l)) /\
  outstanding (tr ++ (EvHand <$> l)) ⊆ list_to_set (Key <$> l) ∪ lk.
Proof.
  induction l as [|it l IH]; intros tr lk Hex Hsub Hnd Hl; simpl.
  { rewrite app_nil_r. split; [done|set_solver]. }
  apply NoDup_cons in Hnd as [Hit Hnd]. rewrite (app_assoc tr [EvHand it] _ : tr ++ EvHand it :: _ = _).
  destruct (IH (tr ++ [EvHand it]) ({[ Key it ]} ∪ lk)) as [H1 H2].
  - apply exclusive_snoc; [done|]. intros Hin. apply (Hl it); [by left|by apply Hsub].
  - rewrite outstanding_snoc. simpl. set_solver.
  - done.
  - intros x Hx. apply not_elem_of_union. split; [|apply Hl; by right].
    rewrite elem_of_singleton. intros E. apply Hit, list_elem_of_fmap. by exists x.
  - split; [done|]. set_solver.
Qed.

(** The locked keys are the outstanding ones, plus those abandoned by a shutdown. *)
Definition lockInv (tr : list (qevent T)) w : Prop :=
  exclusive tr /\ outstanding tr ⊆ locked w /\ (shutdown w = false -> locked w ⊆ outstanding tr).

Lemma prefix_elem {A} (l1 l2 : list A) x : l1 `prefix_of` l2 -> x ∈ l1 -> x ∈ l2.
Proof. intros [l ->] ?. by apply elem_of_app; left. Qed.

Lemma prefix_NoDup {A} (l1 l2 : list A) : l1 `prefix_of` l2 -> NoDup l2 -> NoDup l1.
Proof. intros [l ->] Hnd. by apply NoDup_app in Hnd as [? _]. Qed.

Lemma prefix_fmap {A C} (f : A -> C) (l1 l2 : list A) :
  l1 `prefix_of` l2 -> f <$> l1 `prefix_of` f <$> l2.
Proof. intros [l ->]. rewrite fmap_app. by eexists. Qed.

Lemma readyPrefix_sublist now (l : list (item T)) : readyPrefix now l `sublist_of` l.
Proof.
  induction l as [|a l IH]; [done|]. cbn [readyPrefix].
  destruct (isReady now a); [by apply sublist_skip|apply sublist_nil_l].
Qed.

Lemma eligible_NoDup now arrive w n :
  WF w -> NoDup (Key <$> eligible now arrive (locked w) n (elems w)).
Proof.
  intros Hw. apply NoDup_fmap_2_strong.
  - intros a b [Ha _]%eligible_props [Hb _]%eligible_props. by apply (wf_key_inj w).
  - eapply sublist_NoDup; [by apply sorted_NoDup, (wf_sorted w)|].
    etransitivity; [apply eligible_sublist|]. etransitivity; [apply sublist_filter|].
    apply readyPrefix_sublist.
Qed.

Lemma qstep_lockInv r tr' r' tr :
  qstep r tr' r' -> WF (runQueue r) -> lockInv tr (runQueue r) -> lockInv (tr ++ tr') (runQueue r').
Proof.
  destruct 1 as [now o keys w w' t tm Ha Hc|w t tm|now arrive accept w w' t tm out tm' Hs|
    now key w t tm|now key w t tm|w t tm]; cbn [runQueue]; intros Hw (Hex & Hsub & Hsup);
    rewrite ?app_nil_r.
  - destruct (AddWithOpts_run now o keys w w' Hw Ha Hc) as (_ & El & _ & Es & _).
    unfold lockInv. by rewrite El, Es.
  - unfold enterGet. destruct (shutdown w) eqn:E.
    + split; [exact Hex|split; [exact Hsub|]]. cbn [fst]. by rewrite E.
    + split; [exact Hex|split; [exact Hsub|intros _; by apply Hsup]].
  - destruct (spin_spec now arrive accept w Hw) as
      (taken & Hp & Hpe & Hrun & _ & _ & El & _ & Es & _).
    rewrite Hs in *. cbn [fst snd] in *.
    assert (Hin1 : forall x, x ∈ out -> x ∈ taken) by (intros x; by apply prefix_elem).
    assert (Hin2 : forall x, x ∈ taken -> x ∈ eligible now arrive (locked w) (waiters w) (elems w))
      by (intros x; by apply prefix_elem).
    destruct (hand_all out tr (locked w)) as [H1 H2]; [done|done| | |].
    + eapply prefix_NoDup; [|exact (eligible_NoDup now arrive w (waiters w) Hw)].
      apply prefix_fmap. by transitivity taken.
    + intros it Hit. by eapply eligible_props, Hin2, Hin1.
    + split; [done|]. rewrite El. split.
      * etransitivity; [exact H2|]. apply union_mono_r. intros k.
        rewrite !elem_of_list_to_set, !list_elem_of_fmap. naive_solver.
      * rewrite Es. intros Hrunning. destruct (Hrun Hrunning) as (Et & Eo & _). rewrite Et, <- Eo.
        specialize (Hsup Hrunning). clear -Hsup. revert tr Hsup. generalize (locked w).
        induction out as [|it out IH]; intros lk tr Hsup; simpl; [rewrite app_nil_r; set_solver|].
        rewrite (app_assoc tr [EvHand it] _ : tr ++ EvHand it :: _ = _). etransitivity; [|apply (IH ({[ Key it ]} ∪ lk))]; [set_solver|].
        rewrite outstanding_snoc. simpl. set_solver.
  - unfold lockInv. rewrite outstanding_snoc. simpl. split; [by apply exclusive_snoc|].
    split; [set_solver|]. intros E. specialize (Hsup E). set_solver.
  - exact (conj Hex (conj Hsub Hsup)).
  - by split.
Qed.

Lemma qruns_lockInv r0 tr r :
  WF (runQueue r0) -> locked (runQueue r0) = ∅ -> qruns r0 tr r -> lockInv tr (runQueue r).
Proof.
  intros Hw Hl Hr. assert (WF (runQueue r) /\ lockInv tr (runQueue r)) as [_ ?]; [|done].
  induction Hr as [|tr r tr' r' Hr IH Hst].
  - split; [done|]. split; [by intros [|??] ??|]. rewrite Hl. by split.
  - destruct IH as [Hwf IH]. split; [by eapply qstep_WF|]. by eapply qstep_lockInv.
Qed.

(** C5. A key is with at most one worker: in every run from a new queue, between two hand-offs of a key
    there is a Done of it; and as long as the queue is not shut down, the locked keys are exactly
    those received and not released. *)
Theorem mutual_exclusion rl m t tr r :
  qruns (mkRun (New rl m) t None) tr r ->
  exclusive tr /\ (shutdown (runQueue r) = false -> locked (runQueue r) = outstanding tr).
Proof.
  intros Hr. destruct (qruns_lockInv (mkRun (New rl m) t None) _ _ (New_WF rl m) eq_refl Hr) as (? & ? & Hs).
  split; [done|]. intros E. specialize (Hs E). set_solver.
Qed.

(** ** No lost wake-up *)

(** Either a wake-up of [spin] is pending, or what is left in the queue cannot be handed out now and
    the timer runs out when the next item is due. *)
Definition quiet r : Prop :=
  let w := runQueue r in
  itemOrWaiterAdded w = true \/ shutdown w = true \/
  forall it, it ∈ elems w ->
    match notReady (lastSpin r) it with
    | Some d => exists d', timer r = Some d' /\ d' <= d
    | None => waiters w = 0 \/ Key it ∈ locked w
    end.

(** An item that could be handed out and stays, although nobody came: no worker is left. *)
Lemma eligible_exhausted now arrive lk n (l : list (item T)) it :
  came arrive (readyPrefix now l) = 0%nat ->
  it ∈ l -> StronglySorted (fun x y => less x y = true) l -> notReady now it = None -> Key it ∉ lk ->
  it ∉ eligible now arrive lk n l -> length (eligible now arrive lk n l) = Z.to_nat n.
Proof.
  intros Hz Hin Hs Hr Hl. rewrite (eligible_nobody _ _ _ _ _ Hz), length_take. intros Hne.
  set (f := filter _ _) in *. destruct (decide (Z.to_nat n <= length f)%nat); [lia|].
  destruct Hne. rewrite take_ge by lia. apply list_elem_of_filter. split; [done|].
  by apply readyPrefix_all.
Qed.

Lemma spin_quiet now arrive accept w w' out tm' t tm :
  WF w -> spin now arrive accept w = (w', out, tm') -> quiet (mkRun w t tm) ->
  quiet (mkRun w' now tm').
Proof.
  intros Hw Hs _. destruct (spin_spec now arrive accept w Hw) as
    (taken & _ & _ & Hrun & Hw' & Hel & El & _ & Es & _).
  rewrite Hs in *. cbn [fst snd] in *. unfold quiet; cbn [runQueue lastSpin timer].
  destruct (shutdown w) eqn:Esd; [by right; left|].
  destruct (Hrun eq_refl) as (-> & _ & Etm & _ & Ewt & Efl). rewrite Efl.
  destruct (came arrive (readyPrefix now (elems w))) as [|n] eqn:Ec; [|by left].
  right; right. intros it [Hit Hnt]%Hel. destruct (notReady now it) as [d|] eqn:En.
  - rewrite Etm. by apply (firstWait_least now (elems w) it d); [apply wf_sorted| |].
  - destruct (decide (Key it ∈ locked w)) as [Hl|Hl]; [right; rewrite El; set_solver|left].
    rewrite Ewt, (eligible_exhausted _ _ _ _ _ it Ec) by (done || by apply wf_sorted).
    pose proof (wf_waiters w Hw). lia.
Qed.

Lemma qstep_quiet r tr r' : qstep r tr r' -> WF (runQueue r) -> quiet r -> quiet r'.
Proof.
  destruct 1 as [now o keys w w' t tm Ha Hc|w t tm|now arrive accept w w' t tm out tm' Hs|
    now key w t tm|now key w t tm|w t tm]; cbn [runQueue]; intros Hw Hq.
  - destruct (AddWithOpts_run now o keys w w' Hw Ha Hc) as (_ & _ & _ & _ & [->|E]); [done|].
    by left.
  - unfold enterGet. destruct (shutdown w) eqn:E; [done|]. by left.
  - by eapply spin_quiet.
  - by left.
  - done.
  - right. by left.
Qed.

(** C6. No wake-up is lost: in every reachable state of a queue that is not shut down and whose [spin]
    has no wake-up pending, nothing that could be handed out is waiting next to a waiting worker, and
    the timer of [spin] runs out no later than the first delay. *)
Theorem no_lost_wakeup rl m t tr r :
  qruns (mkRun (New rl m) t None) tr r -> quiet r.
Proof.
  intros Hr. assert (WF (runQueue r) /\ quiet r) as [_ ?]; [|done].
  induction Hr as [|tr r tr' r' Hr IH Hst].
  - split; [apply New_WF|]. right; right. unfold elems. simpl. rewrite btNew_empty.
    by intros it ?%not_elem_of_nil.
  - destruct IH as [Hw IH]. split; [by eapply qstep_WF|]. by eapply qstep_quiet.
Qed.

(** ** What a client relies on *)

(** C15. A call of AddWithOpts on a running queue never panics and keeps the queue well formed.  The keys it
    does not name keep their entries; a key that was queued keeps its place in line, gets the greater
    of both priorities and is due at the earlier of its old time and the ones asked for; a key that was
    not queued is queued with the priority asked for and is due at the earliest time asked for.  What
    is asked for is the delay given or, with a rate limiter, the limiter's when no delay is given or
    the limiter's is shorter.  [spin] is woken up. *)
Theorem AddWithOpts_merges now o keys w :
  WF w -> shutdown w = false -> addedCounter w + Z.of_nat (length keys) < 2 ^ 64 -> keys <> [] ->
  exists w', AddWithOpts now o keys w = Ret w' /\ WF w' /\ itemOrWaiterAdded w' = true /\
    locked w' = locked w /\ waiters w' = waiters w /\
    (forall k, k ∉ keys -> items w' !! k = items w !! k) /\
    forall k, k ∈ keys -> exists it', items w' !! k = Some it' /\
      match items w !! k with
      | Some it =>
        AddedCounter it' = AddedCounter it /\ Priority it' = Z.max (Priority it) (optPriority o) /\
        earliest (fun d => d = ReadyAt it \/ (k, d) ∈ requested now o (rateLimiter w) keys)
          (ReadyAt it')
      | None =>
        addedCounter w <= AddedCounter it' /\ Priority it' = optPriority o /\
        earliest (fun d => (k, d) ∈ requested now o (rateLimiter w) keys) (ReadyAt it')
      end.
Proof.
  intros Hw Hs Hlt Hne. unfold AddWithOpts. rewrite Hs.
  destruct (addItems_spec now o keys w Hw Hlt) as (w1 & Ea & Hw1 & Hsame & Hout & Hold & Hnew).
  pose proof (addItems_due now o keys w w1 Hw Hlt Ea) as Hdue. rewrite Ea.
  destruct Hsame as (Hb & Hl & Hlp & Hs1 & Hwt). destruct keys as [|k0 keys]; [done|].
  eexists. split; [done|]. split; [destruct Hw1; by split|]. cbn -[requested]. split_and!; [done..|].
  intros k Hk. destruct (items w !! k) as [it|] eqn:E.
  - destruct (Hold k it E) as (it' & Hit' & ? & ? & Hp). exists it'. rewrite decide_True in Hp by done.
    split_and!; [done..|]. destruct (Hdue k it' Hit') as [Hone Hall]. rewrite E in Hone, Hall.
    split; [naive_solver|]. intros u Hu. apply Hall. naive_solver.
  - destruct (Hnew k Hk E) as (it' & Hit' & ? & ?). exists it'. split_and!; [done..|].
    destruct (Hdue k it' Hit') as [Hone Hall]. rewrite E in Hone, Hall. split; [naive_solver|].
    intros u Hu. apply Hall. naive_solver.
Qed.

(** C14. One iteration of [spin] on a running queue, with any number of workers that come while it walks
    over the tree.  The items received are among the ready prefix of the tree without the keys in
    processing, in its order, and one of these is received exactly when more workers waited or had
    come by the time the walk reached it than items had been handed out; when nobody comes that is the
    ready prefix cut to the number of waiting workers.  The items received leave the tree and the map
    and nothing else does; their keys are locked; the count of waiting workers is right; a wake-up is
    pending if somebody came; and the timer is the wait of the first item that is not ready. *)
Theorem spin_hands_eligible now arrive accept w :
  WF w -> shutdown w = false ->
  let ready := readyPrefix now (elems w) in
  let free := filter (fun it => Key it ∉ locked w) ready in
  let out := (spin now arrive accept w).1.2 in
  let w' := (spin now arrive accept w).1.1 in
  out `sublist_of` free /\
  (forall pre it post, ready = pre ++ it :: post ->
     it ∈ out <-> ((Key it ∉ locked w) /\
       Z.of_nat (length (filter (fun x => x ∈ out) pre)) <
         waiters w + Z.of_nat (came arrive (pre ++ [it])))) /\
  (came arrive ready = 0%nat -> out = take (Z.to_nat (waiters w)) free) /\
  (spin now arrive accept w).2 = firstWait now (elems w) /\
  WF w' /\ (forall it, it ∈ elems w' <-> it ∈ elems w /\ it ∉ out) /\
  locked w' = list_to_set (Key <$> out) ∪ locked w /\
  waiters w' = waiters w + Z.of_nat (came arrive ready) - Z.of_nat (length out) /\
  itemOrWaiterAdded w' = (0 <? came arrive ready)%nat.
Proof.
  intros Hw Hs. destruct (spin_spec now arrive accept w Hw) as
    (taken & _ & _ & Hrun & Hw' & Hel & El & _).
  destruct (Hrun Hs) as (-> & E & Et & _ & Ewt & Efl). cbn zeta. rewrite E. split_and!; try done.
  - apply eligible_sublist.
  - intros pre it post Hp. by apply (eligible_position _ _ _ _ _ _ _ post); [apply wf_NoDup_keys|].
  - by apply eligible_nobody.
Qed.

(** Of two items of a sorted list the lesser one comes first. *)
Lemma sorted_before (l : list (item T)) a b :
  StronglySorted (fun x y => less x y = true) l -> a ∈ l -> b ∈ l -> a <> b ->
  less a b = true \/ exists pre mid post, l = pre ++ b :: mid ++ a :: post.
Proof.
  induction 1 as [|x l Hs IH Hx]; [by intros ?%not_elem_of_nil|].
  intros [->|Ha]%elem_of_cons [->|Hb]%elem_of_cons Hne; [done| | |].
  - left. by apply (proj1 (Forall_forall _ _) Hx).
  - apply list_elem_of_split in Ha as (mid & post & ->). right. by exists [], mid, post.
  - destruct (IH Ha Hb Hne) as [?|(pre & mid & post & ->)]; [by left|right].
    by exists (x :: pre), mid, post.
Qed.

Lemma readyPrefix_sorted now (l : list (item T)) :
  StronglySorted (fun x y => less x y = true) l ->
  StronglySorted (fun x y => less x y = true) (readyPrefix now l).
Proof.
  induction 1 as [|x l Hs IH Hx]; [constructor|]. cbn [readyPrefix].
  destruct (isReady now x); constructor; [done|]. apply Forall_forall.
  intros y [Hy _]%readyPrefix_incl. by apply (proj1 (Forall_forall _ _) Hx).
Qed.

(** An item that stays although a later one goes: somebody came after it was passed. *)
Lemma passed_over now arrive w a b :
  WF w -> let out := eligible now arrive (locked w) (waiters w) (elems w) in
  a ∈ out -> b ∈ elems w -> notReady now b = None -> Key b ∉ locked w -> b ∉ out ->
  less a b = true \/
  exists pre mid post, readyPrefix now (elems w) = pre ++ b :: mid ++ a :: post /\
    waiters w + Z.of_nat (came arrive (pre ++ [b])) <=
      Z.of_nat (length (filter (fun x => x ∈ out) pre)) /\
    (0 < came arrive (mid ++ [a]))%nat.
Proof.
  intros Hw out Ha Hb Hr Hl Hnb. pose proof (wf_NoDup_keys w Hw) as Hnd.
  pose proof (eligible_props _ _ _ _ _ _ Ha) as (Hae & Har & Hal).
  destruct (sorted_before (readyPrefix now (elems w)) a b) as [?|(pre & mid & post & E)];
    [apply readyPrefix_sorted, wf_sorted; done| | |by intros ->|by left|right].
  1-2: by apply readyPrefix_all; [apply wf_sorted|].
  pose proof (eligible_position now arrive (locked w) (elems w) (waiters w) pre b _ Hnd E) as Hpb.
  pose proof (eligible_position now arrive (locked w) (elems w) (waiters w) (pre ++ b :: mid) a post
    Hnd ltac:(by rewrite <- app_assoc)) as Hpa.
  fold out in Hpa, Hpb. apply Hpa in Ha as [_ Hlt].
  assert (Hle : waiters w + Z.of_nat (came arrive (pre ++ [b])) <=
    Z.of_nat (length (filter (fun x => x ∈ out) pre))).
  { apply Z.nlt_ge. intros Hc. apply Hnb, Hpb. by split. }
  exists pre, mid, post. split_and!; [done|done|].
  rewrite filter_app, length_app in Hlt.
  replace ((pre ++ b :: mid) ++ [a]) with ((pre ++ [b]) ++ (mid ++ [a])) in Hlt
    by (by rewrite <- !app_assoc).
  rewrite (came_app _ (pre ++ [b])) in Hlt. lia.
Qed.

(** C18. What a worker receives comes before every item that could have been handed out and stays: between
    two items without a delay the one of the greater priority goes first, and for equal priorities the
    older one; an item that was delayed never goes before one that was not, whatever their
    priorities.  The one exception is a worker that comes in the middle of the walk: an item that was
    passed when every worker so far had been served may stay behind a later one that goes to a worker
    that came afterwards, and then another iteration is pending. *)
Theorem handed_before_left now arrive accept w a b :
  WF w -> shutdown w = false -> a ∈ (spin now arrive accept w).1.2 ->
  b ∈ elems (spin now arrive accept w).1.1 -> notReady now b = None -> Key b ∉ locked w ->
  (lessP a b /\
   (ReadyAt a = None -> ReadyAt b = None -> Priority b <= Priority a /\
     (Priority a = Priority b -> AddedCounter a < AddedCounter b)) /\
   (ReadyAt a <> None -> ReadyAt b <> None)) \/
  exists pre mid post, readyPrefix now (elems w) = pre ++ b :: mid ++ a :: post /\
    waiters w + Z.of_nat (came arrive (pre ++ [b])) <=
      Z.of_nat (length (filter (fun x => x ∈ (spin now arrive accept w).1.2) pre)) /\
    (0 < came arrive (mid ++ [a]))%nat /\
    itemOrWaiterAdded (spin now arrive accept w).1.1 = true.
Proof.
  intros Hw Hs Ha Hb Hr Hl. destruct (spin_spec now arrive accept w Hw) as
    (taken & _ & _ & Hrun & _ & Hel & _). destruct (Hrun Hs) as (-> & E & _ & _ & _ & Efl).
  apply Hel in Hb as [Hb Hnb]. rewrite E in Ha |- *.
  destruct (passed_over now arrive w a b Hw Ha Hb Hr Hl Hnb) as [Hlt|(pre & mid & post & Ep & Hle & Hc)].
  - left. apply less_iff in Hlt. split; [done|]. unfold lessP, tieP in Hlt.
    destruct (ReadyAt a), (ReadyAt b); split; try done; lia.
  - right. exists pre, mid, post. split_and!; [done..|]. rewrite Efl, Ep. apply Nat.ltb_lt.
    replace (pre ++ b :: mid ++ a :: post) with ((pre ++ [b]) ++ (mid ++ [a]) ++ post)
      by (by rewrite <- !app_assoc). rewrite (came_app _ (pre ++ [b])), (came_app _ (mid ++ [a])). lia.
Qed.

(** A queue that is shut down stays shut down and refuses work: additions do nothing, a worker that
    asks for an item is told, and a second ShutDown changes nothing. *)
Theorem shutdown_final now o keys w :
  let w' := ShutDown w in
  ShutDown w' = w' /\ AddWithOpts now o keys w' = Ret w' /\ enterGet w' = (w', false) /\
  forall tr r t tm, qruns (mkRun w' t tm) tr r -> WF w -> shutdown (runQueue r) = true.
Proof.
  split_and!; [done..|]. intros tr r t tm Hr Hw.
  assert (WF (runQueue r) /\ shutdown (runQueue r) = true) as [_ ?]; [|done].
  induction Hr as [|tr r tr' r' Hr IH Hst]; [by split; [apply ShutDown_WF|]|].
  destruct IH as [Hwf IH]. split; [by eapply qstep_WF|].
  destruct Hst as [now' o' keys' w1 w2 t1 tm1 Ha Hc|w1 t1 tm1|now' arrive accept w1 w2 t1 tm1 out tm2 Hs|
    now' key w1 t1 tm1|now' key w1 t1 tm1|w1 t1 tm1]; cbn [runQueue] in *; try done.
  - destruct (AddWithOpts_run now' o' keys' w1 w2 Hwf Ha Hc) as (_ & _ & _ & -> & _). done.
  - unfold enterGet. by rewrite IH.
  - destruct (spin_spec now' arrive accept w1 Hwf) as (? & _ & _ & _ & _ & _ & _ & _ & Es & _).
    rewrite Hs in Es. cbn [fst] in Es. by rewrite Es.
Qed.

End Runs.
End PQTrace.
