(* ===== verification/PQMetrics.v ===== *)
(** * pkg/controller/priorityqueue/metrics.go

    The two implementations of [queueMetrics].  A [defaultQueueMetrics] keeps two maps of start times
    and calls the instruments a metrics provider gave it; the calls are kept here in a list, latest
    first, with the durations they report as [time.Duration] values (their conversion to float
    seconds is not modelled).  The provider decides, once, between the plain depth gauge and the
    instruments with a priority. *)

From S2P Require Import Prelude GoTime RateLimiter BTree PriorityQueue.
Import GoTime PriorityQueue.

Module PQMetrics.

(** One call of an instrument. *)
Inductive call : Type :=
| AddsInc
| RetriesInc
| DepthInc
| DepthDec
| DepthWithPriorityInc (priority : Z)
| DepthWithPriorityDec (priority : Z)
| LatencyObserve (d : Z)
| LatencyWithPriorityObserve (priority : Z) (d : Z)
| WorkDurationObserve (d : Z)
| WorkDurationWithPriorityObserve (priority : Z) (d : Z)
| TotalDurationWithPriorityObserve (priority : Z) (d : Z)
| UnfinishedWorkSet (d : Z)
| LongestRunningSet (d : Z).

Section Default.
Context {T : Type} `{Countable T}.

Record defaultQueueMetrics : Type := mkDQM {
  withPriority : bool;      (* the provider is a MetricsProviderWithPriority *)
  addTimes : gmap T Time;
  processingStartTimes : gmap T Time;
  calls : list call
}.

Definition newDefaultQueueMetrics (providerWithPriority : bool) : defaultQueueMetrics :=
  mkDQM providerWithPriority ∅ ∅ [].

Definition observe (cs : list call) (m : defaultQueueMetrics) : defaultQueueMetrics :=
  mkDQM (withPriority m) (addTimes m) (processingStartTimes m) (cs ++ calls m).

Definition sinceInSeconds (now start : Time) : Z := Sub now start.

Definition add (now : Time) (k : T) (priority : Z) (m : defaultQueueMetrics)
  : defaultQueueMetrics :=
  let m := observe [if withPriority m then DepthWithPriorityInc priority else DepthInc; AddsInc] m in
  match addTimes m !! k with
  | Some _ => m
  | None => mkDQM (withPriority m) (<[ k := now ]> (addTimes m)) (processingStartTimes m) (calls m)
  end.

Definition get (now : Time) (k : T) (priority : Z) (m : defaultQueueMetrics)
  : defaultQueueMetrics :=
  let m := observe [if withPriority m then DepthWithPriorityDec priority else DepthDec] m in
  let m := mkDQM (withPriority m) (addTimes m) (<[ k := now ]> (processingStartTimes m)) (calls m) in
  match addTimes m !! k with
  | None => m
  | Some startTime =>
    let d := sinceInSeconds now startTime in
    let m := observe [if withPriority m then LatencyWithPriorityObserve priority d
                      else LatencyObserve d] m in
    mkDQM (withPriority m) (delete k (addTimes m)) (processingStartTimes m) (calls m)
  end.

Definition updateDepthWithPriorityMetric (oldPriority newPriority : Z) (m : defaultQueueMetrics)
  : defaultQueueMetrics :=
  if withPriority m
  then observe [DepthWithPriorityInc newPriority; DepthWithPriorityDec oldPriority] m else m.

Definition done (now : Time) (k : T) (priority : Z) (m : defaultQueueMetrics)
  : defaultQueueMetrics :=
  let m :=
    match processingStartTimes m !! k with
    | None => m
    | Some startTime =>
      let processingDuration := sinceInSeconds now startTime in
      let m := observe [WorkDurationObserve processingDuration] m in
      let m := if withPriority m
               then observe [WorkDurationWithPriorityObserve priority processingDuration] m else m in
      mkDQM (withPriority m) (addTimes m) (delete k (processingStartTimes m)) (calls m)
    end in
  match addTimes m !! k with
  | None => m
  | Some addTime =>
    if withPriority m
    then observe [TotalDurationWithPriorityObserve priority (sinceInSeconds now addTime)] m else m
  end.

Definition retry (m : defaultQueueMetrics) : defaultQueueMetrics := observe [RetriesInc] m.

(** The sum and the maximum of the ages of the items in processing. *)
Definition updateUnfinishedWork (now : Time) (m : defaultQueueMetrics) : defaultQueueMetrics :=
  let ages := (fun kv => sinceInSeconds now kv.2) <$> map_to_list (processingStartTimes m) in
  let total := foldr Z.add 0 ages in
  let oldest := foldr (fun age oldest => if oldest <? age then age else oldest) 0 ages in
  observe [LongestRunningSet oldest; UnfinishedWorkSet total] m.

#[export] Instance default_QueueMetrics : QueueMetrics T defaultQueueMetrics := {
  mAdd := add; mGet := get; mUpdateDepth := updateDepthWithPriorityMetric; mDone := done;
  mRetry := retry
}.

End Default.
Arguments defaultQueueMetrics T {_ _}.

(** [noMetrics]: every method does nothing. *)
Definition noMetrics : Type := unit.

#[export] Instance no_QueueMetrics {T} : QueueMetrics T noMetrics := {
  mAdd _ _ _ m := m; mGet _ _ _ m := m; mUpdateDepth _ _ m := m; mDone _ _ _ m := m; mRetry m := m
}.

(** [newQueueMetrics]: a queue without a name has no metrics. *)
Definition newQueueMetrics {T} `{Countable T} (providerWithPriority : bool) (name : string)
  : noMetrics + defaultQueueMetrics T :=
  if String.eqb name "" then inl tt else inr (newDefaultQueueMetrics providerWithPriority).

(** What either of them does. *)
#[export] Instance sum_QueueMetrics {T M1 M2} `{QueueMetrics T M1, QueueMetrics T M2}
  : QueueMetrics T (M1 + M2) := {
  mAdd now k p m := match m with inl m => inl (mAdd now k p m) | inr m => inr (mAdd now k p m) end;
  mGet now k p m := match m with inl m => inl (mGet now k p m) | inr m => inr (mGet now k p m) end;
  mUpdateDepth o n m := match m with
    | inl m => inl (mUpdateDepth (T := T) o n m) | inr m => inr (mUpdateDepth (T := T) o n m) end;
  mDone now k p m := match m with
    | inl m => inl (mDone now k p m) | inr m => inr (mDone now k p m) end;
  mRetry m := match m with
    | inl m => inl (mRetry (T := T) m) | inr m => inr (mRetry (T := T) m) end
}.

End PQMetrics.
