(* ===== verification/PQDepth.v ===== *)
(** * The priority queue: its metrics tell the truth

    For a queue with [defaultQueueMetrics]: in every reachable state the depth gauge equals the number
    of queued items that count as added, per priority where the provider has priorities; the add
    times are those of exactly these items; and the processing start times are those of the locked
    keys. *)

From S2P Require Import Prelude GoTime RateLimiter BTree PriorityQueue PriorityQueueFacts PQSpin.
From S2P Require Import PQTrace PQMetrics.
Import GoTime PriorityQueue PQFacts PQSpin PQTrace PQMetrics.

Module PQDepth.

Section Depth.
Context {T : Type} `{Countable T}.
Implicit Types (its : gmap T (item T)) (br lk : gset T) (m : defaultQueueMetrics T) (P : Z -> bool).

(** What the calls made so far have added to a depth gauge, for the priorities in [P]. *)
Definition gauge1 P (c : call) : Z :=
  match c with
  | DepthInc => 1
  | DepthDec => -1
  | DepthWithPriorityInc p => if P p then 1 else 0
  | DepthWithPriorityDec p => if P p then -1 else 0
  | _ => 0
  end.
Definition gauge P (cs : list call) : Z := foldr (fun c n => gauge1 P c + n) 0 cs.

(** A provider without priorities has the total only. *)
Definition readable P m : Prop := withPriority m = true \/ P = fun _ => true.

(** An item counts once it was added without a delay or its delay has passed. *)
Definition counted br k (it : item T) : bool :=
  bool_decide (ReadyAt it = None) || bool_decide (k ∈ br).

Definition depthOf P its br : Z :=
  Z.of_nat (size (filter (fun kv => counted br kv.1 kv.2 && P (Priority kv.2) = true) its)).

Definition countedAt its br k : bool :=
  match its !! k with Some it => counted br k it | None => false end.
Definition weight P its br k : Z :=
  match its !! k with
  | Some it => if counted br k it && P (Priority it) then 1 else 0
  | None => 0
  end.

Lemma depthOf_delete P its br k : depthOf P its br = depthOf P (delete k its) br + weight P its br k.
Proof.
  unfold weight. destruct (its !! k) as [it|] eqn:E; [|by rewrite delete_id, Z.add_0_r].
  rewrite <- (insert_delete_id its k it E) at 1. unfold depthOf.
  set (d := delete k its). assert (Hd : d !! k = None) by apply lookup_delete_eq.
  destruct (counted br k it && P (Priority it)) eqn:Ec.
  - rewrite map_filter_insert_True by done. rewrite map_size_insert_None; [lia|].
    rewrite map_lookup_filter_None. by left.
  - rewrite map_filter_insert_False by (simpl; congruence).
    rewrite delete_id by done. lia.
Qed.

Lemma depthOf_ext P its br br' :
  (forall k it, its !! k = Some it -> counted br k it = counted br' k it) ->
  depthOf P its br = depthOf P its br'.
Proof.
  intros He. unfold depthOf. do 2 f_equal. apply map_filter_ext. intros k it Hk. simpl.
  by rewrite (He k it Hk).
Qed.

Record MetInv its br lk m : Prop := mkMetInv {
  mi_depth P : readable P m -> gauge P (calls m) = depthOf P its br;
  mi_add k : is_Some (addTimes m !! k) <-> countedAt its br k = true;
  mi_start : dom (processingStartTimes m) = lk
}.

(** A change of one key: the gauge has to move by the key's change of weight, and its add time has to
    be there exactly when it counts. *)
Lemma MetInv_change its br its' br' lk lk' m m' k :
  MetInv its br lk m -> (forall j, j <> k -> its' !! j = its !! j) ->
  (forall j, j <> k -> j ∈ br' <-> j ∈ br) -> withPriority m' = withPriority m ->
  (forall P, readable P m ->
     gauge P (calls m') - gauge P (calls m) = weight P its' br' k - weight P its br k) ->
  (forall j, j <> k -> addTimes m' !! j = addTimes m !! j) ->
  (is_Some (addTimes m' !! k) <-> countedAt its' br' k = true) ->
  dom (processingStartTimes m') = lk' -> MetInv its' br' lk' m'.
Proof.
  intros Hm Hits Hbr Hwp Hg Hadd Hk Hst.
  assert (Hc : forall j it, j <> k -> counted br' j it = counted br j it).
  { intros j it Hj. unfold counted. f_equal. apply bool_decide_ext. by apply Hbr. }
  split; [| |done].
  - intros P HP. assert (readable P m) as HPm by (unfold readable in *; by rewrite <- Hwp).
    specialize (Hg P HPm). pose proof (mi_depth _ _ _ _ Hm P HPm) as Hd.
    rewrite (depthOf_delete P its' br' k). rewrite (depthOf_delete P its br k) in Hd.
    assert (depthOf P (delete k its') br' = depthOf P (delete k its) br) as E; [|lia].
    assert (delete k its' = delete k its) as ->.
    { apply map_eq. intros j. destruct (decide (j = k)) as [->|?];
        [by rewrite !lookup_delete_eq|by rewrite !lookup_delete_ne, Hits]. }
    apply depthOf_ext. intros j it Hj. apply Hc. intros ->. by rewrite lookup_delete_eq in Hj.
  - intros j. destruct (decide (j = k)) as [->|Hj]; [done|].
    rewrite Hadd, (mi_add _ _ _ _ Hm) by done. unfold countedAt. rewrite Hits by done.
    destruct (its !! j); [|done]. by rewrite Hc.
Qed.

(** ** The calls *)

Lemma gauge_app P a b : gauge P (a ++ b) = gauge P a + gauge P b.
Proof. induction a as [|c a IH]; simpl; [done|]. rewrite IH. lia. Qed.

Definition unit1 P (p : Z) : Z := if P p then 1 else 0.

Lemma add_gauge P now k p m :
  readable P m -> gauge P (calls (add now k p m)) = gauge P (calls m) + unit1 P p.
Proof.
  intros HP. assert (calls (add now k p m) =
    [if withPriority m then DepthWithPriorityInc p else DepthInc; AddsInc] ++ calls m) as ->.
  { unfold add. simpl. by destruct (addTimes m !! k). }
  rewrite gauge_app. simpl. unfold unit1. destruct HP as [-> | ->]; [simpl; destruct (P p); lia|].
  destruct (withPriority m); simpl; lia.
Qed.

Lemma add_frame now k p m :
  withPriority (add now k p m) = withPriority m /\
  processingStartTimes (add now k p m) = processingStartTimes m /\
  is_Some (addTimes (add now k p m) !! k) /\
  (forall j, j <> k -> addTimes (add now k p m) !! j = addTimes m !! j).
Proof.
  unfold add. simpl. destruct (addTimes m !! k) as [t|] eqn:E; simpl.
  - by rewrite E; eauto.
  - rewrite lookup_insert_eq. split_and!; [done|done|eauto|].
    intros j Hj. by rewrite lookup_insert_ne.
Qed.

Lemma get_gauge P now k p m :
  readable P m -> gauge P (calls (get now k p m)) = gauge P (calls m) - unit1 P p.
Proof.
  intros HP. unfold get. simpl.
  assert (Hd : gauge1 P (if withPriority m then DepthWithPriorityDec p else DepthDec) = - unit1 P p).
  { unfold unit1. destruct HP as [-> | ->]; [simpl; by destruct (P p)|].
    by destruct (withPriority m). }
  destruct (addTimes m !! k) as [t|]; simpl; rewrite Hd; [|lia]. destruct (withPriority m); simpl; lia.
Qed.

Lemma get_frame now k p m :
  withPriority (get now k p m) = withPriority m /\
  processingStartTimes (get now k p m) = <[ k := now ]> (processingStartTimes m) /\
  addTimes (get now k p m) = delete k (addTimes m).
Proof.
  unfold get. simpl. destruct (addTimes m !! k) as [t|] eqn:E; simpl; [done|].
  by rewrite delete_id.
Qed.

Lemma updateDepth_gauge P o n m :
  readable P m ->
  gauge P (calls (updateDepthWithPriorityMetric o n m)) = gauge P (calls m) + unit1 P n - unit1 P o.
Proof.
  intros HP. unfold updateDepthWithPriorityMetric, unit1.
  destruct HP as [-> | ->]; simpl; [destruct (P n), (P o); lia|]. destruct (withPriority m); simpl; lia.
Qed.

Lemma updateDepth_frame o n m :
  let m' := updateDepthWithPriorityMetric o n m in
  withPriority m' = withPriority m /\ processingStartTimes m' = processingStartTimes m /\
  addTimes m' = addTimes m.
Proof. unfold updateDepthWithPriorityMetric. by destruct (withPriority m) eqn:E; simpl. Qed.

Lemma done_gauge P now k p m : gauge P (calls (done now k p m)) = gauge P (calls m).
Proof.
  unfold done. destruct (processingStartTimes m !! k); simpl; destruct (withPriority m) eqn:E; simpl;
    destruct (addTimes m !! k); simpl; rewrite ?E; simpl; lia.
Qed.

Lemma done_frame now k p m :
  withPriority (done now k p m) = withPriority m /\ addTimes (done now k p m) = addTimes m /\
  processingStartTimes (done now k p m) = delete k (processingStartTimes m).
Proof.
  unfold done. destruct (processingStartTimes m !! k) eqn:Es; simpl;
    destruct (withPriority m) eqn:E; simpl; destruct (addTimes m !! k) eqn:Ea; simpl;
    rewrite ?E; simpl; rewrite ?delete_id by done; done.
Qed.

(** ** The operations *)

Lemma MetInv_retry its br lk m : MetInv its br lk m -> MetInv its br lk (retry m).
Proof. intros [Hd Ha Hs]. split; [|done|done]. exact Hd. Qed.

Lemma weight_lookup P its br k it :
  its !! k = Some it ->
  weight P its br k = (if counted br k it then unit1 P (Priority it) else 0).
Proof. unfold weight, unit1. intros ->. by destruct (counted br k it). Qed.

Lemma MetInv_new its br lk m now k c p due :
  MetInv its br lk m -> its !! k = None -> k ∉ br ->
  MetInv (<[ k := mkItem k c p due ]> its) br lk
    (if bool_decide (due = None) then add now k p m else m).
Proof.
  intros Hm Hn Hbr. set (it := mkItem k c p due).
  assert (Hc : counted br k it = bool_decide (due = None)).
  { unfold counted. simpl. by rewrite (bool_decide_false (k ∈ br)), orb_false_r. }
  assert (Hl : <[ k := it ]> its !! k = Some it) by apply lookup_insert_eq.
  pose proof (add_frame now k p m) as (Fw & Fs & Fk & Fj).
  apply (MetInv_change its br _ _ lk _ m _ k Hm).
  - intros j Hj. by rewrite lookup_insert_ne.
  - done.
  - by case_bool_decide.
  - intros P HP. rewrite (weight_lookup _ _ _ _ _ Hl), Hc. unfold weight. rewrite Hn. simpl.
    case_bool_decide; [rewrite add_gauge by done|]; lia.
  - intros j Hj. case_bool_decide; [by apply Fj|done].
  - unfold countedAt. rewrite Hl, Hc. case_bool_decide; [done|].
    rewrite (mi_add _ _ _ _ Hm). unfold countedAt. by rewrite Hn.
  - case_bool_decide; [rewrite Fs|]; apply Hm.
Qed.

Lemma decide_nil (x : option Time) : bool_decide (x = None) = match x with None => true | _ => false end.
Proof. by destruct x. Qed.

Lemma MetInv_merge its br lk m now it due prio :
  MetInv its br lk m -> its !! Key it = Some it ->
  MetInv (<[ Key it := mergeItem due prio it ]> its) br lk
    (mergeMetrics now due prio (bool_decide (Key it ∈ br)) it m).
Proof.
  intros Hm Hit. set (k := Key it). set (it' := mergeItem due prio it).
  set (ready := bool_decide (k ∈ br)).
  assert (Hl : <[ k := it' ]> its !! k = Some it') by apply lookup_insert_eq.
  set (c0 := counted br k it). set (c1 := counted br k it').
  set (up := earlier due (ReadyAt it) && bool_decide (due = None) && negb ready).
  assert (Hc : if up then c0 = false /\ c1 = true else c1 = c0).
  { unfold up, c0, c1, counted, it', mergeItem, earlier. cbn [ReadyAt]. fold ready.
    rewrite !decide_nil. destruct (ReadyAt it) as [t|], due as [u|], ready; cbn; try done;
      by destruct (Before u t). }
  unfold mergeMetrics. fold k ready up.
  set (m1 := if (Priority it <? prio) && (bool_decide (ReadyAt it = None) || ready)
    then updateDepthWithPriorityMetric (Priority it) prio m else m).
  change (if (Priority it <? prio) && (bool_decide (ReadyAt it = None) || ready)
    then mUpdateDepth (T := T) (Priority it) prio m else m) with m1.
  assert (Hm1 : withPriority m1 = withPriority m /\ processingStartTimes m1 = processingStartTimes m /\
    addTimes m1 = addTimes m).
  { unfold m1. destruct ((Priority it <? prio) && _); [apply updateDepth_frame|done]. }
  assert (Hg1 : forall P, readable P m -> gauge P (calls m1) =
    gauge P (calls m) + (if c0 then unit1 P (Priority it') - unit1 P (Priority it) else 0)).
  { intros P HP. unfold m1, it', mergeItem. cbn [Priority].
    change (bool_decide (ReadyAt it = None) || ready) with c0.
    destruct (Priority it <? prio) eqn:E, c0; bool_to_prop; cbn [andb]; try lia.
    - rewrite (updateDepth_gauge P) by done. rewrite Z.max_r by lia. lia.
    - rewrite Z.max_l by lia. lia. }
  destruct Hm1 as (W1 & S1 & A1).
  pose proof (add_frame now k (Z.max (Priority it) prio) m1) as (Fw & Fs & Fk & Fj).
  apply (MetInv_change its br _ _ lk _ m _ k Hm).
  - intros j Hj. by rewrite lookup_insert_ne.
  - done.
  - destruct up; [exact (eq_trans Fw W1)|exact W1].
  - intros P HP. rewrite (weight_lookup _ _ _ _ _ Hl), (weight_lookup _ _ _ _ _ Hit).
    fold k c0 c1. specialize (Hg1 P HP). destruct up.
    + destruct Hc as [E0 E1]. rewrite E0 in Hg1. rewrite E0, E1. cbn [mAdd default_QueueMetrics].
      rewrite add_gauge by (unfold readable; by rewrite W1). unfold it', mergeItem. cbn [Priority]. lia.
    + rewrite Hc. destruct c0; lia.
  - intros j Hj. destruct up; [by rewrite <- A1; apply Fj|by rewrite A1].
  - unfold countedAt. rewrite Hl. fold c1. destruct up; [by destruct Hc as [_ ->]|].
    rewrite A1, (mi_add _ _ _ _ Hm). unfold countedAt. fold k in Hit. rewrite Hit. fold c0. by rewrite Hc.
  - destruct up; [cbn [mAdd default_QueueMetrics]; rewrite Fs|]; rewrite S1; apply Hm.
Qed.

Context {B R : Type} `{!BTree (@less T) B, !BTreeLaws (@less T) B} `{!RateLimiter T R}.
Implicit Types (w : PQ T B R (defaultQueueMetrics T)) (now : Time).

Definition truthful w : Prop := MetInv (items w) (becameReady w) (locked w) (metrics w).

Lemma addItem_truthful now o w w' key :
  WF w -> truthful w -> addItem now o w key = Ret w' -> truthful w'.
Proof.
  intros Hw Hm. unfold addItem.
  destruct (effectiveAfter now o key (rateLimiter w)) as [after rl].
  set (due := if 0 <? after then Some (Add now after) else None).
  set (w0 := withLimiter w rl _).
  assert (WF w0) as Hw0 by (destruct Hw; by split).
  assert (truthful w0) as Hm0.
  { unfold truthful, w0. simpl. destruct (0 <? after); [by apply MetInv_retry|done]. }
  destruct (items w0 !! key) as [it|] eqn:Hit.
  - pose proof (proj1 (wf_items w0 Hw0 key it) Hit) as [Hin <-].
    rewrite (updateItem_eq now o due w0 it Hw0 Hin). intros [= <-].
    exact (MetInv_merge _ _ _ _ now it due (optPriority o) Hm0 Hit).
  - intros [= <-]. unfold truthful. cbn [withItems items becameReady locked metrics].
    assert (key ∉ becameReady w0) as Hbr.
    { intros [? E]%(wf_ready w0 Hw0). rewrite Hit in E. done. }
    pose proof (MetInv_new _ _ _ _ now key (addedCounter w) (optPriority o) due Hm0 Hit Hbr) as Hnew.
    unfold due in *. destruct (0 <? after); exact Hnew.
Qed.

Lemma addItems_truthful now o keys : forall w w',
  WF w -> truthful w -> addedCounter w + Z.of_nat (length keys) < 2 ^ 64 ->
  addItems now o w keys = Ret w' -> truthful w'.
Proof.
  induction keys as [|key keys IH]; intros w w' Hw Hm Hlt; cbn [addItems length] in *.
  { by intros [= <-]. }
  destruct (addItem_spec now o w key Hw ltac:(lia)) as (w1 & E & Hw1 & _ & _ & Hc).
  rewrite E. cbn. apply IH; [done|exact (addItem_truthful now o w w1 key Hw Hm E)|]. rewrite Hc. case_decide; lia.
Qed.

(** ** The walk *)

Lemma markReady_truthful now w it :
  truthful w -> items w !! Key it = Some it ->
  truthful (markReady now w it) /\
  (notReady now it = None -> counted (becameReady (markReady now w it)) (Key it) it = true).
Proof.
  intros Hm Hit. unfold markReady, counted. destruct (ReadyAt it) as [t|] eqn:Er.
  2: { split; [done|]. by rewrite bool_decide_true. }
  case_bool_decide as Hbr.
  { split; [done|]. by rewrite (bool_decide_true (Key it ∈ becameReady w)), orb_true_r. }
  split; [|simpl; by rewrite (bool_decide_true (Key it ∈ _)), ?orb_true_r by set_solver].
  pose proof (add_frame now (Key it) (Priority it) (metrics w)) as (Fw & Fs & Fk & Fj).
  assert (Ec : counted ({[ Key it ]} ∪ becameReady w) (Key it) it = true).
  { unfold counted. rewrite (bool_decide_true (Key it ∈ _)) by set_solver. apply orb_true_r. }
  unfold truthful. simpl. apply (MetInv_change _ _ _ _ _ _ _ _ (Key it) Hm).
  - done.
  - set_solver.
  - done.
  - intros P HP. rewrite !(weight_lookup _ _ _ _ _ Hit), Ec, add_gauge by done.
    unfold counted. rewrite Er, (bool_decide_false (Key it ∈ _)) by done. simpl. lia.
  - done.
  - unfold countedAt. rewrite Hit. by rewrite Ec.
  - rewrite Fs. apply Hm.
Qed.

Lemma takeItem_truthful now w it :
  truthful w -> items w !! Key it = Some it -> counted (becameReady w) (Key it) it = true ->
  truthful (takeItem now w it).
Proof.
  intros Hm Hit Hc. pose proof (get_frame now (Key it) (Priority it) (metrics w)) as (Fw & Fs & Fa).
  unfold truthful. simpl. apply (MetInv_change _ _ _ _ _ _ _ _ (Key it) Hm).
  - intros j Hj. by rewrite lookup_delete_ne.
  - set_solver.
  - done.
  - intros P HP. rewrite (weight_lookup _ _ _ _ _ Hit), Hc, get_gauge by done.
    unfold weight. rewrite lookup_delete_eq. lia.
  - intros j Hj. by rewrite Fa, lookup_delete_ne.
  - unfold countedAt. rewrite Fa, !lookup_delete_eq. split; [by intros []|done].
  - rewrite Fs, dom_insert_L, (mi_start _ _ _ _ Hm). done.
Qed.

Lemma getters_truthful n w : truthful w -> truthful (getters n w).
Proof. intros Hm. induction n as [|n IH]; done. Qed.

Lemma ascend_truthful now arrive accept l : forall w,
  NoDup (Key <$> l) -> (forall it, it ∈ l -> items w !! Key it = Some it) -> truthful w ->
  truthful (wState (ascend now arrive accept l w)).
Proof.
  induction l as [|it l IH]; intros w Hnd Hl Hm; cbn [ascend]; [done|].
  apply NoDup_cons in Hnd as [Hit Hnd].
  destruct (notReady now it) as [d|] eqn:En; [done|].
  assert (Hi : items w !! Key it = Some it) by (apply Hl; by left).
  pose proof (visit_frame now (arrive (Key it)) it w) as (Ei & _).
  pose proof (getters_frame (arrive (Key it)) (markReady now w it)) as (_ & _ & _ & Eb & _).
  destruct (markReady_truthful now w it Hm Hi) as [Hm1 Hc]. specialize (Hc En). rewrite <- Eb in Hc.
  apply (getters_truthful (arrive (Key it))) in Hm1. cbn zeta. set (w1 := getters _ _) in *.
  assert (Hl1 : forall x, x ∈ l -> items w1 !! Key x = Some x).
  { intros x Hx. rewrite Ei. apply Hl. by right. }
  destruct (waiters w1 =? 0); [by apply IH|]. case_bool_decide; [by apply IH|].
  assert (Hm2 : truthful (takeItem now w1 it)).
  { apply takeItem_truthful; [done|by rewrite Ei|done]. }
  destruct (shutdown _ && _); [done|]. cbn [wState]. apply IH; [done| |done].
  intros x Hx. simpl. rewrite lookup_delete_ne; [by apply Hl1|].
  intros E. apply Hit, list_elem_of_fmap. by exists x.
Qed.

Lemma qstep_truthful r tr r' :
  qstep r tr r' -> WF (runQueue r) -> truthful (runQueue r) -> truthful (runQueue r').
Proof.
  destruct 1 as [now o keys w w' t tm Ha Hc|w t tm|now arrive accept w w' t tm out tm' Hs|
    now key w t tm|now key w t tm|w t tm]; cbn [runQueue]; intros Hw Hm; try done.
  - unfold AddWithOpts in Ha. destruct (shutdown w); [by injection Ha as <-|].
    destruct (addItems_spec now o keys w Hw Hc) as (w1 & E & _). rewrite E in Ha.
    assert (truthful w1) by (by eapply addItems_truthful).
    destruct keys; by injection Ha as <-.
  - unfold enterGet. by destruct (shutdown w).
  - unfold spin in Hs. injection Hs as <- _ _.
    assert (truthful (wState (ascend now arrive accept (Ascend less (queue w)) (wakeUp w)))); [|done].
    apply ascend_truthful; [by apply wf_NoDup_keys| |done].
    intros it Hit. by apply (wf_items w Hw).
  - unfold truthful. simpl.
    pose proof (done_frame now key (default 0 (lockedPriority w !! key)) (metrics w)) as (Fw & Fa & Fs).
    split.
    + intros P HP. rewrite done_gauge. apply (mi_depth _ _ _ _ Hm).
      unfold readable in *. by rewrite <- Fw.
    + intros k. rewrite Fa. apply (mi_add _ _ _ _ Hm).
    + rewrite Fs, dom_delete_L. by rewrite (mi_start _ _ _ _ Hm).
Qed.

Lemma New_truthful rl prio : truthful (New rl (newDefaultQueueMetrics prio)).
Proof.
  split; simpl; [done| |set_solver]. intros k. unfold countedAt. rewrite !lookup_empty.
  split; [by intros []|done].
Qed.

(** A property of the metrics that their methods keep is kept by every step of the queue. *)
Section Kept.
Context (I : defaultQueueMetrics T -> Prop).
Context (I_add : forall now k p m, I m -> I (mAdd now k p m))
  (I_get : forall now k p m, I m -> I (mGet now k p m))
  (I_update : forall o n m, I m -> I (mUpdateDepth (T := T) o n m))
  (I_done : forall now k p m, I m -> I (mDone now k p m))
  (I_retry : forall m, I m -> I (mRetry (T := T) m)).

Lemma mergeMetrics_kept now due prio ready (it : item T) m :
  I m -> I (mergeMetrics now due prio ready it m).
Proof.
  intros Hm. unfold mergeMetrics. destruct ((Priority it <? prio) && _), (_ && negb ready); auto.
Qed.

Lemma addItem_kept now o w w' key :
  WF w -> addItem now o w key = Ret w' -> I (metrics w) -> I (metrics w').
Proof.
  intros Hw Ha Hm. unfold addItem in Ha.
  destruct (effectiveAfter now o key (rateLimiter w)) as [after rl].
  set (w0 := withLimiter w rl _) in Ha.
  assert (WF w0) as Hw0 by (destruct Hw; by split).
  assert (Hm0 : I (metrics w0)).
  { unfold w0. simpl. destruct (0 <? after); [by apply I_retry|done]. }
  destruct (items w0 !! key) as [it|] eqn:Hit.
  - pose proof (proj1 (wf_items w0 Hw0 key it) Hit) as [Hin <-].
    rewrite updateItem_eq in Ha by done. injection Ha as <-. by apply mergeMetrics_kept.
  - injection Ha as <-. simpl. destruct (0 <? after); [done|]. by apply I_add.
Qed.

Lemma addItems_kept now o keys : forall w w',
  WF w -> addedCounter w + Z.of_nat (length keys) < 2 ^ 64 ->
  addItems now o w keys = Ret w' -> I (metrics w) -> I (metrics w').
Proof.
  induction keys as [|k keys IH]; intros w w' Hw Hlt; cbn [addItems length] in *.
  { by intros [= <-]. }
  destruct (addItem_spec now o w k Hw ltac:(lia)) as (w1 & E & Hw1 & _ & _ & Hc).
  rewrite E. cbn. intros E2 Hm. apply (IH w1 w' Hw1 ltac:(rewrite Hc; case_decide; lia) E2).
  by apply (addItem_kept now o w w1 k).
Qed.

Lemma ascend_kept now arrive accept l : forall w,
  I (metrics w) -> I (metrics (wState (ascend now arrive accept l w))).
Proof.
  induction l as [|it l IH]; intros w Hm; cbn [ascend]; [done|].
  destruct (notReady now it) as [d|]; [done|].
  cbn zeta. set (w1 := getters _ _).
  assert (H1 : I (metrics w1)).
  { unfold w1. rewrite (proj1 (proj2 (proj2 (proj2 (proj2 (getters_frame _ _)))))).
    unfold markReady. destruct (ReadyAt it); [|done]. case_bool_decide; [done|]. by apply I_add. }
  assert (H2 : I (metrics (takeItem now w1 it))) by by apply I_get.
  destruct (waiters w1 =? 0); [by apply IH|]. case_bool_decide; [by apply IH|].
  destruct (shutdown _ && _); cbn [wState]; [done|by apply IH].
Qed.

Lemma qstep_kept r tr r' :
  qstep r tr r' -> WF (runQueue r) -> I (metrics (runQueue r)) -> I (metrics (runQueue r')).
Proof.
  destruct 1 as [now o keys w w' t tm Ha Hc|w t tm|now arrive accept w w' t tm out tm' Hs|
    now key w t tm|now key w t tm|w t tm]; cbn [runQueue]; intros Hw Hm; try done.
  - unfold AddWithOpts in Ha. destruct (shutdown w); [by injection Ha as <-|].
    destruct (addItems now o w keys) as [w1|] eqn:E; [|done].
    pose proof (addItems_kept now o keys w w1 Hw Hc E Hm). destruct keys; by injection Ha as <-.
  - unfold enterGet. by destruct (shutdown w).
  - unfold spin in Hs. injection Hs as <- _ _. by apply ascend_kept.
  - by apply I_done.
Qed.

Lemma qruns_kept r0 tr r :
  WF (runQueue r0) -> qruns r0 tr r -> I (metrics (runQueue r0)) -> I (metrics (runQueue r)).
Proof.
  intros Hw Hr Hm. assert (WF (runQueue r) /\ I (metrics (runQueue r))) as [_ ?]; [|done].
  induction Hr as [|tr r tr' r' Hr IH Hst]; [done|]. destruct IH as [Hwf IH].
  split; [by eapply qstep_WF|by eapply qstep_kept].
Qed.

End Kept.

Lemma provider_kept b (r0 : Run) tr r :
  WF (runQueue r0) -> qruns r0 tr r ->
  withPriority (metrics (runQueue r0)) = b -> withPriority (metrics (runQueue r)) = b.
Proof.
  apply (qruns_kept (fun m => withPriority m = b)); try done.
  - intros now k p m <-. apply add_frame.
  - intros now k p m <-. apply get_frame.
  - intros o n m <-. apply updateDepth_frame.
  - intros now k p m <-. apply done_frame.
Qed.

Lemma qruns_truthful r0 tr r :
  WF (runQueue r0) -> truthful (runQueue r0) -> qruns r0 tr r ->
  truthful (runQueue r) /\
  withPriority (metrics (runQueue r)) = withPriority (metrics (runQueue r0)).
Proof.
  intros Hw Hm Hr. split; [|by eapply provider_kept].
  assert (WF (runQueue r) /\ truthful (runQueue r)) as [_ ?]; [|done].
  induction Hr as [|tr r tr' r' Hr IH Hst]; [done|]. destruct IH as (Hwf & IH).
  split; [by eapply qstep_WF|by eapply qstep_truthful].
Qed.

(** C16. The metrics tell the truth: in every reachable state of a queue with metrics, the depth gauge of
    each priority (or the only depth gauge, of a provider without priorities) equals the number of
    queued items of that priority that were added without a delay or whose delay [spin] has seen
    pass; exactly those items have an add time, and exactly the locked keys a start time. *)
Theorem metrics_truthful rl prio t tr r :
  qruns (mkRun (New rl (newDefaultQueueMetrics prio)) t None) tr r ->
  let w := runQueue r in
  (forall P, prio = true \/ P = (fun _ => true) ->
     gauge P (calls (metrics w)) = depthOf P (items w) (becameReady w)) /\
  (forall k, is_Some (addTimes (metrics w) !! k) <->
     exists it, items w !! k = Some it /\ counted (becameReady w) k it = true) /\
  dom (processingStartTimes (metrics w)) = locked w.
Proof.
  intros Hr.
  destruct (qruns_truthful (mkRun (New rl (newDefaultQueueMetrics prio)) t None) _ _ (New_WF rl (newDefaultQueueMetrics prio))
    (New_truthful rl prio) Hr) as [Hm Hp].
  split; [|split; [|apply Hm]].
  - intros P HP. apply (mi_depth _ _ _ _ Hm). unfold readable. by rewrite Hp.
  - intros k. rewrite (mi_add _ _ _ _ Hm). unfold countedAt.
    destruct (items (runQueue r) !! k) as [it|]; naive_solver.
Qed.

(** The total duration of an item, from its addition to the end of its processing, is reported by
    [done] only when the key is queued again by then, and is measured from that second addition:
    [get] has removed the add time of the item that was processed. *)
Theorem total_duration_of_requeued now key w :
  truthful w -> withPriority (metrics w) = true ->
  exists new, calls (metrics (Done now key w)) = new ++ calls (metrics w) /\
    ((exists p d, TotalDurationWithPriorityObserve p d ∈ new) <->
     countedAt (items w) (becameReady w) key = true).
Proof.
  intros Hm Hp. setoid_rewrite <- (mi_add _ _ _ _ Hm key). simpl. unfold done.
  set (p := default 0 (lockedPriority w !! key)).
  destruct (processingStartTimes (metrics w) !! key) as [t|]; simpl; rewrite Hp; simpl;
    destruct (addTimes (metrics w) !! key) as [u|]; simpl; rewrite ?Hp; cbn [calls observe app].
  - exists [TotalDurationWithPriorityObserve p (sinceInSeconds now u);
      WorkDurationWithPriorityObserve p (sinceInSeconds now t);
      WorkDurationObserve (sinceInSeconds now t)].
    split; [done|]. split; [eauto|]. intros _. do 2 eexists. by left.
  - exists [WorkDurationWithPriorityObserve p (sinceInSeconds now t);
      WorkDurationObserve (sinceInSeconds now t)].
    split; [done|]. split; [|by intros []]. by intros (? & ? & [?|[?|?%not_elem_of_nil]%elem_of_cons]%elem_of_cons).
  - exists [TotalDurationWithPriorityObserve p (sinceInSeconds now u)].
    split; [done|]. split; [eauto|]. intros _. do 2 eexists. by left.
  - exists []. split; [done|]. split; [|by intros []]. by intros (? & ? & ?%not_elem_of_nil).
Qed.

End Depth.
End PQDepth.
