(* ===== verification/QueueLoops.v ===== *)
(** * The background loops of the priority queue

    Besides [spin], a queue runs two loops until it is shut down: one writes the items to the debug log every
    ten seconds, the other, of a queue with metrics, sets the gauges of unfinished work twice a second.
    What the first writes are the items themselves, which others may change meanwhile. *)

From S2P Require Import Prelude GoTime RateLimiter BTree PriorityQueue PriorityQueueFacts PQMetrics.
Import GoTime PriorityQueue PQFacts PQMetrics.

Module QueueLoops.

Section Loops.
Context {T : Type} `{Countable T}.
Context {B R : Type} `{!BTree (@less T) B, !BTreeLaws (@less T) B} `{!RateLimiter T R}.
#[local] Abbreviation PQ := (PQ T B R (defaultQueueMetrics T)).
Implicit Types (w : PQ) (its : list (item T)).

(** ** logState *)

(** In the [select]; with the items collected and the lock released; returned. *)
Inductive logger : Type :=
| LSelect
| LWrite (its : list (item T))
| LReturned.

(** What an item that was collected earlier reads now: AddWithOpts changes the items of the queue in place;
    [AddedCounter] tells whether it is the same item. *)
Definition reads w (it : item T) : item T :=
  match items w !! Key it with
  | Some it' => if AddedCounter it' =? AddedCounter it then it' else it
  | None => it
  end.

(** A step of the loop, with the line it writes; when the queue is shut down and a tick is due, either case of
    the [select] may be taken. *)
Inductive logState w : logger -> option (list (item T)) -> logger -> Prop :=
| log_done : shutdown w = true -> logState w LSelect None LReturned
| log_collect : logState w LSelect None (LWrite (elems w))
| log_write its : logState w (LWrite its) (Some (reads w <$> its)) LSelect.

(** A line shows the items in the order they are handed out, when the queue does not change before it is
    written; and a shut-down queue lets the loop end. *)
Theorem logged_undisturbed w line l :
  WF w -> logState w (LWrite (elems w)) line l ->
  line = Some (elems w) /\ l = LSelect /\ (shutdown w = true -> logState w l None LReturned).
Proof.
  intros Hw Hl. inversion Hl; subst. split_and!; [|done|intros; by apply log_done].
  f_equal. rewrite <- (list_fmap_id (elems w)) at 2. apply list_fmap_ext. intros i it Hit.
  assert (Hk : items w !! Key it = Some it).
  { apply (wf_items w Hw). split; [by eapply list_elem_of_lookup_2|done]. }
  unfold reads. by rewrite Hk, Z.eqb_refl.
Qed.

(** ** updateUnfinishedWorkLoop *)

(** A step of the loop at [now]: whether it goes on. *)
Inductive updateUnfinishedWorkLoop (now : Time) w : PQ -> bool -> Prop :=
| unfinished_done : shutdown w = true -> updateUnfinishedWorkLoop now w w false
| unfinished_tick :
    updateUnfinishedWorkLoop now w
      (mkPQ (items w) (queue w) (addedCounter w) (becameReady w) (updateUnfinishedWork now (metrics w))
        (itemOrWaiterAdded w) (rateLimiter w) (locked w) (lockedPriority w) (shutdown w) (waiters w)) true.

(** The loop ends no queue's work: the queue stays well-formed, with the same items, locks and flag, and the
    times the metrics keep are the same. *)
Theorem unfinished_harmless now w w' b :
  updateUnfinishedWorkLoop now w w' b -> WF w ->
  WF w' /\ items w' = items w /\ elems w' = elems w /\ locked w' = locked w /\ shutdown w' = shutdown w /\
  addTimes (metrics w') = addTimes (metrics w) /\
  processingStartTimes (metrics w') = processingStartTimes (metrics w).
Proof. intros [Hs|] Hw; [done|]. split_and!; try done. by destruct Hw; split. Qed.

End Loops.
End QueueLoops.
