(* ===== verification/QueueInstr.v ===== *)
(** * pkg/controller/queue_instrumentation.go

    The wrapper a controller puts around its queue to report depth and age to OpenTelemetry.  The
    wrapped queue is an interface, [WorkQueue], which the priority queue implements; a blocking Get is
    split, as in the priority queue, into the wait and the result it returns. *)

From S2P Require Import Prelude GoTime RateLimiter BTree PriorityQueue.
Import GoTime PriorityQueue.

(** The operations of a [priorityqueue.PriorityQueue] that do not block. *)
Class WorkQueue (T Q : Type) : Type := {
  qAdd : Time -> T -> Q -> outcome Q;
  qAddWithOpts : Time -> AddOpts -> list T -> Q -> outcome Q;
  qAddAfter : Time -> T -> Z -> Q -> outcome Q;
  qAddRateLimited : Time -> T -> Q -> outcome Q;
  qDone : Time -> T -> Q -> Q;
  qForget : Time -> T -> Q -> Q;
  qNumRequeues : T -> Q -> Z;
  qLen : Time -> Q -> Z;
  qShuttingDown : Q -> bool;
  qShutDown : Q -> outcome Q;
  qShutDownWithDrain : Q -> outcome Q
}.

#[export] Instance PQ_WorkQueue {T B R M} `{Countable T} `{!BTree (@less T) B} `{!RateLimiter T R}
  `{!QueueMetrics T M} : WorkQueue T (PQ T B R M) := {
  qAdd := AddKey; qAddWithOpts := AddWithOpts; qAddAfter := AddAfter;
  qAddRateLimited := AddRateLimited; qDone := Done; qForget := Forget; qNumRequeues := NumRequeues;
  qLen := Len; qShuttingDown := ShuttingDown; qShutDown w := Ret (ShutDown w);
  qShutDownWithDrain w := Ret (ShutDownWithDrain w)
}.

Module Instrumented.

(** The calls of a [QueueMetricsRecorder]. *)
Inductive record : Type :=
| AddQueueDepth (delta : Z)
| RecordQueueOldestItemAge (d : Z).

Section Instrumented.
Context {T Q : Type} `{Countable T} `{!WorkQueue T Q}.

Record InstrumentedQueue : Type := mkIQ {
  inner : Q;
  recorder : option (list record);   (* None: a nil recorder; else its calls, latest first *)
  enqueuedAt : gmap T Time;
  doneClosed : bool;                 (* the channel done is closed *)
  shutdownOnce : bool                (* shutdownOnce.Do has run *)
}.

Definition NewInstrumentedQueue (q : Q) (withRecorder : bool) : InstrumentedQueue :=
  mkIQ q (if withRecorder then Some [] else None) ∅ false false.

Definition withInner (iq : InstrumentedQueue) (q : Q) : InstrumentedQueue :=
  mkIQ q (recorder iq) (enqueuedAt iq) (doneClosed iq) (shutdownOnce iq).

Definition recordEnqueueAt (now : Time) (k : T) (iq : InstrumentedQueue) : InstrumentedQueue :=
  match enqueuedAt iq !! k with
  | Some _ => iq
  | None => mkIQ (inner iq) (cons (AddQueueDepth 1) <$> recorder iq) (<[ k := now ]> (enqueuedAt iq))
              (doneClosed iq) (shutdownOnce iq)
  end.

Definition recordDequeueAt (k : T) (iq : InstrumentedQueue) : InstrumentedQueue :=
  match enqueuedAt iq !! k with
  | Some _ => mkIQ (inner iq) (cons (AddQueueDepth (-1)) <$> recorder iq) (delete k (enqueuedAt iq))
                (doneClosed iq) (shutdownOnce iq)
  | None => iq
  end.

Definition oldestAge (now : Time) (iq : InstrumentedQueue) : Z :=
  map_fold (fun _ enqueuedTime oldest =>
    let age := Sub now enqueuedTime in if oldest <? age then age else oldest) 0 (enqueuedAt iq).

Definition recordOldestItemAge (now : Time) (iq : InstrumentedQueue) : InstrumentedQueue :=
  let oldest := oldestAge now iq in
  if 0 <? oldest
  then mkIQ (inner iq) (cons (RecordQueueOldestItemAge oldest) <$> recorder iq) (enqueuedAt iq)
         (doneClosed iq) (shutdownOnce iq)
  else iq.

Definition Add (now : Time) (k : T) (iq : InstrumentedQueue) : outcome InstrumentedQueue :=
  let iq := recordEnqueueAt now k iq in
  q ← qAdd now k (inner iq); mret (withInner iq q).

Definition AddWithOpts (now : Time) (o : AddOpts) (ks : list T) (iq : InstrumentedQueue)
  : outcome InstrumentedQueue :=
  let iq := foldl (fun iq k => recordEnqueueAt now k iq) iq ks in
  q ← qAddWithOpts now o ks (inner iq); mret (withInner iq q).

Definition AddAfter (now : Time) (k : T) (duration : Z) (iq : InstrumentedQueue)
  : outcome InstrumentedQueue :=
  let iq := recordEnqueueAt now k iq in
  q ← qAddAfter now k duration (inner iq); mret (withInner iq q).

Definition AddRateLimited (now : Time) (k : T) (iq : InstrumentedQueue) : outcome InstrumentedQueue :=
  let iq := recordEnqueueAt now k iq in
  q ← qAddRateLimited now k (inner iq); mret (withInner iq q).

(** [Get] and [GetWithPriority], once the wrapped call has returned [res]. *)
Definition GetWithPriority (res : T * Z * bool) (iq : InstrumentedQueue)
  : InstrumentedQueue * (T * Z * bool) :=
  let '(k, priority, shutdown) := res in
  ((if shutdown then iq else recordDequeueAt k iq), (k, priority, shutdown)).

Definition Get (res : T * bool) (iq : InstrumentedQueue) : InstrumentedQueue * (T * bool) :=
  let '(k, shutdown) := res in ((if shutdown then iq else recordDequeueAt k iq), (k, shutdown)).

Definition Done (now : Time) (k : T) (iq : InstrumentedQueue) : InstrumentedQueue :=
  withInner iq (qDone now k (inner iq)).

(** [close(iq.done)]. *)
Definition closeDone (iq : InstrumentedQueue) : outcome InstrumentedQueue :=
  if doneClosed iq then Panic "close of closed channel"
  else Ret (mkIQ (inner iq) (recorder iq) (enqueuedAt iq) true (shutdownOnce iq)).

(** [iq.shutdownOnce.Do(...)]. *)
Definition onceDo (iq : InstrumentedQueue) : outcome InstrumentedQueue :=
  if shutdownOnce iq then Ret iq
  else iq ← closeDone iq;
       mret (mkIQ (inner iq) (recorder iq) (enqueuedAt iq) (doneClosed iq) true).

Definition ShutDown (iq : InstrumentedQueue) : outcome InstrumentedQueue :=
  iq ← onceDo iq; q ← qShutDown (inner iq); mret (withInner iq q).

Definition ShutDownWithDrain (iq : InstrumentedQueue) : outcome InstrumentedQueue :=
  iq ← onceDo iq; q ← qShutDownWithDrain (inner iq); mret (withInner iq q).

Definition ShuttingDown (iq : InstrumentedQueue) : bool := qShuttingDown (inner iq).
Definition Len (now : Time) (iq : InstrumentedQueue) : Z := qLen now (inner iq).
Definition NumRequeues (k : T) (iq : InstrumentedQueue) : Z := qNumRequeues k (inner iq).
Definition Forget (now : Time) (k : T) (iq : InstrumentedQueue) : InstrumentedQueue :=
  withInner iq (qForget now k (inner iq)).

(** ** Properties *)

(** The value of the recorder's depth counter. *)
Definition depth (rs : list record) : Z :=
  foldr (fun r n => match r with AddQueueDepth d => d + n | _ => n end) 0 rs.

(** An operation of the wrapper, and the same operation on the bare queue. *)
Inductive op : Type :=
| OAdd (now : Time) (k : T)
| OAddWithOpts (now : Time) (o : AddOpts) (ks : list T)
| OAddAfter (now : Time) (k : T) (d : Z)
| OAddRateLimited (now : Time) (k : T)
| OGet (res : T * bool)
| OReceive (res : T * Z * bool)
| ODone (now : Time) (k : T)
| OForget (now : Time) (k : T)
| OTick (now : Time)
| OShutDown
| OShutDownWithDrain.

Definition run (x : op) (iq : InstrumentedQueue) : outcome InstrumentedQueue :=
  match x with
  | OAdd now k => Add now k iq
  | OAddWithOpts now o ks => AddWithOpts now o ks iq
  | OAddAfter now k d => AddAfter now k d iq
  | OAddRateLimited now k => AddRateLimited now k iq
  | OGet res => Ret (Get res iq).1
  | OReceive res => Ret (GetWithPriority res iq).1
  | ODone now k => Ret (Done now k iq)
  | OForget now k => Ret (Forget now k iq)
  | OTick now => Ret (recordOldestItemAge now iq)
  | OShutDown => ShutDown iq
  | OShutDownWithDrain => ShutDownWithDrain iq
  end.

Definition runInner (x : op) (q : Q) : outcome Q :=
  match x with
  | OAdd now k => qAdd now k q
  | OAddWithOpts now o ks => qAddWithOpts now o ks q
  | OAddAfter now k d => qAddAfter now k d q
  | OAddRateLimited now k => qAddRateLimited now k q
  | OGet _ | OReceive _ | OTick _ => Ret q
  | ODone now k => Ret (qDone now k q)
  | OForget now k => Ret (qForget now k q)
  | OShutDown => qShutDown q
  | OShutDownWithDrain => qShutDownWithDrain q
  end.

Fixpoint runs {A S} (f : A -> S -> outcome S) (xs : list A) (s : S) : outcome S :=
  match xs with [] => Ret s | x :: xs => s' ← f x s; runs f xs s' end.

(** The keys enqueued and not received since, from the history of the operations alone: every way to
    add a key counts, and every result that is not the end of the queue. *)
Definition waiting1 (keys : gset T) (x : op) : gset T :=
  match x with
  | OAdd _ k | OAddAfter _ k _ | OAddRateLimited _ k => {[ k ]} ∪ keys
  | OAddWithOpts _ _ ks => list_to_set ks ∪ keys
  | OGet (k, false) | OReceive (k, _, false) => keys ∖ {[ k ]}
  | _ => keys
  end.
Definition waiting (xs : list op) : gset T := foldl waiting1 ∅ xs.

(** The state of a wrapper with the keys [keys] waiting; [on]: it has a recorder. *)
Record IQInv (on : bool) (keys : gset T) (iq : InstrumentedQueue) : Prop := mkIQInv {
  iq_keys : dom (enqueuedAt iq) = keys;
  iq_depth : if on then exists rs, recorder iq = Some rs /\ depth rs = Z.of_nat (size keys)
             else recorder iq = None;
  iq_done : doneClosed iq = shutdownOnce iq
}.

Lemma withInner_inv on keys iq q : IQInv on keys iq -> IQInv on keys (withInner iq q).
Proof. intros [Hk Hd Hc]. by split. Qed.

Lemma recordEnqueueAt_inv on keys now k iq :
  IQInv on keys iq -> IQInv on ({[ k ]} ∪ keys) (recordEnqueueAt now k iq).
Proof.
  intros [Hk Hd Hc]. unfold recordEnqueueAt. destruct (enqueuedAt iq !! k) as [t|] eqn:E.
  - assert (k ∈ keys) by (rewrite <- Hk; by apply elem_of_dom_2 in E).
    replace ({[ k ]} ∪ keys) with keys by set_solver. by split.
  - assert (k ∉ keys) by (rewrite <- Hk; by apply not_elem_of_dom).
    split; cbn [enqueuedAt recorder doneClosed shutdownOnce]; [by rewrite dom_insert_L, Hk| |done].
    destruct on; [|by rewrite Hd]. destruct Hd as (rs & -> & Hd). eexists. split; [done|].
    cbn [depth foldr]. fold (depth rs). rewrite size_union, size_singleton by set_solver. lia.
Qed.

Lemma recordEnqueueAt_inner now k iq : inner (recordEnqueueAt now k iq) = inner iq.
Proof. unfold recordEnqueueAt. by destruct (enqueuedAt iq !! k). Qed.

Lemma recordDequeueAt_inv on keys k iq :
  IQInv on keys iq -> IQInv on (keys ∖ {[ k ]}) (recordDequeueAt k iq).
Proof.
  intros [Hk Hd Hc]. unfold recordDequeueAt. destruct (enqueuedAt iq !! k) as [t|] eqn:E.
  - assert (Hin : k ∈ keys) by (rewrite <- Hk; by apply elem_of_dom_2 in E).
    split; cbn [enqueuedAt recorder doneClosed shutdownOnce]; [by rewrite dom_delete_L, Hk| |done].
    destruct on; [|by rewrite Hd]. destruct Hd as (rs & -> & Hd). eexists. split; [done|].
    cbn [depth foldr]. fold (depth rs). rewrite size_difference, size_singleton by set_solver.
    assert (size keys <> 0%nat); [|lia]. intros E0%size_empty_inv. set_solver.
  - assert (k ∉ keys) by (rewrite <- Hk; by apply not_elem_of_dom).
    replace (keys ∖ {[ k ]}) with keys by set_solver. by split.
Qed.

Lemma recordDequeueAt_inner k iq : inner (recordDequeueAt k iq) = inner iq.
Proof. unfold recordDequeueAt. by destruct (enqueuedAt iq !! k). Qed.

Lemma enqueue_all_inv on now ks : forall keys iq, IQInv on keys iq ->
  let iq' := foldl (fun iq k => recordEnqueueAt now k iq) iq ks in
  IQInv on (list_to_set ks ∪ keys) iq' /\ inner iq' = inner iq.
Proof.
  induction ks as [|k ks IH]; intros keys iq Hi; cbn [foldl list_to_set].
  { by rewrite union_empty_l_L. }
  destruct (IH _ _ (recordEnqueueAt_inv on keys now k iq Hi)) as [Hi' Ei].
  rewrite recordEnqueueAt_inner in Ei. split; [|exact Ei].
  by replace ({[ k ]} ∪ list_to_set ks ∪ keys) with (list_to_set ks ∪ ({[ k ]} ∪ keys)) by set_solver.
Qed.

Lemma onceDo_ok on keys iq :
  IQInv on keys iq -> exists iq', onceDo iq = Ret iq' /\ IQInv on keys iq' /\ inner iq' = inner iq /\
    doneClosed iq' = true.
Proof.
  intros [Hk Hd Hc]. unfold onceDo, closeDone. destruct (shutdownOnce iq) eqn:E.
  - exists iq. split_and!; [done|split; [done..|congruence]|done|congruence].
  - rewrite Hc. eexists. by split_and!.
Qed.

Lemma bind_inner on keys (iq : InstrumentedQueue) (r : outcome Q) :
  IQInv on keys iq ->
  match (q ← r; mret (withInner iq q)) : outcome InstrumentedQueue, r with
  | Ret iq', Ret q => inner iq' = q /\ IQInv on keys iq'
  | Panic a, Panic b => a = b
  | _, _ => False
  end.
Proof. intros Hi. destruct r; simpl; [|done]. split; [done|]. by apply withInner_inv. Qed.

Lemma run_refines on keys x iq :
  IQInv on keys iq ->
  match run x iq, runInner x (inner iq) with
  | Ret iq', Ret q => inner iq' = q /\ IQInv on (waiting1 keys x) iq'
  | Panic a, Panic b => a = b
  | _, _ => False
  end.
Proof.
  intros Hi. pose proof (fun now k => recordEnqueueAt_inv on keys now k iq Hi) as He.
  destruct x as [now k|now o ks|now k d|now k|[k sd]|[[k p] sd]|now k|now k|now| |];
    cbn [run runInner waiting1 Get GetWithPriority fst];
    try (rewrite <- (recordEnqueueAt_inner now k iq); exact (bind_inner _ _ _ _ (He now k))).
  - unfold AddWithOpts. destruct (enqueue_all_inv on now ks keys iq Hi) as [Hi' <-].
    exact (bind_inner _ _ _ _ Hi').
  - destruct sd; [done|]. split; [apply recordDequeueAt_inner|by apply recordDequeueAt_inv].
  - destruct sd; [done|]. split; [apply recordDequeueAt_inner|by apply recordDequeueAt_inv].
  - split; [done|]. by apply withInner_inv.
  - split; [done|]. by apply withInner_inv.
  - unfold recordOldestItemAge. destruct (0 <? oldestAge now iq); [|done]. split; [done|].
    destruct Hi as [Hk Hd Hc]. split; [exact Hk| |exact Hc]. cbn [recorder].
    destruct on; [|by rewrite Hd]. destruct Hd as (rs & -> & Hd). by eexists.
  - unfold ShutDown. destruct (onceDo_ok on keys iq Hi) as (iq' & -> & Hi' & <- & _).
    exact (bind_inner _ _ _ _ Hi').
  - unfold ShutDownWithDrain. destruct (onceDo_ok on keys iq Hi) as (iq' & -> & Hi' & <- & _).
    exact (bind_inner _ _ _ _ Hi').
Qed.

Lemma runs_refine on xs : forall keys iq, IQInv on keys iq ->
  match runs run xs iq, runs runInner xs (inner iq) with
  | Ret iq', Ret q => inner iq' = q /\ IQInv on (foldl waiting1 keys xs) iq'
  | Panic a, Panic b => a = b
  | _, _ => False
  end.
Proof.
  induction xs as [|x xs IH]; intros keys iq Hi; cbn [runs foldl]; [done|].
  pose proof (run_refines on keys x iq Hi) as Hr.
  destruct (run x iq) as [iq'|], (runInner x (inner iq)) as [q'|]; cbn; try done.
  destruct Hr as [<- Hi']. by apply IH.
Qed.

(** C29. The wrapper is transparent and its depth is right: any sequence of its operations, shutdowns
    repeated included, panics only where the bare queue panics on the same operations, and else leaves
    in the wrapped queue what they leave in the bare one; the keys it holds a time for are those the
    history says were enqueued, in any of the four ways, and not received since; with a recorder the
    depth reported is their number, and without one nothing is recorded. *)
Theorem instrumented_refines q withRecorder xs :
  match runs run xs (NewInstrumentedQueue q withRecorder), runs runInner xs q with
  | Ret iq, Ret q' => inner iq = q' /\ dom (enqueuedAt iq) = waiting xs /\
      if withRecorder
      then exists rs, recorder iq = Some rs /\ depth rs = Z.of_nat (size (waiting xs))
      else recorder iq = None
  | Panic a, Panic b => a = b
  | _, _ => False
  end.
Proof.
  assert (Hi : IQInv withRecorder ∅ (NewInstrumentedQueue q withRecorder)).
  { split; [apply dom_empty_L| |done]. destruct withRecorder; [|done]. by eexists. }
  pose proof (runs_refine withRecorder xs ∅ _ Hi) as Hr. cbn [inner NewInstrumentedQueue] in Hr.
  destruct (runs run xs _), (runs runInner xs q); try done. by destruct Hr as [? [? ? _]].
Qed.

(** The age reported is that of the key enqueued first: no key is older, and some key has that age. *)
Theorem oldestAge_max now iq :
  (forall k t, enqueuedAt iq !! k = Some t -> Sub now t <= oldestAge now iq) /\
  0 <= oldestAge now iq /\
  (0 < oldestAge now iq -> exists k t, enqueuedAt iq !! k = Some t /\ Sub now t = oldestAge now iq).
Proof.
  unfold oldestAge. apply (map_fold_weak_ind (fun oldest m =>
    (forall k t, m !! k = Some t -> Sub now t <= oldest) /\ 0 <= oldest /\
    (0 < oldest -> exists k t, m !! k = Some t /\ Sub now t = oldest))).
  - split_and!; [|done|done]. intros k t. by rewrite lookup_empty.
  - intros k t m oldest Hk (Hmax & H0 & Hex). destruct (oldest <? Sub now t) eqn:E; bool_to_prop.
    + split_and!; [|lia|].
      * intros j u [[<- <-]|[Hj Hu]]%lookup_insert_Some; [lia|]. specialize (Hmax j u Hu). lia.
      * intros _. exists k, t. by rewrite lookup_insert_eq.
    + split_and!; [|done|].
      * intros j u [[<- <-]|[Hj Hu]]%lookup_insert_Some; [lia|]. by eapply Hmax.
      * intros Hp. destruct (Hex Hp) as (j & u & Hj & Hu). exists j, u. split; [|done].
        rewrite lookup_insert_ne; [done|]. by intros ->; rewrite Hk in Hj.
Qed.

End Instrumented.
Arguments InstrumentedQueue T Q {_ _}.
End Instrumented.
