(* ===== verification/QueueLaws.v ===== *)
(** * What the controller relies on of its queue

    Laws of the interface [WorkQueue], stated as type classes, and the proof that the priority queue
    has them: an addition to a well-formed queue does not panic, and a key that was forgotten has no
    failures, when the rate limiter forgets. *)

From S2P Require Import Prelude GoTime RateLimiter BTree PriorityQueue PriorityQueueFacts PQTrace.
From S2P Require Import QueueInstr.
Import GoTime PriorityQueue PQFacts PQTrace.

Class QueueSafe (T Q : Type) `{WorkQueue T Q} : Type := {
  qOk : Q -> Prop;
  qOk_done t k q : qOk q -> qOk (qDone t k q);
  qOk_forget t k q : qOk q -> qOk (qForget t k q);
  qAdd_returns t o k q : qOk q -> exists q', qAddWithOpts t o [k] q = Ret q'
}.

(** No failure of a key is known after Forget, and Done is no failure. *)
Class ForgetfulQueue (T Q : Type) `{WorkQueue T Q} : Prop := {
  qNumRequeues_forget t k q : qNumRequeues k (qForget t k q) = 0;
  qNumRequeues_done t k k' q : qNumRequeues k (qDone t k' q) = qNumRequeues k q
}.

#[export] Instance PQ_ForgetfulQueue {T B R M} `{Countable T} `{!BTree (@less T) B}
  `{!RateLimiter T R, !ForgetResets T R} `{!QueueMetrics T M} : ForgetfulQueue T (PQ T B R M).
Proof. split; [|done]. intros t k q. apply numRequeues_forget. Qed.

Section Safe.
Context {T : Type} `{Countable T}.
Context {B R M : Type} `{!BTree (@less T) B, !BTreeLaws (@less T) B} `{!RateLimiter T R}
  `{!QueueMetrics T M}.
Implicit Types (w : PQ T B R M).

Lemma addItem_returns now o w key : WF w -> exists w', addItem now o w key = Ret w'.
Proof.
  intros Hw. unfold addItem. destruct (effectiveAfter now o key (rateLimiter w)) as [after rl].
  set (w0 := withLimiter w rl _). assert (WF w0) as Hw0 by (destruct Hw; by split).
  destruct (items w0 !! key) as [it|] eqn:Hit; [|by eexists].
  pose proof (proj1 (wf_items w0 Hw0 key it) Hit) as [Hin <-].
  rewrite (updateItem_eq now o _ w0 it Hw0 Hin). by eexists.
Qed.

#[export] Instance PQ_QueueSafe : QueueSafe T (PQ T B R M).
Proof.
  refine {| qOk := WF |}.
  - intros t k q. apply Done_WF.
  - intros t k q. apply Forget_WF.
  - intros t o k q Hq. simpl. unfold AddWithOpts. destruct (shutdown q); [by eexists|].
    simpl. destruct (addItem_returns t o q k Hq) as (w' & ->). by eexists.
Defined.

End Safe.
