(* ===== verification/Conditions.v ===== *)
(** * pkg/tools/unstructured and pkg/tools/unstructured/condition

    JSON values, status conditions, and how a controller reads and writes them in an unstructured
    object.  The object's content is a map of JSON values; apimachinery's [NestedSlice],
    [NestedFieldNoCopy] and [SetNestedField] and the JSON form of its [Time] are operations of the
    interface [UnstructuredObject]. *)

From S2P Require Import Prelude GoTime Errors GoStrings Meta Event.
Import GoTime Errors GoStrings Event.

#[local] Set Warnings "-register-all".

(** ** JSON values, as an [interface{}] of an unstructured object holds them *)

Inductive Value : Type :=
| VNull
| VBool (b : bool)
| VNumber (n : Z)
| VString (s : string)
| VList (l : list Value)
| VMap (m : gmap string Value).

Class UnstructuredObject (O : Type) : Type := {
  Object : O -> gmap string Value;
  withObject : O -> gmap string Value -> O;
  (** the items of [NestedSlice]; none when the field is missing or not a slice *)
  NestedSlice : O -> list string -> list Value;
  SetNestedField : O -> Value -> list string -> error + O;
  NestedFieldNoCopy : O -> list string -> error + option Value;
  RemoveNestedField : O -> list string -> O;
  (** [metav1.Time.MarshalJSON] *)
  marshalTime : Time -> Value
}.

Class UnstructuredLaws (O : Type) `{UnstructuredObject O} : Prop := {
  get_set_nested o o' l fields :
    SetNestedField o (VList l) fields = inr o' -> NestedSlice o' fields = l;
  marshalTime_rfc3339 t : IsZero t = false -> marshalTime t = VString (FormatRFC3339 (UTC t));
  marshalTime_zero t : IsZero t = true -> marshalTime t = VNull;
  object_withObject o m : Object (withObject o m) = m
}.

Module Condition.

Record Condition : Type := mkCondition {
  Type_ : string;
  Status : string;
  ObservedGeneration : Z;
  LastTransitionTime : Time;
  Reason : string;
  Message : string
}.

#[export] Instance Condition_eq_dec : EqDecision Condition.
Proof. solve_decision. Defined.

Definition ConditionTrue : string := "True".
Definition ConditionFalse : string := "False".
Definition TypeReady : string := "Ready".
Definition TypeSynced : string := "Synced".
Definition ReasonAvailable : string := "Available".
Definition ReasonUnavailable : string := "Unavailable".
Definition ReasonCreating : string := "Creating".
Definition ReasonDeleting : string := "Deleting".
Definition ReasonInstalled : string := "Installed".
Definition ReasonReconcileSuccess : string := "ReconcileSuccess".
Definition ReasonReconcileError : string := "ReconcileError".
Definition ReasonReconcilePaused : string := "ReconcilePaused".

Definition Unavailable (now : Time) : Condition :=
  mkCondition TypeReady ConditionFalse 0 now ReasonUnavailable "".
Definition Creating (now : Time) : Condition :=
  mkCondition TypeReady ConditionFalse 0 now ReasonCreating "".
Definition FailWithReason (reason : string) (now : Time) : Condition :=
  mkCondition TypeReady ConditionFalse 0 now reason "".
Definition Deleting (now : Time) : Condition :=
  mkCondition TypeReady ConditionFalse 0 now ReasonDeleting "".
Definition Available (now : Time) : Condition :=
  mkCondition TypeReady ConditionTrue 0 now ReasonAvailable "".
Definition ReconcileSuccess (now : Time) : Condition :=
  mkCondition TypeSynced ConditionTrue 0 now ReasonReconcileSuccess "".
Definition ReconcileError (err : error) (now : Time) : Condition :=
  mkCondition TypeSynced ConditionFalse 0 now ReasonReconcileError (Error err).
Definition ReconcilePaused (now : Time) : Condition :=
  mkCondition TypeSynced ConditionFalse 0 now ReasonReconcilePaused "".

(** The slice is updated in place or extended. *)
Fixpoint Upsert (conds : list Condition) (co : Condition) : list Condition :=
  match conds with
  | [] => [co]
  | el :: conds' => if String.eqb (Type_ el) (Type_ co) then co :: conds'
                    else el :: Upsert conds' co
  end.

(** The loop ranges over [*conds], whose elements it reads as it goes; [all] is not used. *)
Definition Join (conds : list Condition) (all : list Condition) : list Condition :=
  foldl (fun conds i => match conds !! i with Some el => Upsert conds el | None => conds end)
    conds (seq 0 (length conds)).

Fixpoint Remove (conds : list Condition) (typ : string) : list Condition :=
  match conds with
  | [] => []
  | el :: conds' => if String.eqb (Type_ el) typ then conds' else el :: Remove conds' typ
  end.

(** ** Properties *)

Definition find (typ : string) (conds : list Condition) : option Condition :=
  head (filter (fun c => Type_ c = typ) conds).

Lemma find_cons typ c l :
  find typ (c :: l) = if String.eqb (Type_ c) typ then Some c else find typ l.
Proof.
  unfold find. rewrite filter_cons. destruct (String.eqb (Type_ c) typ) eqn:E; bool_to_prop.
  - by rewrite decide_True.
  - by rewrite decide_False.
Qed.

Lemma Upsert_types conds co typ :
  typ ∈ (Type_ <$> Upsert conds co) <-> typ = Type_ co \/ typ ∈ (Type_ <$> conds).
Proof.
  induction conds as [|el conds IH]; simpl; [set_solver|].
  destruct (String.eqb (Type_ el) (Type_ co)) eqn:E; bool_to_prop; simpl; set_solver.
Qed.

Lemma Upsert_NoDup conds co : NoDup (Type_ <$> conds) -> NoDup (Type_ <$> Upsert conds co).
Proof.
  induction conds as [|el conds IH]; simpl; intros Hnd; [apply NoDup_singleton|].
  apply NoDup_cons in Hnd as [Hel Hnd].
  destruct (String.eqb (Type_ el) (Type_ co)) eqn:E; bool_to_prop; simpl.
  - apply NoDup_cons. by rewrite <- E.
  - apply NoDup_cons. split; [|by apply IH]. rewrite Upsert_types. intuition congruence.
Qed.

(** Upsert keeps at most one condition per type, replaces the condition of its type where it stands or
    appends it, and leaves the conditions of the other types as they are. *)
Theorem Upsert_spec conds co typ :
  find typ (Upsert conds co) = (if String.eqb (Type_ co) typ then Some co else find typ conds) /\
  (NoDup (Type_ <$> conds) -> NoDup (Type_ <$> Upsert conds co)) /\
  (Type_ <$> Upsert conds co) =
    (Type_ <$> conds) ++ (if decide (Type_ co ∈ (Type_ <$> conds)) then [] else [Type_ co]).
Proof.
  split_and!; [|apply Upsert_NoDup|].
  - induction conds as [|el conds IH]; simpl; [by rewrite find_cons|].
    destruct (String.eqb (Type_ el) (Type_ co)) eqn:E; bool_to_prop; rewrite !find_cons.
    + rewrite E. by destruct (String.eqb (Type_ co) typ).
    + destruct (String.eqb (Type_ el) typ) eqn:E1; [|done]. bool_to_prop.
      destruct (String.eqb (Type_ co) typ) eqn:E2; [|done]. bool_to_prop. congruence.
  - induction conds as [|el conds IH]; cbn [Upsert]; [done|].
    destruct (String.eqb (Type_ el) (Type_ co)) eqn:E; bool_to_prop; rewrite !fmap_cons.
    + rewrite decide_True by (rewrite E; by left). by rewrite E, app_nil_r.
    + rewrite IH, <- app_comm_cons. f_equal. f_equal. apply decide_ext.
      rewrite elem_of_cons. intuition congruence.
Qed.

(** Remove drops the one condition of its type. *)
Theorem Remove_spec conds typ t :
  NoDup (Type_ <$> conds) ->
  find t (Remove conds typ) = (if String.eqb t typ then None else find t conds) /\
  NoDup (Type_ <$> Remove conds typ).
Proof.
  assert (Hsub : forall l, (Type_ <$> Remove l typ) `sublist_of` (Type_ <$> l)).
  { intros l. induction l as [|el l IH]; simpl; [done|].
    destruct (String.eqb (Type_ el) typ); by constructor. }
  intros Hnd. split.
  - induction conds as [|el conds IH]; simpl.
    { unfold find. simpl. by destruct (String.eqb t typ). }
    apply NoDup_cons in Hnd as [Hel Hnd]. rewrite find_cons.
    destruct (String.eqb (Type_ el) typ) eqn:E; bool_to_prop.
    + destruct (String.eqb t typ) eqn:E1; bool_to_prop.
      * unfold find. destruct (filter _ conds) as [|x l] eqn:Ef; [done|].
        assert (x ∈ filter (fun c => Type_ c = t) conds) as Hx by (rewrite Ef; by left).
        apply list_elem_of_filter in Hx as [Hx Hxc]. destruct Hel. apply list_elem_of_fmap.
        exists x. by rewrite Hx, E, E1.
      * rewrite (proj2 (String.eqb_neq _ _)) by congruence. done.
    + rewrite find_cons, IH by done. destruct (String.eqb (Type_ el) t) eqn:E1; [|done].
      bool_to_prop. by rewrite (proj2 (String.eqb_neq _ _)) by congruence.
  - eapply sublist_NoDup; [exact Hnd|apply Hsub].
Qed.

(** Join adds nothing of [all]: conditions of distinct types come back as they were. *)
Theorem Join_ignores conds all : NoDup (Type_ <$> conds) -> Join conds all = conds.
Proof.
  intros Hnd. unfold Join. generalize (seq 0 (length conds)). intros idx.
  induction idx as [|i idx IH]; simpl; [done|].
  assert (Hone : forall l el, NoDup (Type_ <$> l) -> el ∈ l -> Upsert l el = l).
  { clear. intros l el. induction l as [|a l IH]; intros Hnd Hin; [by apply not_elem_of_nil in Hin|].
    apply NoDup_cons in Hnd as [Ha Hnd]. simpl.
    destruct (String.eqb (Type_ a) (Type_ el)) eqn:E; bool_to_prop.
    - apply elem_of_cons in Hin as [->|Hin]; [done|]. destruct Ha. apply list_elem_of_fmap.
      by exists el.
    - apply elem_of_cons in Hin as [->|Hin]; [done|]. by rewrite IH. }
  destruct (conds !! i) as [el|] eqn:E; [|done].
  rewrite Hone; [done|done|by eapply list_elem_of_lookup_2].
Qed.

End Condition.

Module Unstructured.
Import Condition.

Section Unstructured.
Context {O : Type} `{MetaObject O} `{UnstructuredObject O}.

Definition conditionsPath : list string := ["status"; "conditions"].

(** [m[k].(string)] for a key that may be missing: absent gives the empty string, anything but a
    string panics. *)
Definition stringField (m : gmap string Value) (k : string) : outcome string :=
  match m !! k with
  | None => Ret EmptyString
  | Some (VString s) => Ret s
  | Some _ => Panic "interface conversion"
  end.

(** One iteration of the loop of [GetConditions]; [None]: the function returns nil. *)
Definition conditionOf (item : Value) : outcome (option Condition) :=
  match item with
  | VMap m =>
    match m !! "type", m !! "status" with
    | Some (VString ty), Some (VString st) =>
      reason ← stringField m "reason";
      message ← stringField m "message";
      t ← stringField m "lastTransitionTime";
      match ParseRFC3339 t with
      | None => Ret None
      | Some tm => Ret (Some (mkCondition ty st 0 tm reason message))
      end
    | _, _ => Ret None
    end
  | _ => Ret None
  end.

Fixpoint conditionsOf (items : list Value) (x : list Condition) : outcome (option (list Condition)) :=
  match items with
  | [] => Ret (Some x)
  | item :: items =>
    c ← conditionOf item;
    match c with None => Ret None | Some c => conditionsOf items (x ++ [c]) end
  end.

(** [None] as a pointer is nil, as a result the nil slice. *)
Definition GetConditions (un : option O) : outcome (option (list Condition)) :=
  match un with
  | None => Ret None
  | Some o => conditionsOf (NestedSlice o conditionsPath) []
  end.

(** The JSON object of a condition, encoded and decoded again: strings lose what is no UTF-8; a zero
    [observedGeneration] is left out. *)
Definition encodeCondition (c : Condition) : Value :=
  let text s := VString (jsonText s) in
  let m := <[ "type" := text (Type_ c) ]> (<[ "status" := text (Status c) ]>
    (<[ "lastTransitionTime" := marshalTime (O := O) (LastTransitionTime c) ]>
    (<[ "reason" := text (Reason c) ]> {[ "message" := text (Message c) ]}))) in
  VMap (if ObservedGeneration c =? 0 then m
        else <[ "observedGeneration" := VNumber (ObservedGeneration c) ]> m).

(** A nil slice is encoded as null. *)
Definition encodeStruct (conds : option (list Condition)) : Value :=
  match conds with None => VNull | Some l => VList (encodeCondition <$> l) end.

(** [Upsert(&conditions, cond)] on a slice that may be nil. *)
Definition upsertAll (conditions : option (list Condition)) (conds : list Condition)
  : option (list Condition) :=
  foldl (fun c cond => Some (Upsert (default [] c) cond)) conditions conds.

(** The error, if any, and the object as the call leaves it. *)
Definition SetConditions (un : option O) (conds : list Condition)
  : outcome (option error * option O) :=
  conditions ← GetConditions un;
  match un with
  | None => Panic "invalid memory address or nil pointer dereference"
  | Some o =>
    match SetNestedField o (encodeStruct (upsertAll conditions conds)) conditionsPath with
    | inl e => Ret (Some e, un)
    | inr o' => Ret (None, Some o')
    end
  end.

Definition GetCondition (un : option O) (condType reason : string) : outcome (option Condition) :=
  conds ← GetConditions un;
  mret (head (filter (fun co => Type_ co = condType /\ Reason co = reason) (default [] conds))).

Definition IsConditionSet (un : option O) (cond : Condition) : outcome bool :=
  match un with
  | None => Ret false
  | Some _ =>
    conds ← GetConditions un;
    mret (existsb (fun co => String.eqb (Type_ co) (Type_ cond) &&
      String.eqb (Status co) (Status cond) && String.eqb (Reason co) (Reason cond))
      (default [] conds))
  end.

(** ** IsAvailable *)

(** [strings.ToLower] on ASCII text. *)
Definition toLowerChar (c : ascii) : ascii :=
  let n := N_of_ascii c in
  if (65 <=? n)%N && (n <=? 90)%N then ascii_of_N (n + 32) else c.
Fixpoint ToLower (s : string) : string :=
  match s with EmptyString => EmptyString | String c s => String (toLowerChar c) (ToLower s) end.

(** [strings.Contains] *)
Fixpoint Contains (s sub : string) : bool :=
  String.prefix sub s || match s with EmptyString => false | String _ s => Contains s sub end.

Definition has (l : list string) (str : string) : bool :=
  existsb (fun v => Contains (ToLower str) v) l.

Definition positives : list string := ["ready"; "complete"; "healthy"; "active"; "able"].

Record NotAvailableError : Type := mkNotAvailable {
  FailedObjectRef : option ObjectRef; Err : error }.

Definition NotAvailableErrorText (r : NotAvailableError) : string :=
  match FailedObjectRef r with
  | None => "err " +:+ Error (Err r)
  | Some ref => "failedObjectRef " +:+ ObjectRefString ref +:+ " k8s.io/api/core/v1: err " +:+
                Error (Err r)
  end.

Definition refOf (o : O) : ObjectRef :=
  mkRef (GetAPIVersion o) (GetKind o) (GetName o) (GetNamespace o).

(** The first condition with a positive type that is not true. *)
Fixpoint firstBad (conds : list Condition) : option Condition :=
  match conds with
  | [] => None
  | co :: conds => if has positives (Type_ co) && negb (String.eqb (Status co) "True")
                   then Some co else firstBad conds
  end.

Definition IsAvailable (un : option O) : outcome (bool * option NotAvailableError) :=
  conds ← GetConditions un;
  match default [] conds with
  | [] => Ret (true, None)
  | conds =>
    match firstBad conds with
    | None => Ret (true, None)
    | Some co =>
      match un with
      | None => Panic "invalid memory address or nil pointer dereference"
      | Some o => Ret (false, Some (mkNotAvailable (Some (refOf o)) (New (Reason co))))
      end
    end
  end.

(** ** Nested fields *)

(** [fmt.Sprint] of a slice of strings. *)
Definition sprintFields (l : list string) : string :=
  "[" +:+ match l with [] => "" | f :: l => foldl (fun s f => s +:+ " " +:+ f) f l end +:+ "]".

Fixpoint setNestedLoop (seen : list string) (m : gmap string Value) (value : Value)
  (f : string) (fields : list string) : error + gmap string Value :=
  match fields with
  | [] => inr (<[ f := value ]> m)
  | f' :: fields =>
    let seen := seen ++ [f] in
    match m !! f with
    | Some (VMap m') =>
      match setNestedLoop seen m' value f' fields with
      | inl e => inl e
      | inr m' => inr (<[ f := VMap m' ]> m)
      end
    | Some _ => inl (New ("value cannot be set because " +:+ sprintFields seen +:+
                          " is not a map[string]interface{}"))
    | None =>
      match setNestedLoop seen ∅ value f' fields with
      | inl e => inl e
      | inr m' => inr (<[ f := VMap m' ]> m)
      end
    end
  end.

Definition setNestedFieldNoCopy (uns : option O) (value : Value) (fields : list string)
  : outcome (error + O) :=
  match uns with
  | None => Ret (inl (New "uns cannot be nil"))
  | Some o =>
    match fields with
    | [] => Panic "slice bounds out of range"
    | f :: fields =>
      match setNestedLoop [] (Object o) value f fields with
      | inl e => Ret (inl e)
      | inr m => Ret (inr (withObject o m))
      end
    end
  end.

Fixpoint removeNestedLoop (m : gmap string Value) (f : string) (fields : list string)
  : gmap string Value :=
  match fields with
  | [] => delete f m
  | f' :: fields =>
    match m !! f with
    | Some (VMap m') => <[ f := VMap (removeNestedLoop m' f' fields) ]> m
    | _ => m
    end
  end.

Definition removeNestedField (uns : option O) (fields : list string) : outcome (option O) :=
  match uns with
  | None => Ret None
  | Some o =>
    match fields with
    | [] => Panic "slice bounds out of range"
    | f :: fields => Ret (Some (withObject o (removeNestedLoop (Object o) f fields)))
    end
  end.

Definition failedObjectRefPath : list string := ["status"; "failedObjectRef"].

Definition SetFailedObjectRef (un : option O) (ref : option ObjectRef) : outcome (error + O) :=
  match ref with
  | None => Ret (inl (New "ref cannot be nil"))
  | Some ref =>
    match un with
    | None => Ret (inl (New "un cannot be nil"))
    | Some _ =>
      setNestedFieldNoCopy un (VMap (<[ "apiVersion" := VString (APIVersion ref) ]>
        (<[ "kind" := VString (Kind ref) ]> (<[ "name" := VString (Name ref) ]>
        {[ "namespace" := VString (Namespace ref) ]})))) failedObjectRefPath
    end
  end.

Definition UnsetFailedObjectRef (un : option O) : outcome (option O) :=
  removeNestedField un failedObjectRefPath.

(** The name encoding/json has for a value in its error texts. *)
Definition jsonKind (v : Value) : string :=
  match v with
  | VNull => "null"
  | VBool _ => "bool"
  | VNumber _ => "number"
  | VString _ => "string"
  | VList _ => "array"
  | VMap _ => "object"
  end.

(** One field of an [ObjectRef] decoded from a JSON object with that key, in the case given: absent and
    null leave it empty, anything but a text is an error that leaves it empty too. *)
Definition refField (m : gmap string Value) (k : string) : string * option error :=
  match m !! k with
  | Some (VString s) => (s, None)
  | None | Some VNull => (EmptyString, None)
  | Some v => (EmptyString, Some (New ("json: cannot unmarshal " +:+ jsonKind v +:+
      " into Go struct field ObjectRef." +:+ k +:+ " of type string")))
  end.

(** [json.Marshal] and [json.Unmarshal] into an [ObjectRef]: what was decoded, and the first error in
    the order of the keys, which [Marshal] sorts. *)
Definition decodeRef (v : Value) : ObjectRef * option error :=
  match v with
  | VMap m =>
    let a := refField m "apiVersion" in
    let k := refField m "kind" in
    let n := refField m "name" in
    let ns := refField m "namespace" in
    (mkRef a.1 k.1 n.1 ns.1,
     match a.2, k.2, n.2, ns.2 with
     | Some e, _, _, _ | None, Some e, _, _ | None, None, Some e, _ | None, None, None, Some e => Some e
     | None, None, None, None => None
     end)
  | VNull => (mkRef EmptyString EmptyString EmptyString EmptyString, None)
  | v => (mkRef EmptyString EmptyString EmptyString EmptyString,
          Some (New ("json: cannot unmarshal " +:+ jsonKind v +:+
                     " into Go value of type objectref.ObjectRef")))
  end.

Definition ExtractFailedObjectRef (un : option O) : option ObjectRef * option error :=
  match un with
  | None => (None, Some (New "un cannot be nil"))
  | Some o =>
    match NestedFieldNoCopy o failedObjectRefPath with
    | inl err => (None, Some err)
    | inr None => (None, None)
    | inr (Some obj) => let '(ref, err) := decodeRef obj in (Some ref, err)
    end
  end.

(** Reflection takes a value that is not a map for a programming error. *)
Definition GetFieldsFromUnstructured (u : option O) (field : string)
  : outcome (error + gmap string Value) :=
  match u with
  | None => Ret (inl (New "unstructured cannot be nil"))
  | Some o =>
    match NestedFieldNoCopy o [field] with
    | inl err => Ret (inl err)
    | inr None => Ret (inl (New (field +:+ " not found")))
    | inr (Some (VMap m)) => Ret (inr m)
    | inr (Some _) => Panic "reflect: call of a method on a value that is not a map"
    end
  end.

(** The value at a path of maps, as [NestedFieldNoCopy] finds it. *)
Fixpoint lookupPath (m : gmap string Value) (f : string) (fields : list string) : option Value :=
  match fields with
  | [] => m !! f
  | f' :: fields => match m !! f with Some (VMap m') => lookupPath m' f' fields | _ => None end
  end.

(** ** Properties *)

Context `{!UnstructuredLaws O}.

(** A condition as it comes back: its time in whole seconds of UTC, without its generation, its strings
    as UTF-8. *)
Definition stored (c : Condition) : Condition :=
  mkCondition (jsonText (Type_ c)) (jsonText (Status c)) 0 (truncSec (UTC (LastTransitionTime c)))
    (jsonText (Reason c)) (jsonText (Message c)).

Definition storable (c : Condition) : Prop :=
  IsZero (LastTransitionTime c) = false /\ formattable (UTC (LastTransitionTime c)).

(** The fields of the JSON object of a condition. *)
Lemma encodeCondition_fields c : exists m, encodeCondition c = VMap m /\
  m !! "type" = Some (VString (jsonText (Type_ c))) /\
  m !! "status" = Some (VString (jsonText (Status c))) /\
  m !! "lastTransitionTime" = Some (marshalTime (O := O) (LastTransitionTime c)) /\
  m !! "reason" = Some (VString (jsonText (Reason c))) /\
  m !! "message" = Some (VString (jsonText (Message c))).
Proof.
  unfold encodeCondition. eexists. split; [done|].
  destruct (ObservedGeneration c =? 0); by simplify_map_eq.
Qed.

Lemma conditionOf_encode c : storable c -> conditionOf (encodeCondition c) = Ret (Some (stored c)).
Proof.
  intros [Hz Hf]. destruct (encodeCondition_fields c) as (m & -> & Hty & Hst & Ht & Hr & Hm).
  unfold conditionOf, stringField. rewrite Hty, Hst, Hr, Hm, Ht, marshalTime_rfc3339 by done.
  cbn [mbind outcome_bind]. by rewrite parse_format.
Qed.

Lemma conditionsOf_encode l rest : forall x, Forall storable l ->
  conditionsOf ((encodeCondition <$> l) ++ rest) x = conditionsOf rest (x ++ (stored <$> l)).
Proof.
  induction l as [|c l IH]; intros x Hl; cbn [fmap list_fmap app]; [by rewrite app_nil_r|].
  apply Forall_cons in Hl as [Hc Hl]. cbn [conditionsOf]. rewrite conditionOf_encode by done.
  cbn [mbind outcome_bind]. rewrite IH by done. by rewrite <- app_assoc.
Qed.

Lemma upsertAll_foldl cs conds :
  conds <> [] -> upsertAll cs conds = Some (foldl Upsert (default [] cs) conds).
Proof.
  assert (Hall : forall l c0, foldl (fun c cond => Some (Upsert (default [] c) cond)) (Some c0) l =
    Some (foldl Upsert c0 l)) by (intros l; induction l; intros; [done|apply IHl]).
  unfold upsertAll. destruct conds as [|c conds]; [done|]. intros _. simpl. apply Hall.
Qed.

(** C37. What a call of SetConditions writes, GetConditions reads back, messages included: the conditions
    found before the call with the given ones upserted in order, with times in whole seconds of UTC, no
    observed generation, and bytes that are no UTF-8 replaced; provided the call did not fail, at least
    one condition was given, and no transition time among them is zero, on which the next read panics,
    or has a year that cannot be formatted.  When the conditions found are malformed, [GetConditions]
    gives nil and only the given ones are left. *)
Theorem SetConditions_roundtrip o o' cs conds :
  GetConditions (Some o) = Ret cs -> SetConditions (Some o) conds = Ret (None, Some o') ->
  conds <> [] -> Forall storable (default [] cs) -> Forall storable conds ->
  GetConditions (Some o') = Ret (Some (stored <$> foldl Upsert (default [] cs) conds)).
Proof.
  intros Hg Hs Hne Hcs Hconds. unfold SetConditions in Hs. rewrite Hg in Hs. cbn in Hs.
  rewrite (upsertAll_foldl cs conds Hne) in Hs. cbn in Hs.
  destruct (SetNestedField o _ conditionsPath) as [e|o1] eqn:E; simplify_eq.
  unfold GetConditions. rewrite (get_set_nested _ _ _ _ E).
  rewrite <- (app_nil_r (encodeCondition <$> _)), conditionsOf_encode; [done|]. clear -Hcs Hconds.
  revert Hcs. generalize (default [] cs). induction Hconds as [|c conds Hc Hconds IH]; [done|].
  intros l Hl. simpl. apply IH. clear -Hl Hc. induction Hl as [|a l Ha Hl IH]; simpl.
  - by apply Forall_singleton.
  - destruct (String.eqb (Type_ a) (Type_ c)); by constructor.
Qed.

(** A condition whose transition time is the zero time is written with a null there, on which the next
    GetConditions panics. *)
Theorem zero_time_panics o o' cs c :
  GetConditions (Some o) = Ret (Some cs) -> Forall storable cs -> Type_ c ∉ (Type_ <$> cs) ->
  IsZero (LastTransitionTime c) = true -> SetConditions (Some o) [c] = Ret (None, Some o') ->
  is_panic (GetConditions (Some o')) = true.
Proof.
  intros Hg Hcs Hty Hz Hs. unfold SetConditions in Hs. rewrite Hg in Hs. cbn in Hs.
  assert (Hup : Upsert cs c = cs ++ [c]).
  { clear -Hty. induction cs as [|a cs IH]; simpl; [done|].
    apply not_elem_of_cons in Hty as [Ha Hty].
    rewrite (proj2 (String.eqb_neq _ _)) by congruence. by rewrite IH. }
  rewrite Hup, fmap_app in Hs.
  destruct (SetNestedField o _ conditionsPath) as [e|o1] eqn:E; simplify_eq.
  unfold GetConditions. rewrite (get_set_nested _ _ _ _ E), conditionsOf_encode by done.
  cbn [conditionsOf fmap list_fmap].
  destruct (encodeCondition_fields c) as (m & -> & Hm1 & Hm2 & Ht & Hr & Hm).
  unfold conditionOf, stringField. by rewrite Hm1, Hm2, Hr, Hm, Ht, marshalTime_zero.
Qed.

(** IsAvailable accepts an object exactly when every condition of a positive type is true; else it
    reports the reason of the first one that is not, and the object's reference. *)
Theorem IsAvailable_spec o cs :
  GetConditions (Some o) = Ret cs ->
  (IsAvailable (Some o) = Ret (true, None) <->
   Forall (fun c => has positives (Type_ c) = true -> Status c = "True") (default [] cs)) /\
  forall e, IsAvailable (Some o) = Ret (false, Some e) ->
    exists c, c ∈ default [] cs /\ has positives (Type_ c) = true /\ Status c <> "True" /\
      FailedObjectRef e = Some (refOf o) /\ Err e = New (Reason c).
Proof.
  intros Hg. unfold IsAvailable. rewrite Hg. cbn [mbind outcome_bind].
  assert (Hbad : match firstBad (default [] cs) with
    | None => Forall (fun c => has positives (Type_ c) = true -> Status c = "True") (default [] cs)
    | Some c => c ∈ default [] cs /\ has positives (Type_ c) = true /\ Status c <> "True"
    end).
  { induction (default [] cs) as [|c l IH]; cbn [firstBad]; [done|].
    destruct (has positives (Type_ c)) eqn:Eh, (String.eqb (Status c) "True") eqn:Es; cbn [andb negb];
      bool_to_prop; [|split; [by left|done]| |].
    all: revert IH; destruct (firstBad l); intros IH.
    all: try (destruct IH as [IH1 IH2]; split; [by right|done]).
    all: constructor; [congruence|done]. }
  destruct (default [] cs) as [|c l] eqn:El; [split; [|done]; split; [constructor|done]|].
  revert Hbad. destruct (firstBad (c :: l)) as [b|]; intros Hbad.
  - destruct Hbad as (Hin & Hh & Hs). split.
    + split; [done|]. intros Hall. by apply (proj1 (Forall_forall _ _) Hall) in Hin; [|done].
    + intros e [= <-]. by exists b.
  - by split.
Qed.

(** ** Nested fields *)

Lemma setNestedLoop_lookup fields : forall seen m v f m',
  setNestedLoop seen m v f fields = inr m' ->
  lookupPath m' f fields = Some v /\ forall g, g <> f -> m' !! g = m !! g.
Proof.
  induction fields as [|f' fields IH]; intros seen m v f m'; cbn [setNestedLoop lookupPath].
  - intros [= <-]. split; [by rewrite lookup_insert_eq|]. intros g Hg. by rewrite lookup_insert_ne.
  - destruct (m !! f) as [[]|];
      try (destruct (setNestedLoop _ _ v f' fields) as [?|m1] eqn:E); intros; simplify_eq;
      rewrite lookup_insert_eq; (split; [by eapply IH|intros; by rewrite lookup_insert_ne]).
Qed.

Lemma removeNestedLoop_lookup fields : forall m f,
  lookupPath (removeNestedLoop m f fields) f fields = None /\
  forall g, g <> f -> removeNestedLoop m f fields !! g = m !! g.
Proof.
  induction fields as [|f' fields IH]; intros m f; cbn [removeNestedLoop lookupPath].
  - split; [by rewrite lookup_delete_eq|]. intros g Hg. by rewrite lookup_delete_ne.
  - destruct (m !! f) as [[]|] eqn:E; rewrite ?E; try done.
    rewrite lookup_insert_eq. split; [apply IH|]. intros g Hg. by rewrite lookup_insert_ne.
Qed.

(** Recording the object a composition waits for: the reference is found under status.failedObjectRef
    afterwards and is gone once it is unset; neither call touches anything outside status. *)
Theorem failedObjectRef_roundtrip o o' ref :
  SetFailedObjectRef (Some o) (Some ref) = Ret (inr o') ->
  (exists m, lookupPath (Object o') "status" ["failedObjectRef"] = Some (VMap m) /\
     m !! "apiVersion" = Some (VString (APIVersion ref)) /\
     m !! "kind" = Some (VString (Kind ref)) /\ m !! "name" = Some (VString (Name ref)) /\
     m !! "namespace" = Some (VString (Namespace ref))) /\
  (exists o'', UnsetFailedObjectRef (Some o') = Ret (Some o'') /\
     lookupPath (Object o'') "status" ["failedObjectRef"] = None /\
     forall g, g <> "status" -> Object o'' !! g = Object o !! g).
Proof.
  unfold SetFailedObjectRef, setNestedFieldNoCopy, failedObjectRefPath. intros Hs.
  destruct (setNestedLoop [] (Object o) _ "status" ["failedObjectRef"]) as [e|m] eqn:E;
    simplify_eq. apply setNestedLoop_lookup in E as [Hl Hg]. rewrite !object_withObject. split.
  - eexists. split; [exact Hl|]. by simplify_map_eq.
  - eexists. split; [done|]. rewrite !object_withObject.
    destruct (removeNestedLoop_lookup ["failedObjectRef"] m "status") as [Hr Hrg].
    split; [exact Hr|]. intros g Hne. by rewrite Hrg, Hg.
Qed.

(** What [ExtractFailedObjectRef] reads back: the reference that was recorded, nothing once it is unset. *)
Theorem ExtractFailedObjectRef_roundtrip o o' ref :
  (forall o, NestedFieldNoCopy o failedObjectRefPath =
     inr (lookupPath (Object o) "status" ["failedObjectRef"])) ->
  SetFailedObjectRef (Some o) (Some ref) = Ret (inr o') ->
  ExtractFailedObjectRef (Some o') = (Some ref, None) /\
  exists o'', UnsetFailedObjectRef (Some o') = Ret (Some o'') /\
    ExtractFailedObjectRef (Some o'') = (None, None).
Proof.
  intros Hn. unfold SetFailedObjectRef, setNestedFieldNoCopy, failedObjectRefPath. intros Hs.
  destruct (setNestedLoop [] (Object o) _ "status" ["failedObjectRef"]) as [e|m] eqn:E;
    simplify_eq. apply setNestedLoop_lookup in E as [Hl _]. unfold ExtractFailedObjectRef. split.
  - rewrite Hn, object_withObject, Hl. unfold decodeRef, refField. simplify_map_eq. by destruct ref.
  - eexists. split; [done|]. rewrite Hn, !object_withObject.
    destruct (removeNestedLoop_lookup ["failedObjectRef"] m "status") as [Hr _]. by rewrite Hr.
Qed.

End Unstructured.
End Unstructured.
