(* ===== verification/Runtime.v ===== *)
(** * The controller's surroundings and pkg/tools

    What a worker of the controller talks to: the clock, the API server behind the dynamic client, the
    pluralizer, the external client, all of them interfaces of the class [World]; the shared state of
    the workers (queue and [items]); and the calls they make, kept in a trace.  A worker's code is a
    function in the monad [M]: it threads this state and may panic. *)

From S2P Require Import Prelude GoTime Errors Meta Event PriorityQueue QueueInstr Conditions.
Import GoTime Errors Event.

(** An [ExternalObservation]. *)
Record ExternalObservation : Type := mkObservation { ResourceExists : bool; ResourceUpToDate : bool }.

(** The surroundings, with their state [E].  An external client gets a pointer to the object, so every
    call of it also returns the object as it left it. *)
Class World (E O GVR : Type) : Type := {
  wNow : E -> Time * E;
  wShortid : E -> option error * E;
  wGVKtoGVR : string -> string -> E -> (error + GVR) * E;
  wGet : GVR -> string -> string -> E -> (error + O) * E;
  wUpdate : GVR -> string -> O -> E -> (error + O) * E;
  wUpdateStatus : GVR -> string -> O -> E -> (error + O) * E;
  wObserve : O -> E -> (O * (ExternalObservation * option error)) * E;
  wCreate : O -> E -> (O * option error) * E;
  wExtUpdate : O -> E -> (O * option error) * E;
  wExtDelete : O -> E -> (O * option error) * E
}.

Module Runtime.

(** What the queue holds: an [any], here an event or something else. *)
Abbreviation anyObj := (Event.Event + Z)%type.

(** Kubernetes events, as the constructors [event.Normal] and [event.Warning] describe them. *)
Inductive k8sEvent : Type :=
| NormalEvent (reason action message : string)
| WarningEvent (reason action : string) (err : error).

Definition eventReason (e : k8sEvent) : string :=
  match e with NormalEvent r _ _ => r | WarningEvent r _ _ => r end.

(** The telemetry calls of the worker. *)
Inductive metric : Type :=
| AddReconcileInFlight (delta : Z)
| RecordQueueWaitDuration (d : Z)
| RecordQueueWorkDuration (d : Z)
| RecordReconcileDuration (d : Z)
| IncReconcileSuccess
| IncReconcileFailure
| IncReconcileErrorRequeue
| RecordGetDuration (d : Z)
| IncGetFailure
| RecordObserveDuration (d : Z)
| IncObserveFailure
| RecordCreateDuration (d : Z)
| IncCreateFailure
| RecordUpdateDuration (d : Z)
| IncUpdateFailure
| RecordDeleteDuration (d : Z)
| IncDeleteFailure.

(** What a worker does to the outside, with the results it got; the external client's calls with the
    object before and after. *)
Inductive effect (O : Type) : Type :=
| EGet (ref : ObjectRef) (res : error + O)
| EUpdate (el : O) (res : error + O)
| EUpdateStatus (el : O) (res : error + O)
| EObserve (el el' : O) (obs : ExternalObservation) (err : option error)
| ECreate (el el' : O) (err : option error)
| EExtUpdate (el el' : O) (err : option error)
| EExtDelete (el el' : O) (err : option error)
| ERecord (throttled : bool) (el : O) (e : k8sEvent)
| EEnqueue (opts : PriorityQueue.AddOpts) (obj : anyObj)
| EForget (obj : anyObj)
| EDone (obj : anyObj)
| EItemsStore (dig : string)
| EItemsDelete (dig : string)
| EMetric (m : metric)
| EReconcileTotal (kind namespace : string) (success : bool).
Arguments EGet {O}.
Arguments EUpdate {O}.
Arguments EUpdateStatus {O}.
Arguments EObserve {O}.
Arguments ECreate {O}.
Arguments EExtUpdate {O}.
Arguments EExtDelete {O}.
Arguments ERecord {O}.
Arguments EEnqueue {O}.
Arguments EForget {O}.
Arguments EDone {O}.
Arguments EItemsStore {O}.
Arguments EItemsDelete {O}.
Arguments EMetric {O}.
Arguments EReconcileTotal {O}.

(** The fields of a [Controller] its workers read; a pointer or interface field as whether it is set. *)
Record ControllerT (GVR : Type) : Type := mkController {
  pluralizer : bool;
  dynamicClient : bool;
  gvr : GVR;
  metrics : bool;
  externalClient : bool;
  maxRetries : Z
}.
Arguments mkController {GVR}.
Arguments pluralizer {GVR}.
Arguments dynamicClient {GVR}.
Arguments gvr {GVR}.
Arguments metrics {GVR}.
Arguments externalClient {GVR}.
Arguments maxRetries {GVR}.

(** The state: the surroundings, the queue, the digests of [items], the calls made (latest first). *)
Record St (E Q O : Type) : Type := mkSt {
  env : E; queue : Q; items : gset string; trace : list (effect O) }.
Arguments mkSt {E Q O}.
Arguments env {E Q O}.
Arguments queue {E Q O}.
Arguments items {E Q O}.
Arguments trace {E Q O}.

Definition M (E Q O A : Type) : Type := St E Q O -> St E Q O * outcome A.

#[export] Instance M_ret {E Q O} : MRet (M E Q O) := fun A a s => (s, Ret a).
#[export] Instance M_bind {E Q O} : MBind (M E Q O) := fun A B f m s =>
  match m s with
  | (s, Ret a) => f a s
  | (s, Panic why) => (s, Panic why)
  end.

Section Calls.
Context {E O GVR Q : Type} `{MetaObject O} `{UnstructuredObject O} `{World E O GVR}
  `{WorkQueue anyObj Q}.
Implicit Types (c : ControllerT GVR) (el : O) (ref : ObjectRef).

Definition emit (e : effect O) : M E Q O () :=
  fun s => (mkSt (env s) (queue s) (items s) (e :: trace s), Ret tt).

(** A call of the surroundings. *)
Definition lift {A} (f : E -> A * E) : M E Q O A :=
  fun s => let '(a, e) := f (env s) in (mkSt e (queue s) (items s) (trace s), Ret a).

(** A pure computation that may panic. *)
Definition liftO {A} (x : outcome A) : M E Q O A := fun s => (s, x).

Definition now : M E Q O Time := lift wNow.

Definition emitMetric c (m : metric) : M E Q O () := if metrics c then emit (EMetric m) else mret tt.

(** [c.metrics.Record...(ctx, time.Since(start))], and the failure counter. *)
Definition recordTimed c (start : Time) (record : Z -> metric) (failure : metric)
  (err : option error) : M E Q O () :=
  if metrics c then
    t ← now;
    emit (EMetric (record (Since t start)));;
    match err with Some _ => emit (EMetric failure) | None => mret tt end
  else mret tt.

(** ** pkg/tools *)

Definition ErrNilPluralizer : string := "pluralizer cannot be nil".
Definition ErrNilDynamic : string := "dynamic client cannot be nil".

Definition leftOf {A B} (x : A + B) : option A := match x with inl a => Some a | inr _ => None end.

(** On an error the object given comes back with it. *)
Definition Update c el : M E Q O (O * option error) :=
  if negb (pluralizer c) then mret (el, Some (New ErrNilPluralizer)) else
  if negb (dynamicClient c) then mret (el, Some (New ErrNilDynamic)) else
  r ← lift (wGVKtoGVR (GetAPIVersion el) (GetKind el));
  match r with
  | inl err => mret (el, Some err)
  | inr gvr =>
    res ← lift (wUpdate gvr (GetNamespace el) el);
    emit (EUpdate el res);;
    match res with inl err => mret (el, Some err) | inr res => mret (res, None) end
  end.

Definition UpdateStatus c el : M E Q O (O * option error) :=
  if negb (pluralizer c) then mret (el, Some (New ErrNilPluralizer)) else
  if negb (dynamicClient c) then mret (el, Some (New ErrNilDynamic)) else
  r ← lift (wGVKtoGVR (GetAPIVersion el) (GetKind el));
  match r with
  | inl err => mret (el, Some err)
  | inr gvr =>
    res ← lift (wUpdateStatus gvr (GetNamespace el) el);
    emit (EUpdateStatus el res);;
    match res with inl err => mret (el, Some err) | inr res => mret (res, None) end
  end.

(** ** The external client *)

Definition Observe el : M E Q O (O * (ExternalObservation * option error)) :=
  '(el', (obs, err)) ← lift (wObserve el);
  emit (EObserve el el' obs err);; mret (el', (obs, err)).

Definition Create el : M E Q O (O * option error) :=
  '(el', err) ← lift (wCreate el); emit (ECreate el el' err);; mret (el', err).

Definition ExtUpdate el : M E Q O (O * option error) :=
  '(el', err) ← lift (wExtUpdate el); emit (EExtUpdate el el' err);; mret (el', err).

Definition ExtDelete el : M E Q O (O * option error) :=
  '(el', err) ← lift (wExtDelete el); emit (EExtDelete el el' err);; mret (el', err).

(** ** Queue and items *)

Definition onQueue (f : Q -> outcome Q) : M E Q O () :=
  fun s => match f (queue s) with
           | Ret q => (mkSt (env s) q (items s) (trace s), Ret tt)
           | Panic why => (s, Panic why)
           end.

Definition onItems (f : gset string -> gset string) : M E Q O () :=
  fun s => (mkSt (env s) (queue s) (f (items s)) (trace s), Ret tt).

Definition enqueue (opts : PriorityQueue.AddOpts) (obj : anyObj) : M E Q O () :=
  t ← now; emit (EEnqueue opts obj);; onQueue (qAddWithOpts t opts [obj]).

Definition queueForget (obj : anyObj) : M E Q O () :=
  t ← now; emit (EForget obj);; onQueue (fun q => Ret (qForget t obj q)).

Definition queueDone (obj : anyObj) : M E Q O () :=
  t ← now; emit (EDone obj);; onQueue (fun q => Ret (qDone t obj q)).

Definition queueNumRequeues (obj : anyObj) : M E Q O Z :=
  fun s => (s, Ret (qNumRequeues obj (queue s))).

Definition itemsHas (dig : string) : M E Q O bool :=
  fun s => (s, Ret (bool_decide (dig ∈ items s))).

Definition itemsStore (dig : string) : M E Q O () :=
  emit (EItemsStore dig);; onItems (fun its => {[ dig ]} ∪ its).

Definition itemsDelete (dig : string) : M E Q O () :=
  emit (EItemsDelete dig);; onItems (fun its => its ∖ {[ dig ]}).

(** ** fetch and recordEvent of the worker *)

(** What [fetch] strips from an object when asked for a clean one. *)
Definition cleanFetched el : O :=
  let el := RemoveNestedField el
    ["metadata"; "annotations"; "kubectl.kubernetes.io/last-applied-configuration"] in
  let el := RemoveNestedField el ["metadata"; "creationTimestamp"] in
  let el := RemoveNestedField el ["metadata"; "generation"] in
  RemoveNestedField el ["metadata"; "uid"].

Definition fetch c ref (clean : bool) : M E Q O (error + O) :=
  if negb (dynamicClient c) then mret (inl (New "dynamic client is not configured")) else
  start ← now;
  res ← lift (wGet (gvr c) (Namespace ref) (Name ref));
  let res' := match res with
              | inl err => inl err
              | inr el => inr (if clean then cleanFetched el else el)
              end in
  emit (EGet ref res');;
  recordTimed c start RecordGetDuration IncGetFailure (leftOf res);;
  mret res'.

(** [event.TypeNormal] of the plumbing module. *)
Context (TypeNormal : string).

(** The object is [None] for a nil interface. *)
Definition recordEvent (obj : option O) (e : k8sEvent) : M E Q O () :=
  match obj with
  | None => mret tt
  | Some el => if String.eqb (eventReason e) TypeNormal then emit (ERecord false el e)
               else emit (ERecord true el e)
  end.

End Calls.
End Runtime.
