(* ===== verification/TraceLogic.v ===== *)
(** * Reasoning about the calls a worker makes

    A protocol is a transition relation labelled with effects.  [safe q m R]: from any state of the
    program, the effects [m] adds to the trace are a path of the protocol that starts in [q], and when
    [m] returns a value the path ends where [R] holds.  The rules follow the structure of programs. *)

From S2P Require Import Prelude GoTime Errors Meta Event PriorityQueue QueueInstr Conditions.
From S2P Require Import Runtime.
Import GoTime Errors Event Runtime.

Module TraceLogic.

Section Safe.
Context {E O GVR Q : Type} `{MetaObject O} `{UnstructuredObject O} `{World E O GVR}
  `{WorkQueue anyObj Q}.
Context {P : Type} (step : P -> effect O -> P -> Prop).

(** A path; the trace is in reverse order. *)
Inductive path (q : P) : list (effect O) -> P -> Prop :=
| path_nil : path q [] q
| path_cons new q1 e q2 : path q new q1 -> step q1 e q2 -> path q (e :: new) q2.

Lemma path_app q q1 q2 l1 l2 : path q l1 q1 -> path q1 l2 q2 -> path q (l2 ++ l1) q2.
Proof. intros Hp. induction 1; simpl; [done|]. by econstructor. Qed.

Definition safe {A} (q : P) (m : M E Q O A) (R : A -> P -> Prop) : Prop :=
  forall s, exists new q',
    trace (m s).1 = new ++ trace s /\ path q new q' /\
    match (m s).2 with Ret a => R a q' | Panic _ => True end.

Lemma safe_ret {A} q (a : A) (R : A -> P -> Prop) : R a q -> safe q (mret a) R.
Proof. intros HR s. exists [], q. split; [done|]. split; [constructor|done]. Qed.

Lemma safe_bind {A B} q (m : M E Q O A) (f : A -> M E Q O B) R R' :
  safe q m R -> (forall a q1, R a q1 -> safe q1 (f a) R') -> safe q (m ≫= f) R'.
Proof.
  intros Hm Hf s. destruct (Hm s) as (new & q1 & Ht & Hp & Ha).
  unfold mbind, M_bind. destruct (m s) as [s1 [a|w]]; simpl in *.
  - destruct (Hf a q1 Ha s1) as (new2 & q2 & Ht2 & Hp2 & Hb).
    exists (new2 ++ new), q2. split; [by rewrite Ht2, Ht, app_assoc|].
    split; [by eapply path_app|done].
  - by exists new, q1.
Qed.

Lemma safe_conseq {A} q (m : M E Q O A) (R R' : A -> P -> Prop) :
  safe q m R -> (forall a q1, R a q1 -> R' a q1) -> safe q m R'.
Proof.
  intros Hm HR s. destruct (Hm s) as (new & q1 & Ht & Hp & Ha). exists new, q1.
  split; [done|]. split; [done|]. destruct (m s).2; auto.
Qed.

Lemma safe_emit q e q' (R : () -> P -> Prop) : step q e q' -> R tt q' -> safe q (emit e) R.
Proof.
  intros Hs HR s. exists [e], q'. split; [done|]. split; [|done].
  econstructor; [constructor|done].
Qed.

Lemma safe_lift {A} q (f : E -> A * E) (R : A -> P -> Prop) :
  (forall a, R a q) -> safe q (lift f) R.
Proof.
  intros HR s. exists [], q. unfold lift. destruct (f (env s)) as [a e]. simpl.
  split; [done|]. split; [constructor|done].
Qed.

Lemma safe_liftO {A} q (x : outcome A) (R : A -> P -> Prop) :
  (forall a, x = Ret a -> R a q) -> safe q (liftO x) R.
Proof.
  intros HR s. exists [], q. split; [done|]. split; [constructor|]. simpl. destruct x; auto.
Qed.

(** Calls in front of the rest of a program: what does not show in the trace keeps the place in the
    protocol, an effect takes a step. *)
Lemma safe_lift_bind {A B} q (g : E -> A * E) (f : A -> M E Q O B) R :
  (forall a, safe q (f a) R) -> safe q (lift g ≫= f) R.
Proof.
  intros Hf. eapply safe_bind; [by apply safe_lift with (R := fun _ q1 => q1 = q)|].
  intros a ? ->. apply Hf.
Qed.

Lemma safe_emit_bind {B} q e q' (f : () -> M E Q O B) R :
  step q e q' -> safe q' (f tt) R -> safe q (emit e ≫= f) R.
Proof.
  intros Hs Hf. eapply safe_bind; [by apply (safe_emit _ _ q') with (R := fun _ q1 => q1 = q')|].
  intros [] ? ->. apply Hf.
Qed.

Lemma safe_now q (R : Time -> P -> Prop) : (forall t, R t q) -> safe q now R.
Proof. apply safe_lift. Qed.

Lemma safe_onQueue q f (R : () -> P -> Prop) : R tt q -> safe q (onQueue f) R.
Proof.
  intros HR s. exists [], q. unfold onQueue. destruct (f (queue s)); simpl;
    (split; [done|]; split; [constructor|done]).
Qed.

Lemma safe_onItems q f (R : () -> P -> Prop) : R tt q -> safe q (onItems f) R.
Proof. intros HR s. exists [], q. split; [done|]. by split; [constructor|]. Qed.

(** Runs the calls at the front of a program. *)
#[local] Ltac run_calls :=
  repeat first [apply safe_lift_bind; intros ? | eapply safe_emit_bind; [eassumption|]];
  try by apply safe_ret.

(** Protocols let metrics and Kubernetes events pass anywhere. *)
Context (metric_passes : forall m q, step q (EMetric m) q).

Implicit Types (c : ControllerT GVR) (el : O) (ref : ObjectRef).

Lemma safe_emitMetric q c m (R : () -> P -> Prop) : R tt q -> safe q (emitMetric c m) R.
Proof.
  intros HR. unfold emitMetric. destruct (metrics c); [|by apply safe_ret].
  by apply (safe_emit _ _ q).
Qed.

Lemma safe_recordTimed q c start r f err (R : () -> P -> Prop) :
  R tt q -> safe q (recordTimed c start r f err) R.
Proof.
  intros HR. unfold recordTimed. destruct (metrics c); [|by apply safe_ret].
  apply safe_lift_bind. intros t. eapply safe_emit_bind; [apply metric_passes|].
  destruct err; [by apply (safe_emit _ _ q)|by apply safe_ret].
Qed.

Lemma safe_fetch q c ref clean (R : error + O -> P -> Prop) :
  (forall err, R (inl err) q) ->
  (forall res, exists q', step q (EGet ref res) q' /\ R res q') ->
  safe q (fetch c ref clean) R.
Proof.
  intros Hnil Hget. unfold fetch. destruct (negb (dynamicClient c)); [by apply safe_ret|].
  run_calls. match goal with |- context [EGet ref ?res] => destruct (Hget res) as (q' & Hs & HR) end.
  run_calls. eapply safe_bind; [by apply safe_recordTimed with (R := fun _ q1 => q1 = q')|].
  intros _ ? ->. by apply safe_ret.
Qed.

(** The two writes: without a client or a resource nothing is sent. *)
Lemma safe_Update q c el (R : O * option error -> P -> Prop) :
  (forall err, R (el, Some err) q) ->
  (forall res, exists q', step q (EUpdate el res) q' /\
     R (match res with inl err => (el, Some err) | inr r => (r, None) end) q') ->
  safe q (Update c el) R.
Proof.
  intros Hnil Hup. unfold Update. destruct (negb (pluralizer c)); [by apply safe_ret|].
  destruct (negb (dynamicClient c)); [by apply safe_ret|].
  apply safe_lift_bind. intros [err|g]; [by apply safe_ret|]. apply safe_lift_bind. intros res.
  destruct (Hup res) as (q' & Hs & HR). run_calls. destruct res; by apply safe_ret.
Qed.

Lemma safe_UpdateStatus q c el (R : O * option error -> P -> Prop) :
  (forall err, R (el, Some err) q) ->
  (forall res, exists q', step q (EUpdateStatus el res) q' /\
     R (match res with inl err => (el, Some err) | inr r => (r, None) end) q') ->
  safe q (UpdateStatus c el) R.
Proof.
  intros Hnil Hup. unfold UpdateStatus. destruct (negb (pluralizer c)); [by apply safe_ret|].
  destruct (negb (dynamicClient c)); [by apply safe_ret|].
  apply safe_lift_bind. intros [err|g]; [by apply safe_ret|]. apply safe_lift_bind. intros res.
  destruct (Hup res) as (q' & Hs & HR). run_calls. destruct res; by apply safe_ret.
Qed.

(** The external client: one effect each, whose result is arbitrary. *)
#[local] Ltac external_call H :=
  intros H; apply safe_lift_bind; intros res; repeat destruct res as [? res];
  edestruct H as (? & ? & ?); run_calls.

Lemma safe_Observe q el (R : O * (ExternalObservation * option error) -> P -> Prop) :
  (forall el' obs err, exists q', step q (EObserve el el' obs err) q' /\ R (el', (obs, err)) q') ->
  safe q (Observe el) R.
Proof. external_call Ho. Qed.

Lemma safe_Create q el (R : O * option error -> P -> Prop) :
  (forall el' err, exists q', step q (ECreate el el' err) q' /\ R (el', err) q') ->
  safe q (Create el) R.
Proof. external_call Ho. Qed.

Lemma safe_ExtUpdate q el (R : O * option error -> P -> Prop) :
  (forall el' err, exists q', step q (EExtUpdate el el' err) q' /\ R (el', err) q') ->
  safe q (ExtUpdate el) R.
Proof. external_call Ho. Qed.

Lemma safe_ExtDelete q el (R : O * option error -> P -> Prop) :
  (forall el' err, exists q', step q (EExtDelete el el' err) q' /\ R (el', err) q') ->
  safe q (ExtDelete el) R.
Proof. external_call Ho. Qed.

Lemma safe_enqueue q opts obj (R : () -> P -> Prop) :
  (exists q', step q (EEnqueue opts obj) q' /\ R tt q') -> safe q (enqueue opts obj) R.
Proof. intros (q' & Hs & HR). unfold enqueue. run_calls. by apply safe_onQueue. Qed.

Context (record_passes : forall b el e q, step q (ERecord b el e) q).

Lemma safe_recordEvent q tn obj e (R : () -> P -> Prop) : R tt q -> safe q (recordEvent tn obj e) R.
Proof.
  intros HR. unfold recordEvent. destruct obj; [|by apply safe_ret].
  case_match; by apply (safe_emit _ _ q).
Qed.

End Safe.
End TraceLogic.
