(* ===== verification/Worker.v ===== *)
(** * pkg/controller/worker.go: the worker

    [processItem] with its phases, the four handlers, [handleErr] and one iteration of [runWorker], as
    programs over the surroundings of file Runtime.  Logging, the tracing span and the worker's
    context are left out: they have no effect on what is done. *)

From S2P Require Import Prelude GoTime Errors Meta Event PriorityQueue QueueInstr Conditions.
From S2P Require Import Runtime.
Import GoTime Errors Event Runtime.

Module Worker.

Definition finalizerName : string := "composition.krateo.io/finalizer".

Definition reasonCannotInitialize : string := "CannotInitializeManagedResource".
Definition reasonCannotObserve : string := "CannotObserveExternalResource".
Definition reasonCannotCreate : string := "CannotCreateExternalResource".
Definition reasonCannotDelete : string := "CannotDeleteExternalResource".
Definition reasonCannotUpdate : string := "CannotUpdateExternalResource".
Definition reasonCannotUpdateManaged : string := "CannotUpdateManagedResource".
Definition reasonCannotSetConditions : string := "CannotSetConditions".
Definition reasonDeleted : string := "DeletedExternalResource".
Definition reasonCreated : string := "CreatedExternalResource".
Definition reasonUpdated : string := "UpdatedExternalResource".
Definition reasonReconciliationPaused : string := "ReconciliationPaused".

Definition actionProcessEvent : string := "ProcessEvent".
Definition actionCreateEvent : string := "CreateEvent".
Definition actionUpdateEvent : string := "UpdateEvent".
Definition actionDeleteEvent : string := "DeleteEvent".
Definition actionCreateExternalResource : string := "CreateExternalResource".
Definition actionUpdateExternalResource : string := "UpdateExternalResource".
Definition actionDeleteExternalResource : string := "DeleteExternalResource".
Definition actionObserveExternalResource : string := "ObserveExternalResource".
Definition actionUpdateManagedResource : string := "UpdateManagedResource".

Definition errCreateIncomplete : string :=
  "cannot determine creation result - remove the " +:+ Meta.AnnotationKeyExternalCreatePending +:+
  " annotation if it is safe to proceed".
Definition errReconcileObserve : string := "observe failed".
Definition errReconcileCreate : string := "create failed".
Definition errReconcileUpdate : string := "update failed".
Definition errReconcileDelete : string := "delete failed".
Definition errUpdateManaged : string := "cannot update managed resource".
Definition errUpdateManagedAnnotations : string := "cannot update managed resource annotations".

Definition LowPriority : Z := -100.
Definition NormalPriority : Z := 0.
Definition HighPriority : Z := 100.

Definition externalCreateRecoveryGracePeriod : Z := 2 * Minute.
Definition externalCreateRecoveryReobserveInterval : Z := 15 * Second.

Section Worker.
Context {E O GVR Q : Type} `{MetaObject O} `{UnstructuredObject O} `{World E O GVR}
  `{WorkQueue anyObj Q}.
Context (TypeNormal : string) (sum64 : string -> Z).
Implicit Types (c : ControllerT GVR) (el : O) (ref : ObjectRef).
#[local] Abbreviation M := (M E Q O).
#[local] Abbreviation recordEvent := (recordEvent TypeNormal).

(** What a handler returns: its error. *)
#[local] Abbreviation handler := (M (option error)).

(** [errors.Wrap] of an error that is not nil. *)
Definition wrap (err : error) (message : string) : error := errorfW message err.

(** ** Shared shapes *)

(** [el, err := c.fetch(ctx, ref, false); if err != nil { return err }] *)
Definition fetched c ref (k : O -> handler) : handler :=
  r ← fetch c ref false;
  match r with inl err => mret (Some err) | inr el => k el end.

(** The conditions a call lists, each stamped with its own [metav1.Now]. *)
Fixpoint stamp (conds : list (Time -> Condition.Condition)) : M (list Condition.Condition) :=
  match conds with
  | [] => mret []
  | f :: conds => t ← now; cs ← stamp conds; mret (f t :: cs)
  end.

(** [err = SetConditions(el, conds...)], the result still a pointer that cannot be nil. *)
Definition setConditions (conds : list (Time -> Condition.Condition)) el
  : M (option error * O) :=
  cs ← stamp conds;
  '(err, un) ← liftO (Unstructured.SetConditions (Some el) cs);
  mret (err, default el un).

(** Setting conditions and writing the status, with the failure branches every handler has: an event
    and the error returned.  [recOn] is the object of the first event when it is not [el]. *)
Definition publish c (recOn : option O) (action : string)
  (conds : list (Time -> Condition.Condition)) el (k : O -> handler) : handler :=
  '(err, el) ← setConditions conds el;
  match err with
  | Some err =>
    recordEvent (Some (default el recOn))
      (WarningEvent reasonCannotSetConditions actionUpdateManagedResource err);;
    mret (Some err)
  | None =>
    '(el, err) ← UpdateStatus c el;
    match err with
    | Some err =>
      recordEvent (Some el) (WarningEvent reasonCannotUpdateManaged action err);; mret (Some err)
    | None => k el
    end
  end.

(** [el, err = tools.Update(...)] with its failure branch. *)
Definition updated c (action : string) el (k : O -> handler) : handler :=
  '(el, err) ← Update c el;
  match err with
  | Some err =>
    recordEvent (Some el) (WarningEvent reasonCannotUpdateManaged action err);; mret (Some err)
  | None => k el
  end.

(** The reference of the event a handler builds from an object. *)
Definition refOf el : ObjectRef :=
  mkRef (GetAPIVersion el) (GetKind el) (GetName el) (GetNamespace el).

(** Adds an event for [ref], queued now. *)
Definition enqueueEvent (opts : PriorityQueue.AddOpts) (t : EventType) ref : M () :=
  q ← now; enqueue opts (inl (mkEvent t ref q)).

(** ** handleObserve *)

Definition handleObserve c ref : handler :=
  if negb (externalClient c) then mret None else
  fetched c ref (fun el =>
    start ← now;
    '(el, (observation, actionErr)) ← Observe el;
    recordTimed c start RecordObserveDuration IncObserveFailure actionErr;;
    match actionErr with
    | Some actionErr =>
      recordEvent (Some el)
        (WarningEvent reasonCannotObserve actionObserveExternalResource actionErr);;
      fetched c ref (fun e =>
        publish c (Some el) actionUpdateManagedResource
          [Condition.ReconcileError (wrap actionErr errReconcileObserve)] e
          (fun _ => mret (Some actionErr)))
    | None =>
      fetched c ref (fun el =>
        if negb (ResourceExists observation) then
          enqueueEvent (PriorityQueue.mkAddOpts 0 false HighPriority) Event.Create (refOf el);;
          mret None
        else if negb (ResourceUpToDate observation) then
          enqueueEvent (PriorityQueue.mkAddOpts 0 false HighPriority) Event.Update (refOf el);;
          mret None
        else publish c None actionUpdateManagedResource [Condition.ReconcileSuccess] el
               (fun _ => mret None))
    end).

(** ** handleCreate *)

(** The branch of an annotation update that failed with [uerr]: the failure is published on a fresh
    copy and returned. *)
Definition annotationsFailed c ref (message : string) (uerr : error) : handler :=
  fetched c ref (fun el =>
    publish c None actionUpdateManagedResource
      [Condition.Creating; Condition.ReconcileError (wrap uerr message)] el
      (fun _ => mret (Some (wrap uerr message)))).

(** After the external create failed. *)
Definition createFailed c ref (actionErr : error) : handler :=
  fetched c ref (fun el =>
    t ← now;
    updated c actionUpdateManagedResource (Meta.SetExternalCreateFailed el t) (fun el =>
      publish c None actionUpdateManagedResource
        [Condition.Creating; Condition.ReconcileError (wrap actionErr errReconcileCreate)] el
        (fun _ => mret (Some actionErr)))).

(** After the external create succeeded. *)
Definition createSucceeded c ref : handler :=
  fetched c ref (fun el =>
    t ← now;
    '(el, uerr) ← Update c (Meta.SetExternalCreateSucceeded el t);
    match uerr with
    | Some uerr =>
      recordEvent (Some el) (WarningEvent reasonCannotUpdateManaged actionUpdateManagedResource
        (wrap uerr errUpdateManagedAnnotations));;
      annotationsFailed c ref errUpdateManagedAnnotations uerr
    | None =>
      fetched c ref (fun el =>
        publish c None actionUpdateManagedResource [Condition.ReconcileSuccess] el (fun el =>
          recordEvent (Some el) (NormalEvent reasonCreated actionCreateEvent
            "Successfully requested creation of external resource");;
          mret None))
    end).

Definition handleCreate c ref : handler :=
  if negb (externalClient c) then mret None else
  fetched c ref (fun el =>
    t ← now;
    '(el, uerr) ← Update c (Meta.SetExternalCreatePending el t);
    match uerr with
    | Some uerr =>
      recordEvent (Some el) (WarningEvent reasonCannotUpdateManaged actionCreateEvent
        (wrap uerr errUpdateManaged));;
      annotationsFailed c ref errUpdateManaged uerr
    | None =>
      fetched c ref (fun el =>
        start ← now;
        '(el, actionErr) ← Create el;
        recordTimed c start RecordCreateDuration IncCreateFailure actionErr;;
        match actionErr with
        | Some actionErr =>
          recordEvent (Some el)
            (WarningEvent reasonCannotCreate actionCreateExternalResource actionErr);;
          createFailed c ref actionErr
        | None => createSucceeded c ref
        end)
    end).

(** ** handleUpdate *)

Definition handleUpdate c ref : handler :=
  if negb (externalClient c) then mret None else
  fetched c ref (fun el =>
    start ← now;
    '(el, actionErr) ← ExtUpdate el;
    recordTimed c start RecordUpdateDuration IncUpdateFailure actionErr;;
    match actionErr with
    | Some actionErr =>
      recordEvent (Some el) (WarningEvent reasonCannotUpdate actionUpdateEvent actionErr);;
      fetched c ref (fun e =>
        publish c (Some el) actionUpdateManagedResource
          [Condition.ReconcileError (wrap actionErr errReconcileUpdate)] e
          (fun _ => mret (Some actionErr)))
    | None =>
      fetched c ref (fun el =>
        publish c None actionUpdateManagedResource [Condition.ReconcileSuccess] el (fun el =>
          recordEvent (Some el) (NormalEvent reasonUpdated actionUpdateEvent
            "Successfully requested update of external resource");;
          mret None))
    end).

(** ** handleDelete *)

Definition handleDelete c ref : handler :=
  if negb (externalClient c) then mret None else
  fetched c ref (fun el =>
    start ← now;
    '(el, actionErr) ← ExtDelete el;
    recordTimed c start RecordDeleteDuration IncDeleteFailure actionErr;;
    match actionErr with
    | Some actionErr =>
      recordEvent (Some el)
        (WarningEvent reasonCannotDelete actionDeleteExternalResource actionErr);;
      publish c None actionUpdateManagedResource
        [Condition.Deleting; Condition.ReconcileError (wrap actionErr errReconcileDelete)] el
        (fun _ => mret (Some actionErr))
    | None =>
      fetched c ref (fun el =>
        publish c None actionUpdateManagedResource
          [Condition.Deleting; Condition.ReconcileSuccess] el (fun el =>
          updated c actionUpdateManagedResource (SetFinalizers el []) (fun el =>
            recordEvent (Some el) (NormalEvent reasonDeleted actionDeleteEvent
              "Successfully requested deletion of external resource");;
            mret None)))
    end).

(** ** processItem *)

(** The paused branch. *)
Definition pausedPhase c el : handler :=
  recordEvent (Some el) (NormalEvent reasonReconciliationPaused actionProcessEvent
    "Reconciliation is paused via the pause annotation");;
  publish c None actionUpdateExternalResource [Condition.ReconcilePaused] el (fun _ => mret None).

(** A deleted object that is not to be deleted outside: its finalizer is removed, and the processing
    goes on. *)
Definition orphanPhase c el (k : O -> handler) : handler :=
  if Meta.WasDeleted el && negb (Meta.ShouldDelete el) then
    if Meta.FinalizerExists el finalizerName then
      el ← liftO (Meta.RemoveFinalizer el finalizerName);
      updated c actionUpdateManagedResource el k
    else k el
  else k el.

(** The observation of the recovery: no client is an error. *)
Definition recoveryObserve c el : M (O * (ExternalObservation * option error)) :=
  if externalClient c then Observe el
  else mret (el, (mkObservation false false, Some (New "no external client registered"))).

(** Recovery from a create that was started and never completed. *)
Definition recoveryPhase c (evt : Event.Event) el (k : O -> handler) : handler :=
  if negb (Meta.ExternalCreateIncomplete el) then k el else
  '(el, (obs, obsErr)) ← recoveryObserve c el;
  match obsErr with
  | Some _ =>
    recordEvent (Some el)
      (WarningEvent reasonCannotInitialize actionProcessEvent (New errCreateIncomplete));;
    publish c None actionUpdateManagedResource
      [Condition.Creating; Condition.ReconcileError (New errCreateIncomplete)] el
      (fun _ => mret None)
  | None =>
    if ResourceExists obs then
      t ← now;
      updated c actionProcessEvent (Meta.SetExternalCreateSucceeded el t) k
    else
      t ← now;
      if Meta.ExternalCreatePendingDuring t el externalCreateRecoveryGracePeriod then
        enqueueEvent
          (PriorityQueue.mkAddOpts externalCreateRecoveryReobserveInterval false LowPriority)
          (eventType evt) (objectRef evt);;
        mret None
      else
        updated c actionProcessEvent
          (Meta.RemoveAnnotations el [Meta.AnnotationKeyExternalCreatePending]) k
  end.

(** The finalizer of an object that is not being deleted. *)
Definition finalizerPhase c el (k : O -> handler) : handler :=
  if negb (Meta.WasDeleted el) then
    if Meta.FinalizerExists el finalizerName then k el
    else updated c actionUpdateManagedResource
           (SetFinalizers el (GetFinalizers el ++ [finalizerName])) k
  else k el.

Definition recordMetric (evt : Event.Event) (err : option error) : M () :=
  emit (EReconcileTotal (Kind (objectRef evt)) (Namespace (objectRef evt))
    (match err with None => true | Some _ => false end)).

(** The switch on the event type; any other type is observed. *)
Definition dispatch c (evt : Event.Event) : handler :=
  err ← (if String.eqb (eventType evt) Event.Create then handleCreate c (objectRef evt)
         else if String.eqb (eventType evt) Event.Update then handleUpdate c (objectRef evt)
         else if String.eqb (eventType evt) Event.Delete then handleDelete c (objectRef evt)
         else handleObserve c (objectRef evt));
  recordMetric evt err;; mret err.

Definition processItem c (obj : anyObj) : handler :=
  match obj with
  | inr _ => mret None
  | inl evt =>
    r ← fetch c (objectRef evt) false;
    match r with
    | inl _ => mret None
    | inr el =>
      if Meta.IsPaused el then pausedPhase c el else
      orphanPhase c el (fun el =>
      recoveryPhase c evt el (fun el =>
      finalizerPhase c el (fun _ =>
      dispatch c evt)))
    end
  end.

(** ** handleErr and runWorker *)

Definition handleErr c (err : option error) (obj : Event.Event) (priority : Z) : M () :=
  match err with
  | None => mret tt
  | Some _ =>
    n ← queueNumRequeues (inl obj);
    if maxRetries c <=? n then mret tt else
    retryEvent ← (if IsZero (QueuedAt obj)
                  then t ← now; mret (mkEvent (eventType obj) (objectRef obj) t) else mret obj);
    let dig := DigestForEvent sum64 retryEvent in
    loaded ← itemsHas dig;
    if (loaded : bool) then mret tt else
    itemsStore dig;;
    enqueue (PriorityQueue.mkAddOpts 0 true priority) (inl obj)
  end.

(** The metrics of a reconcile that returned [err]. *)
Definition reconcileMetrics c (ev : Event.Event) (t0 t1 : Time) (err : option error) : M () :=
  let processingDuration := Sub t1 t0 in
  let totalDuration :=
    if IsZero (QueuedAt ev) then processingDuration else Sub t1 (QueuedAt ev) in
  emitMetric c (RecordQueueWorkDuration processingDuration);;
  emitMetric c (RecordReconcileDuration totalDuration);;
  match err with
  | None => emitMetric c IncReconcileSuccess
  | Some _ => emitMetric c IncReconcileFailure;; emitMetric c IncReconcileErrorRequeue
  end.

(** What follows the metrics: the digest is dropped, the key forgotten and released, and an error
    handled, in this order. *)
Definition finishEvent c (ev : Event.Event) (priority : Z) (err : option error) : M () :=
  itemsDelete (DigestForEvent sum64 ev);;
  queueForget (inl ev);;
  queueDone (inl ev);;
  handleErr c err ev priority;;
  emitMetric c (AddReconcileInFlight (-1)).

(** The loop body on an event. *)
Definition reconcileEvent c (ev : Event.Event) (priority : Z) : M () :=
  emitMetric c (AddReconcileInFlight 1);;
  t0 ← now;
  (if IsZero (QueuedAt ev) then mret tt
   else emitMetric c (RecordQueueWaitDuration (Sub t0 (QueuedAt ev))));;
  sidErr ← lift wShortid;
  match (sidErr : option error) with
  | Some _ => emitMetric c (AddReconcileInFlight (-1))
  | None =>
    err ← processItem c (inl ev);
    t1 ← now;
    reconcileMetrics c ev t0 t1 err;;
    finishEvent c ev priority err
  end.

(** One iteration of [runWorker] on what GetWithPriority returned; false ends the loop. *)
Definition runWorkerStep c (got : anyObj * Z * bool) : M bool :=
  let '(obj, priority, shutdown) := got in
  if shutdown then mret false else
  match obj with
  | inr _ =>
    queueForget obj;; queueDone obj;; emitMetric c (AddReconcileInFlight (-1));; mret true
  | inl ev => reconcileEvent c ev priority;; mret true
  end.

End Worker.
End Worker.
