(* ===== verification/Protocol.v ===== *)
(** * The protocol of a reconciliation

    An abstract specification of what processing one event may do to the managed object and to the
    external resource, as a relation between the calls already made and the next one, and the
    refinement theorem: every run of [processItem] follows it.  Its guards are stated again as
    theorems about traces. *)

From S2P Require Import Prelude GoTime Errors Meta Event PriorityQueue QueueInstr Conditions.
From S2P Require Import Runtime TraceLogic Worker.
Import GoTime Errors Event Runtime TraceLogic Worker.

Module Protocol.

Section Protocol.
Context {E O GVR Q : Type} `{!MetaObject O, !MetaObjectLaws O} `{!UnstructuredObject O}
  `{!World E O GVR} `{!WorkQueue anyObj Q}.
Context (TypeNormal : string).
Implicit Types (c : ControllerT GVR) (el : O) (ref : ObjectRef) (new : list (effect O)).

(** ** The specification *)

(** The object the worker has in hand: the last one a call gave it. *)
Definition given (e : effect O) : option O :=
  match e with
  | EGet _ (inr el) | EUpdate _ (inr el) | EUpdateStatus _ (inr el) => Some el
  | EObserve _ el _ _ | ECreate _ el _ | EExtUpdate _ el _ | EExtDelete _ el _ => Some el
  | _ => None
  end.
Fixpoint inHand (new : list (effect O)) : option O :=
  match new with
  | [] => None
  | e :: new => match given e with Some el => Some el | None => inHand new end
  end.

(** The external resource was deleted. *)
Definition deletedOk (e : effect O) : bool :=
  match e with EExtDelete _ _ None => true | _ => false end.

(** A call that changes the external resource. *)
Definition mutates (e : effect O) : bool :=
  match e with ECreate _ _ _ | EExtUpdate _ _ _ | EExtDelete _ _ _ => true | _ => false end.

(** The last write of the object stored the pending mark on the object in hand, and no create was
    attempted since. *)
Fixpoint marked (new : list (effect O)) : Prop :=
  match new with
  | [] => False
  | EUpdate u (inr _) :: new =>
    exists h t, inHand new = Some h /\ u = Meta.SetExternalCreatePending h t
  | EUpdate _ (inl _) :: _ => False
  | ECreate _ _ _ :: _ => False
  | _ :: new => marked new
  end.

(** The writes of the object's metadata: none loses a finalizer of the object in hand, except those
    that follow a successful deletion of the external resource, and the removal of the controller's
    own finalizer from a deleted object whose policy is to keep the external resource. *)
Inductive writable (new : list (effect O)) (u : O) : Prop :=
| writable_keeps h :
    inHand new = Some h -> GetFinalizers h ⊆ GetFinalizers u -> writable new u
| writable_deleted h :
    inHand new = Some h -> existsb deletedOk new = true -> u = SetFinalizers h [] -> writable new u
| writable_orphan h :
    inHand new = Some h -> Meta.WasDeleted h = true -> Meta.ShouldDelete h = false ->
    Meta.RemoveFinalizer h finalizerName = Ret u -> writable new u.

(** The last two calls observed the external resource, with the answer [obs], and then fetched the
    object the event refers to once more, which gave [h]. *)
Definition sawThenFetched (evt : Event.Event) (new : list (effect O)) (obs : ExternalObservation)
  (h : O) : Prop :=
  exists el el' new', new = EGet (objectRef evt) (inr h) :: EObserve el el' obs None :: new'.

(** The last call observed the external resource of an object with an incomplete create: it is
    missing, and the create is still within its grace period. *)
Definition recoveryWaits (new : list (effect O)) : Prop :=
  exists el h up new' t, new = EObserve el h (mkObservation false up) None :: new' /\
    inHand new' = Some el /\ Meta.ExternalCreateIncomplete el = true /\
    Meta.ExternalCreatePendingDuring t h externalCreateRecoveryGracePeriod = true.

(** The events a reconciliation may queue: what the observation calls for, at high priority, or, from
    the recovery alone, itself again, at low priority after the re-observe interval. *)
Inductive planned (evt : Event.Event) (new : list (effect O))
  : PriorityQueue.AddOpts -> anyObj -> Prop :=
| planned_create h up q :
    sawThenFetched evt new (mkObservation false up) h ->
    planned evt new (PriorityQueue.mkAddOpts 0 false HighPriority)
      (inl (mkEvent Event.Create (refOf h) q))
| planned_update h q :
    sawThenFetched evt new (mkObservation true false) h ->
    planned evt new (PriorityQueue.mkAddOpts 0 false HighPriority)
      (inl (mkEvent Event.Update (refOf h) q))
| planned_retry q :
    recoveryWaits new ->
    planned evt new
      (PriorityQueue.mkAddOpts externalCreateRecoveryReobserveInterval false LowPriority)
      (inl (mkEvent (eventType evt) (objectRef evt) q)).

(** The next call is allowed after the calls [new] (latest first). *)
Inductive allowed (evt : Event.Event) (new : list (effect O)) : effect O -> Prop :=
| al_get ref res : allowed evt new (EGet ref res)
| al_update u res : writable new u -> allowed evt new (EUpdate u res)
| al_status u res : allowed evt new (EUpdateStatus u res)
| al_observe el el' obs err :
    inHand new = Some el -> existsb mutates new = false -> allowed evt new (EObserve el el' obs err)
| al_create el el' err :
    inHand new = Some el -> existsb mutates new = false -> marked new ->
    allowed evt new (ECreate el el' err)
| al_ext_update el el' err :
    inHand new = Some el -> existsb mutates new = false -> allowed evt new (EExtUpdate el el' err)
| al_ext_delete el el' err :
    inHand new = Some el -> existsb mutates new = false -> allowed evt new (EExtDelete el el' err)
| al_enqueue opts obj :
    existsb mutates new = false -> planned evt new opts obj -> allowed evt new (EEnqueue opts obj).

(** Telemetry and Kubernetes events, which the protocol does not constrain. *)
Definition telemetry (e : effect O) : bool :=
  match e with ERecord _ _ _ | EMetric _ | EReconcileTotal _ _ _ => true | _ => false end.

Definition next (evt : Event.Event) (new : list (effect O)) (e : effect O) (new' : list (effect O))
  : Prop :=
  if telemetry e then new' = new else allowed evt new e /\ new' = e :: new.

(** The other calls of a trace, and the traces that follow the protocol. *)
Definition calls (new : list (effect O)) : list (effect O) :=
  filter (fun e => telemetry e = false) new.

Inductive follows (evt : Event.Event) : list (effect O) -> Prop :=
| follows_nil : follows evt []
| follows_cons new e : follows evt new -> allowed evt new e -> follows evt (e :: new).

(** ** Refinement *)

Section Refinement.
Context (evt : Event.Event).

Lemma path_calls new q : path (next evt) [] new q -> q = calls new /\ follows evt (calls new).
Proof.
  induction 1 as [|new q e q' Hp [-> IH] Hs]; [by split; [|constructor]|].
  unfold next in Hs. unfold calls. rewrite filter_cons. destruct (telemetry e) eqn:Et.
  - rewrite decide_False by congruence. by subst.
  - rewrite decide_True by done. destruct Hs as [Ha ->]. split; [done|]. by constructor.
Qed.

Lemma next_metric m q : next evt q (EMetric m) q.
Proof. done. Qed.
Lemma next_record b el e q : next evt q (ERecord b el e) q.
Proof. done. Qed.
#[local] Hint Resolve next_metric next_record : core.

(** From the history [q], [m] keeps to the protocol. *)
Definition keeps {A} (q : list (effect O)) (m : M E Q O A) : Prop :=
  safe (next evt) q m (fun _ _ => True).

Lemma keeps_ret {A} q (a : A) : keeps q (mret a).
Proof. by apply safe_ret. Qed.

Lemma keeps_after {A B} q (m : M E Q O A) (f : A -> M E Q O B) :
  safe (next evt) q m (fun _ q1 => q1 = q) -> (forall a, keeps q (f a)) -> keeps q (m ≫= f).
Proof. intros Hm Hf. eapply safe_bind; [exact Hm|]. intros a ? ->. apply Hf. Qed.

Lemma keeps_now {B} q (f : Time -> M E Q O B) : (forall t, keeps q (f t)) -> keeps q (now ≫= f).
Proof. apply keeps_after. by apply safe_now. Qed.

Lemma keeps_record {B} q obj e (f : () -> M E Q O B) :
  (forall u, keeps q (f u)) -> keeps q (recordEvent TypeNormal obj e ≫= f).
Proof. apply keeps_after. by apply safe_recordEvent. Qed.

Lemma keeps_timed {B} q c start r f err (k : () -> M E Q O B) :
  (forall u, keeps q (k u)) -> keeps q (recordTimed c start r f err ≫= k).
Proof. apply keeps_after. by apply safe_recordTimed. Qed.

Lemma keeps_fetch {B} q c ref (k : error + O -> M E Q O B) :
  (forall q' err, keeps q' (k (inl err))) -> (forall el, keeps (EGet ref (inr el) :: q) (k (inr el))) ->
  keeps q (fetch c ref false ≫= k).
Proof.
  intros Herr Hok. eapply safe_bind.
  - apply safe_fetch with (R := fun r q1 => match r with inl _ => True
      | inr el => q1 = EGet ref (inr el) :: q end); [done|done|].
    intros [err|el]; eexists; (split; [split; [constructor|done]|done]).
  - intros [err|el] q1; [intros _; apply Herr|intros ->; apply Hok].
Qed.

Lemma keeps_fetched q c ref k :
  (forall el, keeps (EGet ref (inr el) :: q) (k el)) -> keeps q (fetched c ref k).
Proof. intros Hk. apply keeps_fetch; [intros; apply keeps_ret|done]. Qed.

Lemma safe_setConditions q conds el (R : option error * O -> list (effect O) -> Prop) :
  (forall r, R r q) -> safe (next evt) q (setConditions (Q := Q) (E := E) conds el) R.
Proof.
  intros HR. unfold setConditions. eapply safe_bind with (R := fun _ q1 => q1 = q).
  - clear HR. induction conds as [|f conds IH]; simpl; [by apply safe_ret|].
    eapply safe_bind; [by apply safe_now with (R := fun _ q1 => q1 = q)|]. intros t ? ->.
    eapply safe_bind; [exact IH|]. intros cs ? ->. by apply safe_ret.
  - intros cs ? ->. eapply safe_bind; [by apply safe_liftO with (R := fun _ q1 => q1 = q)|].
    intros [err un] ? ->. by apply safe_ret.
Qed.

Lemma keeps_publish q c recOn action conds el k :
  (forall u el', keeps (EUpdateStatus u (inr el') :: q) (k el')) ->
  keeps q (publish TypeNormal c recOn action conds el k).
Proof.
  intros Hk. unfold publish.
  eapply safe_bind; [by apply safe_setConditions with (R := fun _ q1 => q1 = q)|].
  intros [[err|] el1] ? ->; [apply keeps_record; intros; apply keeps_ret|].
  eapply safe_bind.
  - apply safe_UpdateStatus with (R := fun r q1 =>
      match r.2 with Some _ => True | None => q1 = EUpdateStatus el1 (inr r.1) :: q end); [done|].
    intros [err|el']; eexists; (split; [split; [constructor|done]|done]).
  - intros [el2 [err|]] q1; cbn [fst snd]; [intros _; apply keeps_record; intros; apply keeps_ret|].
    intros ->. apply Hk.
Qed.

Lemma keeps_Update {B} q c u (k : O * option error -> M E Q O B) :
  writable q u -> (forall q' el err, keeps q' (k (el, Some err))) ->
  (forall r, keeps (EUpdate u (inr r) :: q) (k (r, None))) -> keeps q (Update c u ≫= k).
Proof.
  intros Hw Herr Hok. eapply safe_bind.
  - apply safe_Update with (R := fun r q1 =>
      match r.2 with Some _ => True | None => q1 = EUpdate u (inr r.1) :: q end); [done|].
    intros [err|el']; eexists; (split; [split; [by constructor|done]|done]).
  - intros [el2 [err|]] q1; cbn [fst snd]; [intros _; apply Herr|intros ->; apply Hok].
Qed.

Lemma keeps_updated q c action u k :
  writable q u -> (forall r, keeps (EUpdate u (inr r) :: q) (k r)) ->
  keeps q (updated TypeNormal c action u k).
Proof.
  intros Hw Hk. apply keeps_Update; [done| |done].
  intros. apply keeps_record. intros. apply keeps_ret.
Qed.

Lemma keeps_enqueueEvent {B} q opts ty ref (k : () -> M E Q O B) :
  existsb mutates q = false -> (forall t, planned evt q opts (inl (mkEvent ty ref t))) ->
  (forall q' u, keeps q' (k u)) -> keeps q (enqueueEvent opts ty ref ≫= k).
Proof.
  intros Hm Hp Hk. eapply safe_bind with (R := fun _ _ => True); [|intros; apply Hk].
  unfold enqueueEvent. apply keeps_now. intros t. apply safe_enqueue. eexists.
  split; [|done]. split; [by constructor; [|apply Hp]|done].
Qed.

Lemma writable_same q h u :
  inHand q = Some h -> GetFinalizers u = GetFinalizers h -> writable q u.
Proof. intros Hh Ef. eapply writable_keeps; [exact Hh|]. by rewrite Ef. Qed.

(** *** The handlers *)

Lemma keeps_handleObserve q c :
  existsb mutates q = false -> keeps q (handleObserve TypeNormal c (objectRef evt)).
Proof.
  intros Hm. unfold handleObserve. destruct (negb (externalClient c)); [apply keeps_ret|].
  apply keeps_fetched. intros el. apply keeps_now. intros t.
  eapply safe_bind with (R := fun r q1 =>
    q1 = EObserve el r.1 r.2.1 r.2.2 :: EGet (objectRef evt) (inr el) :: q).
  { apply safe_Observe. intros el' obs err. eexists. split; [split; [by constructor|done]|done]. }
  intros (el' & obs & err) ? ->. cbn [fst snd]. apply keeps_timed. intros _.
  destruct err as [err|].
  - apply keeps_record. intros _. apply keeps_fetched. intros e. apply keeps_publish.
    intros. apply keeps_ret.
  - apply keeps_fetched. intros el2. destruct obs as [ex up]. cbn [ResourceExists ResourceUpToDate].
    destruct ex; cbn [negb]; [destruct up; cbn [negb]|].
    + apply keeps_publish. intros. apply keeps_ret.
    + apply keeps_enqueueEvent; [done| |intros; apply keeps_ret]. intros t2.
      apply planned_update. by eexists _, _, _.
    + apply keeps_enqueueEvent; [done| |intros; apply keeps_ret]. intros t2.
      eapply planned_create. by eexists _, _, _.
Qed.

Lemma keeps_annotationsFailed q c ref message uerr :
  keeps q (annotationsFailed TypeNormal c ref message uerr).
Proof. apply keeps_fetched. intros el. apply keeps_publish. intros. apply keeps_ret. Qed.

Lemma keeps_createFailed q c ref err : keeps q (createFailed TypeNormal c ref err).
Proof.
  apply keeps_fetched. intros el. apply keeps_now. intros t. apply keeps_updated.
  - by apply (writable_same _ el); [|apply Meta.finalizers_AddAnnotations].
  - intros r. apply keeps_publish. intros. apply keeps_ret.
Qed.

Lemma keeps_createSucceeded q c ref : keeps q (createSucceeded TypeNormal c ref).
Proof.
  apply keeps_fetched. intros el. apply keeps_now. intros t. apply keeps_Update.
  - by apply (writable_same _ el); [|apply Meta.finalizers_AddAnnotations].
  - intros. apply keeps_record. intros. apply keeps_annotationsFailed.
  - intros r. apply keeps_fetched. intros el2. apply keeps_publish. intros.
    apply keeps_record. intros. apply keeps_ret.
Qed.

Lemma keeps_handleCreate q c ref :
  existsb mutates q = false -> keeps q (handleCreate TypeNormal c ref).
Proof.
  intros Hm. unfold handleCreate. destruct (negb (externalClient c)); [apply keeps_ret|].
  apply keeps_fetched. intros el. apply keeps_now. intros t. apply keeps_Update.
  - by apply (writable_same _ el); [|apply Meta.finalizers_AddAnnotations].
  - intros. apply keeps_record. intros. apply keeps_annotationsFailed.
  - intros r. apply keeps_fetched. intros el2. apply keeps_now. intros t2.
    eapply safe_bind with (R := fun _ _ => True).
    { apply safe_Create. intros el' err. eexists. split; [split; [|done]|done].
      constructor; [done|done|]. simpl. by exists el, t. }
    intros (el' & err) q1 _. apply keeps_timed. intros _. destruct err as [err|].
    + apply keeps_record. intros _. apply keeps_createFailed.
    + apply keeps_createSucceeded.
Qed.

Lemma keeps_handleUpdate q c ref :
  existsb mutates q = false -> keeps q (handleUpdate TypeNormal c ref).
Proof.
  intros Hm. unfold handleUpdate. destruct (negb (externalClient c)); [apply keeps_ret|].
  apply keeps_fetched. intros el. apply keeps_now. intros t.
  eapply safe_bind with (R := fun _ _ => True).
  { apply safe_ExtUpdate. intros el' err. eexists. split; [split; [by constructor|done]|done]. }
  intros (el' & err) q1 _. apply keeps_timed. intros _. destruct err as [err|].
  - apply keeps_record. intros _. apply keeps_fetched. intros e. apply keeps_publish.
    intros. apply keeps_ret.
  - apply keeps_fetched. intros el2. apply keeps_publish. intros.
    apply keeps_record. intros. apply keeps_ret.
Qed.

Lemma keeps_handleDelete q c ref :
  existsb mutates q = false -> keeps q (handleDelete TypeNormal c ref).
Proof.
  intros Hm. unfold handleDelete. destruct (negb (externalClient c)); [apply keeps_ret|].
  apply keeps_fetched. intros el. apply keeps_now. intros t.
  eapply safe_bind with (R := fun r q1 => q1 = EExtDelete el r.1 r.2 :: EGet ref (inr el) :: q).
  { apply safe_ExtDelete. intros el' err. eexists. split; [split; [by constructor|done]|done]. }
  intros (el' & err) ? ->. cbn [fst snd]. apply keeps_timed. intros _. destruct err as [err|].
  - apply keeps_record. intros _. apply keeps_publish. intros. apply keeps_ret.
  - apply keeps_fetched. intros el2. apply keeps_publish. intros u el3. apply keeps_updated.
    + by eapply writable_deleted.
    + intros r. apply keeps_record. intros. apply keeps_ret.
Qed.

Lemma keeps_dispatch q c : existsb mutates q = false -> keeps q (dispatch TypeNormal c evt).
Proof.
  intros Hm. unfold dispatch. eapply safe_bind with (R := fun _ _ => True).
  - repeat case_match; [by apply keeps_handleCreate|by apply keeps_handleUpdate|
      by apply keeps_handleDelete|by apply keeps_handleObserve].
  - intros err q1 _. apply (keeps_after q1); [by apply (safe_emit _ _ _ q1)|].
    intros. apply keeps_ret.
Qed.

(** *** The phases: what follows gets the object in hand and no change of the external resource *)

Definition ready (q : list (effect O)) (el : O) : Prop :=
  inHand q = Some el /\ existsb mutates q = false.

Lemma keeps_orphanPhase q c el k :
  ready q el -> (forall q' el', ready q' el' -> keeps q' (k el')) ->
  keeps q (orphanPhase TypeNormal c el k).
Proof.
  intros [Hh Hm] Hk. unfold orphanPhase.
  destruct (Meta.WasDeleted el && negb (Meta.ShouldDelete el)) eqn:Eo; [|by apply Hk].
  bool_to_prop. destruct (Meta.FinalizerExists el finalizerName); [|by apply Hk].
  eapply safe_bind.
  - apply safe_liftO with (R := fun u q1 =>
      q1 = q /\ Meta.RemoveFinalizer el finalizerName = Ret u). done.
  - intros u ? [-> Eu]. apply keeps_updated; [by eapply writable_orphan|].
    intros r. by apply Hk.
Qed.

Lemma keeps_recoveryPhase q c el k :
  ready q el -> (forall q' el', ready q' el' -> keeps q' (k el')) ->
  keeps q (recoveryPhase TypeNormal c evt el k).
Proof.
  intros [Hh Hm] Hk. unfold recoveryPhase.
  destruct (Meta.ExternalCreateIncomplete el) eqn:Einc; cbn [negb]; [|by apply Hk].
  eapply safe_bind with (R := fun r q1 => r.2.2 = None -> q1 = EObserve el r.1 r.2.1 None :: q).
  { unfold recoveryObserve. destruct (externalClient c); [|by apply safe_ret].
    apply safe_Observe. intros el' obs err. eexists. split; [split; [by constructor|done]|].
    cbn [fst snd]. intros ->. done. }
  intros (el1 & obs & obsErr) q1 Hq1. cbn [fst snd] in Hq1. destruct obsErr as [err|].
  - apply keeps_record. intros _. apply keeps_publish. intros. apply keeps_ret.
  - rewrite (Hq1 eq_refl). clear q1 Hq1. destruct obs as [ex up]. cbn [ResourceExists].
    destruct ex; apply keeps_now; intros t.
    + apply keeps_updated.
      * by apply (writable_same _ el1); [|apply Meta.finalizers_AddAnnotations].
      * intros r. by apply Hk.
    + destruct (Meta.ExternalCreatePendingDuring t el1 _) eqn:Ep.
      * apply keeps_enqueueEvent; [done| |intros; apply keeps_ret].
        intros t2. apply planned_retry. by eexists _, _, _, _, _.
      * apply keeps_updated.
        -- apply (writable_same _ el1); [done|]. unfold Meta.RemoveAnnotations.
           destruct (GetAnnotations el1); [apply finalizers_set_annotations|done].
        -- intros r. by apply Hk.
Qed.

Lemma keeps_finalizerPhase q c el k :
  ready q el -> (forall q' el', ready q' el' -> keeps q' (k el')) ->
  keeps q (finalizerPhase TypeNormal c el k).
Proof.
  intros [Hh Hm] Hk. unfold finalizerPhase. destruct (negb (Meta.WasDeleted el)); [|by apply Hk].
  destruct (Meta.FinalizerExists el finalizerName); [by apply Hk|].
  apply keeps_updated; [|intros r; by apply Hk].
  eapply writable_keeps; [exact Hh|]. rewrite get_set_finalizers. set_solver.
Qed.

Lemma keeps_processItem c : keeps [] (processItem TypeNormal c (inl evt)).
Proof.
  unfold processItem. apply keeps_fetch; [intros; apply keeps_ret|]. intros el.
  destruct (Meta.IsPaused el).
  - apply keeps_record. intros _. apply keeps_publish. intros. apply keeps_ret.
  - apply keeps_orphanPhase; [done|]. intros q1 el1 H1. apply keeps_recoveryPhase; [done|].
    intros q2 el2 H2. apply keeps_finalizerPhase; [done|]. intros q3 el3 [_ H3].
    by apply keeps_dispatch.
Qed.

End Refinement.
(** ** What the protocol gives *)

Lemma follows_split evt l2 e l1 : follows evt (l2 ++ e :: l1) -> allowed evt l1 e.
Proof. induction l2 as [|a l2 IH]; simpl; inversion 1; subst; auto. Qed.

Lemma processItem_keeps c evt s :
  exists new, trace (processItem TypeNormal c (inl evt) s).1 = new ++ trace s /\
    follows evt (calls new).
Proof.
  destruct (keeps_processItem evt c s) as (new & q & Ht & Hp & _).
  exists new. split; [done|]. by apply path_calls in Hp as [_ ?].
Qed.

(** What processing an event adds to the trace. *)
Definition processed c evt s new : Prop :=
  trace (processItem TypeNormal c (inl evt) s).1 = new ++ trace s.

Lemma processed_follows c evt s new : processed c evt s new -> follows evt (calls new).
Proof.
  intros Hp. destruct (processItem_keeps c evt s) as (new' & Ht & Hf). unfold processed in Hp.
  rewrite Ht in Hp. by apply app_inv_tail in Hp as ->.
Qed.

(** C1. Refinement: whatever the API server, the external client and the clock answer, the calls made while
    an event is processed follow the protocol, also when the processing ends in a panic. *)
Theorem processItem_refines c evt s :
  exists new, processed c evt s new /\ follows evt (calls new).
Proof. apply processItem_keeps. Qed.

Lemma marked_split l1 : marked l1 -> exists l3 u r l4 h t,
  l1 = l3 ++ EUpdate u (inr r) :: l4 /\ inHand l4 = Some h /\
  u = Meta.SetExternalCreatePending h t /\
  Forall (fun e => match e with EUpdate _ _ | ECreate _ _ _ => False | _ => True end) l3.
Proof.
  induction l1 as [|e l1 IH]; [done|].
  destruct e; cbn [marked]; try done;
    try (intros (l3 & u & r & l4 & h & t & -> & ? & ? & ?)%IH;
         eexists (_ :: l3), u, r, l4, h, t; split_and!; [done..|by constructor]).
  destruct res as [|r]; [done|]. intros (h & t & ? & ?).
  eexists [], el, r, l1, h, t. split_and!; [done..|constructor].
Qed.

(** C2. Write-ahead: before every call that creates the external resource, the mark of a pending create
    was stored successfully on the object in hand, and between the two the object was not written
    again and no other create attempted: a crash during the create leaves the mark behind. *)
Theorem write_ahead c evt s new l2 el el' err l1 :
  processed c evt s new -> calls new = l2 ++ ECreate el el' err :: l1 ->
  exists l3 u r l4 h t,
    l1 = l3 ++ EUpdate u (inr r) :: l4 /\ inHand l4 = Some h /\
    u = Meta.SetExternalCreatePending h t /\
    Forall (fun e => match e with EUpdate _ _ | ECreate _ _ _ => False | _ => True end) l3.
Proof.
  intros Hp Hc. apply processed_follows in Hp. rewrite Hc in Hp. apply follows_split in Hp.
  inversion Hp; subst. by apply marked_split.
Qed.

(** C4. An event makes at most one change of the external resource, and what the external client gets is
    the object the API server or the client itself returned last. *)
Theorem one_external_change c evt s new :
  processed c evt s new ->
  (length (filter (fun e => mutates e = true) (calls new)) <= 1)%nat /\
  forall l2 e l1 el, calls new = l2 ++ e :: l1 ->
    match e with
    | EObserve u _ _ _ | ECreate u _ _ | EExtUpdate u _ _ | EExtDelete u _ _ => u = el
    | _ => False
    end -> inHand l1 = Some el /\ existsb mutates l1 = false.
Proof.
  intros Hp. apply processed_follows in Hp. split.
  - assert (Hnone : forall l, existsb mutates l = false ->
      filter (fun e => mutates e = true) l = []).
    { induction l as [|a l IH]; [done|]. simpl. intros [Ha Hl]%orb_false_iff.
      rewrite filter_cons_False by congruence. by apply IH. }
    induction Hp as [|l e Hf IH Ha]; [simpl; lia|]. rewrite filter_cons.
    case_decide as Em; [|done]. simpl.
    inversion Ha as [| | | |? ? ? ? Hm| ? ? ? ? Hm|? ? ? ? Hm|]; subst; try done;
      rewrite (Hnone l Hm); simpl; lia.
  - intros l2 e l1 el Hc He. rewrite Hc in Hp. apply follows_split in Hp.
    destruct e; try done; subst; by inversion Hp.
Qed.

(** C3. Finalizers: a write of the object's metadata that loses a finalizer of the object in hand comes
    after a successful deletion of the external resource, or the object is being deleted and its
    policy keeps the external resource. *)
Theorem finalizers_guarded c evt s new l2 u res l1 f h :
  processed c evt s new -> calls new = l2 ++ EUpdate u res :: l1 ->
  inHand l1 = Some h -> f ∈ GetFinalizers h -> f ∉ GetFinalizers u ->
  existsb deletedOk l1 = true \/ (Meta.WasDeleted h = true /\ Meta.ShouldDelete h = false).
Proof.
  intros Hp Hc Hh Hf Hu. apply processed_follows in Hp. rewrite Hc in Hp.
  apply follows_split in Hp. inversion Hp as [|? ? Hw| | | | | |]; subst.
  destruct Hw as [h' E1 Hsub|h' E1 Hd _|h' E1 Hdel Hsd _]; rewrite Hh in E1; simplify_eq.
  - destruct Hu. by apply Hsub.
  - by left.
  - by right.
Qed.

(** C19. What a reconciliation queues is what it saw.  Either the two calls before were an observation that
    did not fail and a fetch of the object, and the event, at high priority and at once, is for the
    reference of the object just fetched: a create when the resource was missing, an update when it
    was there and out of date.  Or the call before was the observation of the recovery, of an object
    with an incomplete create: the resource was missing and the create within its grace period, and
    the event is the one in processing, at low priority after the re-observe interval. *)
Theorem enqueues_what_it_saw c evt s new l2 opts obj l1 :
  processed c evt s new -> calls new = l2 ++ EEnqueue opts obj :: l1 ->
  (exists el el' h obs l0 t,
     l1 = EGet (objectRef evt) (inr h) :: EObserve el el' obs None :: l0 /\
     opts = PriorityQueue.mkAddOpts 0 false HighPriority /\
     ((ResourceExists obs = false /\ obj = inl (mkEvent Event.Create (refOf h) t)) \/
      (ResourceExists obs = true /\ ResourceUpToDate obs = false /\
       obj = inl (mkEvent Event.Update (refOf h) t)))) \/
  (exists el h obs l0 t t',
     l1 = EObserve el h obs None :: l0 /\ inHand l0 = Some el /\
     Meta.ExternalCreateIncomplete el = true /\ ResourceExists obs = false /\
     Meta.ExternalCreatePendingDuring t h externalCreateRecoveryGracePeriod = true /\
     opts = PriorityQueue.mkAddOpts externalCreateRecoveryReobserveInterval false LowPriority /\
     obj = inl (mkEvent (eventType evt) (objectRef evt) t')).
Proof.
  intros Hp Hc. apply processed_follows in Hp. rewrite Hc in Hp. apply follows_split in Hp.
  inversion Hp as [| | | | | | |? ? Hm Hpl]; subst.
  destruct Hpl as [h up t (el & el' & l0 & Hl)|h t (el & el' & l0 & Hl)|
    t' (el & h & up & l0 & t & Hl & ? & ? & ?)]; [left|left|right].
  - eexists el, el', h, _, l0, t. split_and!; [done..|]. left. by split.
  - eexists el, el', h, _, l0, t. split_and!; [done..|]. right. by split_and!.
  - by eexists el, h, _, l0, t, t'.
Qed.

End Protocol.
End Protocol.
