(* ===== verification/WorkerFacts.v ===== *)
(** * The worker: what single calls do

    Theorems about runs of the worker on given answers of its surroundings: paused and missing objects,
    the outcomes of an observation, deletion whatever the policy, and what happens to an event when its
    processing is over. *)

From S2P Require Import Prelude GoTime Errors Meta Event PriorityQueue QueueInstr QueueLaws.
From S2P Require Import Conditions Runtime TraceLogic Worker Protocol.
Import GoTime Errors Event Runtime TraceLogic Worker Protocol.

Module WorkerFacts.

Section Facts.
Context {E O GVR Q : Type} `{!MetaObject O} `{!UnstructuredObject O}
  `{!World E O GVR} `{!WorkQueue anyObj Q}.
Context (TypeNormal : string) (sum64 : string -> Z).
Implicit Types (c : ControllerT GVR) (el : O) (ref : ObjectRef) (s : St E Q O).

(** ** Fetching *)

(** A call of the worker that reads: the answer of the API server, and telemetry. *)
Lemma fetch_run c ref s r e1 :
  dynamicClient c = true ->
  wGet (gvr c) (Namespace ref) (Name ref) (wNow (env s)).2 = (r, e1) ->
  exists e2 l, fetch c ref false s = (mkSt e2 (queue s) (items s) (l ++ EGet ref r :: trace s), Ret r) /\
    Forall (fun e => exists m, e = EMetric m) l.
Proof.
  intros Hd Hg. unfold fetch. rewrite Hd. cbn [negb].
  unfold mbind, M_bind, now, lift. cbn [env queue items trace].
  destruct (wNow (env s)) as [t e0] eqn:En. cbn [snd] in Hg. cbn [env queue items trace].
  rewrite Hg. cbn [env queue items trace].
  assert (Hr : match r with inl err => inl err | inr el => inr el end = r) by (by destruct r).
  rewrite Hr. unfold emit, recordTimed, mret, M_ret. cbn [env queue items trace].
  destruct (metrics c).
  - unfold mbind, M_bind, now, lift. cbn [env queue items trace].
    destruct (wNow e1) as [t2 e2]. unfold emit. cbn [env queue items trace].
    destruct r as [err|el]; cbn [leftOf].
    + exists e2, [EMetric IncGetFailure; EMetric (RecordGetDuration (Since t2 t))].
      split; [done|]. repeat constructor; eauto.
    + exists e2, [EMetric (RecordGetDuration (Since t2 t))]. split; [done|].
      repeat constructor; eauto.
  - exists e1, []. done.
Qed.

(** The calls that touch nothing but the object's status. *)
Definition harmless (e : effect O) : Prop :=
  match e with
  | EGet _ _ | EUpdateStatus _ _ | ERecord _ _ _ | EMetric _ => True
  | _ => False
  end.

(** An object that cannot be fetched is dropped without an error: nothing is written, nothing done
    outside, nothing queued. *)
Theorem missing_object_dropped c evt s err e1 :
  dynamicClient c = true ->
  wGet (gvr c) (Namespace (objectRef evt)) (Name (objectRef evt)) (wNow (env s)).2 = (inl err, e1) ->
  exists s' l, processItem TypeNormal c (inl evt) s = (s', Ret None) /\ trace s' = l ++ trace s /\
    Forall harmless l /\ queue s' = queue s /\ items s' = items s.
Proof.
  intros Hd Hg. destruct (fetch_run c (objectRef evt) s _ _ Hd Hg) as (e2 & l & Ef & Hl).
  unfold processItem, mbind, M_bind. rewrite Ef.
  eexists _, (l ++ [EGet (objectRef evt) (inl err)]). split; [done|].
  cbn [trace queue items]. rewrite <- app_assoc. split_and!; [done| |done..].
  apply Forall_app. split; [|by repeat constructor].
  eapply Forall_impl; [exact Hl|]. by intros e (m & ->).
Qed.

(** C23. A paused object is left alone: no call of the external client, no write but of its status, no
    event queued. *)
Theorem paused_untouched c evt s el e1 :
  dynamicClient c = true ->
  wGet (gvr c) (Namespace (objectRef evt)) (Name (objectRef evt)) (wNow (env s)).2 = (inr el, e1) ->
  Meta.IsPaused el = true ->
  exists l, trace (processItem TypeNormal c (inl evt) s).1 = l ++ trace s /\ Forall harmless l.
Proof.
  intros Hd Hg Hp. destruct (fetch_run c (objectRef evt) s _ _ Hd Hg) as (e2 & l & Ef & Hl).
  unfold processItem. unfold mbind at 1, M_bind at 1. rewrite Ef, Hp.
  set (s1 := mkSt e2 (queue s) (items s) (l ++ EGet (objectRef evt) (inr el) :: trace s)).
  set (step := fun (_ : ()) (e : effect O) (_ : ()) => harmless e).
  assert (Hsafe : safe (Q := Q) (E := E) step tt (pausedPhase TypeNormal c el) (fun _ _ => True)).
  { unfold pausedPhase. eapply safe_bind with (R := fun _ _ => True).
    { by apply safe_recordEvent. }
    intros _ [] _. unfold publish. eapply safe_bind with (R := fun _ _ => True).
    { unfold setConditions. simpl. eapply safe_bind with (R := fun _ _ => True); [|intros cs [] _].
      - eapply safe_bind with (R := fun _ _ => True); [by apply safe_now|]. intros t [] _.
        by apply safe_ret.
      - eapply safe_bind with (R := fun _ _ => True); [by apply safe_liftO|].
        intros [? ?] [] _. by apply safe_ret. }
    intros [[err|] el1] [] _.
    { eapply safe_bind with (R := fun _ _ => True); [by apply safe_recordEvent|].
      intros _ [] _. by apply safe_ret. }
    eapply safe_bind with (R := fun _ _ => True); [apply safe_UpdateStatus; [done|by exists tt]|].
    intros [el2 [err|]] [] _; [|by apply safe_ret].
    eapply safe_bind with (R := fun _ _ => True); [by apply safe_recordEvent|].
    intros _ [] _. by apply safe_ret. }
  destruct (Hsafe s1) as (new & q & Ht & Hpath & _).
  exists (new ++ l ++ [EGet (objectRef evt) (inr el)]). rewrite Ht. cbn [trace s1].
  split; [by rewrite <- !app_assoc|]. apply Forall_app. split; [|apply Forall_app; split].
  - clear -Hpath. induction Hpath; by constructor.
  - eapply Forall_impl; [exact Hl|]. by intros e (m & ->).
  - by repeat constructor.
Qed.

(** ** handleObserve: its outcomes *)

(** Any call is a step; the history keeps all but telemetry. *)
Definition logs (q : list (effect O)) (e : effect O) (q' : list (effect O)) : Prop :=
  q' = if telemetry e then q else e :: q.

Lemma logs_path q new q' : path logs q new q' -> q' = calls new ++ q.
Proof.
  induction 1 as [|new q1 e q2 Hp IH Hs]; [done|]. subst. unfold logs in Hs. rewrite Hs.
  unfold calls. rewrite filter_cons. destruct (telemetry e) eqn:Et.
  - by rewrite decide_False by congruence.
  - by rewrite decide_True.
Qed.

(** The calls of a handler that returned no error. *)
Definition succeeds (m : M E Q O (option error)) (R : list (effect O) -> Prop) : Prop :=
  forall s s', m s = (s', Ret None) -> exists new, trace s' = new ++ trace s /\ R (calls new).

Lemma succeeds_safe m R :
  safe logs [] m (fun r q => r = None -> R q) -> succeeds m R.
Proof.
  intros Hm s s' Em. destruct (Hm s) as (new & q & Ht & Hp & Hr). rewrite Em in *.
  exists new. split; [done|]. apply logs_path in Hp. rewrite app_nil_r in Hp. subst. by apply Hr.
Qed.

(** The rules of the shared shapes, for a postcondition about the successful returns. *)
Lemma logs_fetched q c ref k R :
  (forall el, safe logs (EGet ref (inr el) :: q) (k el) (fun r q => r = None -> R q)) ->
  safe logs q (fetched (E := E) (Q := Q) c ref k) (fun r q => r = None -> R q).
Proof.
  intros Hk. unfold fetched. eapply safe_bind with (R := fun r q1 => match r with inl _ => True
    | inr el => q1 = EGet ref (inr el) :: q end).
  - apply safe_fetch; [done|done|]. intros [err|el]; eexists; (split; [done|done]).
  - intros [err|el] q1; [intros _; by apply safe_ret|intros ->; apply Hk].
Qed.

Lemma logs_publish q c recOn action conds el k R :
  (forall u el', safe logs (EUpdateStatus u (inr el') :: q) (k el') (fun r q => r = None -> R q)) ->
  safe logs q (publish (E := E) (Q := Q) TypeNormal c recOn action conds el k)
    (fun r q => r = None -> R q).
Proof.
  intros Hk. unfold publish. eapply safe_bind with (R := fun _ q1 => q1 = q).
  { unfold setConditions. eapply safe_bind with (R := fun _ q1 => q1 = q).
    - clear Hk. induction conds as [|f conds IH]; simpl; [by apply safe_ret|].
      eapply safe_bind; [by apply safe_now with (R := fun _ q1 => q1 = q)|]. intros t ? ->.
      eapply safe_bind; [exact IH|]. intros cs ? ->. by apply safe_ret.
    - intros cs ? ->. eapply safe_bind; [by apply safe_liftO with (R := fun _ q1 => q1 = q)|].
      intros [err un] ? ->. by apply safe_ret. }
  intros [[err|] el1] ? ->.
  { eapply safe_bind with (R := fun _ _ => True); [by apply safe_recordEvent|].
    intros _ q1 _. by apply safe_ret. }
  eapply safe_bind.
  - apply safe_UpdateStatus with (R := fun r q1 =>
      match r.2 with Some _ => True | None => q1 = EUpdateStatus el1 (inr r.1) :: q end); [done|].
    intros [err|el']; eexists; (split; [done|done]).
  - intros [el2 [err|]] q1; cbn [fst snd].
    + intros _. eapply safe_bind with (R := fun _ _ => True); [by apply safe_recordEvent|].
      intros _ q2 _. by apply safe_ret.
    + intros ->. apply Hk.
Qed.

Lemma logs_now {B} q (f : Time -> M E Q O B) R :
  (forall t, safe logs q (f t) R) -> safe logs q (now ≫= f) R.
Proof.
  intros Hf. eapply safe_bind; [by apply safe_now with (R := fun _ q1 => q1 = q)|]. intros t ? ->.
  apply Hf.
Qed.

Lemma logs_timed {B} q c start r f err (k : () -> M E Q O B) R :
  (forall u, safe logs q (k u) R) -> safe logs q (recordTimed c start r f err ≫= k) R.
Proof.
  intros Hk. eapply safe_bind; [by apply safe_recordTimed with (R := fun _ q1 => q1 = q)|].
  intros u ? ->. apply Hk.
Qed.

Lemma logs_enqueueEvent {B} q opts ty ref (k : () -> M E Q O B) R :
  (forall t u, safe logs (EEnqueue opts (inl (mkEvent ty ref t)) :: q) (k u) R) ->
  safe logs q (enqueueEvent opts ty ref ≫= k) R.
Proof.
  intros Hk. eapply safe_bind with (R := fun _ q1 =>
    exists t, q1 = EEnqueue opts (inl (mkEvent ty ref t)) :: q).
  - apply logs_now. intros t. apply safe_enqueue. eexists. split; [done|]. by exists t.
  - intros u ? (t & ->). apply Hk.
Qed.

(** A successful handleObserve has no client to ask, or it observed the fetched object, fetched it
    again, and did exactly one thing: queued a create at high priority for a missing resource, queued
    an update at high priority for one that is out of date, or wrote the status of one that is up to
    date. *)
Theorem handleObserve_success c ref :
  succeeds (handleObserve TypeNormal c ref) (fun l =>
    (externalClient c = false /\ l = []) \/
    exists el el' obs h last,
      l = [last; EGet ref (inr h); EObserve el el' obs None; EGet ref (inr el)] /\
      if ResourceExists obs then
        if ResourceUpToDate obs then exists u r, last = EUpdateStatus u (inr r)
        else exists t, last = EEnqueue (PriorityQueue.mkAddOpts 0 false HighPriority)
                                (inl (mkEvent Event.Update (refOf h) t))
      else exists t, last = EEnqueue (PriorityQueue.mkAddOpts 0 false HighPriority)
                              (inl (mkEvent Event.Create (refOf h) t))).
Proof.
  apply succeeds_safe. unfold handleObserve. destruct (externalClient c) eqn:Ec; cbn [negb].
  2: { apply safe_ret. by left. }
  apply logs_fetched. intros el. apply logs_now. intros t0.
  eapply safe_bind with (R := fun r q1 =>
    q1 = [EObserve el r.1 r.2.1 r.2.2; EGet ref (inr el)]).
  { apply safe_Observe. intros el' obs err. eexists. by split. }
  intros (el' & obs & err) ? ->. cbn [fst snd]. apply logs_timed. intros _. destruct err as [err|].
  - eapply safe_bind with (R := fun _ _ => True); [by apply safe_recordEvent|]. intros _ q1 _.
    apply logs_fetched. intros e. apply logs_publish. intros. by apply safe_ret.
  - apply logs_fetched. intros h. destruct obs as [ex up]. cbn [ResourceExists ResourceUpToDate].
    destruct ex; cbn [negb]; [destruct up; cbn [negb]|].
    + apply logs_publish. intros u r. apply safe_ret. intros _. right.
      eexists _, _, _, _, _. split; [done|]. simpl. eauto.
    + apply logs_enqueueEvent. intros t u. apply safe_ret. intros _. right.
      eexists _, _, _, _, _. split; [done|]. simpl. eauto.
    + apply logs_enqueueEvent. intros t u. apply safe_ret. intros _. right.
      eexists _, _, _, _, _. split; [done|]. simpl. eauto.
Qed.

(** C21. A successful handleDelete on a registered client has deleted the external resource, whatever the
    deletion or management policy of the object says, then written the status, and then emptied the
    list of finalizers, whoever set them. *)
Theorem handleDelete_success c ref :
  succeeds (handleDelete TypeNormal c ref) (fun l =>
    (externalClient c = false /\ l = []) \/
    exists el el' h u r res,
      l = [EUpdate (SetFinalizers r []) (inr res); EUpdateStatus u (inr r); EGet ref (inr h);
           EExtDelete el el' None; EGet ref (inr el)]).
Proof.
  apply succeeds_safe. unfold handleDelete. destruct (externalClient c) eqn:Ec; cbn [negb].
  2: { apply safe_ret. by left. }
  apply logs_fetched. intros el. apply logs_now. intros t0.
  eapply safe_bind with (R := fun r q1 => q1 = [EExtDelete el r.1 r.2; EGet ref (inr el)]).
  { apply safe_ExtDelete. intros el' err. eexists. by split. }
  intros (el' & err) ? ->. cbn [fst snd]. apply logs_timed. intros _. destruct err as [err|].
  - eapply safe_bind with (R := fun _ _ => True); [by apply safe_recordEvent|]. intros _ q1 _.
    apply logs_publish. intros. by apply safe_ret.
  - apply logs_fetched. intros h. apply logs_publish. intros u r. unfold updated.
    eapply safe_bind.
    + apply safe_Update with (R := fun x q1 => match x.2 with Some _ => True | None =>
        q1 = [EUpdate (SetFinalizers r []) (inr x.1); EUpdateStatus u (inr r); EGet ref (inr h);
              EExtDelete el el' None; EGet ref (inr el)] end); [done|].
      intros [e|x]; eexists; by split.
    + intros [x [e|]] q1; cbn [fst snd].
      * intros _. eapply safe_bind with (R := fun _ _ => True); [by apply safe_recordEvent|].
        intros _ q2 _. by apply safe_ret.
      * intros ->. eapply safe_bind; [by apply safe_recordEvent with (R := fun _ q1 => q1 =
          [EUpdate (SetFinalizers r []) (inr x); EUpdateStatus u (inr r); EGet ref (inr h);
           EExtDelete el el' None; EGet ref (inr el)])|].
        intros _ ? ->. apply safe_ret. intros _. right. by eexists _, _, _, _, _, _.
Qed.

(** ** After the processing *)

Lemma itemsDelete_run dig s :
  itemsDelete dig s =
  (mkSt (env s) (queue s) (items s ∖ {[ dig ]}) (EItemsDelete dig :: trace s), Ret tt).
Proof. done. Qed.

Lemma itemsStore_run dig s :
  itemsStore dig s =
  (mkSt (env s) (queue s) ({[ dig ]} ∪ items s) (EItemsStore dig :: trace s), Ret tt).
Proof. done. Qed.

Lemma queueForget_run k s : exists t,
  queueForget k s =
  (mkSt (wNow (env s)).2 (qForget t k (queue s)) (items s) (EForget k :: trace s), Ret tt).
Proof.
  unfold queueForget, mbind, M_bind, now, lift. destruct (wNow (env s)) as [t e].
  by exists t.
Qed.

Lemma queueDone_run k s : exists t,
  queueDone k s =
  (mkSt (wNow (env s)).2 (qDone t k (queue s)) (items s) (EDone k :: trace s), Ret tt).
Proof.
  unfold queueDone, mbind, M_bind, now, lift. destruct (wNow (env s)) as [t e].
  by exists t.
Qed.

Lemma M_bind_ret {A B} (m : M E Q O A) (f : A -> M E Q O B) s s' a :
  m s = (s', Ret a) -> (m ≫= f) s = f a s'.
Proof. intros Em. unfold mbind, M_bind. by rewrite Em. Qed.

Lemma lift_run {A} (f : E -> A * E) s :
  lift f s = (mkSt (f (env s)).2 (queue s) (items s) (trace s), Ret (f (env s)).1).
Proof. unfold lift. by destruct (f (env s)). Qed.

Lemma emitMetric_run c m s :
  exists l, emitMetric c m s = (mkSt (env s) (queue s) (items s) (l ++ trace s), Ret tt) /\
    l = if metrics c then [EMetric m] else [].
Proof.
  unfold emitMetric. destruct (metrics c); [by exists [EMetric m]|].
  exists []. by destruct s.
Qed.

(** The first three steps of [finishEvent]. *)
Lemma finish_run c ev p err s : exists t1 t2 e2,
  finishEvent sum64 c ev p err s =
  (handleErr sum64 c err ev p ≫= fun _ => emitMetric c (AddReconcileInFlight (-1)))
    (mkSt e2 (qDone t2 (inl ev) (qForget t1 (inl ev) (queue s)))
       (items s ∖ {[ DigestForEvent sum64 ev ]})
       (EDone (inl ev) :: EForget (inl ev) :: EItemsDelete (DigestForEvent sum64 ev) :: trace s)).
Proof.
  unfold finishEvent. rewrite (M_bind_ret _ _ _ _ _ (itemsDelete_run _ _)).
  match goal with |- context [(queueForget _ ≫= _) ?s1] =>
    destruct (queueForget_run (inl ev) s1) as (t1 & E1) end.
  rewrite (M_bind_ret _ _ _ _ _ E1).
  match goal with |- context [(queueDone _ ≫= _) ?s2] =>
    destruct (queueDone_run (inl ev) s2) as (t2 & E2) end.
  rewrite (M_bind_ret _ _ _ _ _ E2). by eexists t1, t2, _.
Qed.

(** An event processed without an error is over: its digest leaves [items], its key is forgotten and
    released, and nothing is queued. *)
Theorem finished_event_released c ev p s : exists s' t1 t2 l,
  finishEvent sum64 c ev p None s = (s', Ret tt) /\
  queue s' = qDone t2 (inl ev) (qForget t1 (inl ev) (queue s)) /\
  items s' = items s ∖ {[ DigestForEvent sum64 ev ]} /\ trace s' = l ++ trace s /\
  forall opts k, EEnqueue opts k ∉ l.
Proof.
  destruct (finish_run c ev p None s) as (t1 & t2 & e2 & Ef). rewrite Ef.
  match goal with |- context [(handleErr _ _ _ _ _ ≫= _) ?s3] =>
    rewrite (M_bind_ret (handleErr sum64 c None ev p) _ s3 s3 tt eq_refl);
    destruct (emitMetric_run c (AddReconcileInFlight (-1)) s3) as (l & El & Hl) end.
  rewrite El. eexists _, t1, t2, (l ++ [EDone (inl ev); EForget (inl ev);
    EItemsDelete (DigestForEvent sum64 ev)]).
  split_and!; [done|done|done|by rewrite <- app_assoc|].
  intros opts k. rewrite Hl. destruct (metrics c); set_solver.
Qed.

Lemma handleErr_requeue c ev p err s :
  qNumRequeues (inl ev) (queue s) < maxRetries c -> DigestForEvent sum64 ev ∉ items s ->
  (forall t, exists q', qAddWithOpts t (PriorityQueue.mkAddOpts 0 true p) [inl ev] (queue s) = Ret q') ->
  exists s' t, handleErr sum64 c (Some err) ev p s = (s', Ret tt) /\
    qAddWithOpts t (PriorityQueue.mkAddOpts 0 true p) [inl ev] (queue s) = Ret (queue s') /\
    items s' = {[ DigestForEvent sum64 ev ]} ∪ items s /\
    trace s' = [EEnqueue (PriorityQueue.mkAddOpts 0 true p) (inl ev);
                EItemsStore (DigestForEvent sum64 ev)] ++ trace s.
Proof.
  intros Hn Hd Hq. unfold handleErr.
  rewrite (M_bind_ret (queueNumRequeues (inl ev)) _ s s _ eq_refl).
  rewrite (proj2 (Z.leb_gt _ _)) by done.
  assert (Hre : exists re e1, (if IsZero (QueuedAt ev)
      then t ← now; mret (mkEvent (eventType ev) (objectRef ev) t) else mret ev) s =
      (mkSt e1 (queue s) (items s) (trace s), Ret re) /\
      DigestForEvent sum64 re = DigestForEvent sum64 ev).
  { destruct (IsZero (QueuedAt ev)).
    - unfold mbind, M_bind, now, lift. destruct (wNow (env s)) as [t e1]. by eexists _, e1.
    - exists ev, (env s). by destruct s. }
  destruct Hre as (re & e1 & Ere & Edig). rewrite (M_bind_ret _ _ _ _ _ Ere). cbn zeta.
  rewrite Edig. unfold itemsHas.
  match goal with |- context [(_ ≫= _) ?s1] =>
    rewrite (M_bind_ret (fun s => (s, Ret (bool_decide (DigestForEvent sum64 ev ∈ items s)))) _ s1 s1
      false) by (cbn; by rewrite bool_decide_false) end.
  rewrite (M_bind_ret _ _ _ _ _ (itemsStore_run _ _)).
  unfold enqueue, mbind, M_bind, now, lift, emit, onQueue. cbn [env queue items trace].
  destruct (wNow e1) as [t e3]. cbn [env queue items trace].
  destruct (Hq t) as (q' & E'). rewrite E'. by eexists _, t.
Qed.

(** C22. With a positive limit, an event whose processing failed is always queued again, however
    often it has failed: the worker forgets the failures of the key just before it compares their
    number with the limit, so with a rate limiter that forgets, no positive limit is ever reached.
    (With the limit 0 the event is dropped at once.) *)
Theorem failed_event_requeued `{!ForgetfulQueue anyObj Q, !QueueSafe anyObj Q} c ev p err s :
  0 < maxRetries c -> qOk (queue s) ->
  exists s' l, finishEvent sum64 c ev p (Some err) s = (s', Ret tt) /\ trace s' = l ++ trace s /\
    EEnqueue (PriorityQueue.mkAddOpts 0 true p) (inl ev) ∈ l /\
    DigestForEvent sum64 ev ∈ items s'.
Proof.
  intros Hmax Hq. destruct (finish_run c ev p (Some err) s) as (t1 & t2 & e2 & Ef). rewrite Ef.
  match goal with |- context [(handleErr _ _ _ _ _ ≫= _) ?s3] =>
    destruct (handleErr_requeue c ev p err s3) as (s4 & t & E4 & _ & Hi & Ht) end.
  - cbn [queue]. by rewrite qNumRequeues_done, qNumRequeues_forget.
  - cbn [items]. set_solver.
  - cbn [queue]. intros t. by apply qAdd_returns, qOk_done, qOk_forget.
  - rewrite (M_bind_ret _ _ _ _ _ E4).
    destruct (emitMetric_run c (AddReconcileInFlight (-1)) s4) as (l & El & Hl). rewrite El.
    eexists _, (l ++ [_; _; _; _; _]). split; [done|]. cbn [trace items]. rewrite Ht, Hi.
    cbn [trace]. split; [by rewrite <- !app_assoc|]. split; [|set_solver].
    apply elem_of_app. right. by left.
Qed.

Lemma wait_metric_run c ev t s : exists l,
  (if IsZero (QueuedAt ev) then mret tt
   else emitMetric c (RecordQueueWaitDuration (Sub t (QueuedAt ev)))) s =
    (mkSt (env s) (queue s) (items s) (l ++ trace s), Ret tt) /\
  Forall (fun e => exists m, e = EMetric m) l.
Proof.
  destruct (IsZero (QueuedAt ev)); [exists []; split; [by destruct s|constructor]|].
  destruct (emitMetric_run c (RecordQueueWaitDuration (Sub t (QueuedAt ev))) s) as (l & E1 & ->).
  exists (if metrics c then [EMetric (RecordQueueWaitDuration (Sub t (QueuedAt ev)))] else []).
  split; [done|]. destruct (metrics c); repeat constructor; eauto.
Qed.

(** When no trace id can be made, the event stays where it is: the key is not released and its digest
    not dropped; nothing but metrics comes of it and the loop goes on to its next item. *)
Theorem shortid_failure_leaks c ev p s err e1 :
  wShortid (wNow (env s)).2 = (Some err, e1) ->
  exists s' l, runWorkerStep TypeNormal sum64 c (inl ev, p, false) s = (s', Ret true) /\
    queue s' = queue s /\ items s' = items s /\ trace s' = l ++ trace s /\
    Forall (fun e => exists m, e = EMetric m) l.
Proof.
  intros Hs. destruct (emitMetric_run c (AddReconcileInFlight 1) s) as (l1 & E1 & Hl1).
  assert (Hrun : exists s' l, (reconcileEvent TypeNormal sum64 c ev p) s = (s', Ret tt) /\
    queue s' = queue s /\ items s' = items s /\ trace s' = l ++ trace s /\
    Forall (fun e => exists m, e = EMetric m) l).
  { unfold reconcileEvent. rewrite (M_bind_ret _ _ _ _ _ E1).
    rewrite (M_bind_ret now _ _ _ _ (lift_run wNow _)).
    destruct (wait_metric_run c ev (wNow (env s)).1
      (mkSt (wNow (env s)).2 (queue s) (items s) (l1 ++ trace s))) as (l3 & E3 & Hl3).
    rewrite (M_bind_ret _ _ _ _ _ E3).
    rewrite (M_bind_ret _ _ _ _ _ (lift_run wShortid _)). cbn [env queue items trace].
    rewrite Hs. cbn [fst snd].
    match goal with |- context [emitMetric c ?m ?s2] =>
      destruct (emitMetric_run c m s2) as (l2 & E2 & Hl2) end.
    rewrite E2. eexists _, (l2 ++ l3 ++ l1). split; [done|]. cbn [queue items trace].
    split_and!; [done|done|by rewrite !app_assoc|].
    rewrite !Forall_app. split_and!; [|done|].
    all: rewrite ?Hl1, ?Hl2; destruct (metrics c); repeat constructor; eauto. }
  destruct Hrun as (s' & l & Er & Hrest). exists s', l.
  unfold runWorkerStep. rewrite (M_bind_ret _ _ _ _ _ Er). done.
Qed.

(** The in-flight gauge of a trace. *)
Definition inFlight (l : list (effect O)) : Z :=
  foldr (fun e n => match e with EMetric (AddReconcileInFlight d) => d + n | _ => n end) 0 l.

(** An object of an unknown type is forgotten and released, and takes one from the in-flight gauge,
    to which nothing was added for it. *)
Theorem unexpected_object_gauge c z p s :
  metrics c = true ->
  exists s' l, runWorkerStep TypeNormal sum64 c (inr z, p, false) s = (s', Ret true) /\
    trace s' = l ++ trace s /\ EDone (inr z) ∈ l /\ EForget (inr z) ∈ l /\ inFlight l = -1.
Proof.
  intros Hm. unfold runWorkerStep. destruct (queueForget_run (inr z) s) as (t1 & E1).
  rewrite (M_bind_ret _ _ _ _ _ E1).
  match goal with |- context [(queueDone _ ≫= _) ?s2] =>
    destruct (queueDone_run (inr z) s2) as (t2 & E2) end.
  rewrite (M_bind_ret _ _ _ _ _ E2).
  unfold emitMetric. rewrite Hm. cbn.
  eexists _, [EMetric (AddReconcileInFlight (-1)); EDone (inr z); EForget (inr z)].
  split; [done|]. split; [done|]. split; [set_solver|]. split; [set_solver|done].
Qed.

(** Every Kubernetes event of type Normal the worker records goes to the throttled recorder: the test
    compares the event's reason, not its type, with "Normal". *)
Theorem normal_events_throttled el reason action message s :
  reason ∈ [reasonReconciliationPaused; reasonCreated; reasonUpdated; reasonDeleted] ->
  trace (recordEvent "Normal" (Some el) (NormalEvent reason action message) s).1 =
  ERecord true el (NormalEvent reason action message) :: trace s.
Proof.
  intros Hr. rewrite !elem_of_cons, elem_of_nil in Hr.
  destruct Hr as [-> |[-> |[-> |[-> |[]]]]]; done.
Qed.

End Facts.
End WorkerFacts.
