(* ===== verification/Cooperation.v ===== *)
(** * Cooperative clusters

    Laws, as classes, for surroundings that cooperate: an API server that stores the one object in
    question, accepts writes of the version it stored last and lets a deleted object go once it has no
    finalizers, an external system whose calls do what they say, a clock that does not go back.  And rules for what the worker's programs do there: [wp m Φ]
    says that [m] returns and that [Φ] holds of what it returns and of the state it leaves; [at_] is the
    assertion about states the rules carry along. *)

From S2P Require Import Prelude GoTime Errors GoStrings Meta Event PriorityQueue QueueInstr QueueLaws.
From S2P Require Import Conditions Runtime Worker WorkerFacts.
Import GoTime Errors Event Runtime Unstructured WorkerFacts.

Module Cooperation.

(** ** The laws of objects *)

(** Two objects with the same metadata, their version and status apart. *)
Record alike {O} `{MetaObject O} (o o' : O) : Prop := mkAlike {
  alike_annotations : GetAnnotations o' = GetAnnotations o;
  alike_finalizers : GetFinalizers o' = GetFinalizers o;
  alike_deletion : GetDeletionTimestamp o' = GetDeletionTimestamp o;
  alike_ref : Worker.refOf o' = Worker.refOf o
}.

#[export] Instance alike_equivalence {O} `{MetaObject O} : Equivalence (@alike O _).
Proof.
  split; [by split|by intros ? ? []; split|].
  intros a b c [] []. split; etransitivity; eassumption.
Qed.

(** A condition whose time survives being stored, again and again. *)
Definition dated (c : Condition.Condition) : Prop :=
  Second <= ns (Condition.LastTransitionTime c) /\ formattable (UTC (Condition.LastTransitionTime c)).

(** Setters keep the identity and the version of an object.  [statusOk]: the object's conditions can be
    read and written. *)
Class ObjectLaws (O : Type) `{MetaObject O} `{UnstructuredObject O} : Type := {
  ref_set_annotations (o : O) m : Worker.refOf (SetAnnotations o m) = Worker.refOf o;
  ref_set_finalizers (o : O) f : Worker.refOf (SetFinalizers o f) = Worker.refOf o;
  version_set_annotations (o : O) m :
    GetResourceVersion (SetAnnotations o m) = GetResourceVersion o;
  version_set_finalizers (o : O) f : GetResourceVersion (SetFinalizers o f) = GetResourceVersion o;
  statusOk : O -> Prop;
  status_read (o : O) : statusOk o ->
    exists cs, GetConditions (Some o) = Ret cs /\ Forall dated (default [] cs);
  status_write (o : O) cs : statusOk o -> Forall dated cs ->
    exists o', SetNestedField o (VList (encodeCondition (O := O) <$> cs)) conditionsPath = inr o' /\
      alike o o' /\ GetResourceVersion o' = GetResourceVersion o /\ statusOk o'
}.

(** ** The laws of the cluster *)

(** What there is to see of a cluster: the object as stored, until it is gone; the external resource; the
    latest time. *)
Class ClusterView (E O : Type) : Type := {
  storedObject : E -> option O;
  resource : E -> ExternalObservation;
  lastTime : E -> Z
}.

(** Nothing but time has passed. *)
Record quiet {E O} `{ClusterView E O} (e e' : E) : Prop := mkQuiet {
  quiet_stored : storedObject e' = storedObject e;
  quiet_resource : resource e' = resource e;
  quiet_time : lastTime e <= lastTime e'
}.

(** A call of the external client has left the external resource as [r], and nothing else. *)
Definition changedTo {E O} `{ClusterView E O} (r : ExternalObservation) (e : E)
  (res : (O * option error) * E) : Prop :=
  res.1.2 = None /\ storedObject res.2 = storedObject e /\ resource res.2 = r /\
  lastTime e <= lastTime res.2.

(** A time that can be written as a mark and as the time of a condition. *)
Definition goodTime (t : Time) : Prop := Second <= ns t /\ formattable t /\ formattable (UTC t).

Definition inSync : ExternalObservation := mkObservation true true.

Definition absent : ExternalObservation := mkObservation false false.

Definition noFinalizers {O} `{MetaObject O} (o : O) : bool :=
  match GetFinalizers o with [] => true | _ => false end.

(** The API server lets go of a deleted object that has no finalizers. *)
Definition collected {O} `{MetaObject O} (o : O) : bool := Meta.WasDeleted o && noFinalizers o.

Class Cooperative (E O GVR : Type) `{MetaObject O} `{UnstructuredObject O} `{!ObjectLaws O}
  `{World E O GVR} `{ClusterView E O} (ref : ObjectRef) : Prop := {
  coop_now e : quiet e (wNow e).2 /\ goodTime (wNow e).1 /\
    lastTime e <= ns (wNow e).1 <= lastTime (wNow e).2;
  coop_gvr a k e : quiet e (wGVKtoGVR a k e).2 /\ exists g, (wGVKtoGVR a k e).1 = inr g;
  coop_shortid e : quiet e (wShortid e).2 /\ (wShortid e).1 = None;
  coop_get g e : quiet e (wGet g (Namespace ref) (Name ref) e).2 /\
    match storedObject e with
    | Some o => (wGet g (Namespace ref) (Name ref) e).1 = inr o
    | None => exists err, (wGet g (Namespace ref) (Name ref) e).1 = inl err
    end;
  (** a write of the object; the status is left alone *)
  coop_update g o cur e : Worker.refOf o = ref -> storedObject e = Some cur ->
    GetResourceVersion o = GetResourceVersion cur -> statusOk cur ->
    let r := wUpdate g (Namespace ref) o e in
    exists o', r.1 = inr o' /\ storedObject r.2 = (if collected o' then None else Some o') /\
      resource r.2 = resource e /\ lastTime e <= lastTime r.2 /\ alike o o' /\ statusOk o';
  (** a write of the status *)
  coop_status g o cur e : Worker.refOf o = ref -> storedObject e = Some cur ->
    GetResourceVersion o = GetResourceVersion cur -> statusOk o ->
    let r := wUpdateStatus g (Namespace ref) o e in
    exists o', r.1 = inr o' /\ storedObject r.2 = Some o' /\ resource r.2 = resource e /\
      lastTime e <= lastTime r.2 /\ alike o o' /\ statusOk o' /\
      GetConditions (Some o') = GetConditions (Some o);
  (** the external client; an observation has no side effects *)
  coop_observe o e : Worker.refOf o = ref ->
    quiet e (wObserve o e).2 /\ (wObserve o e).1 = (o, (resource e, None));
  coop_create o e : Worker.refOf o = ref -> changedTo inSync e (wCreate o e);
  coop_extUpdate o e : Worker.refOf o = ref -> ResourceExists (resource e) = true ->
    changedTo inSync e (wExtUpdate o e);
  coop_extDelete o e : Worker.refOf o = ref -> changedTo absent e (wExtDelete o e)
}.

(** ** Running programs in the cluster *)

Section Run.
Context {E O GVR Q : Type} `{!MetaObject O, !MetaObjectLaws O} `{!UnstructuredObject O}
  `{!UnstructuredLaws O} `{!ObjectLaws O} `{!World E O GVR} `{!ClusterView E O}
  `{!WorkQueue anyObj Q, !QueueSafe anyObj Q}.
Context (ref : ObjectRef) `{!Cooperative E O GVR ref}.
Context (TypeNormal : string).
Implicit Types (c : ControllerT GVR) (o el : O) (so : option O) (s : St E Q O) (r : ExternalObservation).
#[local] Abbreviation M := (M E Q O).
#[local] Abbreviation enq := (list (PriorityQueue.AddOpts * anyObj)).

(** [m] returns, and what it returns and the state it leaves satisfy [Φ]. *)
Definition wp {A} (m : M A) (Φ : A -> St E Q O -> Prop) s : Prop :=
  exists a s', m s = (s', Ret a) /\ Φ a s'.

Lemma wp_ret {A} (a : A) Φ s : Φ a s -> wp (mret a) Φ s.
Proof. intros HΦ. by exists a, s. Qed.

Lemma wp_bind {A B} (m : M A) (f : A -> M B) Φ s : wp m (fun a => wp (f a) Φ) s -> wp (m ≫= f) Φ s.
Proof.
  intros (a & s1 & Em & b & s2 & Ef & HΦ). exists b, s2. split; [|done]. by rewrite (M_bind_ret m f s s1 a Em).
Qed.

Lemma wp_mono {A} (m : M A) (Φ Ψ : A -> St E Q O -> Prop) s :
  wp m Φ s -> (forall a s', Φ a s' -> Ψ a s') -> wp m Ψ s.
Proof. intros (a & s' & Em & HΦ) Himp. exists a, s'. auto. Qed.

(** The additions to the queue in a trace, the latest first. *)
Definition enqueued (tr : list (effect O)) : enq :=
  omap (fun e => match e with EEnqueue opts obj => Some (opts, obj) | _ => None end) tr.

(** The state of the cluster and of the queue: [o] is stored if an object is, the external resource is [r],
    it is [t] or later, and [ev] are the additions made. *)
Record at_ (q : Q) (ev : enq) so r (t : Z) s : Prop := mkAt {
  at_queue : queue s = q;
  at_enqueued : enqueued (trace s) = ev;
  at_stored : storedObject (env s) = so;
  at_resource : resource (env s) = r;
  at_time : t <= lastTime (env s)
}.

Lemma at_earlier q ev so r t t' s : t' <= t -> at_ q ev so r t s -> at_ q ev so r t' s.
Proof. intros Ht []. split; [done..|]. lia. Qed.

(** A call of the surroundings that nothing but time passes in. *)
Lemma wp_quiet {A} (f : E -> A * E) Φ q ev so r t s :
  at_ q ev so r t s -> quiet (env s) (f (env s)).2 ->
  (forall s', at_ q ev so r t s' -> Φ (f (env s)).1 s') -> wp (lift f) Φ s.
Proof.
  intros [Hq Hev Ho Hr Ht] [Qs Qr Qt] HΦ. unfold wp, lift. destruct (f (env s)) as [a e]. cbn in *.
  eexists _, _. split; [done|]. apply HΦ. split; cbn; [done|done|congruence|congruence|lia].
Qed.

Lemma wp_now Φ q ev so r t s :
  at_ q ev so r t s ->
  (forall tm s', goodTime tm -> t <= ns tm -> at_ q ev so r (ns tm) s' -> Φ tm s') -> wp now Φ s.
Proof.
  intros [Hq Hev Ho Hr Ht] HΦ. destruct (coop_now (O := O) (ref := ref) (env s)) as ([Qs Qr Qt] & Hg & Hl).
  unfold wp, now, lift. destruct (wNow (env s)) as [tm e]. cbn in *.
  eexists _, _. split; [done|]. apply HΦ; [done|lia|]. split; cbn; [done|done|congruence|congruence|lia].
Qed.

Lemma wp_emit e Φ q ev so r t s :
  at_ q ev so r t s -> match e with EEnqueue _ _ => False | _ => True end ->
  (forall s', at_ q ev so r t s' -> Φ tt s') -> wp (emit e) Φ s.
Proof.
  intros [] He HΦ. eexists _, _. split; [done|]. apply HΦ. split; [done| |done..]. cbn. by destruct e.
Qed.

Lemma wp_emitMetric c x Φ q ev so r t s :
  at_ q ev so r t s -> (forall s', at_ q ev so r t s' -> Φ tt s') -> wp (emitMetric c x) Φ s.
Proof. intros Hat HΦ. unfold emitMetric. destruct (metrics c); [by eapply wp_emit|by apply wp_ret, HΦ]. Qed.

Lemma wp_recordTimed c start rec f err Φ q ev so r t s :
  at_ q ev so r t s -> (forall s', at_ q ev so r t s' -> Φ tt s') ->
  wp (recordTimed c start rec f err) Φ s.
Proof.
  intros Hat HΦ. unfold recordTimed. destruct (metrics c); [|by apply wp_ret, HΦ].
  apply wp_bind. eapply wp_now; [done|]. intros tm s1 _ Hle Hat1.
  apply (at_earlier _ _ _ _ _ t) in Hat1; [|done].
  apply wp_bind. eapply wp_emit; [exact Hat1|done|]. intros s2 Hat2.
  destruct err; [by eapply wp_emit|by apply wp_ret, HΦ].
Qed.

Lemma wp_recordEvent obj e Φ q ev so r t s :
  at_ q ev so r t s -> (forall s', at_ q ev so r t s' -> Φ tt s') ->
  wp (recordEvent TypeNormal obj e) Φ s.
Proof.
  intros Hat HΦ. unfold recordEvent. destruct obj; [|by apply wp_ret, HΦ].
  destruct (String.eqb _ _); by eapply wp_emit.
Qed.

(** The controller has its clients. *)
Definition wired c : Prop :=
  pluralizer c = true /\ dynamicClient c = true /\ externalClient c = true.

Lemma wp_fetch c Φ q ev o r t s :
  wired c -> at_ q ev (Some o) r t s ->
  (forall s', at_ q ev (Some o) r t s' -> Φ (inr o) s') -> wp (fetch c ref false) Φ s.
Proof.
  intros (_ & Hd & _) Hat HΦ. unfold fetch. rewrite Hd. cbn [negb].
  apply wp_bind. eapply wp_now; [done|]. intros t0 s1 _ Hle Hat1.
  apply (at_earlier _ _ _ _ _ t) in Hat1; [|done].
  destruct (coop_get (ref := ref) (gvr c) (env s1)) as [Hquiet Eg].
  rewrite (at_stored _ _ _ _ _ _ Hat1) in Eg.
  apply wp_bind. eapply wp_quiet; [exact Hat1|exact Hquiet|]. intros s2 Hat2. rewrite Eg.
  apply wp_bind. eapply wp_emit; [exact Hat2|done|]. intros s3 Hat3.
  apply wp_bind. eapply wp_recordTimed; [exact Hat3|]. intros s4 Hat4. by apply wp_ret, HΦ.
Qed.

Lemma namespace_ref o : Worker.refOf o = ref -> GetNamespace o = Namespace ref.
Proof. by intros <-. Qed.

Lemma alike_collected o o' : alike o o' -> collected o' = collected o.
Proof.
  intros Ha. unfold collected, Meta.WasDeleted, noFinalizers.
  by rewrite (alike_deletion _ _ Ha), (alike_finalizers _ _ Ha).
Qed.

Lemma wp_Update c el Φ q ev o r t s :
  wired c -> at_ q ev (Some o) r t s -> Worker.refOf el = ref ->
  GetResourceVersion el = GetResourceVersion o -> statusOk o ->
  (forall o' s', alike el o' -> statusOk o' ->
     at_ q ev (if collected el then None else Some o') r t s' -> Φ (o', None) s') ->
  wp (Update c el) Φ s.
Proof.
  intros (Hp & Hd & _) Hat Href Hv Hok HΦ. unfold Update. rewrite Hp, Hd. cbn [negb].
  destruct (coop_gvr (ref := ref) (GetAPIVersion el) (GetKind el) (env s)) as [Hquiet [g Eg]].
  apply wp_bind. eapply wp_quiet; [exact Hat|exact Hquiet|]. intros s1 Hat1. rewrite Eg.
  pose proof Hat1 as [Hq1 Hev1 Ho1 Hr1 Ht1].
  destruct (coop_update (ref := ref) g el o (env s1)) as (o' & Eu & Es & Er & Et & Hl & Hok'); [done..|].
  apply wp_bind. unfold wp at 1, lift. rewrite (namespace_ref el Href).
  destruct (wUpdate g (Namespace ref) el (env s1)) as [res e]. cbn in Eu, Es, Er, Et. subst res.
  rewrite (alike_collected _ _ Hl) in Es.
  eexists _, _. split; [done|]. apply wp_bind.
  eapply (wp_emit _ _ q ev (if collected el then None else Some o') r t); [|done|].
  - split; cbn; [done|done|done|congruence|lia].
  - intros s2 Hat2. by apply wp_ret, HΦ.
Qed.

Lemma wp_UpdateStatus c el Φ q ev o r t s :
  wired c -> at_ q ev (Some o) r t s -> Worker.refOf el = ref ->
  GetResourceVersion el = GetResourceVersion o -> statusOk el ->
  (forall o' s', alike el o' -> statusOk o' -> GetConditions (Some o') = GetConditions (Some el) ->
     at_ q ev (Some o') r t s' -> Φ (o', None) s') ->
  wp (UpdateStatus c el) Φ s.
Proof.
  intros (Hp & Hd & _) Hat Href Hv Hok HΦ. unfold UpdateStatus. rewrite Hp, Hd. cbn [negb].
  destruct (coop_gvr (ref := ref) (GetAPIVersion el) (GetKind el) (env s)) as [Hquiet [g Eg]].
  apply wp_bind. eapply wp_quiet; [exact Hat|exact Hquiet|]. intros s1 Hat1. rewrite Eg.
  pose proof Hat1 as [Hq1 Hev1 Ho1 Hr1 Ht1].
  destruct (coop_status (ref := ref) g el o (env s1)) as (o' & Eu & Es & Er & Et & Hl & Hok' & Ec);
    [done..|].
  apply wp_bind. unfold wp at 1, lift. rewrite (namespace_ref el Href).
  destruct (wUpdateStatus g (Namespace ref) el (env s1)) as [res e]. cbn in *. subst res.
  eexists _, _. split; [done|]. apply wp_bind. eapply (wp_emit _ _ q ev (Some o') r t); [|done|].
  - split; cbn; [done|done|done|congruence|lia].
  - intros s2 Hat2. by apply wp_ret, HΦ.
Qed.

(** ** The status *)

(** The object says that it was reconciled. *)
Definition synced o : Prop := exists cs co, GetConditions (Some o) = Ret (Some cs) /\
  Condition.find Condition.TypeSynced cs = Some co /\
  Condition.Status co = Condition.ConditionTrue /\
  Condition.Reason co = Condition.ReasonReconcileSuccess.

Lemma dated_storable co : dated co -> storable co.
Proof. intros [H1 H2]. split; [|done]. unfold IsZero. apply Z.eqb_neq. unfold Second in H1. lia. Qed.

Lemma Upsert_dated cs co : Forall dated cs -> dated co -> Forall dated (Condition.Upsert cs co).
Proof.
  intros Hcs Hco. induction Hcs as [|a cs Ha Hcs IH]; cbn [Condition.Upsert]; [by apply Forall_singleton|].
  destruct (String.eqb _ _); by constructor.
Qed.

Lemma find_stored typ cs : GoStrings.isASCII typ = true ->
  Condition.find typ (stored <$> cs) = stored <$> Condition.find typ cs.
Proof.
  intros Ht. induction cs as [|a cs IH]; [done|]. rewrite fmap_cons, !Condition.find_cons, IH.
  assert (Eeq : String.eqb (Condition.Type_ (stored a)) typ = String.eqb (Condition.Type_ a) typ).
  { apply eq_true_iff_eq. rewrite !String.eqb_eq. by apply GoStrings.jsonText_eq_ascii. }
  rewrite Eeq. by destruct (String.eqb (Condition.Type_ a) typ).
Qed.

Lemma foldl_Upsert_dated conds : forall cs,
  Forall dated cs -> Forall dated conds -> Forall dated (foldl Condition.Upsert cs conds).
Proof.
  induction conds as [|co conds IH]; intros cs Hcs Hconds; [done|]. inversion Hconds; subst.
  apply IH; [by apply Upsert_dated|done].
Qed.

(** Conditions with good times are set, and can be read again as they will be stored. *)
Lemma setConditions_stored el conds :
  statusOk el -> conds <> [] -> Forall dated conds ->
  exists el' cs, SetConditions (Some el) conds = Ret (None, Some el') /\
    alike el el' /\ GetResourceVersion el' = GetResourceVersion el /\ statusOk el' /\
    GetConditions (Some el') = Ret (Some (stored <$> foldl Condition.Upsert cs conds)).
Proof.
  intros Hok Hne Hconds. destruct (status_read el Hok) as (cs & Ecs & Hcs).
  pose proof (foldl_Upsert_dated conds _ Hcs Hconds) as Hall.
  destruct (status_write el _ Hok Hall) as (el' & Eset & Halike & Hv & Hok').
  exists el', (default [] cs). split; [|split_and!; try done].
  - unfold SetConditions. rewrite Ecs. cbn [mbind outcome_bind]. rewrite (upsertAll_foldl cs conds Hne).
    cbn [encodeStruct]. by rewrite Eset.
  - unfold GetConditions. rewrite (get_set_nested _ _ _ _ Eset).
    rewrite <- (app_nil_r (encodeCondition <$> _)), conditionsOf_encode; [done|].
    eapply Forall_impl; [exact Hall|apply dated_storable].
Qed.

(** The conditions of a call, each with a good time of its own. *)
Definition stamped (fs : list (Time -> Condition.Condition)) (conds : list Condition.Condition) : Prop :=
  Forall2 (fun f co => exists tm, goodTime tm /\ co = f tm) fs conds.

(** Constructors of conditions take their time as it is. *)
Definition timed (f : Time -> Condition.Condition) : Prop :=
  forall tm, Condition.LastTransitionTime (f tm) = tm.

Lemma stamped_dated fs conds : Forall timed fs -> stamped fs conds -> Forall dated conds.
Proof.
  intros Hfs. induction 1 as [|f co fs conds (tm & (Ht & _ & Hf) & ->) _ IH]; [done|].
  inversion Hfs as [|f' fs' Hft Hfs']; subst. constructor; [|by apply IH].
  unfold dated. by rewrite (Hft tm).
Qed.

Lemma wp_stamp fs : forall Φ q ev so r t s,
  at_ q ev so r t s ->
  (forall conds s', stamped fs conds -> at_ q ev so r t s' -> Φ conds s') -> wp (Worker.stamp fs) Φ s.
Proof.
  induction fs as [|f fs IH]; intros Φ q ev so r t s Hat HΦ; [apply wp_ret, HΦ; [constructor|done]|].
  cbn [Worker.stamp]. apply wp_bind. eapply wp_now; [exact Hat|]. intros tm s1 Htm Hle Hat1.
  apply (at_earlier _ _ _ _ _ t) in Hat1; [|done].
  apply wp_bind. eapply IH; [exact Hat1|]. intros conds s2 Hst Hat2. apply wp_ret, HΦ; [|done].
  constructor; [by exists tm|done].
Qed.

Lemma wp_publish c recOn action fs el k Φ q ev o r t s :
  wired c -> at_ q ev (Some o) r t s -> Worker.refOf el = ref ->
  GetResourceVersion el = GetResourceVersion o -> statusOk el -> fs <> [] -> Forall timed fs ->
  (forall o' cs conds s', alike el o' -> statusOk o' -> stamped fs conds ->
     GetConditions (Some o') = Ret (Some (stored <$> foldl Condition.Upsert cs conds)) ->
     at_ q ev (Some o') r t s' -> wp (k o') Φ s') ->
  wp (Worker.publish TypeNormal c recOn action fs el k) Φ s.
Proof.
  intros Hc Hat Href Hv Hok Hne Hfs HΦ. unfold Worker.publish, Worker.setConditions.
  apply wp_bind, wp_bind. eapply wp_stamp; [exact Hat|]. intros conds s1 Hst Hat1.
  assert (Hconds : conds <> []) by (intros ->; by inversion Hst; subst).
  destruct (setConditions_stored el conds Hok Hconds (stamped_dated _ _ Hfs Hst))
    as (el' & cs & Eset & Ha & Hv' & Hok' & Ecs).
  apply wp_bind. unfold wp at 1, liftO. rewrite Eset. eexists _, _. split; [done|].
  apply wp_ret. cbn [default from_option id].
  apply wp_bind. eapply wp_UpdateStatus; [done|exact Hat1| | |done|].
  - by rewrite (alike_ref _ _ Ha).
  - by rewrite Hv'.
  - intros o' s2 Ha' Hok2 Ec Hat2.
    apply (HΦ o' cs conds); [by etransitivity|done|done|by rewrite Ec|done].
Qed.

(** A reconciliation that succeeded says so. *)
Lemma stamped_synced o cs conds :
  stamped [Condition.ReconcileSuccess] conds ->
  GetConditions (Some o) = Ret (Some (stored <$> foldl Condition.Upsert cs conds)) -> synced o.
Proof.
  intros Hst Ecs. inversion Hst as [|f co fs l (tm & _ & ->) Hl]; subst. inversion Hl; subst. cbn [foldl] in Ecs.
  exists (stored <$> Condition.Upsert cs (Condition.ReconcileSuccess tm)),
    (stored (Condition.ReconcileSuccess tm)).
  split_and!; [done| |done|done]. by rewrite find_stored, (proj1 (Condition.Upsert_spec _ _ _)) by done.
Qed.

(** ** The external client and the queue *)

Lemma wp_Observe el Φ q ev so r t s :
  at_ q ev so r t s -> Worker.refOf el = ref ->
  (forall s', at_ q ev so r t s' -> Φ (el, (r, None)) s') -> wp (Observe el) Φ s.
Proof.
  intros Hat Href HΦ. destruct (coop_observe (ref := ref) el (env s) Href) as [Hquiet Eo].
  unfold Observe. apply wp_bind. eapply wp_quiet; [exact Hat|exact Hquiet|]. intros s1 Hat1.
  rewrite Eo, (at_resource _ _ _ _ _ _ Hat). apply wp_bind. eapply wp_emit; [exact Hat1|done|].
  intros s2 Hat2. by apply wp_ret, HΦ.
Qed.

(** A call that changes the external resource. *)
Lemma wp_external (f : E -> (O * option error) * E) (e : O -> option error -> effect O) r' Φ q ev so r t s :
  at_ q ev so r t s -> (forall el err, match e el err with EEnqueue _ _ => False | _ => True end) ->
  changedTo r' (env s) (f (env s)) ->
  (forall el' s', at_ q ev so r' t s' -> Φ (el', None) s') ->
  wp ('(el', err) ← lift f; emit (e el' err);; mret (el', err)) Φ s.
Proof.
  intros [Hq Hev Ho Hr Ht] He (Eerr & Es & Er & Et) HΦ. apply wp_bind. unfold wp at 1, lift.
  destruct (f (env s)) as [[el' err] e']. cbn in *. subst err. eexists _, _. split; [done|].
  apply wp_bind. eapply (wp_emit _ _ q ev so r' t); [|apply He|].
  - split; cbn; [done|done|congruence|done|lia].
  - intros s2 Hat2. by apply wp_ret, HΦ.
Qed.

Lemma wp_Create el Φ q ev so r t s :
  at_ q ev so r t s -> Worker.refOf el = ref ->
  (forall el' s', at_ q ev so inSync t s' -> Φ (el', None) s') -> wp (Create el) Φ s.
Proof.
  intros Hat Href HΦ. eapply (wp_external (wCreate el) (ECreate el)); [exact Hat|done| |done].
  by apply (coop_create (ref := ref)).
Qed.

Lemma wp_ExtUpdate el Φ q ev so r t s :
  at_ q ev so r t s -> Worker.refOf el = ref -> ResourceExists r = true ->
  (forall el' s', at_ q ev so inSync t s' -> Φ (el', None) s') -> wp (ExtUpdate el) Φ s.
Proof.
  intros Hat Href Hex HΦ. eapply (wp_external (wExtUpdate el) (EExtUpdate el)); [exact Hat|done| |done].
  apply (coop_extUpdate (ref := ref)); [done|]. by rewrite (at_resource _ _ _ _ _ _ Hat).
Qed.

Lemma wp_ExtDelete el Φ q ev so r t s :
  at_ q ev so r t s -> Worker.refOf el = ref ->
  (forall el' s', at_ q ev so absent t s' -> Φ (el', None) s') -> wp (ExtDelete el) Φ s.
Proof.
  intros Hat Href HΦ. eapply (wp_external (wExtDelete el) (EExtDelete el)); [exact Hat|done| |done].
  by apply (coop_extDelete (ref := ref)).
Qed.

(** What the call does to the queue is known: the caller learns when it was made. *)
Lemma wp_enqueueEvent opts ty rf Φ q ev so r t s :
  qOk q -> at_ q ev so r t s ->
  (forall tm t2 q' s', qAddWithOpts t2 opts [inl (mkEvent ty rf tm)] q = Ret q' ->
     at_ q' ((opts, inl (mkEvent ty rf tm)) :: ev) so r t s' -> Φ tt s') ->
  wp (Worker.enqueueEvent opts ty rf) Φ s.
Proof.
  intros Hq Hat HΦ. unfold Worker.enqueueEvent, enqueue.
  apply wp_bind. eapply wp_now; [exact Hat|]. intros tm s1 _ Hle1 Hat1.
  apply wp_bind. eapply wp_now; [exact Hat1|]. intros t2 s2 _ Hle2 [Hq2 Hev2 Ho2 Hr2 Ht2].
  apply wp_bind. eexists _, _. split; [done|]. unfold wp, onQueue. cbn [emit queue env items trace].
  rewrite Hq2. destruct (qAdd_returns t2 opts (inl (mkEvent ty rf tm) : anyObj) q Hq) as [q' Ea].
  rewrite Ea. eexists _, _. split; [done|]. apply (HΦ tm t2 q' _ Ea). split; cbn; [done|by rewrite <- Hev2|done|done|lia].
Qed.

End Run.
End Cooperation.
