(* ===== verification/Convergence.v ===== *)
(** * Convergence

    What a reconciliation achieves when its surroundings cooperate (file Cooperation): a live object ends
    up with an up-to-date external resource, a finalizer, a completed create handshake and a status that
    says so, whatever its marks said before, after at most two events, the one given and the one its
    processing queues.  File ConvergenceExamples has a cluster that obeys the laws. *)

From S2P Require Import Prelude GoTime Errors Meta Event PriorityQueue QueueInstr QueueLaws.
From S2P Require Import Conditions Runtime Worker WorkerFacts Cooperation.
Import GoTime Errors Event Runtime Unstructured WorkerFacts Cooperation.

Module Convergence.

Section Run.
Context {E O GVR Q : Type} `{!MetaObject O, !MetaObjectLaws O} `{!UnstructuredObject O}
  `{!UnstructuredLaws O} `{!ObjectLaws O} `{!World E O GVR} `{!ClusterView E O}
  `{!WorkQueue anyObj Q, !QueueSafe anyObj Q}.
Context (ref : ObjectRef) `{!Cooperative E O GVR ref}.
Context (TypeNormal : string).
Implicit Types (c : ControllerT GVR) (o el : O) (s : St E Q O) (r : ExternalObservation).
#[local] Abbreviation M := (M E Q O).
#[local] Abbreviation enq := (list (PriorityQueue.AddOpts * anyObj)).

(** ** The object *)

(** An object of the reference which can be worked on: not paused, not about to be let go of. *)
Record active o : Prop := mkActive {
  active_ref : Worker.refOf o = ref;
  active_kept : collected o = false;
  active_paused : Meta.IsPaused o = false;
  active_status : statusOk o
}.

(** One that is not being deleted; and with the controller's finalizer. *)
Definition live o : Prop := active o /\ Meta.WasDeleted o = false.
Definition ready o : Prop := live o /\ Worker.finalizerName ∈ GetFinalizers o.

Lemma live_active o :
  Worker.refOf o = ref -> Meta.WasDeleted o = false -> Meta.IsPaused o = false -> statusOk o -> live o.
Proof. intros Hr Hd Hp Hs. split; [split|]; try done. unfold collected. by rewrite Hd. Qed.

Lemma alike_annotation o o' k : alike o o' -> Meta.annotation o' k = Meta.annotation o k.
Proof. intros Ha. unfold Meta.annotation, Meta.lookupAnnotation. by rewrite (alike_annotations _ _ Ha). Qed.

Lemma alike_paused o o' : alike o o' -> Meta.IsPaused o' = Meta.IsPaused o.
Proof. intros Ha. unfold Meta.IsPaused. by rewrite (alike_annotation _ _ _ Ha). Qed.

Lemma alike_active o o' : alike o o' -> statusOk o' -> active o -> active o'.
Proof.
  intros Ha Hok [Hr Hk Hp _]. split; [by rewrite (alike_ref _ _ Ha)| | |done].
  - by rewrite (alike_collected _ _ Ha).
  - by rewrite (alike_paused _ _ Ha).
Qed.

Lemma alike_ready o o' : alike o o' -> statusOk o' -> ready o -> ready o'.
Proof.
  intros Ha Hok [[Hl Hd] Hf]. split; [split; [by eapply alike_active|]|].
  - unfold Meta.WasDeleted. by rewrite (alike_deletion _ _ Ha).
  - by rewrite (alike_finalizers _ _ Ha).
Qed.

Lemma alike_incomplete o o' :
  alike o o' -> Meta.ExternalCreateIncomplete o' = Meta.ExternalCreateIncomplete o.
Proof.
  intros Ha. unfold Meta.ExternalCreateIncomplete, Meta.GetExternalCreatePending,
    Meta.GetExternalCreateSucceeded, Meta.GetExternalCreateFailed, Meta.annotationTime.
  by rewrite !(alike_annotation _ _ _ Ha).
Qed.

(** ** Annotations *)

(** [o1] is [o] with other annotations, but for the one that pauses. *)
Record edited o o1 : Prop := mkEdited {
  edited_ref : Worker.refOf o1 = Worker.refOf o;
  edited_version : GetResourceVersion o1 = GetResourceVersion o;
  edited_deletion : GetDeletionTimestamp o1 = GetDeletionTimestamp o;
  edited_finalizers : GetFinalizers o1 = GetFinalizers o;
  edited_paused : Meta.IsPaused o1 = Meta.IsPaused o
}.

Lemma edited_add o k v :
  k <> Meta.AnnotationKeyReconciliationPaused -> edited o (Meta.AddAnnotations o {[ k := v ]}).
Proof.
  intros Hk. split; [| |apply Meta.deletion_AddAnnotations|apply Meta.finalizers_AddAnnotations|].
  - unfold Meta.AddAnnotations. destruct (GetAnnotations o); apply ref_set_annotations.
  - unfold Meta.AddAnnotations. destruct (GetAnnotations o); apply version_set_annotations.
  - unfold Meta.IsPaused, Meta.annotation. by rewrite Meta.lookup_AddAnnotations, lookup_singleton_ne.
Qed.

Lemma edited_remove o ks :
  (Meta.AnnotationKeyReconciliationPaused ∉ ks) -> edited o (Meta.RemoveAnnotations o ks).
Proof.
  intros Hk. assert (Hp : Meta.IsPaused (Meta.RemoveAnnotations o ks) = Meta.IsPaused o).
  { unfold Meta.IsPaused, Meta.annotation. by rewrite Meta.lookup_RemoveAnnotations, bool_decide_false. }
  revert Hp. unfold Meta.RemoveAnnotations. destruct (GetAnnotations o); [|done]. intros Hp.
  split; [apply ref_set_annotations|apply version_set_annotations|apply deletion_set_annotations|
    apply finalizers_set_annotations|done].
Qed.

Lemma edited_active o o1 o' : edited o o1 -> alike o1 o' -> statusOk o' -> active o -> active o'.
Proof.
  intros He Ha Hok [Hr Hk Hp _]. split; [| | |done].
  - by rewrite (alike_ref _ _ Ha), (edited_ref _ _ He).
  - rewrite (alike_collected _ _ Ha). unfold collected, Meta.WasDeleted, noFinalizers in *.
    by rewrite (edited_deletion _ _ He), (edited_finalizers _ _ He).
  - by rewrite (alike_paused _ _ Ha), (edited_paused _ _ He).
Qed.

(** Other annotations are stored. *)
Lemma wp_Update_edited c el Φ q ev o r t s :
  wired c -> at_ q ev (Some o) r t s -> active o -> edited o el ->
  (forall o' s', alike el o' -> active o' -> Meta.WasDeleted o' = Meta.WasDeleted o ->
     GetFinalizers o' = GetFinalizers o -> at_ q ev (Some o') r t s' -> Φ (o', None) s') ->
  wp (Update c el) Φ s.
Proof.
  intros Hc Hat Hl He HΦ. eapply (wp_Update ref); [done|exact Hat| |apply He|apply Hl|].
  { rewrite (edited_ref _ _ He). apply Hl. }
  intros o' s' Ha Hok Hat'. pose proof (edited_active _ _ _ He Ha Hok Hl) as Hl'.
  rewrite <- (alike_collected _ _ Ha), (active_kept _ Hl') in Hat'. apply HΦ; [done|done| | |done].
  - unfold Meta.WasDeleted. by rewrite (alike_deletion _ _ Ha), (edited_deletion _ _ He).
  - by rewrite (alike_finalizers _ _ Ha), (edited_finalizers _ _ He).
Qed.

(** ** The handlers *)

(** Where a reconciliation is to get. *)
Definition settled (q : Q) (ev : enq) (t : Z) s : Prop := exists o,
  at_ q ev (Some o) inSync t s /\ ready o /\ Meta.ExternalCreateIncomplete o = false /\ synced o.

Definition reaches (q : Q) (ev : enq) (t : Z) (err : option error) s : Prop :=
  err = None /\ settled q ev t s.

Lemma reaches_earlier (m : M (option error)) q ev t t' s :
  t' <= t -> wp m (reaches q ev t) s -> wp m (reaches q ev t') s.
Proof.
  intros Ht Hm. eapply wp_mono; [exact Hm|]. intros err s' [-> (o & Hat & Ho)]. split; [done|].
  exists o. split; [by eapply at_earlier|done].
Qed.

Lemma wp_fetched c k Φ q ev o r t s :
  wired c -> at_ q ev (Some o) r t s -> (forall s', at_ q ev (Some o) r t s' -> wp (k o) Φ s') ->
  wp (Worker.fetched c ref k) Φ s.
Proof. intros Hc Hat HΦ. apply wp_bind. by eapply (wp_fetch ref). Qed.

(** Publishing success on an object whose create is complete, last of all. *)
Lemma wp_publish_last c recOn action k q ev o t s :
  wired c -> at_ q ev (Some o) inSync t s -> ready o -> Meta.ExternalCreateIncomplete o = false ->
  (forall el o' s', at_ q ev (Some o') inSync t s' ->
     wp (k el) (fun err s2 => err = None /\ at_ q ev (Some o') inSync t s2) s') ->
  wp (Worker.publish TypeNormal c recOn action [Condition.ReconcileSuccess] o k) (reaches q ev t) s.
Proof.
  intros Hc Hat [Hl Hf] Hi Hk. eapply (wp_publish ref); [done|exact Hat|apply Hl|done|apply Hl|done|by repeat constructor|].
  intros o' cs conds s' Ha Hok Hst Ecs Hat'. pose proof (stamped_synced o' cs conds Hst Ecs) as Hs. destruct (Hk o' o' s' Hat') as (err & s2 & Ek & -> & Hat2).
  exists None, s2. split; [done|]. split; [done|]. exists o'.
  split_and!; [done|by eapply alike_ready| |done]. by rewrite (alike_incomplete _ _ Ha).
Qed.

Lemma wp_finish obj e q ev (so : option O) r t s :
  at_ q ev so r t s ->
  wp (recordEvent TypeNormal obj e;; mret (@None error)) (fun err s' => err = None /\ at_ q ev so r t s') s.
Proof. intros Hat. apply wp_bind. eapply wp_recordEvent; [exact Hat|]. intros s' Hat'. by apply wp_ret. Qed.

Lemma wp_handleUpdate c q ev o r t s :
  wired c -> at_ q ev (Some o) r t s -> ready o -> Meta.ExternalCreateIncomplete o = false ->
  ResourceExists r = true ->
  wp (Worker.handleUpdate TypeNormal c ref) (reaches q ev t) s.
Proof.
  intros Hc Hat Hr Hi Hex. unfold Worker.handleUpdate.
  rewrite (proj2 (proj2 Hc)). cbn [negb].
  eapply wp_fetched; [done|exact Hat|]. intros s1 Hat1.
  apply wp_bind. eapply (wp_now ref); [exact Hat1|]. intros t2 s2 _ Hle Hat2.
  apply wp_bind. eapply (wp_ExtUpdate ref); [exact Hat2|apply Hr|done|]. intros el' s3 Hat3.
  apply wp_bind. eapply (wp_recordTimed ref); [exact Hat3|]. intros s4 Hat4.
  eapply wp_fetched; [done|exact Hat4|]. intros s5 Hat5.
  eapply wp_publish_last; [done| |done|done|intros el o' s' Hat'; by apply wp_finish].
  by eapply at_earlier.
Qed.

(** The two marks of a create that was started and then completed. *)
Lemma completed_marks o o1 o2 t1 t2 :
  goodTime t1 -> goodTime t2 -> ns t1 <= ns t2 -> alike (Meta.SetExternalCreatePending o t1) o1 ->
  alike (Meta.SetExternalCreateSucceeded o1 t2) o2 -> Meta.ExternalCreateIncomplete o2 = false.
Proof.
  intros (_ & H1 & _) (_ & H2 & _) Hle%truncSec_le Ha1 Ha2. rewrite (alike_incomplete _ _ Ha2).
  apply not_true_iff_false. rewrite Meta.ExternalCreateIncomplete_spec.
  destruct (Meta.marks_after_pending o t1 H1) as (Ep & _ & _).
  destruct (Meta.marks_after_succeeded o1 t2 H2) as (Ep2 & Es2 & _).
  assert (Ep1 : Meta.GetExternalCreatePending o1 = truncSec t1).
  { rewrite <- Ep. unfold Meta.GetExternalCreatePending, Meta.annotationTime.
    by rewrite (alike_annotation _ _ _ Ha1). }
  unfold Meta.incomplete_spec. rewrite Ep2, Es2, Ep1. lia.
Qed.

Lemma wp_createSucceeded c q ev o o0 t1 s :
  wired c -> goodTime t1 -> at_ q ev (Some o) inSync (ns t1) s -> ready o ->
  alike (Meta.SetExternalCreatePending o0 t1) o ->
  wp (Worker.createSucceeded TypeNormal c ref) (reaches q ev (ns t1)) s.
Proof.
  intros Hc Ht1 Hat [[Hl Hd] Hf] Ha. unfold Worker.createSucceeded.
  eapply wp_fetched; [done|exact Hat|]. intros s1 Hat1.
  apply wp_bind. eapply (wp_now ref); [exact Hat1|]. intros t2 s2 Ht2 Hle Hat2.
  apply wp_bind. eapply wp_Update_edited; [done|exact Hat2|exact Hl|by apply edited_add|].
  intros o2 s3 Ha2 Hl2 Hd2 Hf2 Hat3. cbv beta iota.
  eapply wp_fetched; [done|exact Hat3|]. intros s4 Hat4.
  eapply wp_publish_last; [done|exact (at_earlier _ _ _ _ _ _ _ Hle Hat4)| |
    exact (completed_marks o0 o o2 t1 t2 Ht1 Ht2 Hle Ha Ha2)|intros el o' s' Hat'; by apply wp_finish].
  split; [split; [done|congruence]|congruence].
Qed.

Lemma wp_handleCreate c q ev o r t s :
  wired c -> at_ q ev (Some o) r t s -> ready o ->
  wp (Worker.handleCreate TypeNormal c ref) (reaches q ev t) s.
Proof.
  intros Hc Hat [[Hl Hd] Hf]. unfold Worker.handleCreate. rewrite (proj2 (proj2 Hc)). cbn [negb].
  eapply wp_fetched; [done|exact Hat|]. intros s1 Hat1.
  apply wp_bind. eapply (wp_now ref); [exact Hat1|]. intros t1 s2 Ht1 Hle1 Hat2.
  apply wp_bind. eapply wp_Update_edited; [done|exact Hat2|exact Hl|by apply edited_add|].
  intros o1 s3 Ha1 Hl1 Hd1 Hf1 Hat3. cbv beta iota.
  eapply wp_fetched; [done|exact Hat3|]. intros s4 Hat4.
  apply wp_bind. eapply (wp_now ref); [exact Hat4|]. intros t2 s5 _ Hle Hat5.
  apply wp_bind. eapply (wp_Create ref); [exact Hat5|apply Hl1|]. intros el' s6 Hat6. cbv beta iota.
  apply wp_bind. eapply (wp_recordTimed ref); [exact Hat6|]. intros s7 Hat7.
  apply (reaches_earlier _ _ _ (ns t1)); [done|].
  eapply wp_createSucceeded; [done|exact Ht1|by eapply at_earlier| |done].
  split; [split; [done|congruence]|congruence].
Qed.

(** What an observation leads to: nothing more, or one event to bring the external resource about. *)
Definition nextEvent r : EventType := if ResourceExists r then Event.Update else Event.Create.

Definition next r tm : anyObj := inl (mkEvent (nextEvent r) ref tm).
Definition nextOpts : PriorityQueue.AddOpts := PriorityQueue.mkAddOpts 0 false Worker.HighPriority.

Definition observedAs (q : Q) (ev : enq) r (t : Z) (err : option error) s : Prop :=
  err = None /\
  ((r = inSync /\ settled q ev t s) \/
   (r <> inSync /\ exists q' o tm t2,
      qAddWithOpts t2 nextOpts [next r tm] q = Ret q' /\
      at_ q' ((nextOpts, next r tm) :: ev) (Some o) r t s /\
      ready o /\ Meta.ExternalCreateIncomplete o = false)).

Lemma wp_handleObserve c q ev o r t s :
  wired c -> qOk q -> at_ q ev (Some o) r t s -> ready o -> Meta.ExternalCreateIncomplete o = false ->
  wp (Worker.handleObserve TypeNormal c ref) (observedAs q ev r t) s.
Proof.
  intros Hc Hq Hat Hr Hi. unfold Worker.handleObserve. rewrite (proj2 (proj2 Hc)). cbn [negb].
  eapply wp_fetched; [done|exact Hat|]. intros s1 Hat1.
  apply wp_bind. eapply (wp_now ref); [exact Hat1|]. intros t1 s2 _ Hle Hat2. apply (at_earlier _ _ _ _ _ _ _ Hle) in Hat2.
  apply wp_bind. eapply (wp_Observe ref); [exact Hat2|apply Hr|]. intros s3 Hat3. cbv beta iota.
  apply wp_bind. eapply (wp_recordTimed ref); [exact Hat3|]. intros s4 Hat4.
  eapply wp_fetched; [done|exact Hat4|]. intros s5 Hat5.
  rewrite (active_ref _ (proj1 (proj1 Hr))).
  assert (Hnext : forall ty, nextEvent r = ty -> r <> inSync ->
    wp (Worker.enqueueEvent nextOpts ty ref;; mret (@None error)) (observedAs q ev r t) s5).
  { intros ty <- Hne. apply wp_bind. eapply (wp_enqueueEvent ref); [exact Hq|exact Hat5|].
    intros tm t2 q' s6 Ea Hat6. apply wp_ret. split; [done|]. right. split; [done|].
    by exists q', o, tm, t2. }
  destruct r as [[] []]; cbn [ResourceExists ResourceUpToDate negb]; [|by apply Hnext..].
  eapply wp_mono; [eapply wp_publish_last; [done|exact Hat5|done|done|]|].
  - intros el o' s' Hat'. by apply wp_ret.
  - intros err s' [-> Hs]. split; [done|by left].
Qed.

(** ** The phases before the dispatch *)

(** A create that is not known to have ended can be decided: its mark is one the runtime wrote, in whole
    seconds, and lies in the past; and when there is no resource, longer ago than the grace period. *)
Definition decidable o r (t : Z) : Prop :=
  Meta.ExternalCreateIncomplete o = true ->
  let p := ns (Meta.GetExternalCreatePending o) in
  p mod Second = 0 /\
  p + (if ResourceExists r then 0 else Worker.externalCreateRecoveryGracePeriod) <= t.

Lemma recovered_succeeded o o' tm :
  goodTime tm -> ns (Meta.GetExternalCreatePending o) mod Second = 0 ->
  ns (Meta.GetExternalCreatePending o) <= ns tm -> alike (Meta.SetExternalCreateSucceeded o tm) o' ->
  Meta.ExternalCreateIncomplete o' = false.
Proof.
  intros (_ & Hf & _) Hmod Hle Ha. rewrite (alike_incomplete _ _ Ha).
  apply not_true_iff_false. rewrite Meta.ExternalCreateIncomplete_spec.
  destruct (Meta.marks_after_succeeded o tm Hf) as (-> & -> & _). unfold Meta.incomplete_spec.
  assert (ns (Meta.GetExternalCreatePending o) <= ns (truncSec tm)); [|lia].
  unfold truncSec, Second in *. cbn [ns]. lia.
Qed.

Lemma removed_complete o o' :
  alike (Meta.RemoveAnnotations o [Meta.AnnotationKeyExternalCreatePending]) o' ->
  Meta.ExternalCreateIncomplete o' = false.
Proof.
  intros Ha. rewrite (alike_incomplete _ _ Ha). unfold Meta.ExternalCreateIncomplete.
  replace (IsZero (Meta.GetExternalCreatePending _)) with true; [done|].
  unfold Meta.GetExternalCreatePending, Meta.annotationTime, Meta.annotation.
  by rewrite Meta.lookup_RemoveAnnotations, bool_decide_true by by left.
Qed.

(** What a phase hands on: the object may have other annotations and another version. *)
Definition carried o o' : Prop := active o' /\ Meta.WasDeleted o' = Meta.WasDeleted o.

Lemma wp_recoveryPhase c evt k Φ q ev o r t s :
  wired c -> at_ q ev (Some o) r t s -> active o -> decidable o r t ->
  (forall o' s', carried o o' -> Meta.ExternalCreateIncomplete o' = false ->
     at_ q ev (Some o') r t s' -> wp (k o') Φ s') ->
  wp (Worker.recoveryPhase TypeNormal c evt o k) Φ s.
Proof.
  intros Hc Hat Hl Hdec HΦ. unfold Worker.recoveryPhase.
  destruct (Meta.ExternalCreateIncomplete o) eqn:Ei; cbn [negb]; [|by apply HΦ].
  destruct (Hdec Ei) as [Hmod Hpast]. unfold Worker.recoveryObserve. rewrite (proj2 (proj2 Hc)).
  apply wp_bind. eapply (wp_Observe ref); [exact Hat|apply Hl|]. intros s1 Hat1. cbv beta iota.
  destruct (ResourceExists r) eqn:Er; cbv beta iota zeta in Hpast.
  - apply wp_bind. eapply (wp_now ref); [exact Hat1|]. intros tm s2 Htm Hle Hat2.
    apply wp_bind. eapply wp_Update_edited;
      [done|exact (at_earlier _ _ _ _ _ _ _ Hle Hat2)|exact Hl|by apply edited_add|].
    intros o' s3 Ha Hl' Hd _ Hat3. cbv beta iota.
    apply HΦ; [done|apply (recovered_succeeded o o' tm Htm Hmod); [lia|done]|done].
  - apply wp_bind. eapply (wp_now ref); [exact Hat1|]. intros tm s2 Htm Hle Hat2.
    replace (Meta.ExternalCreatePendingDuring tm o _) with false; cycle 1.
    { symmetry. unfold Meta.ExternalCreatePendingDuring, Since, Sub. destruct (IsZero _); [done|].
      apply Z.ltb_ge. unfold sat64, min_int64, max_int64, Worker.externalCreateRecoveryGracePeriod,
        Minute, Second in *. lia. }
    apply wp_bind. eapply wp_Update_edited;
      [done|exact (at_earlier _ _ _ _ _ _ _ Hle Hat2)|exact Hl| |].
    { apply edited_remove. apply not_elem_of_cons. split; [discriminate|apply not_elem_of_nil]. }
    intros o' s3 Ha Hl' Hd _ Hat3. cbv beta iota. apply HΦ; [done|by eapply removed_complete|done].
Qed.

Lemma wp_finalizerPhase c k Φ q ev o r t s :
  wired c -> at_ q ev (Some o) r t s -> live o ->
  (forall o' s', ready o' -> Meta.ExternalCreateIncomplete o' = Meta.ExternalCreateIncomplete o ->
     at_ q ev (Some o') r t s' -> wp (k o') Φ s') ->
  wp (Worker.finalizerPhase TypeNormal c o k) Φ s.
Proof.
  intros Hc Hat [Hl Hd] HΦ. unfold Worker.finalizerPhase. rewrite Hd.
  cbn [negb]. destruct (Meta.FinalizerExists o Worker.finalizerName) eqn:Ef.
  - apply HΦ; [|done|done]. split; [done|]. unfold Meta.FinalizerExists in Ef.
    apply existsb_exists in Ef as (f & Hf%list_elem_of_In & Ef). bool_to_prop. by subst f.
  - apply wp_bind. eapply (wp_Update ref); [done|exact Hat| | |apply Hl|].
    { rewrite ref_set_finalizers. apply Hl. }
    { apply version_set_finalizers. }
    intros o' s1 Ha Hok Hat1. cbv beta iota.
    assert (Hd' : Meta.WasDeleted o' = false).
    { rewrite <- Hd. unfold Meta.WasDeleted. by rewrite (alike_deletion _ _ Ha), deletion_set_finalizers. }
    assert (Hann : forall k, Meta.annotation o' k = Meta.annotation o k).
    { intros k'. rewrite (alike_annotation _ _ _ Ha). unfold Meta.annotation.
      by rewrite Meta.lookupAnnotation_SetFinalizers. }
    assert (Hl' : live o').
    { apply live_active; [|done| |done].
      - rewrite (alike_ref _ _ Ha), ref_set_finalizers. apply Hl.
      - unfold Meta.IsPaused. rewrite Hann. apply Hl. }
    rewrite <- (alike_collected _ _ Ha), (active_kept _ (proj1 Hl')) in Hat1.
    apply HΦ; [split; [done|]| |done].
    + rewrite (alike_finalizers _ _ Ha), get_set_finalizers. set_solver.
    + unfold Meta.ExternalCreateIncomplete, Meta.GetExternalCreatePending,
        Meta.GetExternalCreateSucceeded, Meta.GetExternalCreateFailed, Meta.annotationTime.
      by rewrite !Hann.
Qed.

(** ** Processing an event *)

(** What the counter of reconciles adds to a trace does not matter. *)
Definition stable (Φ : option error -> St E Q O -> Prop) : Prop :=
  forall err s kind ns ok, Φ err s ->
    Φ err (mkSt (env s) (queue s) (items s) (EReconcileTotal kind ns ok :: trace s)).

Lemma settled_stable q ev t s kind ns ok :
  settled q ev t s -> settled q ev t (mkSt (env s) (queue s) (items s) (EReconcileTotal kind ns ok :: trace s)).
Proof. intros (o & [] & Hr & ?). exists o. split; [by split|done]. Qed.

Lemma reaches_stable q ev t : stable (reaches q ev t).
Proof. intros err s kind ns ok [? Hs]. split; [done|]. by apply settled_stable. Qed.

Lemma observedAs_stable q ev r t : stable (observedAs q ev r t).
Proof.
  intros err s kind ns ok [? [[? Hs]|[? (q' & o & tm & t2 & ? & [] & ?)]]]; (split; [done|]).
  - left. split; [done|]. by apply settled_stable.
  - right. split; [done|]. exists q', o, tm, t2. split; [done|]. by split; [split|].
Qed.

Lemma wp_processItem c evt Φ q ev o r t s :
  wired c -> objectRef evt = ref -> at_ q ev (Some o) r t s -> active o -> decidable o r t -> stable Φ ->
  (Meta.WasDeleted o = true -> Meta.ShouldDelete o = true) ->
  (forall o' s', carried o o' -> (Meta.WasDeleted o = false -> ready o') ->
     Meta.ExternalCreateIncomplete o' = false -> at_ q ev (Some o') r t s' ->
     wp (if String.eqb (eventType evt) Event.Create then Worker.handleCreate TypeNormal c ref
         else if String.eqb (eventType evt) Event.Update then Worker.handleUpdate TypeNormal c ref
         else if String.eqb (eventType evt) Event.Delete then Worker.handleDelete TypeNormal c ref
         else Worker.handleObserve TypeNormal c ref) Φ s') ->
  wp (Worker.processItem TypeNormal c (inl evt)) Φ s.
Proof.
  intros Hc Href Hat Hl Hdec Hstable Hpolicy HΦ. unfold Worker.processItem. rewrite Href.
  apply wp_bind. eapply (wp_fetch ref); [done|exact Hat|]. intros s1 Hat1. cbv beta iota.
  rewrite (active_paused _ Hl). unfold Worker.orphanPhase.
  replace (Meta.WasDeleted o && negb (Meta.ShouldDelete o)) with false
    by (destruct (Meta.WasDeleted o); [by rewrite Hpolicy|done]).
  eapply wp_recoveryPhase; [done|exact Hat1|done|done|]. intros o2 s2 [Hl2 Hd2] Hi2 Hat2.
  assert (Hend : forall o' s', carried o o' -> (Meta.WasDeleted o = false -> ready o') ->
    Meta.ExternalCreateIncomplete o' = false -> at_ q ev (Some o') r t s' ->
    wp (Worker.dispatch TypeNormal c evt) Φ s').
  { intros o' s' Hl' Hr' Hi' Hat'. unfold Worker.dispatch. rewrite Href. apply wp_bind.
    eapply wp_mono; [by eapply HΦ|]. intros err s4 Hs4. apply wp_bind. eexists _, _. split; [done|].
    by apply wp_ret, Hstable. }
  destruct (Meta.WasDeleted o) eqn:Ed.
  - unfold Worker.finalizerPhase. rewrite Hd2. cbn [negb].
    apply (Hend o2 s2); [split; congruence|by intros|done|done].
  - eapply wp_finalizerPhase; [done|exact Hat2|split; congruence|]. intros o3 s3 Hr3 Hi3 Hat3.
    apply (Hend o3 s3); [split; [apply Hr3|]|done|congruence|done]. rewrite (proj2 (proj1 Hr3)). congruence.
Qed.

(** What a live object's event leads to. *)
Lemma wp_processItem_live c evt Φ q ev o r t s :
  wired c -> objectRef evt = ref -> at_ q ev (Some o) r t s -> live o -> decidable o r t -> stable Φ ->
  (forall o' s', ready o' -> Meta.ExternalCreateIncomplete o' = false -> at_ q ev (Some o') r t s' ->
     wp (if String.eqb (eventType evt) Event.Create then Worker.handleCreate TypeNormal c ref
         else if String.eqb (eventType evt) Event.Update then Worker.handleUpdate TypeNormal c ref
         else if String.eqb (eventType evt) Event.Delete then Worker.handleDelete TypeNormal c ref
         else Worker.handleObserve TypeNormal c ref) Φ s') ->
  wp (Worker.processItem TypeNormal c (inl evt)) Φ s.
Proof.
  intros Hc Href Hat [Hl Hd] Hdec Hstable HΦ.
  eapply wp_processItem; [done|done|exact Hat|done|done|done| |intros o' s' _ Hr; by apply HΦ, Hr].
  by rewrite Hd.
Qed.

Lemma wp_process_create c evt q ev o r t s :
  wired c -> objectRef evt = ref -> eventType evt = Event.Create -> at_ q ev (Some o) r t s -> live o ->
  decidable o r t -> wp (Worker.processItem TypeNormal c (inl evt)) (reaches q ev t) s.
Proof.
  intros Hc Href Hty Hat Hl Hdec.
  eapply wp_processItem_live; [done|done|exact Hat|done|done|apply reaches_stable|].
  intros o' s' Hr Hi Hat'. rewrite Hty. by eapply wp_handleCreate.
Qed.

Lemma wp_process_update c evt q ev o r t s :
  wired c -> objectRef evt = ref -> eventType evt = Event.Update -> at_ q ev (Some o) r t s -> live o ->
  decidable o r t -> ResourceExists r = true ->
  wp (Worker.processItem TypeNormal c (inl evt)) (reaches q ev t) s.
Proof.
  intros Hc Href Hty Hat Hl Hdec Hex.
  eapply wp_processItem_live; [done|done|exact Hat|done|done|apply reaches_stable|].
  intros o' s' Hr Hi Hat'. rewrite Hty. by eapply wp_handleUpdate.
Qed.

Lemma wp_process_observe c evt q ev o r t s :
  wired c -> qOk q -> objectRef evt = ref -> eventType evt <> Event.Create ->
  eventType evt <> Event.Update -> eventType evt <> Event.Delete -> at_ q ev (Some o) r t s -> live o ->
  decidable o r t -> wp (Worker.processItem TypeNormal c (inl evt)) (observedAs q ev r t) s.
Proof.
  intros Hc Hq Href Hcr Hu Hd Hat Hl Hdec.
  eapply wp_processItem_live; [done|done|exact Hat|done|done|apply observedAs_stable|].
  intros o' s' Hr Hi Hat'. apply String.eqb_neq in Hcr as ->, Hu as ->, Hd as ->.
  by eapply wp_handleObserve.
Qed.

(** The event that follows an observation leads to the goal. *)
Lemma wp_process_next c q ev o r t tm s :
  wired c -> at_ q ev (Some o) r t s -> ready o -> Meta.ExternalCreateIncomplete o = false ->
  wp (Worker.processItem TypeNormal c (next r tm)) (reaches q ev t) s.
Proof.
  intros Hc Hat [Hl _] Hi. assert (Hdec : decidable o r t) by (intros E'; by rewrite Hi in E').
  unfold next, nextEvent. destruct (ResourceExists r) eqn:Ex;
    [by eapply wp_process_update|by eapply wp_process_create].
Qed.

(** ** The events a first event leads to *)

(** What the processing between two states added to the queue. *)
Definition added s s' : enq :=
  firstn (length (enqueued (trace s')) - length (enqueued (trace s))) (enqueued (trace s')).

(** Processes an event, then the one that was queued by that, and so on; true when the last one queued
    none and each was processed without error. *)
Fixpoint drive (fuel : nat) c (evt : Event.Event) s : St E Q O * outcome bool :=
  match fuel with
  | 0%nat => (s, Ret false)
  | S fuel =>
    match Worker.processItem TypeNormal c (inl evt) s with
    | (s', Ret None) =>
      match added s s' with
      | [] => (s', Ret true)
      | [(_, inl evt')] => drive fuel c evt' s'
      | _ => (s', Ret false)
      end
    | (s', Ret (Some _)) => (s', Ret false)
    | (s', Panic why) => (s', Panic why)
    end
  end.

(** The end that is wanted, seen in the cluster. *)
Definition converged (e : E) : Prop := exists o, storedObject e = Some o /\
  resource e = inSync /\ ready o /\ Meta.ExternalCreateIncomplete o = false /\ synced o.

Lemma settled_converged q ev t s : settled q ev t s -> converged (env s).
Proof. intros (o & [_ _ Ho Hr _] & ?). by exists o. Qed.

Lemma drive_settles fuel c evt s q t :
  wp (Worker.processItem TypeNormal c (inl evt)) (reaches q (enqueued (trace s)) t) s ->
  exists s', drive (S fuel) c evt s = (s', Ret true) /\ converged (env s').
Proof.
  intros (err & s' & Ep & -> & Hs). exists s'. split; [|by eapply settled_converged].
  cbn [drive]. rewrite Ep. destruct Hs as (o & Hat & _). unfold added.
  by rewrite (at_enqueued _ _ _ _ _ _ Hat), Nat.sub_diag.
Qed.

Lemma drive_next fuel c evt s s' opts evt' :
  Worker.processItem TypeNormal c (inl evt) s = (s', Ret None) ->
  enqueued (trace s') = (opts, inl evt') :: enqueued (trace s) ->
  drive (S fuel) c evt s = drive fuel c evt' s'.
Proof.
  intros Ep Eq. cbn [drive]. rewrite Ep. unfold added. rewrite Eq. cbn [length].
  by rewrite Nat.sub_succ_l, Nat.sub_diag by done.
Qed.

Lemma start_at s :
  at_ (queue s) (enqueued (trace s)) (storedObject (env s)) (resource (env s)) (lastTime (env s)) s.
Proof. by split. Qed.

(** In a cooperative cluster a live object converges, whatever its marks, its finalizers and the state of
    the external resource: the given event, unless it is an update or a deletion, and at most one that
    its processing queues, leave an external resource that exists and is up to date, the finalizer, a
    completed handshake and a status that says so, without an error or a panic. *)
Theorem converges c evt o s :
  wired c -> qOk (queue s) -> objectRef evt = ref ->
  eventType evt <> Event.Update -> eventType evt <> Event.Delete ->
  storedObject (env s) = Some o -> live o -> decidable o (resource (env s)) (lastTime (env s)) ->
  exists s', drive 2 c evt s = (s', Ret true) /\ converged (env s').
Proof.
  intros Hc Hq Href Hu Hd Ho Hl Hdec. pose proof (start_at s) as Hat. rewrite Ho in Hat.
  destruct (decide (eventType evt = Event.Create)) as [Ety|Ety].
  { apply (drive_settles 1 c evt s (queue s) (lastTime (env s))). by eapply wp_process_create. }
  destruct (wp_process_observe c evt _ _ _ _ _ _ Hc Hq Href Ety Hu Hd Hat Hl Hdec)
    as (err & s1 & Ep & -> & [[Hr Hs]|(Hr & q' & o' & tm & t2 & _ & Hat1 & Hready & Hi)]).
  - apply (drive_settles 1 c evt s (queue s) (lastTime (env s))). exists None, s1. by split_and!.
  - rewrite (drive_next 1 c evt s s1 _ _ Ep (at_enqueued _ _ _ _ _ _ Hat1)).
    rewrite <- (at_enqueued _ _ _ _ _ _ Hat1) in Hat1.
    apply (drive_settles 0 c _ s1 q' (lastTime (env s))). by eapply wp_process_next.
Qed.

End Run.
End Convergence.
