(* ===== verification/Deletion.v ===== *)
(** * Deletion

    The other end of an object's life in surroundings that cooperate (file Cooperation): the event of its
    deletion removes the external resource and then all finalizers, so the API server lets go of the
    object; and nothing is done for an object that is gone. *)

From S2P Require Import Prelude GoTime Errors Meta Event PriorityQueue QueueInstr QueueLaws.
From S2P Require Import Conditions Runtime Worker Cooperation Convergence.
Import GoTime Errors Event Runtime Unstructured Cooperation Convergence.

Module Deletion.

Section Run.
Context {E O GVR Q : Type} `{!MetaObject O, !MetaObjectLaws O} `{!UnstructuredObject O}
  `{!UnstructuredLaws O} `{!ObjectLaws O} `{!World E O GVR} `{!ClusterView E O}
  `{!WorkQueue anyObj Q, !QueueSafe anyObj Q}.
Context (ref : ObjectRef) `{!Cooperative E O GVR ref}.
Context (TypeNormal : string).
Implicit Types (c : ControllerT GVR) (o el : O) (so : option O) (s : St E Q O) (r : ExternalObservation).
#[local] Abbreviation M := (M E Q O).
#[local] Abbreviation enq := (list (PriorityQueue.AddOpts * anyObj)).

(** A deleted object whose external resource is to be deleted too, as its policy says. *)
Record leaving o : Prop := mkLeaving {
  leaving_active : active ref o;
  leaving_deleted : Meta.WasDeleted o = true;
  leaving_policy : Meta.ShouldDelete o = true
}.

(** Object and external resource are gone, and nothing was queued. *)
Definition goneAt (q : Q) (ev : enq) (t : Z) (err : option error) s : Prop :=
  err = None /\ at_ q ev None absent t s.

Lemma collected_emptied el : Meta.WasDeleted el = true -> collected (SetFinalizers el []) = true.
Proof.
  unfold collected, noFinalizers, Meta.WasDeleted. by rewrite deletion_set_finalizers, get_set_finalizers, andb_true_r.
Qed.

Lemma wp_handleDelete c q ev o r t s :
  wired c -> at_ q ev (Some o) r t s -> active ref o -> Meta.WasDeleted o = true ->
  wp (Worker.handleDelete TypeNormal c ref) (goneAt q ev t) s.
Proof.
  intros Hc Hat Hl Hd. unfold Worker.handleDelete. rewrite (proj2 (proj2 Hc)). cbn [negb].
  eapply (wp_fetched ref); [done|exact Hat|]. intros s1 Hat1.
  apply wp_bind. eapply (wp_now ref); [exact Hat1|]. intros t2 s2 _ Hle Hat2.
  apply (at_earlier _ _ _ _ _ _ _ Hle) in Hat2.
  apply wp_bind. eapply (wp_ExtDelete ref); [exact Hat2|apply Hl|]. intros el' s3 Hat3. cbv beta iota.
  apply wp_bind. eapply (wp_recordTimed ref); [exact Hat3|]. intros s4 Hat4.
  eapply (wp_fetched ref); [done|exact Hat4|]. intros s5 Hat5.
  eapply (wp_publish ref);
    [done|exact Hat5|apply Hl|done|apply Hl|discriminate|by repeat constructor|].
  intros o1 cs conds s6 Ha Hok _ _ Hat6. unfold Worker.updated.
  apply wp_bind. eapply (wp_Update ref); [done|exact Hat6| |apply version_set_finalizers|done|].
  { rewrite ref_set_finalizers, (alike_ref _ _ Ha). apply Hl. }
  intros o2 s7 _ _ Hat7. cbv beta iota. rewrite collected_emptied in Hat7; cycle 1.
  { unfold Meta.WasDeleted. by rewrite (alike_deletion _ _ Ha). }
  eapply wp_mono; [eapply (wp_finish TypeNormal); exact Hat7|]. intros err s8 [-> Hat8].
  done.
Qed.

Lemma goneAt_stable q ev t : stable (goneAt q ev t).
Proof. intros err s kind ns ok [? []]. split; [done|]. by split. Qed.

Lemma wp_process_delete c evt q ev o r t s :
  wired c -> objectRef evt = ref -> eventType evt = Event.Delete -> at_ q ev (Some o) r t s ->
  leaving o -> decidable o r t ->
  wp (Worker.processItem TypeNormal c (inl evt)) (goneAt q ev t) s.
Proof.
  intros Hc Href Hty Hat [Hl Hd Hp] Hdec.
  eapply (wp_processItem ref); [done|done|exact Hat|done|done|apply goneAt_stable|done|].
  intros o' s' [Hl' Hd'] _ _ Hat'. rewrite Hty. eapply wp_handleDelete; [done|exact Hat'|done|congruence].
Qed.

(** An event of an object that is gone: whatever it asks for, nothing is done. *)
Lemma wp_process_gone c evt q ev r t s :
  wired c -> objectRef evt = ref -> at_ q ev None r t s ->
  wp (Worker.processItem TypeNormal c (inl evt)) (fun err s' => err = None /\ at_ q ev None r t s') s.
Proof.
  intros (_ & Hd & _) Href Hat. unfold Worker.processItem, fetch. rewrite Href, Hd. cbn [negb].
  apply wp_bind, wp_bind. eapply (wp_now ref); [exact Hat|]. intros t0 s1 _ Hle Hat1.
  apply (at_earlier _ _ _ _ _ t) in Hat1; [|done].
  destruct (coop_get (ref := ref) (gvr c) (env s1)) as [Hquiet Eg].
  rewrite (at_stored _ _ _ _ _ _ Hat1) in Eg. destruct Eg as [err Eg].
  apply wp_bind. eapply wp_quiet; [exact Hat1|exact Hquiet|]. intros s2 Hat2. rewrite Eg.
  apply wp_bind. eapply wp_emit; [exact Hat2|done|]. intros s3 Hat3. cbn [leftOf].
  apply wp_bind. eapply (wp_recordTimed ref); [exact Hat3|]. intros s4 Hat4.
  by apply wp_ret, wp_ret.
Qed.

(** What the cluster looks like in the end. *)
Definition removed (e : E) : Prop := storedObject e = None /\ resource e = absent.

End Run.
End Deletion.
