(* ===== verification/Controller.v ===== *)
(** * pkg/controller/controller.go: options, informer handlers and shutdown

    [Options.validate] and [New], the three handlers of the informer, which classify a change of a
    managed resource and queue an event for it, and the drain at the end of [Run].  The informer
    calls its handlers one after the other; each is a program over the state shared with the workers.
    apimachinery's [NestedMap] of the spec and go-cmp's [Diff] are parameters. *)

From S2P Require Import Prelude GoTime Errors Meta Event PriorityQueue QueueInstr Conditions.
From S2P Require Import Runtime Worker.
Import GoTime Errors Event Runtime.

Module Controller.

(** ** Options *)

Definition defaultGracefulShutdownPeriod : Z := 30 * Second.

(** A pointer or interface field as whether it is set; [None]: a nil timeout. *)
Record Options : Type := mkOptions {
  oClient : bool;
  oGVREmpty : bool;
  oRecorder : bool;
  oThrottledRecorder : bool;
  oLogger : bool;
  oPluralizer : bool;
  oGlobalRateLimiter : bool;
  oResyncInterval : Z;
  oMaxRetries : Z;
  oMetrics : bool;
  oGracefulShutdownTimeout : option Z
}.

Definition validate (o : Options) : option error :=
  if negb (oClient o) then Some (New "client is required") else
  if oGVREmpty o then Some (New "GVR is required") else
  if negb (oRecorder o) then Some (New "recorder is required") else
  if negb (oLogger o) then Some (New "logger is required") else
  if negb (oPluralizer o) then Some (New "pluralizer is required") else
  if negb (oGlobalRateLimiter o) then Some (New "global rate limiter is required") else
  if oResyncInterval o <=? 0 then Some (New "resync interval must be greater than 0") else
  if oMaxRetries o <? 0 then Some (New "max retries must be greater than or equal to 0") else
  None.

(** What [New] decides before it builds anything else: an error is logged with the given logger; the
    list watcher is created with [lwErr]. *)
Definition NewController (o : Options) (lwErr : option error) : outcome (error + Z) :=
  match validate o with
  | Some err =>
    if oLogger o then Ret (inl (errorfW "invalid controller options" err))
    else Panic "invalid memory address or nil pointer dereference"
  | None =>
    match lwErr with
    | Some err => Ret (inl (errorfW "failed to create listwatcher" err))
    | None => Ret (inr (default defaultGracefulShutdownPeriod (oGracefulShutdownTimeout o)))
    end
  end.

(** ** The informer's handlers *)

(** What a handler is given. *)
Inductive resource (O : Type) : Type :=
| RUnstructured (el : O)
| RTombstone (obj : option O)   (* DeletedFinalStateUnknown; None: not an unstructured object *)
| ROther.
Arguments RUnstructured {O} el.
Arguments RTombstone {O} obj.
Arguments ROther {O}.

Section Informer.
Context {E O GVR Q : Type} `{MetaObject O} `{UnstructuredObject O} `{World E O GVR}
  `{WorkQueue anyObj Q}.
Context {Spec : Type} (NestedSpec : O -> error + option Spec)
  (cmpDiff : option Spec -> option Spec -> string).
Context (sum64 : string -> Z).
Context (actionsEvent : ActionsEvent) (watchAnnotations : AnnotationEvents).
Implicit Types (el : O).
#[local] Abbreviation M := (M E Q O).

(** An event for an object, queued now. *)
Definition eventFor (t : EventType) el : M Event.Event :=
  q ← now; mret (mkEvent t (Worker.refOf el) q).

(** [items.LoadOrStore] *)
Definition loadOrStore (dig : string) : M bool :=
  loaded ← itemsHas dig;
  if (loaded : bool) then mret true else itemsStore dig;; mret false.

Definition addToQueue (priority : Z) (item : Event.Event) : M () :=
  enqueue (PriorityQueue.mkAddOpts 0 false priority) (inl item).

(** The event is queued unless its digest is in [items] already. *)
Definition addOnce (priority : Z) (item : Event.Event) : M () :=
  loaded ← loadOrStore (DigestForEvent sum64 item);
  if (loaded : bool) then mret tt else addToQueue priority item.

Definition hasAnnotation el (k : string) : bool :=
  bool_decide (is_Some (Meta.lookupAnnotation el k)).

(** The priority of a new object: lower when an external create was attempted for it. *)
Definition addPriority el : Z :=
  if hasAnnotation el Meta.AnnotationKeyExternalCreateFailed
     || hasAnnotation el Meta.AnnotationKeyExternalCreatePending
     || hasAnnotation el Meta.AnnotationKeyExternalCreateSucceeded
  then Worker.LowPriority else Worker.NormalPriority.

Definition AddFunc (obj : resource O) : M () :=
  match obj with
  | RUnstructured el =>
    item ← eventFor (GetEventType actionsEvent CRCreated) el;
    addOnce (addPriority el) item
  | _ => mret tt
  end.

(** Whether an annotation rule fires for the change from [old] to [new]. *)
Definition triggers (rule : AnnotationEvent) (old new : O) : bool :=
  let oldValue := Meta.lookupAnnotation old (aeAnnotation rule) in
  let newValue := Meta.lookupAnnotation new (aeAnnotation rule) in
  let oldExists := bool_decide (is_Some oldValue) in
  let newExists := bool_decide (is_Some newValue) in
  let deletedCondition := negb newExists && oldExists in
  let createdCondition := newExists && negb oldExists in
  let changedCondition := oldExists && newExists &&
    negb (String.eqb (default EmptyString oldValue) (default EmptyString newValue)) in
  let anyConditions := deletedCondition || createdCondition || changedCondition in
  let action := aeOnAction rule in
  (String.eqb action OnDelete && deletedCondition) ||
  (String.eqb action OnCreate && createdCondition) ||
  (String.eqb action OnChange && changedCondition) ||
  (String.eqb action OnAny && anyConditions).

(** The loop over the rules: the first that fires queues its event; true when one did. *)
Fixpoint watchLoop (rules : AnnotationEvents) (old new : O) : M bool :=
  match rules with
  | [] => mret false
  | rule :: rules =>
    if triggers rule old new then
      item ← eventFor (aeEventType rule) new;
      addToQueue Worker.NormalPriority item;; mret true
    else watchLoop rules old new
  end.

(** The comparison of the specs and resource versions, when no rule fired. *)
Definition compareVersions (old new : O) : M () :=
  match NestedSpec new with
  | inl _ => mret tt
  | inr newSpec =>
    match NestedSpec old with
    | inl _ => mret tt
    | inr oldSpec =>
      if (0 <? Z.of_nat (String.length (cmpDiff newSpec oldSpec))) then
        item ← eventFor (GetEventType actionsEvent CRUpdated) new;
        addOnce Worker.HighPriority item
      else if String.eqb (GetResourceVersion old) (GetResourceVersion new) then
        item ← eventFor (GetEventType actionsEvent CRObserved) new;
        addOnce Worker.LowPriority item
      else mret tt
    end
  end.

Definition UpdateFunc (old new : resource O) : M () :=
  match old, new with
  | RUnstructured oldUns, RUnstructured newUns =>
    if Meta.WasDeleted newUns then
      item ← eventFor (GetEventType actionsEvent CRDeleted) newUns;
      addOnce Worker.HighPriority item
    else
      fired ← watchLoop watchAnnotations oldUns newUns;
      if (fired : bool) then mret tt else compareVersions oldUns newUns
  | _, _ => mret tt
  end.

(** The object of a deletion notice, also from a tombstone. *)
Definition deletedObject (obj : resource O) : option O :=
  match obj with RUnstructured el => Some el | RTombstone o => o | ROther => None end.

Definition DeleteFunc (obj : resource O) : M () :=
  match deletedObject obj with
  | None => mret tt
  | Some el =>
    match GetDeletionTimestamp el with
    | None => mret tt
    | Some _ =>
      item ← eventFor (GetEventType actionsEvent CRDeleted) el;
      addToQueue Worker.HighPriority item
    end
  end.

End Informer.

(** ** The drain of [Run]

    Its timing when goroutines run as soon as they can; file Shutdown has its steps.  After the context is
    cancelled the queue is shut down and the workers finish after [drained] nanoseconds, if they do.
    The result is when [Run] returns, if it does, and whether the context of the reconciles is
    cancelled before they have finished. *)
Inductive drain (timeout : Z) (drained : option Z) : option Z -> bool -> Prop :=
| drain_disabled : timeout = 0 -> drain timeout drained (Some 0) true
| drain_forever : timeout < 0 -> drain timeout drained drained false
| drain_in_time d :
    0 < timeout -> drained = Some d -> d <= timeout -> drain timeout drained (Some d) false
| drain_expired :
    0 < timeout -> (forall d, drained = Some d -> timeout <= d) ->
    drain timeout drained (Some timeout) true.

End Controller.
