(* ===== verification/ControllerFacts.v ===== *)
(** * The informer's handlers: what they queue

    Which event a change of a managed resource leads to, and when none: the table of the annotation
    rules, the precedence of deletion, the de-duplication by digest, and that the controller's own
    writes queue nothing.  Also the validation of the options and the drain. *)

From S2P Require Import Prelude GoTime Errors Meta Event PriorityQueue QueueInstr QueueLaws.
From S2P Require Import Conditions Runtime Worker WorkerFacts Controller.
Import GoTime Errors Event Runtime WorkerFacts Controller.

Module ControllerFacts.

Section Facts.
Context {E O GVR Q : Type} `{!MetaObject O, !MetaObjectLaws O} `{!UnstructuredObject O}
  `{!World E O GVR} `{!WorkQueue anyObj Q}.
Context (sum64 : string -> Z).
Context (actionsEvent : ActionsEvent).
Implicit Types (el : O) (s : St E Q O).

#[local] Abbreviation onAdd := (AddFunc sum64 actionsEvent).

(** ** Annotation rules *)

(** The change a rule is about, as the old and the new value of its annotation. *)
Definition changes (rule : AnnotationEvent) (old new : O) : option string * option string :=
  (Meta.lookupAnnotation old (aeAnnotation rule), Meta.lookupAnnotation new (aeAnnotation rule)).

(** A rule fires exactly on the change its action names: a value that appears, disappears or is
    replaced by another one, or any of these; a rule with another action never fires. *)
Theorem triggers_spec rule (old new : O) :
  triggers rule old new = true <->
  match changes rule old new with
  | (Some _, None) => aeOnAction rule = OnDelete \/ aeOnAction rule = OnAny
  | (None, Some _) => aeOnAction rule = OnCreate \/ aeOnAction rule = OnAny
  | (Some v, Some v') => v <> v' /\ (aeOnAction rule = OnChange \/ aeOnAction rule = OnAny)
  | (None, None) => False
  end.
Proof using Type.
  clear sum64. unfold triggers, changes.
  destruct (Meta.lookupAnnotation old _) as [v|], (Meta.lookupAnnotation new _) as [v'|];
    rewrite ?(bool_decide_true (is_Some (Some _))), ?(bool_decide_false (is_Some None))
      by (eauto || by intros []); cbn [negb andb orb default];
    rewrite ?orb_true_iff, ?andb_true_iff, ?negb_true_iff, ?String.eqb_eq, ?String.eqb_neq;
    intuition (try done).
Qed.

Lemma triggers_same rule (old new : O) :
  Meta.lookupAnnotation new (aeAnnotation rule) = Meta.lookupAnnotation old (aeAnnotation rule) ->
  triggers rule old new = false.
Proof.
  intros Es. unfold triggers. rewrite Es. destruct (Meta.lookupAnnotation old _) as [v|];
    rewrite ?(bool_decide_true (is_Some (Some _))), ?(bool_decide_false (is_Some None))
      by (eauto || by intros []); cbn [negb andb orb default];
    rewrite ?String.eqb_refl, ?andb_false_r; done.
Qed.

Lemma watchLoop_quiet rules (old new : O) s :
  (forall rule, rule ∈ rules -> triggers rule old new = false) ->
  watchLoop (E := E) (Q := Q) rules old new s = (s, Ret false).
Proof.
  induction rules as [|rule rules IH]; intros Hr; [done|]. cbn [watchLoop].
  rewrite Hr by (by left). apply IH. intros r ?. apply Hr. by right.
Qed.

(** ** De-duplication *)

(** What a handler does that wants one event of type [t] for [el] at [priority]. *)
Definition wants (t : EventType) (el : O) (priority : Z) s (r : St E Q O * outcome ()) : Prop :=
  let dig := DigestForEvent sum64 (mkEvent t (Worker.refOf el) zeroTime) in
  exists s', r = (s', Ret tt) /\ dig ∈ items s' /\
    if bool_decide (dig ∈ items s) then trace s' = trace s /\ queue s' = queue s /\ items s' = items s
    else exists q, trace s' = EEnqueue (PriorityQueue.mkAddOpts 0 false priority)
                                (inl (mkEvent t (Worker.refOf el) q)) :: EItemsStore dig :: trace s /\
                   items s' = {[ dig ]} ∪ items s.

Lemma eventFor_run t el s :
  eventFor t el s = (mkSt (wNow (env s)).2 (queue s) (items s) (trace s),
                     Ret (mkEvent t (Worker.refOf el) (wNow (env s)).1)).
Proof. unfold eventFor. by rewrite (M_bind_ret now _ _ _ _ (lift_run wNow _)). Qed.

Lemma enqueue_run `{!QueueSafe anyObj Q} opts k s :
  qOk (queue s) -> exists q, enqueue opts k s =
    (mkSt (wNow (env s)).2 q (items s) (EEnqueue opts k :: trace s), Ret tt).
Proof.
  intros Hq. unfold enqueue. rewrite (M_bind_ret now _ _ _ _ (lift_run wNow _)).
  unfold mbind, M_bind, emit, onQueue. cbn [env queue items trace].
  destruct (qAdd_returns (wNow (env s)).1 opts k (queue s) Hq) as (q & ->). by exists q.
Qed.

Lemma addOnce_wants `{!QueueSafe anyObj Q} t el p s :
  qOk (queue s) ->
  wants t el p s ((item ← eventFor t el; addOnce sum64 p item) s).
Proof.
  intros Hq. rewrite (M_bind_ret _ _ _ _ _ (eventFor_run t el s)).
  unfold wants, addOnce, loadOrStore.
  set (s1 := mkSt (wNow (env s)).2 (queue s) (items s) (trace s)).
  set (item := mkEvent t (Worker.refOf el) (wNow (env s)).1).
  change (DigestForEvent sum64 (mkEvent t (Worker.refOf el) zeroTime))
    with (DigestForEvent sum64 item).
  set (dig := DigestForEvent sum64 item).
  destruct (decide (dig ∈ items s)) as [Hin|Hin].
  - rewrite (M_bind_ret (loaded ← itemsHas dig; _) _ s1 s1 true).
    2: { rewrite (M_bind_ret (itemsHas dig) _ s1 s1 true); [done|].
         unfold itemsHas. cbn [items s1]. by rewrite bool_decide_true. }
    exists s1. rewrite bool_decide_true by done. by split_and!.
  - rewrite (M_bind_ret (loaded ← itemsHas dig; _) _ s1
      (mkSt (env s1) (queue s1) ({[ dig ]} ∪ items s1) (EItemsStore dig :: trace s1)) false).
    2: { rewrite (M_bind_ret (itemsHas dig) _ s1 s1 false).
         - by rewrite (M_bind_ret _ _ _ _ _ (itemsStore_run dig s1)).
         - unfold itemsHas. cbn [items s1]. by rewrite bool_decide_false. }
    cbn iota. unfold addToQueue. match goal with |- context [enqueue ?o ?k ?s2] =>
      destruct (enqueue_run o k s2 Hq) as (q & ->) end.
    eexists. split; [done|]. cbn [items trace]. split; [set_solver|].
    rewrite bool_decide_false by done. by eexists.
Qed.

(** A new object is observed once, at a priority that is low when an external create was attempted for
    it before; while the digest of that event is in [items], a second notice of the object queues
    nothing. *)
Theorem AddFunc_once `{!QueueSafe anyObj Q} el s :
  qOk (queue s) ->
  wants (GetEventType actionsEvent CRCreated) el
    (match Meta.lookupAnnotation el Meta.AnnotationKeyExternalCreateFailed,
           Meta.lookupAnnotation el Meta.AnnotationKeyExternalCreatePending,
           Meta.lookupAnnotation el Meta.AnnotationKeyExternalCreateSucceeded with
     | None, None, None => Worker.NormalPriority
     | _, _, _ => Worker.LowPriority
     end)
    s (onAdd (RUnstructured el) s) /\
  forall s1, onAdd (RUnstructured el) s = (s1, Ret tt) -> forall el' s2,
    Worker.refOf el' = Worker.refOf el -> items s1 ⊆ items s2 -> qOk (queue s2) ->
    exists s3, onAdd (RUnstructured el') s2 = (s3, Ret tt) /\
      trace s3 = trace s2 /\ queue s3 = queue s2 /\ items s3 = items s2.
Proof.
  intros Hq. split.
  - match goal with |- wants _ _ ?p _ _ => assert (Hp : addPriority el = p) end.
    { unfold addPriority, hasAnnotation.
      destruct (Meta.lookupAnnotation el Meta.AnnotationKeyExternalCreateFailed),
        (Meta.lookupAnnotation el Meta.AnnotationKeyExternalCreatePending),
        (Meta.lookupAnnotation el Meta.AnnotationKeyExternalCreateSucceeded);
        rewrite ?(bool_decide_true (is_Some (Some _))), ?(bool_decide_false (is_Some None))
          by (eauto || by intros []); done. }
    rewrite <- Hp. by apply addOnce_wants.
  - intros s1 E1 el' s2 Eref Hsub Hq2.
    destruct (addOnce_wants (GetEventType actionsEvent CRCreated) el (addPriority el) s Hq)
      as (s1' & E1' & Hin & _).
    change (onAdd (RUnstructured el) s = (s1', Ret tt)) in E1'. rewrite E1 in E1'.
    injection E1' as <-.
    destruct (addOnce_wants (GetEventType actionsEvent CRCreated) el' (addPriority el') s2 Hq2)
      as (s3 & E3 & _ & Hw).
    rewrite Eref, bool_decide_true in Hw by (by apply Hsub). exists s3. by split.
Qed.

(** ** Updates *)

Context {Spec : Type} (NestedSpec : O -> error + option Spec)
  (cmpDiff : option Spec -> option Spec -> string).
Context (watchAnnotations : AnnotationEvents).
#[local] Abbreviation onUpdate :=
  (UpdateFunc NestedSpec cmpDiff sum64 actionsEvent watchAnnotations).

(** C24. A write that leaves the spec and the watched annotations of an object that is not being
    deleted as they are, as the writes of the worker to the status, the finalizers and the create
    marks do if no mark is watched, is ignored by the informer: it changes the resource version, and nothing is queued
    or remembered. (A write to an object that is being deleted queues its deletion again.) *)
Theorem own_writes_ignored old new so sn s :
  Meta.WasDeleted new = false ->
  (forall rule, rule ∈ watchAnnotations ->
     Meta.lookupAnnotation new (aeAnnotation rule) = Meta.lookupAnnotation old (aeAnnotation rule)) ->
  NestedSpec new = inr sn -> NestedSpec old = inr so -> cmpDiff sn so = EmptyString ->
  GetResourceVersion old <> GetResourceVersion new ->
  onUpdate (RUnstructured old) (RUnstructured new) s = (s, Ret tt).
Proof.
  intros Hd Hw Hn Ho Hdiff Hrv. unfold UpdateFunc. rewrite Hd.
  rewrite (M_bind_ret _ _ _ _ _ (watchLoop_quiet watchAnnotations old new s ltac:(
    intros rule Hr; by apply triggers_same, Hw))).
  unfold compareVersions. rewrite Hn, Ho, Hdiff. simpl.
  by rewrite (proj2 (String.eqb_neq _ _)).
Qed.

(** Deletion comes first: an update of an object that is being deleted queues its deletion, once and at
    high priority, whatever else changed. *)
Theorem UpdateFunc_deletion `{!QueueSafe anyObj Q} old new s :
  qOk (queue s) -> Meta.WasDeleted new = true ->
  wants (GetEventType actionsEvent CRDeleted) new Worker.HighPriority s
    (onUpdate (RUnstructured old) (RUnstructured new) s).
Proof. intros Hq Hd. unfold UpdateFunc. rewrite Hd. by apply addOnce_wants. Qed.

(** A change of the spec, when no annotation rule fires, queues an update once, at high priority; an
    update that changes nothing (a resync) queues an observation once, at low priority. *)
Theorem UpdateFunc_compare `{!QueueSafe anyObj Q} old new so sn s :
  qOk (queue s) -> Meta.WasDeleted new = false ->
  (forall rule, rule ∈ watchAnnotations -> triggers rule old new = false) ->
  NestedSpec new = inr sn -> NestedSpec old = inr so ->
  (cmpDiff sn so <> EmptyString ->
   wants (GetEventType actionsEvent CRUpdated) new Worker.HighPriority s
     (onUpdate (RUnstructured old) (RUnstructured new) s)) /\
  (cmpDiff sn so = EmptyString -> GetResourceVersion old = GetResourceVersion new ->
   wants (GetEventType actionsEvent CRObserved) new Worker.LowPriority s
     (onUpdate (RUnstructured old) (RUnstructured new) s)).
Proof.
  intros Hq Hd Hw Hn Ho. unfold UpdateFunc. rewrite Hd.
  rewrite !(M_bind_ret _ _ _ _ _ (watchLoop_quiet watchAnnotations old new s Hw)).
  unfold compareVersions. rewrite Hn, Ho. split.
  - intros Hdiff. destruct (cmpDiff sn so) as [|ch str]; [done|].
    cbn [String.length]. rewrite (proj2 (Z.ltb_lt _ _)) by lia. by apply addOnce_wants.
  - intros -> ->. simpl. rewrite String.eqb_refl. by apply addOnce_wants.
Qed.

(** The event of an annotation rule goes to the queue also when its digest is in [items], and leaves no
    digest there: the same object can be queued any number of times this way. *)
Theorem watched_annotation_not_deduplicated `{!QueueSafe anyObj Q} old new rules1 rule rules2 s :
  qOk (queue s) -> Meta.WasDeleted new = false -> watchAnnotations = rules1 ++ rule :: rules2 ->
  (forall r, r ∈ rules1 -> triggers r old new = false) -> triggers rule old new = true ->
  exists s' q, onUpdate (RUnstructured old) (RUnstructured new) s = (s', Ret tt) /\
    trace s' = EEnqueue (PriorityQueue.mkAddOpts 0 false Worker.NormalPriority)
                 (inl (mkEvent (aeEventType rule) (Worker.refOf new) q)) :: trace s /\
    items s' = items s.
Proof.
  intros Hq Hd Hrules Hquiet Hfire. unfold UpdateFunc. rewrite Hd, Hrules.
  assert (Hloop : exists q t, watchLoop (E := E) (Q := Q) (rules1 ++ rule :: rules2) old new s =
    (mkSt (wNow (wNow (env s)).2).2 q (items s)
       (EEnqueue (PriorityQueue.mkAddOpts 0 false Worker.NormalPriority)
         (inl (mkEvent (aeEventType rule) (Worker.refOf new) t)) :: trace s), Ret true)).
  { clear Hrules. induction rules1 as [|r rules1 IH]; cbn [app watchLoop].
    - rewrite Hfire. rewrite (M_bind_ret _ _ _ _ _ (eventFor_run _ new s)). unfold addToQueue.
      match goal with |- context [(enqueue ?o ?k ≫= _) ?s2] =>
        destruct (enqueue_run o k s2 Hq) as (q & Ee) end.
      rewrite (M_bind_ret _ _ _ _ _ Ee). by eexists _, _.
    - rewrite Hquiet by (by left). apply IH. intros r' ?. apply Hquiet. by right. }
  destruct Hloop as (q & t & El). rewrite (M_bind_ret _ _ _ _ _ El). by eexists _, t.
Qed.

End Facts.

(** ** Options and shutdown *)

(** Options are accepted exactly when everything [validate] asks for is there. *)
Theorem validate_spec o :
  validate o = None <->
  oClient o = true /\ oGVREmpty o = false /\ oRecorder o = true /\ oLogger o = true /\
  oPluralizer o = true /\ oGlobalRateLimiter o = true /\ 0 < oResyncInterval o /\
  0 <= oMaxRetries o.
Proof.
  unfold validate. destruct (oClient o), (oGVREmpty o), (oRecorder o), (oLogger o), (oPluralizer o),
    (oGlobalRateLimiter o), (oResyncInterval o <=? 0) eqn:E1, (oMaxRetries o <? 0) eqn:E2;
    bool_to_prop; simpl; (split; [try done|]); intuition (try done); lia.
Qed.

(** Options without a logger are refused by [validate], and [New] panics on reporting that. *)
Theorem nil_logger_panics o lwErr :
  oLogger o = false -> is_panic (NewController o lwErr) = true.
Proof.
  intros Hl. unfold NewController. destruct (validate o) as [err|] eqn:Ev; [by rewrite Hl|].
  apply validate_spec in Ev. rewrite Hl in Ev. naive_solver.
Qed.

(** The drain: with a timeout that is not negative, Run returns within it; reconciles that finish
    before a positive timeout, or under a negative one, are not cancelled, and Run returns when they
    have finished. *)
Theorem drain_bounds timeout drained r cancelled :
  drain timeout drained r cancelled ->
  (0 <= timeout -> exists t, r = Some t /\ t <= timeout) /\
  (forall d, drained = Some d -> timeout < 0 \/ d < timeout -> timeout <> 0 ->
   cancelled = false /\ r = Some d).
Proof.
  intros [Ht|Ht|d Ht Hd Hle|Ht Hd]; (split; [intros; try lia; eexists; (split; [done|lia])|]);
    intros d'; intros; simplify_eq; try lia; try done.
  specialize (Hd d' eq_refl). lia.
Qed.

End ControllerFacts.
