(* ===== verification/Logging.v ===== *)
(** * pkg/logging: loggers and handlers

    The three implementations of the [Logger] interface over their backends, which are given by what they
    are called with; slog's [Handler] as an interface, with the handler that adds the OpenTelemetry fields
    to a record, the one that sends a record to several handlers, and slog's own JSON handler under them,
    up to the encoding of a line. *)

From S2P Require Import Prelude GoTime Errors.
Import GoTime Errors.

Module Logging.

(** ** Levels *)

(** slog's levels are integers. *)
Definition LevelDebug : Z := -4.
Definition LevelInfo : Z := 0.
Definition LevelWarn : Z := 4.
Definition LevelError : Z := 8.

Definition otelSeverityNumber (l : Z) : Z :=
  if l <? LevelDebug then 1 else
  if l <? LevelInfo then 5 else
  if l <? LevelWarn then 9 else
  if l <? LevelError then 13 else 17.

(** ** Loggers *)

Section Loggers.
(** [slog.Any] of an error under the key err, and [slog.String] of a name under the key logger: attributes
    among the keys and values. *)
Context {V : Type} (errAttr : option error -> V) (nameAttr : string -> V).

(** Keys and values, in turn. *)
Abbreviation kvs := (list V).

(** What a backend is called with: logr's Info at a verbosity and Error, slog's calls at a level; with the
    values and names the logger carries, oldest first. *)
Inductive carried : Type :=
| CValues (kv : kvs)
| CName (name : string).

Inductive backendCall : Type :=
| LogrInfo (verbosity : Z) (with_ : list carried) (msg : string) (kv : kvs)
| LogrError (with_ : list carried) (err : option error) (msg : string) (kv : kvs)
| SlogCall (level : Z) (with_ : list carried) (msg : string) (kv : kvs).

(** A logger: none, or a backend with what it carries.  logr keeps a name apart, slog as the attribute
    "logger". *)
Inductive Logger : Type :=
| nopLogger
| logrLogger (with_ : list carried)
| slogLogger (with_ : list carried).

Definition NewNopLogger : Logger := nopLogger.
Definition NewLogrLogger : Logger := logrLogger [].
Definition NewSlogLogger : Logger := slogLogger [].

Definition Info (l : Logger) (msg : string) (kv : kvs) : list backendCall :=
  match l with
  | nopLogger => []
  | logrLogger w => [LogrInfo 0 w msg kv]
  | slogLogger w => [SlogCall LevelInfo w msg kv]
  end.
Definition Debug (l : Logger) (msg : string) (kv : kvs) : list backendCall :=
  match l with
  | nopLogger => []
  | logrLogger w => [LogrInfo 1 w msg kv]
  | slogLogger w => [SlogCall LevelDebug w msg kv]
  end.
Definition Warn (l : Logger) (msg : string) (kv : kvs) : list backendCall :=
  match l with
  | nopLogger => []
  | logrLogger w => [LogrInfo 0 w msg kv]
  | slogLogger w => [SlogCall LevelWarn w msg kv]
  end.
Definition ErrorL (l : Logger) (err : option error) (msg : string) (kv : kvs) : list backendCall :=
  match l with
  | nopLogger => []
  | logrLogger w => [LogrError w err msg kv]
  | slogLogger w => [SlogCall LevelError w msg (kv ++ [errAttr err])]
  end.
Definition WithName (l : Logger) (name : string) : Logger :=
  match l with
  | nopLogger => nopLogger
  | logrLogger w => logrLogger (w ++ [CName name])
  | slogLogger w => slogLogger (w ++ [CValues [nameAttr name]])
  end.
Definition WithValues (l : Logger) (kv : kvs) : Logger :=
  match l with
  | nopLogger => nopLogger
  | logrLogger w => logrLogger (w ++ [CValues kv])
  | slogLogger w => slogLogger (w ++ [CValues kv])
  end.

(** The severities of the interface, and how each backend tells them apart. *)
Inductive severity : Type := SDebug | SInfo | SWarn | SError (err : option error).

Definition logAt (s : severity) : Logger -> string -> kvs -> list backendCall :=
  match s with
  | SDebug => Debug
  | SInfo => Info
  | SWarn => Warn
  | SError err => fun l => ErrorL l err
  end.

End Loggers.

(** ** Attributes *)

(** [slog.Value], by its kind; [Time] panics on any other kind.  A group among the values stands for its
    members, in the groups that lead to them. *)
Inductive Value : Type :=
| KindTime (t : Time)
| KindString (s : string)
| KindInt64 (n : Z)
| KindLevel (l : Z)
| KindOther.

Definition Attr : Type := string * Value.

Definition valueTime (v : Value) : outcome Time :=
  match v with KindTime t => Ret t | _ => Panic "Value kind is not Time" end.

Definition TimeKey : string := "time".
Definition LevelKey : string := "level".
Definition MessageKey : string := "msg".

(** [replace] of [NewOTelJSONHandler], which slog calls for each attribute, its own and the caller's. *)
Definition replaceAttr (groups : list string) (a : Attr) : outcome Attr :=
  match groups with
  | _ :: _ => Ret a
  | [] =>
    if String.eqb a.1 TimeKey then
      t ← valueTime a.2; Ret ("timestamp", KindString (FormatRFC3339Nano (UTC t)))
    else Ret a
  end.

(** The attributes of a service's name, the second one for older readers. *)
Definition ServiceNameAttr (serviceName : string) : list Attr :=
  [("service.name", KindString serviceName); ("service", KindString serviceName)].

(** ** Handlers *)

(** [slog.Record]. *)
Record record : Type := mkRecord { time : Time; Level : Z; message : string; attrs : list Attr }.

(** [rec.AddAttrs] *)
Definition AddAttrs (l : list Attr) (r : record) : record :=
  mkRecord (time r) (Level r) (message r) (attrs r ++ l).

(** The trace and span id of a context, when its span context is valid. *)
Abbreviation span := (option (string * string)).

(** [slog.Handler]: the levels taken, what is written of a record, with an error, and the handlers derived
    with attributes or in a group. *)
Class Handler (Out H : Type) : Type := {
  Enabled : H -> Z -> bool;
  Handle : H -> span -> record -> outcome (list Out * option error);
  WithAttrs : list Attr -> H -> outcome H;
  WithGroup : string -> H -> H
}.

(** slog's JSON handler, as far as the package uses it: the least level, the writer, the groups that are
    open and the attributes it carries, each in its groups.  A line is what it gives the writer, before
    it is encoded: the values with their keys and groups. *)
Abbreviation line := (list (list string * Attr)).

Record JSONHandler : Type := mkJSON {
  level : Z;
  Write : line -> option error;
  groups : list string;
  carriedAttrs : line
}.

(** Attributes as they appear in groups. *)
Definition replaced (gs : list string) (l : list Attr) : outcome line :=
  mapM (fun a => b ← replaceAttr gs a; Ret (gs, b)) l.

Definition jsonHandle (h : JSONHandler) (r : record) : outcome (list line * option error) :=
  builtin ← replaced [] ((if IsZero (time r) then [] else [(TimeKey, KindTime (time r))]) ++
    [(LevelKey, KindLevel (Level r)); (MessageKey, KindString (message r))]);
  own ← replaced (groups h) (attrs r);
  let l := builtin ++ carriedAttrs h ++ own in
  Ret ([l], Write h l).

#[export] Instance JSON_Handler : Handler line JSONHandler := {|
  Enabled h l := level h <=? l;
  Handle h _ r := jsonHandle h r;
  WithAttrs l h :=
    new ← replaced (groups h) l;
    Ret (mkJSON (level h) (Write h) (groups h) (carriedAttrs h ++ new));
  WithGroup name h := mkJSON (level h) (Write h) (groups h ++ [name]) (carriedAttrs h)
|}.

(** [otelHandler]: the handler it embeds, and what it adds to a record. *)
Record otelHandler (H : Type) : Type := mkOtel { embedded : H }.
Arguments mkOtel {H}.
Arguments embedded {H}.

Definition otelAttrs (ctx : span) (r : record) : list Attr :=
  ("SeverityNumber", KindInt64 (otelSeverityNumber (Level r))) ::
  match ctx with
  | Some (trace, span) => [("trace_id", KindString trace); ("span_id", KindString span)]
  | None => []
  end.

Section OTel.
Context {Out H : Type} `{!Handler Out H}.

Definition otelHandle (o : otelHandler H) (ctx : span) (r : record) : outcome (list Out * option error) :=
  Handle (embedded o) ctx (AddAttrs (otelAttrs ctx r) r).
Definition otelWithAttrs (l : list Attr) (o : otelHandler H) : outcome (otelHandler H) :=
  h ← WithAttrs l (embedded o); Ret (mkOtel h).
Definition otelWithGroup (name : string) (o : otelHandler H) : otelHandler H :=
  mkOtel (WithGroup name (embedded o)).

#[export] Instance otel_Handler : Handler Out (otelHandler H) := {|
  Enabled o := Enabled (embedded o);
  Handle := otelHandle;
  WithAttrs := otelWithAttrs;
  WithGroup := otelWithGroup
|}.

End OTel.

Definition NewOTelJSONHandler (lvl : Z) (w : line -> option error) (attrs : list Attr)
  : outcome (otelHandler JSONHandler) :=
  base ← WithAttrs attrs (mkJSON lvl w [] []); Ret (mkOtel base).

(** A handler that is one of two, as the elements of a slice of handlers are. *)
Section OneOf.
Context {O1 O2 H1 H2 : Type} `{!Handler O1 H1, !Handler O2 H2}.

Definition oneHandle (h : H1 + H2) (ctx : span) (r : record) : outcome (list (O1 + O2) * option error) :=
  match h with
  | inl h => x ← Handle h ctx r; Ret (map inl x.1, x.2)
  | inr h => x ← Handle h ctx r; Ret (map inr x.1, x.2)
  end.

Definition oneWithAttrs (l : list Attr) (h : H1 + H2) : outcome (H1 + H2) :=
  match h with
  | inl h => h' ← WithAttrs l h; Ret (inl h')
  | inr h => h' ← WithAttrs l h; Ret (inr h')
  end.

#[export] Instance sum_Handler : Handler (O1 + O2) (H1 + H2) := {|
  Enabled h := match h with inl h => Enabled h | inr h => Enabled h end;
  Handle := oneHandle;
  WithAttrs := oneWithAttrs;
  WithGroup name h := match h with inl h => inl (WithGroup name h) | inr h => inr (WithGroup name h) end
|}.

End OneOf.

(** [teeHandler] *)
Record teeHandler (H : Type) : Type := mkTee { handlers : list H }.
Arguments mkTee {H}.
Arguments handlers {H}.

Section Tee.
Context {Out H : Type} `{!Handler Out H}.

Definition teeEnabled (hs : list H) (l : Z) : bool := existsb (fun h => Enabled h l) hs.

Fixpoint teeLoop (hs : list H) (ctx : span) (r : record) (firstErr : option error)
  : outcome (list Out * option error) :=
  match hs with
  | [] => Ret ([], firstErr)
  | h :: hs =>
    if negb (Enabled h (Level r)) then teeLoop hs ctx r firstErr else
    x ← Handle h ctx r;
    y ← teeLoop hs ctx r (match firstErr with Some e => Some e | None => x.2 end);
    Ret (x.1 ++ y.1, y.2)
  end.

Definition teeHandle (t : teeHandler H) (ctx : span) (r : record) : outcome (list Out * option error) :=
  teeLoop (handlers t) ctx r None.
Definition teeWithAttrs (l : list Attr) (t : teeHandler H) : outcome (teeHandler H) :=
  next ← mapM (WithAttrs l) (handlers t); Ret (mkTee next).
Definition teeWithGroup (name : string) (t : teeHandler H) : teeHandler H :=
  mkTee (WithGroup name <$> handlers t).

#[export] Instance tee_Handler : Handler Out (teeHandler H) := {|
  Enabled t := teeEnabled (handlers t);
  Handle := teeHandle;
  WithAttrs := teeWithAttrs;
  WithGroup := teeWithGroup
|}.

End Tee.

(** The recommended handler: the JSON stream with the OpenTelemetry fields, carrying the service's name,
    and the bridge to the exporter. *)
Definition NewOTelHandler {H : Type} (lvl : Z) (w : line -> option error) (serviceName : string) (bridge : H)
  : outcome (teeHandler (otelHandler JSONHandler + H)) :=
  jsonH ← NewOTelJSONHandler lvl w (ServiceNameAttr serviceName); Ret (mkTee [inl jsonH; inr bridge]).

(** ** Properties *)

(** The timestamp of a record is written to the nanosecond, and nothing else of it changes; but an attribute
    of the caller named time, outside any group, panics when it is not a time. *)
Theorem replaceAttr_spec groups key v :
  (forall t, formattable (UTC t) -> exists s,
     replaceAttr [] (TimeKey, KindTime t) = Ret ("timestamp", KindString s) /\ ParseRFC3339 s = Some (UTC t)) /\
  (groups <> [] \/ key <> TimeKey -> replaceAttr groups (key, v) = Ret (key, v)) /\
  (is_panic (replaceAttr groups (key, v)) = true <->
     groups = [] /\ key = TimeKey /\ forall t, v <> KindTime t).
Proof.
  split_and!.
  - intros t Ht. eexists. split; [done|]. by apply parse_formatNano.
  - unfold replaceAttr. intros [Hg|Hk]; [by destruct groups|]. destruct groups; [|done]. cbn [fst].
    by apply String.eqb_neq in Hk as ->.
  - unfold replaceAttr. destruct groups as [|g groups]; [|split; [done|by intros []]]. cbn [fst snd].
    destruct (String.eqb_spec key TimeKey) as [->|Hne]; [|split; [done|by intros (_ & ? & _)]].
    destruct v; cbn; naive_solver.
Qed.


(** Severity numbers follow the levels, and are those the comment gives for slog's named levels, except
    that a record at a named level never gets TRACE. *)
Theorem otelSeverityNumber_monotone l l' :
  (l <= l' -> otelSeverityNumber l <= otelSeverityNumber l') /\
  otelSeverityNumber LevelDebug = 5 /\ otelSeverityNumber LevelInfo = 9 /\
  otelSeverityNumber LevelWarn = 13 /\ otelSeverityNumber LevelError = 17.
Proof.
  split; [|done]. unfold otelSeverityNumber, LevelDebug, LevelInfo, LevelWarn, LevelError. intros Hl.
  repeat match goal with |- context [?a <? ?b] => destruct (Z.ltb_spec a b) end; lia.
Qed.

(** A record goes to every sub-handler that takes its level, in their order, whatever errors the others
    give; the error is the first one; and a tee takes a level when one of its handlers does. *)
Theorem tee_spec {Out H} `{!Handler Out H} (t : teeHandler H) ctx r :
  let taking := filter (fun h => Enabled h (Level r) = true) (handlers t) in
  Handle t ctx r =
    (l ← mapM (fun h => Handle h ctx r) taking; Ret (concat (fst <$> l), head (omap snd l))) /\
  Enabled t (Level r) = bool_decide (taking <> []).
Proof.
  destruct t as [hs]. cbn [Handle Enabled tee_Handler handlers]. unfold teeHandle. cbn [handlers]. split.
  - assert (Hl : forall fe, teeLoop hs ctx r fe =
      (l ← mapM (fun h => Handle h ctx r) (filter (fun h => Enabled h (Level r) = true) hs);
       Ret (concat (fst <$> l), match fe with Some e => Some e | None => head (omap snd l) end)));
      [|exact (Hl None)].
    induction hs as [|h hs IH]; intros fe; [by destruct fe|]. cbn [teeLoop].
    destruct (Enabled h (Level r)) eqn:Eh; cbn [negb].
    + rewrite filter_cons_True by done. cbn [mapM]. destruct (Handle h ctx r) as [[out err]|w]; [|done].
      cbn [mbind outcome_bind fst snd]. rewrite IH.
      destruct (mapM _ _) as [l|w]; [|done]. cbn. by destruct fe, err.
    + rewrite filter_cons_False by (by rewrite Eh). apply IH.
  - unfold teeEnabled. induction hs as [|h hs IH]; [done|]. cbn [existsb].
    destruct (Enabled h (Level r)) eqn:Eh; cbn [orb].
    + rewrite filter_cons_True by done. by rewrite bool_decide_true.
    + rewrite filter_cons_False by (by rewrite Eh). exact IH.
Qed.

(** ** Derived handlers *)

(** A logger's With calls, one after the other. *)
Inductive derivation : Type := DAttrs (l : list Attr) | DGroup (name : string).

Fixpoint derive {Out H} `{!Handler Out H} (ds : list derivation) (h : H) : outcome H :=
  match ds with
  | [] => Ret h
  | DAttrs l :: ds => h' ← WithAttrs l h; derive ds h'
  | DGroup name :: ds => derive ds (WithGroup name h)
  end.

(** The groups that are open after them, and the attributes in the groups open when they were given. *)
Fixpoint groupsOf (gs : list string) (ds : list derivation) : list string :=
  match ds with
  | [] => gs
  | DAttrs _ :: ds => groupsOf gs ds
  | DGroup name :: ds => groupsOf (gs ++ [name]) ds
  end.

Fixpoint carriedOf (gs : list string) (ds : list derivation) : line :=
  match ds with
  | [] => []
  | DAttrs l :: ds => map (pair gs) l ++ carriedOf gs ds
  | DGroup name :: ds => carriedOf (gs ++ [name]) ds
  end.

(** No attribute outside the groups is called time. *)
Definition untimed (gs : list string) (l : list Attr) : Prop := gs <> [] \/ Forall (fun a => a.1 <> TimeKey) l.

Fixpoint untimedAll (gs : list string) (ds : list derivation) : Prop :=
  match ds with
  | [] => True
  | DAttrs l :: ds => untimed gs l /\ untimedAll gs ds
  | DGroup name :: ds => untimedAll (gs ++ [name]) ds
  end.

Lemma replaced_untimed gs l : untimed gs l -> replaced gs l = Ret (map (pair gs) l).
Proof.
  intros [Hg|Hl].
  - destruct gs as [|g gs]; [done|]. induction l as [|a l IH]; [done|]. unfold replaced in *. cbn [mapM].
    rewrite IH. done.
  - induction Hl as [|a l Ha Hl IH]; [done|]. unfold replaced in *. cbn [mapM]. rewrite IH.
    destruct gs; [|done]. unfold replaceAttr. by apply String.eqb_neq in Ha as ->.
Qed.

(** The handlers derived from a tee of the JSON stream and another handler. *)
Lemma derive_tee {Out H} `{!Handler Out H} ds : forall (j : JSONHandler) (b : H) t,
  untimedAll (groups j) ds ->
  derive ds (mkTee [inl (mkOtel j); inr b]) = Ret t ->
  exists b', t = mkTee [inl (mkOtel (mkJSON (level j) (Write j) (groupsOf (groups j) ds)
    (carriedAttrs j ++ carriedOf (groups j) ds))); inr b'].
Proof.
  induction ds as [|[l|name] ds IH]; intros j b t; cbn [derive groupsOf carriedOf untimedAll].
  - intros _ [= <-]. exists b. rewrite app_nil_r. by destruct j.
  - intros [Hl Hds]. cbn -[mapM]. unfold mapM. cbn. rewrite replaced_untimed by done. cbn.
    destruct (WithAttrs l b) as [b1|w]; [|done]. cbn. intros Hd.
    destruct (IH (mkJSON (level j) (Write j) (groups j) (carriedAttrs j ++ map (pair (groups j)) l)) b1 t Hds Hd)
      as [b' ->].
    exists b'. cbn. by rewrite <- app_assoc.
  - intros Hds Hd.
    destruct (IH (mkJSON (level j) (Write j) (groups j ++ [name]) (carriedAttrs j)) (WithGroup name b) t Hds Hd)
      as [b' ->]. by exists b'.
Qed.

(** The line that a handler derived from the recommended one writes of a record it takes comes first,
    whatever the bridge does with the record: the time to the nanosecond, the level and the message, the
    service's name, then what the handler was given, each in its groups, and last the attributes of the
    record and the OpenTelemetry fields, all in the groups that are open.  So under a group the severity and
    the ids of the span are not beside the level but inside the group. *)
Theorem derived_line {Out H} `{!Handler Out H} lvl w name (bridge : H) ds h t ctx r outs err :
  NewOTelHandler lvl w name bridge = Ret h -> untimedAll [] ds -> derive ds h = Ret t ->
  lvl <= Level r -> IsZero (time r) = false -> untimed (groupsOf [] ds) (attrs r) ->
  Handle t ctx r = Ret (outs, err) ->
  let l := [([], ("timestamp", KindString (FormatRFC3339Nano (UTC (time r)))));
            ([], (LevelKey, KindLevel (Level r))); ([], (MessageKey, KindString (message r)));
            ([], ("service.name", KindString name)); ([], ("service", KindString name))] ++
    carriedOf [] ds ++ map (pair (groupsOf [] ds)) (attrs r ++ otelAttrs ctx r) in
  head outs = Some (inl l) /\ (is_Some (w l) -> err = w l) /\
  (groupsOf [] ds, ("SeverityNumber", KindInt64 (otelSeverityNumber (Level r)))) ∈ l.
Proof.
  intros Hnew Hds Hd Hlvl Htime Hr Hh l. injection Hnew as <-.
  apply (derive_tee ds (mkJSON lvl w [] (map (pair []) (ServiceNameAttr name)))) in Hd as [b' ->]; [|done].
  assert (Hline : jsonHandle (mkJSON lvl w (groupsOf [] ds)
    (map (pair []) (ServiceNameAttr name) ++ carriedOf [] ds)) (AddAttrs (otelAttrs ctx r) r) = Ret ([l], w l)).
  { unfold jsonHandle. cbn [AddAttrs time Level message attrs]. rewrite Htime. cbn [groups Write carriedAttrs].
    rewrite (replaced_untimed (groupsOf [] ds)); [done|].
    destruct Hr as [Hr|Hr]; [by left|right]. apply Forall_app. split; [done|].
    unfold otelAttrs. destruct ctx as [[]|]; repeat constructor; done. }
  assert (Hsev : (groupsOf [] ds, ("SeverityNumber", KindInt64 (otelSeverityNumber (Level r)))) ∈ l).
  { unfold l. rewrite !elem_of_app. right. right. apply list_elem_of_fmap.
    eexists. split; [reflexivity|]. apply elem_of_app. right. by left. }
  clearbody l. apply Z.leb_le in Hlvl.
  cbn -[jsonHandle ServiceNameAttr] in Hh. rewrite Hlvl in Hh. cbn -[jsonHandle ServiceNameAttr] in Hh.
  rewrite Hline in Hh. cbn in Hh. revert Hh.
  destruct (negb (Enabled b' (Level r))); [|destruct (Handle b' ctx r) as [x|]; [|done]];
    intros [= <- <-]; (split_and!; [done|by intros [e ->]|done]).
Qed.

(** What a logger derived from another carries reaches the backend with each of its calls. *)
Definition carriedBy {V} (c : backendCall (V := V)) : list carried :=
  match c with LogrInfo _ w _ _ | LogrError w _ _ _ | SlogCall _ w _ _ => w end.
Definition carries {V} (l : Logger (V := V)) : list carried :=
  match l with nopLogger => [] | logrLogger w | slogLogger w => w end.

Theorem logger_carries {V} (errAttr : option error -> V) (nameAttr : string -> V) l s msg kv c name kv' :
  c ∈ logAt errAttr s l msg kv ->
  carriedBy c = carries l /\
  (exists x, carries (WithName nameAttr l name) = carries l ++ [x]) /\
  carries (WithValues l kv') = carries l ++ [CValues kv'].
Proof.
  destruct s, l; cbn; intros Hc; (try by apply not_elem_of_nil in Hc);
    apply list_elem_of_singleton in Hc as ->; (split; [done|]; split; [by eexists|done]).
Qed.

End Logging.
