(* ===== verification/ContextValues.v ===== *)
(** * pkg/context: the values a context carries

    A context is the chain of the contexts it was derived from, the latest first: [context.WithValue]
    puts an entry in front, [Value] finds the latest entry of a key.  The span of OpenTelemetry is an
    entry of its own, a trace id or none.  Loggers are those given, of any type, and the JSON loggers
    on standard error the package falls back to. *)

From S2P Require Import Prelude.

Module ContextValues.

Section ContextValues.
Context {L : Type}.

Inductive level : Type := LevelInfo | LevelDebug.

Inductive logger : Type :=
| Given (l : L)
| JSONLogger (lv : level).

Inductive entry : Type :=
| ELogger (l : logger)
| ETraceId (id : string)
| ESpan (traceID : option string)
| EOther.

Definition context : Type := list entry.

(** The latest entry of each kind. *)
Fixpoint loggerValue (ctx : context) : option logger :=
  match ctx with [] => None | ELogger l :: _ => Some l | _ :: ctx => loggerValue ctx end.
Fixpoint traceIdValue (ctx : context) : option string :=
  match ctx with [] => None | ETraceId id :: _ => Some id | _ :: ctx => traceIdValue ctx end.
Fixpoint spanTraceID (ctx : context) : option string :=
  match ctx with [] => None | ESpan id :: _ => id | _ :: ctx => spanTraceID ctx end.

Definition Logger (ctx : context) : logger :=
  match loggerValue ctx with Some l => l | None => JSONLogger LevelInfo end.

Definition WithContextFunc : Type := context -> context.

(** [debugEnv]: the environment has DEBUG set to true.  [None]: the nil logger. *)
Definition WithLogger (debugEnv : bool) (root : option L) : WithContextFunc := fun ctx =>
  let root := match root with
              | Some l => Given l
              | None => JSONLogger (if debugEnv then LevelDebug else LevelInfo)
              end in
  ELogger root :: ctx.

Definition WithTraceId (traceId : string) : WithContextFunc := fun ctx => ETraceId traceId :: ctx.

(** [generated]: what [shortid.MustGenerate] gives. *)
Definition TraceId (ctx : context) (generate : bool) (generated : string) : string :=
  match spanTraceID ctx with
  | Some id => id
  | None =>
    match traceIdValue ctx with
    | Some id => id
    | None => if generate then generated else EmptyString
    end
  end.

(** [None]: a nil function. *)
Definition BuildContext (ctx : context) (opts : list (option WithContextFunc)) : context :=
  foldl (fun ctx fn => match fn with None => ctx | Some fn => fn ctx end) ctx opts.

(** The assignment to [ctx] in the loop of [runWorker], and the loop on the trace ids of its events. *)
Definition eventContext (log : L) (ctx : context) (traceId : string) : context :=
  BuildContext ctx [Some (WithLogger false (Some log)); Some (WithTraceId traceId)].
Definition workerContext (log : L) (ctx : context) (traceIds : list string) : context :=
  foldl (eventContext log) ctx traceIds.

(** ** Properties *)

(** What was put in is read back; a span takes precedence over a trace id put in, and other functions
    do not disturb it. *)
Theorem context_roundtrip ctx log debugEnv id generate g :
  Logger (WithLogger debugEnv (Some log) ctx) = Given log /\
  Logger (WithTraceId id ctx) = Logger ctx /\
  TraceId (WithLogger debugEnv (Some log) ctx) generate g = TraceId ctx generate g /\
  TraceId (WithTraceId id ctx) generate g =
    match spanTraceID ctx with Some id' => id' | None => id end.
Proof. done. Qed.

Lemma BuildContext_app ctx l1 l2 : BuildContext ctx (l1 ++ l2) = BuildContext (BuildContext ctx l1) l2.
Proof. apply foldl_app. Qed.

(** The context of a worker, after any events: the logger is the controller's and the trace id that of
    the last event.  But the loop derives the context of an event from that of the event before, so the
    chain has two more entries per event and never gets shorter while the worker runs. *)
Theorem worker_context log ctx traceIds id g :
  Logger (workerContext log ctx (traceIds ++ [id])) = Given log /\
  TraceId (workerContext log ctx (traceIds ++ [id])) false g =
    (match spanTraceID ctx with Some span => span | None => id end) /\
  length (workerContext log ctx (traceIds ++ [id])) = (length ctx + 2 * S (length traceIds))%nat.
Proof.
  unfold workerContext. rewrite foldl_app. cbn [foldl]. fold (workerContext log ctx traceIds).
  assert (Hs : spanTraceID (workerContext log ctx traceIds) = spanTraceID ctx).
  { revert ctx. induction traceIds as [|t l IH]; intros ctx; [done|].
    exact (IH (eventContext log ctx t)). }
  assert (Hl : length (workerContext log ctx traceIds) = (length ctx + 2 * length traceIds)%nat).
  { clear Hs. revert ctx. induction traceIds as [|t l IH]; intros ctx; [simpl; lia|].
    change (workerContext log ctx (t :: l)) with (workerContext log (eventContext log ctx t) l).
    rewrite IH. simpl. lia. }
  split; [done|]. unfold TraceId. cbn. split; [by rewrite Hs|]. rewrite Hl. lia.
Qed.

End ContextValues.
Arguments entry L : clear implicits.
Arguments context L : clear implicits.
End ContextValues.
