(* ===== verification/CertWatcher.v ===== *)
(** * pkg/certwatcher: a certificate kept up to date from its files

    The watcher's state and its operations: loading at creation, the periodic and event-driven
    re-reads, the cache comparison and the callback.  File contents, the results of the file-system
    watcher and of [tls.X509KeyPair] come from outside.  A callback runs in a goroutine of its own,
    which reads the callback field only when it runs: the certificates of the goroutines that have
    started and not run yet are [pending]. *)

From S2P Require Import Prelude GoTime Errors.
Import GoTime Errors.

Module CertWatcher.

Section CertWatcher.
Context {CB Rest : Type}.

(** A [tls.Certificate]: the chain, leaf first, and the other fields. *)
Record TLSCertificate : Type := mkCert { Certificate : list string; rest : Rest }.

(** [tls.X509KeyPair]: the key pair of a certificate file and a key file. *)
Context (X509KeyPair : string -> string -> error + TLSCertificate).

Definition defaultWatchInterval : Z := 10 * Second.

Record CertWatcherT : Type := mkCW {
  currentCert : option TLSCertificate;
  cachedKeyPEMBlock : string;
  callback : option CB;
  interval : Z;
  certPath : string;
  keyPath : string;
  readTotal : Z;                            (* metrics.ReadCertificateTotal *)
  readErrors : Z;                           (* metrics.ReadCertificateErrors *)
  pending : list TLSCertificate;            (* goroutines that will call the callback *)
  called : list (CB * TLSCertificate)       (* the calls made, in order *)
}.

Definition setCache (cert : TLSCertificate) (key : string) (cw : CertWatcherT) : CertWatcherT :=
  mkCW (Some cert) key (callback cw) (interval cw) (certPath cw) (keyPath cw) (readTotal cw)
    (readErrors cw) (pending cw) (called cw).
Definition addRead (total errs : Z) (cw : CertWatcherT) : CertWatcherT :=
  mkCW (currentCert cw) (cachedKeyPEMBlock cw) (callback cw) (interval cw) (certPath cw) (keyPath cw)
    (readTotal cw + total) (readErrors cw + errs) (pending cw) (called cw).
Definition spawn (cert : TLSCertificate) (cw : CertWatcherT) : CertWatcherT :=
  mkCW (currentCert cw) (cachedKeyPEMBlock cw) (callback cw) (interval cw) (certPath cw) (keyPath cw)
    (readTotal cw) (readErrors cw) (pending cw ++ [cert]) (called cw).
Definition call (cb : CB) (cert : TLSCertificate) (cw : CertWatcherT) : CertWatcherT :=
  mkCW (currentCert cw) (cachedKeyPEMBlock cw) (callback cw) (interval cw) (certPath cw) (keyPath cw)
    (readTotal cw) (readErrors cw) (pending cw) (called cw ++ [(cb, cert)]).

(** [cert.Certificate[0]] *)
Definition leaf (cert : TLSCertificate) : outcome string :=
  match Certificate cert with
  | [] => Panic "index out of range [0] with length 0"
  | c :: _ => Ret c
  end.

(** The watcher and whether the cache was updated. *)
Definition updateCachedCertificate (cert : TLSCertificate) (keyPEMBlock : string) (cw : CertWatcherT)
  : outcome (CertWatcherT * bool) :=
  match currentCert cw with
  | None => Ret (setCache cert keyPEMBlock cw, true)
  | Some current =>
    a ← leaf current;
    b ← leaf cert;
    if String.eqb a b && String.eqb (cachedKeyPEMBlock cw) keyPEMBlock then Ret (cw, false)
    else Ret (setCache cert keyPEMBlock cw, true)
  end.

(** What reading the two files gives. *)
Abbreviation file := (error + string)%type.

Definition ReadCertificate (certFile keyFile : file) (cw : CertWatcherT)
  : outcome (CertWatcherT * option error) :=
  match certFile with
  | inl err => Ret (addRead 1 1 cw, Some err)
  | inr certPEMBlock =>
    match keyFile with
    | inl err => Ret (addRead 1 1 cw, Some err)
    | inr keyPEMBlock =>
      match X509KeyPair certPEMBlock keyPEMBlock with
      | inl err => Ret (addRead 1 1 cw, Some err)
      | inr cert =>
        r ← updateCachedCertificate cert keyPEMBlock (addRead 1 0 cw);
        if negb r.2 then Ret (r.1, None) else
        match callback r.1 with
        | Some _ => Ret (spawn cert r.1, None)
        | None => Ret (r.1, None)
        end
      end
    end
  end.

(** [watcherErr]: what creating the file-system watcher gives. *)
Definition New (certPath keyPath : string) (certFile keyFile : file) (watcherErr : option error)
  : outcome (error + CertWatcherT) :=
  let cw := mkCW None EmptyString None defaultWatchInterval certPath keyPath 0 0 [] [] in
  r ← ReadCertificate certFile keyFile cw;
  match r.2, watcherErr with
  | Some err, _ => Ret (inl err)
  | None, Some err => Ret (inl err)
  | None, None => Ret (inr r.1)
  end.

Definition WithWatchInterval (i : Z) (cw : CertWatcherT) : CertWatcherT :=
  mkCW (currentCert cw) (cachedKeyPEMBlock cw) (callback cw) i (certPath cw) (keyPath cw)
    (readTotal cw) (readErrors cw) (pending cw) (called cw).

(** A nil callback is called all the same when there is a certificate. *)
Definition RegisterCallback (cb : option CB) (cw : CertWatcherT) : outcome CertWatcherT :=
  let set cw := mkCW (currentCert cw) (cachedKeyPEMBlock cw) cb (interval cw) (certPath cw)
                  (keyPath cw) (readTotal cw) (readErrors cw) (pending cw) (called cw) in
  match currentCert cw, cb with
  | None, _ => Ret (set cw)
  | Some cert, Some f => Ret (set (call f cert cw))
  | Some _, None => Panic "invalid memory address or nil pointer dereference"
  end.

Definition GetCertificate (cw : CertWatcherT) : option TLSCertificate := currentCert cw.

(** A goroutine started by [ReadCertificate] runs. *)
Definition runCallback (i : nat) (cw : CertWatcherT) : outcome CertWatcherT :=
  match pending cw !! i with
  | None => Ret cw
  | Some cert =>
    let cw' := mkCW (currentCert cw) (cachedKeyPEMBlock cw) (callback cw) (interval cw) (certPath cw)
                 (keyPath cw) (readTotal cw) (readErrors cw) (delete i (pending cw)) (called cw) in
    match callback cw with
    | Some cb => Ret (call cb cert cw')
    | None => Panic "invalid memory address or nil pointer dereference"
    end
  end.

(** ** File-system events *)

(** Which operations [event.Op.Has] reports. *)
Record fsEvent : Type := mkFsEvent {
  evWrite : bool; evCreate : bool; evChmod : bool; evRemove : bool; evRename : bool }.

(** Whether the file is watched again (the call may fail; the error is logged), and whether the files are
    read. *)
Definition reactsTo (event : fsEvent) : bool * bool :=
  if evWrite event then (false, true) else
  if evCreate event then (false, true) else
  if evChmod event || evRemove event then (true, true) else (false, false).

Definition handleEvent (event : fsEvent) (certFile keyFile : file) (cw : CertWatcherT)
  : outcome CertWatcherT :=
  if (reactsTo event).2 then r ← ReadCertificate certFile keyFile cw; mret r.1 else Ret cw.

(** ** The watcher at work

    Re-reads by the ticker and by file-system events, with any file contents, registrations, and the
    goroutines, in any order. *)
Inductive cstep : CertWatcherT -> CertWatcherT -> Prop :=
| c_read certFile keyFile cw cw' err :
    ReadCertificate certFile keyFile cw = Ret (cw', err) -> cstep cw cw'
| c_event event certFile keyFile cw cw' :
    handleEvent event certFile keyFile cw = Ret cw' -> cstep cw cw'
| c_register cb cw cw' : RegisterCallback cb cw = Ret cw' -> cstep cw cw'
| c_run i cw cw' : runCallback i cw = Ret cw' -> cstep cw cw'.

Definition reachable (cw : CertWatcherT) : Prop :=
  exists cp kp cf kf cw0, New cp kp cf kf None = Ret (inr cw0) /\ rtc cstep cw0 cw.

(** ** Properties *)

(** What the documentation of [X509KeyPair] says: a loaded certificate has a leaf. *)
Hypothesis X509KeyPair_leaf :
  forall c k cert, X509KeyPair c k = inr cert -> Certificate cert <> [].

(** The cached pair was loaded together, and a registered callback gets the certificate in use: it was
    called with it, or a goroutine that will do so is on its way. *)
Record Inv (cw : CertWatcherT) : Prop := {
  inv_loaded : exists cert certPEM, currentCert cw = Some cert /\
    X509KeyPair certPEM (cachedKeyPEMBlock cw) = inr cert;
  inv_callback cb cert : callback cw = Some cb -> currentCert cw = Some cert ->
    cert ∈ pending cw \/ (cb, cert) ∈ called cw;
  inv_pending : pending cw <> [] -> is_Some (callback cw)
}.

Lemma leaf_loaded c k cert : X509KeyPair c k = inr cert -> exists l, leaf cert = Ret l.
Proof.
  intros Hl%X509KeyPair_leaf. unfold leaf. destruct (Certificate cert) as [|l r]; [done|by exists l].
Qed.

(** The branches of a read, from a watcher that has a certificate.  A failure changes the counters only; a
    pair with the cached leaf and key changes nothing else either; any other replaces the cache and
    starts the callback, if there is one. *)
Lemma ReadCertificate_run certFile keyFile cw :
  (exists cert certPEM, currentCert cw = Some cert /\
     X509KeyPair certPEM (cachedKeyPEMBlock cw) = inr cert) ->
  (exists err, ReadCertificate certFile keyFile cw = Ret (addRead 1 1 cw, Some err)) \/
  (exists c k cert, certFile = inr c /\ keyFile = inr k /\ X509KeyPair c k = inr cert /\
     ((ReadCertificate certFile keyFile cw = Ret (addRead 1 0 cw, None) /\
       k = cachedKeyPEMBlock cw /\
       exists cert0, currentCert cw = Some cert0 /\ leaf cert = leaf cert0) \/
      ReadCertificate certFile keyFile cw =
        Ret (match callback cw with
             | Some _ => spawn cert (setCache cert k (addRead 1 0 cw))
             | None => setCache cert k (addRead 1 0 cw)
             end, None))).
Proof.
  intros (cert0 & c0 & Ecur & Eload). unfold ReadCertificate.
  destruct certFile as [e|c]; [left; by eexists|]. destruct keyFile as [e|k]; [left; by eexists|].
  destruct (X509KeyPair c k) as [e|cert] eqn:Ex; [left; by eexists|]. right.
  exists c, k, cert. split_and!; try done. unfold updateCachedCertificate.
  change (currentCert (addRead 1 0 cw)) with (currentCert cw). rewrite Ecur.
  destruct (leaf_loaded _ _ _ Ex) as [l El], (leaf_loaded _ _ _ Eload) as [l0 El0].
  rewrite El, El0. cbn.
  destruct (String.eqb l0 l) eqn:E1; cbn; [|right; by destruct (callback cw)].
  destruct (String.eqb (cachedKeyPEMBlock cw) k) eqn:E2; cbn; [|right; by destruct (callback cw)].
  bool_to_prop. left. subst. split_and!; try done. by exists cert0.
Qed.

Lemma read_inv certFile keyFile cw cw' err :
  ReadCertificate certFile keyFile cw = Ret (cw', err) -> Inv cw -> Inv cw'.
Proof.
  intros Er [Hl Hc Hp].
  destruct (ReadCertificate_run certFile keyFile cw Hl) as
    [[e E]|(c & k & cert & _ & _ & Ex & [(E & _ & _)|E])]; rewrite E in Er; simplify_eq;
    [by split|by split|].
  destruct (callback cw) as [cb|] eqn:Ecb; split; cbn; try (by exists cert, c).
  - intros cb' cert' _ [= <-]. left. set_solver.
  - intros _. by exists cb.
  - by rewrite Ecb.
  - by rewrite Ecb.
Qed.

Lemma cstep_inv cw cw' : cstep cw cw' -> Inv cw -> Inv cw'.
Proof.
  destruct 1 as [cf kf cw cw' err Er|ev cf kf cw cw' Ee|cb cw cw' Er|i cw cw' Er]; intros Hi.
  - by eapply read_inv.
  - unfold handleEvent in Ee. destruct (reactsTo ev).2; [|by simplify_eq].
    destruct (ReadCertificate cf kf cw) as [[cw1 err]|w] eqn:Er; [|done]. cbn in Ee.
    injection Ee as <-. by eapply read_inv.
  - destruct Hi as [Hl Hc Hp]. pose proof Hl as (cert & c & Ecur & _). unfold RegisterCallback in Er.
    rewrite Ecur in Er. destruct cb as [cb|]; [|done]. injection Er as <-. split; cbn; [done| |].
    + intros cb' cert' [= <-] E. rewrite Ecur in E. injection E as <-. right. set_solver.
    + intros _. by exists cb.
  - destruct Hi as [Hl Hc Hp]. unfold runCallback in Er.
    destruct (pending cw !! i) as [cert|] eqn:Ei; [|by simplify_eq].
    destruct (callback cw) as [cb|] eqn:Ecb; [|done]. injection Er as <-.
    split; cbn; [done| |].
    + intros cb' cert' E Ecur.
      destruct (Hc cb' cert' E Ecur) as [Hin|Hin]; [|right; set_solver].
      rewrite <- (take_drop_middle _ _ _ Ei) in Hin. rewrite delete_take_drop.
      injection E as <-.
      apply elem_of_app in Hin as [?|[->|?]%elem_of_cons]; [left|right|left]; set_solver.
    + intros _. by exists cb.
Qed.

Lemma watched_inv cw : reachable cw -> Inv cw.
Proof.
  intros (cp & kp & cf & kf & cw0 & Hn & Hr).
  assert (H0 : Inv cw0).
  { unfold New, ReadCertificate in Hn. destruct cf as [e|c]; [done|]. destruct kf as [e|k]; [done|].
    destruct (X509KeyPair c k) as [e|cert] eqn:Ex; [done|]. cbn in Hn. simplify_eq.
    split; cbn; [|done|done]. by exists cert, c. }
  clear Hn. induction Hr as [|cw1 cw2 cw3 Hs Hr IH]; [done|]. by eapply IH, cstep_inv.
Qed.

(** C33. In every state the watcher can get to: it has a certificate, one that was loaded with the key cached
    beside it; a registered callback has been called with the certificate in use, or a goroutine that
    will do so has started; and neither a read nor such a goroutine panics. *)
Theorem watcher_invariant cw :
  reachable cw ->
  (exists cert certPEM, currentCert cw = Some cert /\
     X509KeyPair certPEM (cachedKeyPEMBlock cw) = inr cert) /\
  (forall cb cert, callback cw = Some cb -> currentCert cw = Some cert ->
     cert ∈ pending cw \/ (cb, cert) ∈ called cw) /\
  (forall certFile keyFile, is_panic (ReadCertificate certFile keyFile cw) = false) /\
  (forall i, is_panic (runCallback i cw) = false).
Proof.
  intros [Hl Hc Hp]%watched_inv. split_and!; [done|done| |].
  - intros cf kf.
    by destruct (ReadCertificate_run cf kf cw Hl) as
      [[e ->]|(c & k & cert & _ & _ & _ & [(-> & _ & _)| ->])].
  - intros i. unfold runCallback. destruct (pending cw !! i) as [cert|] eqn:Ei; [|done].
    destruct Hp as [cb ->]; [|done]. by intros E; rewrite E in Ei.
Qed.

(** A failed read, whatever fails, leaves the certificate in use, the key and the callbacks. *)
Theorem failed_read_keeps certFile keyFile cw cw' err :
  ReadCertificate certFile keyFile cw = Ret (cw', Some err) -> cw' = addRead 1 1 cw.
Proof.
  unfold ReadCertificate. destruct certFile as [e|c]; [by intros [= <-]|].
  destruct keyFile as [e|k]; [by intros [= <-]|].
  destruct (X509KeyPair c k) as [e|cert]; [by intros [= <-]|].
  destruct (updateCachedCertificate _ _ _) as [[cw1 b]|w]; [|done]. cbn.
  destruct b; [|done]. cbn. by destruct (callback cw1).
Qed.

(** A new chain under the same leaf and key is not taken over. *)
Theorem chain_change_ignored c k cert cert0 cw :
  currentCert cw = Some cert0 -> X509KeyPair c k = inr cert -> k = cachedKeyPEMBlock cw ->
  head (Certificate cert0) = head (Certificate cert) -> Certificate cert0 <> [] ->
  ReadCertificate (inr c) (inr k) cw = Ret (addRead 1 0 cw, None).
Proof.
  intros Ecur Ex -> Eh Hne. unfold ReadCertificate. rewrite Ex. unfold updateCachedCertificate, leaf.
  change (currentCert (addRead 1 0 cw)) with (currentCert cw). rewrite Ecur.
  destruct (Certificate cert0) as [|a l0], (Certificate cert) as [|b l]; try done.
  injection Eh as <-. cbn. by rewrite !String.eqb_refl.
Qed.

(** Renamed files: the comment has them watched again, but an event of a rename alone is ignored. *)
Theorem rename_ignored certFile keyFile cw :
  reactsTo (mkFsEvent false false false false true) = (false, false) /\
  handleEvent (mkFsEvent false false false false true) certFile keyFile cw = Ret cw.
Proof. done. Qed.

End CertWatcher.
Arguments TLSCertificate Rest : clear implicits.
Arguments CertWatcherT CB Rest : clear implicits.
End CertWatcher.
