(* ===== verification/CertWatch.v ===== *)
(** * pkg/certwatcher: Start and Watch

    The watcher at work, over the operations of file CertWatcher: the attempts of [Start] to have the two
    files watched, then its loop over the ticker and the goroutine [Watch] over the channels of the
    file-system watcher, while the files on the disk change.  A tick is served as soon as it is due. *)

From S2P Require Import Prelude GoTime Errors CertWatcher.
Import GoTime Errors CertWatcher.

Module CertWatch.

(** ** The watches *)

(** One attempt: the order in which the set of files comes, and what adding each of them gives. *)
Record attempt : Type := mkAttempt { UnsortedList : list string; addResult : string -> option error }.

(** The loop of the condition: the files left and the error of the one that could not be added. *)
Fixpoint addWatches (add : string -> option error) (l : list string) (files : gset string)
  : gset string * option error :=
  match l with
  | [] => (files, None)
  | f :: l =>
    match add f with
    | Some err => (files, Some err)
    | None => addWatches add l (files ∖ {[ f ]})
    end
  end.

(** [PollUntilContextTimeout] on that condition: it is tried until it is done; false when the attempts
    are over, by the timeout or the context.  Also the files left and the last error. *)
Fixpoint pollWatches (attempts : list attempt) (files : gset string) (watchErr : option error)
  : bool * gset string * option error :=
  match attempts with
  | [] => (false, files, watchErr)
  | a :: attempts =>
    match addWatches (addResult a) (UnsortedList a) files with
    | (files, None) => (true, files, watchErr)
    | (files, Some err) => pollWatches attempts files (Some err)
    end
  end.

Section Watch.
Context {CB Rest : Type} (X509KeyPair : string -> string -> error + TLSCertificate Rest).
Context (NewAggregate : list (option error) -> error).
#[local] Abbreviation file := (error + string)%type.

(** [Start] before its loop; [pollErr] is the error of a poll that was given up. *)
Definition addFiles (attempts : list attempt) (pollErr : error) (cw : CertWatcherT CB Rest)
  : option error :=
  match pollWatches attempts {[ certPath cw; keyPath cw ]} None with
  | (true, _, _) => None
  | (false, _, watchErr) =>
    Some (errorfW "failed to add watches" (NewAggregate [Some pollErr; watchErr]))
  end.

(** ** The loops *)

(** The disk, the time it was changed last, the last tick, and where the two goroutines are: [started] in
    the loop of [Start], [watching] in that of [Watch]; the file-system watcher is open until [Start]
    returns. *)
Record WatchState : Type := mkWatch {
  watcher : CertWatcherT CB Rest;
  disk : file * file;
  changedAt : Z;
  tickedAt : Z;
  clock : Z;
  started : bool;
  watching : bool
}.

(** When the ticker fires next. *)
Definition due (s : WatchState) : Z := tickedAt s + interval (watcher s).

Definition withWatcher (cw : CertWatcherT CB Rest) (s : WatchState) : WatchState :=
  mkWatch cw (disk s) (changedAt s) (tickedAt s) (clock s) (started s) (watching s).

(** The case [<-ticker.C] of [Start]: errors are logged. *)
Definition onTick (s : WatchState) : outcome WatchState :=
  r ← ReadCertificate X509KeyPair (disk s).1 (disk s).2 (watcher s);
  Ret (mkWatch r.1 (disk s) (changedAt s) (due s) (clock s) (started s) (watching s)).

(** The case [<-cw.watcher.Events] of [Watch]. *)
Definition onEvent (event : fsEvent) (s : WatchState) : outcome WatchState :=
  cw ← handleEvent X509KeyPair event (disk s).1 (disk s).2 (watcher s); Ret (withWatcher cw s).

Inductive wstep : WatchState -> WatchState -> Prop :=
| w_time t s :
    clock s <= t -> (started s = true -> t <= due s) ->
    wstep s (mkWatch (watcher s) (disk s) (changedAt s) (tickedAt s) t (started s) (watching s))
| w_disk d s : wstep s (mkWatch (watcher s) d (clock s) (tickedAt s) (clock s) (started s) (watching s))
| w_tick s s' : started s = true -> clock s = due s -> onTick s = Ret s' -> wstep s s'
| w_done s :
    started s = true ->
    wstep s (mkWatch (watcher s) (disk s) (changedAt s) (tickedAt s) (clock s) false (watching s))
| w_event event s s' :
    started s = true -> watching s = true -> onEvent event s = Ret s' -> wstep s s'
| w_error s : started s = true -> watching s = true -> wstep s s
| w_closed s :
    started s = false -> watching s = true ->
    wstep s (mkWatch (watcher s) (disk s) (changedAt s) (tickedAt s) (clock s) false false)
| w_register cb cw s : RegisterCallback cb (watcher s) = Ret cw -> wstep s (withWatcher cw s)
| w_run i cw s : runCallback i (watcher s) = Ret cw -> wstep s (withWatcher cw s).

(** [Start] has added the watches at time [t], on a watcher that [New] made and other goroutines may have
    used since. *)
Definition begins (cw : CertWatcherT CB Rest) (d : file * file) (t : Z) : WatchState :=
  mkWatch cw d t t t true true.

(** ** What is watched *)

Lemma addWatches_spec add l : forall files left err,
  addWatches add l files = (left, err) ->
  (err = None -> left = files ∖ list_to_set l) /\ left ⊆ files /\
  (forall f, f ∈ files -> (f ∉ left) -> add f = None).
Proof.
  induction l as [|f l IH]; intros files left err; cbn [addWatches].
  { intros [= <- <-]. split_and!; [set_solver|done|by intros f Hf Hn]. }
  destruct (add f) as [e|] eqn:Ef; [intros [= <- <-]; split_and!; [done|done|by intros g Hg Hn]|].
  intros Ha. destruct (IH _ _ _ Ha) as (Hl & Hsub & Hadd). split_and!.
  - intros He. rewrite (Hl He). set_solver.
  - set_solver.
  - intros g Hg Hn. destruct (decide (g = f)) as [->|Hne]; [done|]. apply Hadd; [set_solver|done].
Qed.

(** The set comes in any order, complete. *)
Fixpoint orderly (attempts : list attempt) (files : gset string) : Prop :=
  match attempts with
  | [] => True
  | a :: attempts =>
    list_to_set (UnsortedList a) = files /\
    orderly attempts (addWatches (addResult a) (UnsortedList a) files).1
  end.

(** When [Start] goes on, some attempt had a success for each of the files; a file is tried again after a
    failure, and never after its success; giving up, the error carries the last failure. *)
Theorem watches_added attempts : forall files watchErr done_ left err,
  orderly attempts files -> pollWatches attempts files watchErr = (done_, left, err) ->
  left ⊆ files /\ (done_ = true -> left = ∅) /\
  (forall f, f ∈ files -> f ∉ left -> exists a, a ∈ attempts /\ addResult a f = None) /\
  (done_ = false -> attempts <> [] -> is_Some err).
Proof.
  induction attempts as [|a attempts IH]; intros files watchErr done_ left err Ho; cbn [pollWatches].
  { intros [= <- <- <-]. split_and!; [done|done|by intros f Hf Hn|done]. }
  destruct Ho as [Hset Ho].
  destruct (addWatches (addResult a) (UnsortedList a) files) as [files' e] eqn:Ea.
  destruct (addWatches_spec _ _ _ _ _ Ea) as (Hall & Hsub & Hadd). cbn [fst] in Ho.
  destruct e as [e|].
  - intros Hp. destruct (IH _ _ _ _ _ Ho Hp) as (Hs & Hd & Hf & He). split_and!; [set_solver|done| |].
    + intros f Hin Hn. destruct (decide (f ∈ files')) as [Hin'|Hn'].
      * destruct (Hf f Hin' Hn) as (b & Hb & Eb). exists b. split; [by right|done].
      * exists a. split; [by left|by apply Hadd].
    + intros Hfalse _. destruct attempts as [|b attempts]; [|by apply He].
      cbn in Hp. injection Hp as _ _ <-. by eexists.
  - intros [= <- <- <-]. rewrite (Hall eq_refl), Hset in *. split_and!; [set_solver|set_solver| |done].
    intros f Hf Hn. exists a. split; [by left|by apply Hadd].
Qed.

(** ** What is served *)

Hypothesis X509KeyPair_leaf : forall c k cert, X509KeyPair c k = inr cert -> Certificate cert <> [].
#[local] Abbreviation Inv := (Inv X509KeyPair).

(** What the files hold is in use, if they can be loaded. *)
Definition fresh (d : file * file) (cw : CertWatcherT CB Rest) : Prop := forall c k cert,
  d = (inr c, inr k) -> X509KeyPair c k = inr cert ->
  cachedKeyPEMBlock cw = k /\ exists cur, currentCert cw = Some cur /\ leaf cur = leaf cert.

Lemma read_fresh cf kf cw cw' err :
  Inv cw -> ReadCertificate X509KeyPair cf kf cw = Ret (cw', err) ->
  fresh (cf, kf) cw' /\ interval cw' = interval cw.
Proof.
  intros Hi Er.
  destruct (ReadCertificate_run X509KeyPair X509KeyPair_leaf cf kf cw (inv_loaded _ _ Hi))
    as [[e E]|(c & k & cert & -> & -> & Ex & [(E & -> & cert0 & Ecur & El)|E])];
    rewrite E in Er; injection Er as <- Ee.
  - split; [|done]. intros c k cert [= -> ->] Ex. exfalso. revert E. unfold ReadCertificate. rewrite Ex.
    destruct (updateCachedCertificate _ _ _) as [[cw1 b]|w]; [|done]. cbn. destruct b; [|done]. cbn.
    by destruct (callback cw1).
  - split; [|done]. intros c' k' cert' [= <- <-] Ex'. rewrite Ex in Ex'. injection Ex' as <-.
    split; [done|]. exists cert0. by split.
  - split; [|by destruct (callback cw)]. intros c' k' cert' [= <- <-] Ex'. rewrite Ex in Ex'.
    injection Ex' as <-. destruct (callback cw); (split; [done|]; by exists cert).
Qed.

(** The calls of other goroutines leave the certificate alone. *)
Lemma others_fresh d cw cw' :
  (exists cb, RegisterCallback cb cw = Ret cw') \/ (exists i, runCallback i cw = Ret cw') ->
  (fresh d cw -> fresh d cw') /\ interval cw' = interval cw.
Proof.
  intros [[cb E]|[i E]]; revert E; unfold RegisterCallback, runCallback.
  - destruct (currentCert cw) as [cert|] eqn:Ec; [destruct cb as [f|]; [|done]|]; intros [= <-];
      (split; [|done]); intros Hf c k x Hd Hx; cbn; rewrite <- ?Ec; exact (Hf c k x Hd Hx).
  - destruct (pending cw !! i); [|by intros [= <-]]. destruct (callback cw); [|done]. by intros [= <-].
Qed.

Lemma event_fresh event d cw cw' :
  Inv cw -> handleEvent X509KeyPair event d.1 d.2 cw = Ret cw' ->
  (fresh d cw -> fresh d cw') /\ interval cw' = interval cw.
Proof.
  intros Hi. unfold handleEvent. destruct (reactsTo event).2; [|by intros [= <-]].
  destruct (ReadCertificate _ _ _ cw) as [[cw1 err]|w] eqn:Er; [|done]. intros [= <-].
  destruct (read_fresh _ _ _ _ _ Hi Er) as [Hf Ei]. destruct d. by split.
Qed.

(** The certificate is fresh, or the files changed after the last tick, and the next is not overdue. *)
Record WInv (s : WatchState) : Prop := {
  w_inv : Inv (watcher s);
  w_interval : 0 < interval (watcher s);
  w_ticked : tickedAt s <= clock s;
  w_due : started s = true -> clock s <= due s;
  w_fresh : started s = true -> fresh (disk s) (watcher s) \/ tickedAt s <= changedAt s
}.

Lemma wstep_inv s s' : wstep s s' -> WInv s -> WInv s'.
Proof.
  destruct 1 as [t s Ht Hd|d s|s s' Hst Hdue E|s Hst|ev s s' Hst Hw E|s Hst Hw|s Hst Hw|cb cw s E|i cw s E];
    intros [Hi Hint Htk Hdu Hf].
  - split; cbn; [done|done|lia|exact Hd|done].
  - split; cbn; [done|done|done|done|]. intros Hs. right. lia.
  - unfold onTick in E. destruct (ReadCertificate _ _ _ _) as [[cw err]|w] eqn:Er; [|done].
    injection E as <-. destruct (read_fresh _ _ _ _ _ Hi Er) as [Hfr Ei].
    split; cbn -[fresh]; [by eapply read_inv|lia|lia| |].
    + intros _. unfold due at 1. cbn. lia.
    + intros _. left. by destruct (disk s).
  - split; cbn; done.
  - unfold onEvent in E. destruct (handleEvent _ _ _ _ _) as [cw|w] eqn:Ee; [|done]. injection E as <-.
    destruct (event_fresh _ _ _ _ Hi Ee) as [Hfr Ei].
    split; cbn; [eapply cstep_inv; [exact X509KeyPair_leaf|by eapply c_event|done]|lia|done| |].
    + intros Hs. specialize (Hdu Hs). unfold due in *. cbn. lia.
    + intros Hs. destruct (Hf Hs); [left; by apply Hfr|by right].
  - done.
  - split; cbn; done.
  - destruct (others_fresh (disk s) (watcher s) cw) as [Hfr Ei]; [left; by exists cb|].
    split; cbn; [eapply cstep_inv; [exact X509KeyPair_leaf|by eapply c_register|done]|lia|done| |].
    + intros Hs. specialize (Hdu Hs). unfold due in *. cbn. lia.
    + intros Hs. destruct (Hf Hs); [left; by apply Hfr|by right].
  - destruct (others_fresh (disk s) (watcher s) cw) as [Hfr Ei]; [right; by exists i|].
    split; cbn; [eapply cstep_inv; [exact X509KeyPair_leaf|by eapply c_run|done]|lia|done| |].
    + intros Hs. specialize (Hdu Hs). unfold due in *. cbn. lia.
    + intros Hs. destruct (Hf Hs); [left; by apply Hfr|by right].
Qed.

(** C34. While [Start] is in its loop, a pair that has been in the files for longer than the interval is served,
    whether or not the file system announced it: the key is the cached one, and the certificate in use
    has its leaf. *)
Theorem disk_taken_over i cw d t s :
  reachable X509KeyPair cw -> 0 < i ->
  rtc wstep (begins (WithWatchInterval i cw) d t) s -> started s = true ->
  changedAt s + interval (watcher s) < clock s ->
  forall c k cert, disk s = (inr c, inr k) -> X509KeyPair c k = inr cert ->
  cachedKeyPEMBlock (watcher s) = k /\
  exists cur, GetCertificate (watcher s) = Some cur /\ leaf cur = leaf cert.
Proof.
  intros Hcw Hi Hr Hst Hlate.
  assert (Hinv : WInv s).
  { assert (H0 : WInv (begins (WithWatchInterval i cw) d t)).
    { pose proof (watched_inv X509KeyPair X509KeyPair_leaf cw Hcw) as [Hl Hc Hp].
      split; cbn; [by split|done|lia| |by right]. intros _. unfold due. cbn. lia. }
    clear Hlate Hst. induction Hr as [|s1 s2 s3 Hs Hr IH]; [done|]. by eapply IH, wstep_inv. }
  destruct Hinv as [_ _ _ Hdue Hf]. specialize (Hdue Hst). unfold due in Hdue.
  destruct (Hf Hst) as [Hfr|]; [exact Hfr|lia].
Qed.

End Watch.
End CertWatch.
