(* ===== verification/MetricsServer.v ===== *)
(** * pkg/metrics/server: the server that serves the metrics

    Its options and their defaults, its creation, the handlers added to it, and what [Start] installs
    before it serves.  Go maps are shared by reference: [ExtraHandlers] is an address in a heap of
    maps, so that servers made from the same options, or copied, can be told apart.  Serving is
    in file MetricsServe; listeners and TLS are [net/http] and [crypto/tls]. *)

From S2P Require Import Prelude Errors GoStrings.
Import Errors GoStrings.

Module MetricsServer.

(** Handlers of any type [H], the configuration of TLS with any certificate source [C]. *)
Section MetricsServer.
Context {H C : Type}.

Definition defaultMetricsEndpoint : string := "/metrics".
Definition DefaultBindAddress : string := ":8080".

(** A filter wraps a handler, or fails; the path is that of the logger it gets. *)
Definition Filter : Type := string -> H -> error + H.

#[local] Abbreviation loc := positive.
#[local] Abbreviation heap := (gmap positive (gmap string H)).

(** [FilterProvider]: what the function gives when it is set.  [TLSOpts]: each may set the source of
    certificates of the configuration. *)
Record Options : Type := mkOptions {
  SecureServing : bool;
  BindAddress : string;
  ExtraHandlers : option loc;
  FilterProvider : option (error + Filter);
  CertDir : string;
  CertName : string;
  KeyName : string;
  TLSOpts : list (option C -> option C)
}.

(** [tempDir]: [os.TempDir()]; joining paths puts a slash between them, as it does where there is
    nothing to clean. *)
Definition setDefaults (tempDir : string) (o : Options) : Options :=
  let orElse s d := if String.eqb s EmptyString then d else s in
  mkOptions (SecureServing o) (orElse (BindAddress o) DefaultBindAddress) (ExtraHandlers o)
    (FilterProvider o)
    (orElse (CertDir o) (tempDir +:+ "/k8s-metrics-server/serving-certs"))
    (orElse (CertName o) "tls.crt") (orElse (KeyName o) "tls.key") (TLSOpts o).

(** [log]: whether a logger was set. *)
Record defaultServer : Type := mkServer {
  options : Options;
  metricsFilter : option Filter;
  bindAddr : string;
  log : bool
}.

Definition handlers (h : heap) (s : defaultServer) : gmap string H :=
  default ∅ (l ← ExtraHandlers (options s); h !! l).

(** [inr None]: metrics are disabled, there is no server. *)
Definition NewServer (tempDir : string) (o : Options) (h : heap) : error + option defaultServer :=
  let o := setDefaults tempDir o in
  if String.eqb (BindAddress o) "0" then inr None else
  if bool_decide (is_Some (l ← ExtraHandlers o; m ← h !! l; m !! defaultMetricsEndpoint))
  then inl (New ("overriding builtin " +:+ defaultMetricsEndpoint +:+ " endpoint is not allowed")) else
  match FilterProvider o with
  | Some (inl err) =>
    inl (errorfW "filter provider failed to create filter for the metrics server" err)
  | Some (inr f) => inr (Some (mkServer o (Some f) EmptyString false))
  | None => inr (Some (mkServer o None EmptyString false))
  end.

Definition withHandlers (l : option loc) (o : Options) : Options :=
  mkOptions (SecureServing o) (BindAddress o) l (FilterProvider o) (CertDir o) (CertName o)
    (KeyName o) (TLSOpts o).

(** The copy has a map of its own. *)
Definition WithLogger (s : defaultServer) (h : heap) : defaultServer * heap :=
  match ExtraHandlers (options s) with
  | None => (mkServer (options s) (metricsFilter s) (bindAddr s) true, h)
  | Some _ =>
    let l := fresh (dom h) in
    (mkServer (withHandlers (Some l) (options s)) (metricsFilter s) (bindAddr s) true,
     <[ l := handlers h s ]> h)
  end.

Definition NeedLeaderElection (_ : defaultServer) : bool := false.
Definition GetBindAddr (s : defaultServer) : string := bindAddr s.

(** The error, if any, the server and the heap. *)
Definition AddExtraHandler (path : string) (handler : H) (s : defaultServer) (h : heap)
  : option error * (defaultServer * heap) :=
  let '(l, h) := match ExtraHandlers (options s) with
                 | Some l => (l, h)
                 | None => (fresh (dom h), <[ fresh (dom h) := ∅ ]> h)
                 end in
  let s := mkServer (withHandlers (Some l) (options s)) (metricsFilter s) (bindAddr s) (log s) in
  let m := default ∅ (h !! l) in
  if String.eqb path defaultMetricsEndpoint then
    (Some (New ("overriding builtin " +:+ defaultMetricsEndpoint +:+ " endpoint is not allowed")), (s, h))
  else match m !! path with
       | Some _ =>
         (Some (New ("can't register extra handler by duplicate path " +:+ Quote path +:+
                     " on metrics http server")), (s, h))
       | None => (None, (s, <[ l := <[ path := handler ]> m ]> h))
       end.

(** ** What Start installs *)

(** A pattern that is a plain path: it begins with a slash and has none of the characters that give a
    pattern a method (blanks), wildcards (a brace) or escapes (a percent sign). *)
Fixpoint literal (s : string) : bool :=
  match s with
  | EmptyString => true
  | String c s =>
    negb (Ascii.eqb c " " || Ascii.eqb c (ascii_of_N 9) || Ascii.eqb c "{" || Ascii.eqb c "%") && literal s
  end.
Definition plainPath (pattern : string) : bool :=
  match pattern with
  | EmptyString => false
  | String c _ => Ascii.eqb c "/" && literal pattern
  end.

(** [ServeMux.Handle] of a handler that is not nil.  A plain path conflicts with an equal pattern only; what
    becomes of other patterns, the empty one apart, depends on the patterns' syntax and on each other:
    [handleOther]. *)
Context (handleOther : string -> H -> gmap string H -> outcome (gmap string H)).

Definition Handle (pattern : string) (handler : H) (mux : gmap string H) : outcome (gmap string H) :=
  if String.eqb pattern EmptyString then Panic "http: invalid pattern" else
  if negb (forallb plainPath (pattern :: (map_to_list mux).*1)) then handleOther pattern handler mux else
  match mux !! pattern with
  | Some _ => Panic "pattern conflicts with an earlier one"
  | None => Ret (<[ pattern := handler ]> mux)
  end.

Definition filtered (s : defaultServer) (path : string) (handler : H) : error + H :=
  match metricsFilter s with None => inr handler | Some f => f path handler end.

(** The loop over the extra handlers, in the order the map is iterated in. *)
Fixpoint installExtra (s : defaultServer) (extra : list (string * H)) (mux : gmap string H)
  : outcome (error + gmap string H) :=
  match extra with
  | [] => Ret (inr mux)
  | (path, extraHandler) :: extra =>
    match filtered s path extraHandler with
    | inl err =>
      Ret (inl (errorfW ("failed to start metrics server: failed to add metrics filter to extra " +:+
                         "handler for path " +:+ path) err))
    | inr extraHandler =>
      mux ← Handle path extraHandler mux;
      installExtra s extra mux
    end
  end.

(** [Start] up to [Serve]: the mux it serves.  [listener]: what creating the listener gives, the address
    it listens on. *)
Definition startMux (s : defaultServer) (listener : error + string) (promHandler : H)
  (extra : list (string * H)) : outcome (error + (defaultServer * gmap string H)) :=
  if negb (log s) then Panic "invalid memory address or nil pointer dereference" else
  match listener with
  | inl err =>
    Ret (inl (errorfW "failed to start metrics server: failed to create listener" err))
  | inr addr =>
    let s := mkServer (options s) (metricsFilter s) addr (log s) in
    match filtered s defaultMetricsEndpoint promHandler with
    | inl err => Ret (inl (errorfW "failed to start metrics server: failed to add metrics filter" err))
    | inr handler =>
      mux ← Handle defaultMetricsEndpoint handler ∅;
      r ← installExtra s extra mux;
      mret (match r with inl err => inl err | inr mux => inr (s, mux) end)
    end
  end.

(** ** The listener *)

Inductive listener : Type :=
| PlainListener (addr : string)
| TLSListener (addr : string) (source : certSource)
with certSource : Type :=
| FromOptions (c : C)
| FromWatcher (certPath keyPath : string)
| SelfSigned.

(** What the outside gives: whether a file does not exist; the watcher's creation, the self-signed pair,
    and listening on an address. *)
Record surroundings : Type := mkSurroundings {
  isNotExist : string -> bool;
  newCertWatcher : string -> string -> option error;
  selfSigned : option error;
  keyPair : option error;
  listen : string -> option error
}.

Definition createListener (w : surroundings) (s : defaultServer) : error + listener :=
  let o := options s in
  let listenThen l := match listen w (BindAddress o) with Some err => inl err | None => inr l end in
  if negb (SecureServing o) then listenThen (PlainListener (BindAddress o)) else
  match foldl (fun cfg op => op cfg) None (TLSOpts o) with
  | Some c => listenThen (TLSListener (BindAddress o) (FromOptions c))
  | None =>
    let certPath := CertDir o +:+ "/" +:+ CertName o in
    let keyPath := CertDir o +:+ "/" +:+ KeyName o in
    if negb (isNotExist w certPath) && negb (isNotExist w keyPath) then
      match newCertWatcher w certPath keyPath with
      | Some err => inl err
      | None => listenThen (TLSListener (BindAddress o) (FromWatcher certPath keyPath))
      end
    else
      match selfSigned w, keyPair w with
      | Some err, _ =>
        inl (errorfW "failed to generate self-signed certificate for metrics server" err)
      | None, Some err =>
        inl (errorfW "failed to create self-signed key pair for metrics server" err)
      | None, None => listenThen (TLSListener (BindAddress o) SelfSigned)
      end
  end.

(** ** Handlers *)

Implicit Types (s : defaultServer) (h : heap) (o : Options).

(** The map of a server, if it has one, is in the heap. *)
Definition allocated (h : heap) (s : defaultServer) : Prop :=
  match ExtraHandlers (options s) with Some l => is_Some (h !! l) | None => True end.

Lemma handlers_some h s l : ExtraHandlers (options s) = Some l -> handlers h s = default ∅ (h !! l).
Proof. unfold handlers. by intros ->. Qed.

(** Adding a handler: it is served at its path from then on, unless the path is the built-in one or is
    taken, which is reported and leaves the handlers; no other server is touched but those that share
    the map. *)
Theorem AddExtraHandler_spec path x s h err s' h' :
  allocated h s -> AddExtraHandler path x s h = (err, (s', h')) ->
  allocated h' s' /\
  handlers h' s' = (match err with Some _ => handlers h s | None => <[ path := x ]> (handlers h s) end) /\
  (err = None <-> path <> defaultMetricsEndpoint /\ handlers h s !! path = None) /\
  (forall s2, allocated h s2 -> ExtraHandlers (options s2) <> ExtraHandlers (options s) ->
     handlers h' s2 = handlers h s2).
Proof.
  unfold AddExtraHandler, allocated. destruct (ExtraHandlers (options s)) as [l|] eqn:El.
  - intros [m Em]. cbv beta iota zeta. rewrite (handlers_some h s l El), Em. cbn [from_option id].
    destruct (String.eqb path defaultMetricsEndpoint) eqn:Ep; bool_to_prop.
    + intros E; simplify_eq. unfold handlers. cbn. rewrite Em. naive_solver.
    + destruct (m !! path) as [y|] eqn:Ey; intros E; simplify_eq; unfold handlers; cbn.
      * rewrite Em. naive_solver.
      * rewrite lookup_insert_eq. split_and!; [by eexists|done|done|]. intros s2 H2 Hne.
        destruct (ExtraHandlers (options s2)) as [l2|]; [|done]. cbn.
        by rewrite lookup_insert_ne by congruence.
  - intros _. set (l := fresh (dom h)). assert (Hl : h !! l = None).
    { apply not_elem_of_dom. apply is_fresh. }
    cbv beta iota zeta. rewrite lookup_insert_eq. cbn [from_option id]. unfold handlers at 2 3 4. rewrite El. cbn.
    assert (Hother : forall s2 m, match ExtraHandlers (options s2) with
        Some l => is_Some (h !! l) | None => True end ->
      default ∅ (ExtraHandlers (options s2) ≫= fun l2 => <[ l := m ]> h !! l2) = handlers h s2).
    { intros s2 m H2. unfold handlers. destruct (ExtraHandlers (options s2)) as [l2|]; [|done]. cbn.
      rewrite lookup_insert_ne; [done|]. intros <-. by rewrite Hl in H2; destruct H2. }
    destruct (String.eqb path defaultMetricsEndpoint) eqn:Ep; bool_to_prop.
    + intros E; simplify_eq. unfold handlers at 1 2. cbn. rewrite lookup_insert_eq. naive_solver.
    + rewrite lookup_empty, insert_insert_eq. intros E; simplify_eq. unfold handlers at 1 2. cbn.
      rewrite lookup_insert_eq.
      naive_solver.
Qed.

Lemma handlers_nil h s : ExtraHandlers (options s) = None -> handlers h s = ∅.
Proof. unfold handlers. by intros ->. Qed.

(** The copy [WithLogger] makes starts with the handlers of the original, and from then on additions to
    the one do not show in the other. *)
Theorem WithLogger_isolated s h s' h' :
  allocated h s -> WithLogger s h = (s', h') ->
  allocated h' s' /\ allocated h' s /\ handlers h' s' = handlers h s /\ handlers h' s = handlers h s /\
  (forall path x err s2 h2, AddExtraHandler path x s' h' = (err, (s2, h2)) ->
     handlers h2 s = handlers h s) /\
  (forall path x err s2 h2, AddExtraHandler path x s h' = (err, (s2, h2)) ->
     handlers h2 s' = handlers h s).
Proof.
  intros Ha Hw. unfold WithLogger in Hw.
  destruct (ExtraHandlers (options s)) as [l|] eqn:El; simplify_eq.
  - set (l' := fresh (dom h)) in *. assert (Hl' : h !! l' = None).
    { apply not_elem_of_dom. apply is_fresh. }
    set (s' := mkServer _ _ _ _). set (h' := <[l' := handlers h s]> h).
    assert (Hne : l' <> l).
    { intros E. unfold allocated in Ha. rewrite El, <- E, Hl' in Ha. by destruct Ha. }
    assert (E1 : handlers h' s' = handlers h s).
    { rewrite (handlers_some h' s' l') by done. unfold h'. by rewrite lookup_insert_eq. }
    assert (E2 : handlers h' s = handlers h s).
    { rewrite !(handlers_some _ s l El). unfold h'. by rewrite lookup_insert_ne. }
    assert (A1 : allocated h' s') by (unfold allocated, h'; cbn; rewrite lookup_insert_eq; by eexists).
    assert (A2 : allocated h' s).
    { unfold allocated in *. rewrite El in *. unfold h'. by rewrite lookup_insert_ne. }
    split_and!; try done.
    + intros path x err s2 h2 (_ & _ & _ & Hs)%AddExtraHandler_spec; [|done].
      rewrite Hs, E2; [done..|]. rewrite El. cbn. congruence.
    + intros path x err s2 h2 (_ & _ & _ & Hs)%AddExtraHandler_spec; [|done].
      rewrite Hs, E1; [done..|]. rewrite El. cbn. congruence.
  - set (s' := mkServer _ _ _ _). split_and!; try done; intros path x err s2 h2 _;
      by rewrite !handlers_nil.
Qed.

(** A server as its interface gives it, and the heap: made, copied with a logger, or with handlers added. *)
Inductive api : heap -> defaultServer -> Prop :=
| api_new tempDir o h s :
    match ExtraHandlers o with Some l => is_Some (h !! l) | None => True end ->
    NewServer tempDir o h = inr (Some s) -> api h s
| api_add path x s h err s' h' :
    api h s -> AddExtraHandler path x s h = (err, (s', h')) -> api h' s'
| api_log s h s' h' : api h s -> WithLogger s h = (s', h') -> api h' s'.

Lemma NewServer_spec tempDir o h s :
  NewServer tempDir o h = inr (Some s) ->
  ExtraHandlers (options s) = ExtraHandlers o /\ handlers h s !! defaultMetricsEndpoint = None.
Proof.
  unfold NewServer. set (o' := setDefaults tempDir o).
  assert (Eo : ExtraHandlers o' = ExtraHandlers o) by done.
  destruct (String.eqb (BindAddress o') "0"); [done|].
  case_bool_decide as Hn; [done|]. intros Hs.
  assert (Es : options s = o') by (destruct (FilterProvider o') as [[]|]; by simplify_eq).
  rewrite Es, Eo. split; [done|]. unfold handlers. rewrite Es.
  destruct (ExtraHandlers o') as [l|]; [|done]. cbn in *. destruct (h !! l) as [m|]; [|done].
  cbn in *. by apply eq_None_not_Some.
Qed.

Lemma api_handlers h s :
  api h s -> allocated h s /\ handlers h s !! defaultMetricsEndpoint = None.
Proof.
  induction 1 as [tempDir o h s Ha Hn|path x s h err s' h' _ [Ha Hn] Hadd|s h s' h' _ [Ha Hn] Hw].
  - destruct (NewServer_spec _ _ _ _ Hn) as [Eo ?]. unfold allocated. by rewrite Eo.
  - destruct (AddExtraHandler_spec _ _ _ _ _ _ _ Ha Hadd) as (Ha' & Eh & Herr & _).
    split; [done|]. rewrite Eh. destruct err as [e|]; [done|].
    destruct (proj1 Herr eq_refl) as [Hp _]. by rewrite lookup_insert_ne.
  - destruct (WithLogger_isolated _ _ _ _ Ha Hw) as (? & _ & E & _). by rewrite E.
Qed.

(** ** What is served *)

Definition plainMux (mux : gmap string H) : Prop := forall p, is_Some (mux !! p) -> plainPath p = true.

Lemma Handle_new pattern x (mux : gmap string H) :
  plainPath pattern = true -> plainMux mux -> mux !! pattern = None ->
  Handle pattern x mux = Ret (<[ pattern := x ]> mux) /\ plainMux (<[ pattern := x ]> mux).
Proof.
  intros Hp Hm Hnone. split.
  - unfold Handle. rewrite Hnone. assert (E : String.eqb pattern EmptyString = false) by by destruct pattern.
    rewrite E. replace (forallb _ _) with true; [done|]. symmetry. apply forallb_forall.
    intros p [<-|Hin%list_elem_of_In]; [done|].
    apply list_elem_of_fmap in Hin as ([q y] & -> & Hy%elem_of_map_to_list). apply Hm. by eexists.
  - intros p. destruct (decide (p = pattern)) as [->|Hne]; [done|]. rewrite lookup_insert_ne by done.
    apply Hm.
Qed.

(** The errors of a filter that fails on the metrics, and on an extra handler. *)
Definition promError (e : error) : error :=
  errorfW "failed to start metrics server: failed to add metrics filter" e.
Definition extraError (path : string) (e : error) : error :=
  errorfW ("failed to start metrics server: failed to add metrics filter to extra " +:+
           "handler for path " +:+ path) e.

Lemma installExtra_run s extra (mux : gmap string H) :
  NoDup extra.*1 -> plainMux mux ->
  (forall p, p ∈ extra.*1 -> plainPath p = true /\ mux !! p = None) ->
  (exists p x e, (p, x) ∈ extra /\ filtered s p x = inl e /\
     installExtra s extra mux = Ret (inl (extraError p e))) \/
  exists mux', installExtra s extra mux = Ret (inr mux') /\
    (forall p x, (p, x) ∈ extra -> exists y, filtered s p x = inr y /\ mux' !! p = Some y) /\
    (forall p, p ∉ extra.*1 -> mux' !! p = mux !! p).
Proof.
  revert mux. induction extra as [|[p x] extra IH]; intros mux Hnd Hplain Hm.
  { right. exists mux. split_and!; [done| |done]. by intros p x ?%not_elem_of_nil. }
  cbn [fmap list_fmap fst] in *. apply NoDup_cons in Hnd as [Hp Hnd]. cbn [installExtra].
  destruct (filtered s p x) as [e|y] eqn:Ef.
  { left. exists p, x, e. split_and!; [by left|done|done]. }
  destruct (Hm p) as [Hpp Hnone]; [by left|].
  destruct (Handle_new p y mux Hpp Hplain Hnone) as [-> Hplain']. cbn [mbind outcome_bind].
  destruct (IH (<[ p := y ]> mux) Hnd Hplain') as [(q & z & e & ? & ? & ?)|(mux' & E & Hin & Hout)];
    [|left; exists q, z, e; split_and!; [by right|done|done]|].
  { intros q Hq. rewrite lookup_insert_ne by (intros ->; done). apply Hm. by right. }
  right. exists mux'. split; [done|]. split.
  - intros q z [E'|Hq]%elem_of_cons; [|by apply Hin]. injection E' as -> ->. exists y.
    split; [done|]. by rewrite Hout, lookup_insert_eq.
  - intros q [Hq1 Hq2]%not_elem_of_cons. by rewrite Hout, lookup_insert_ne by congruence.
Qed.

(** C35. Start, on a server obtained through the interface that has a logger and whose handlers are not nil
    and at plain paths: in whatever order the handlers are installed it does not panic.  It fails when
    the listener cannot be created, with that error wrapped, or when the filter fails on the metrics or
    on a handler, with that error wrapped; and else the metrics are served at their path, every
    handler added at its own, each of them behind the filter, and nothing else. *)
Theorem start_serves h s listener promHandler extra :
  api h s -> log s = true -> plainMux (handlers h s) ->
  extra ≡ₚ map_to_list (handlers h s) ->
  match listener with
  | inl err => startMux s listener promHandler extra =
      Ret (inl (errorfW "failed to start metrics server: failed to create listener" err))
  | inr addr =>
    (exists e, filtered s defaultMetricsEndpoint promHandler = inl e /\
       startMux s listener promHandler extra = Ret (inl (promError e))) \/
    (exists p x e, handlers h s !! p = Some x /\ filtered s p x = inl e /\
       startMux s listener promHandler extra = Ret (inl (extraError p e))) \/
    exists s' mux, startMux s listener promHandler extra = Ret (inr (s', mux)) /\
      GetBindAddr s' = addr /\
      (exists y, filtered s defaultMetricsEndpoint promHandler = inr y /\
         mux !! defaultMetricsEndpoint = Some y) /\
      forall p, p <> defaultMetricsEndpoint ->
        match handlers h s !! p with
        | Some x => exists y, filtered s p x = inr y /\ mux !! p = Some y
        | None => mux !! p = None
        end
  end.
Proof.
  intros [_ Hb]%api_handlers Hlog Hplain Hperm. unfold startMux. rewrite Hlog. cbn [negb].
  destruct listener as [err|addr]; [done|].
  set (s' := mkServer _ _ addr _). change (filtered s') with (filtered s).
  destruct (filtered s defaultMetricsEndpoint promHandler) as [e|y] eqn:Ef; [left; by exists e|right].
  destruct (Handle_new defaultMetricsEndpoint y ∅) as [-> Hplain']; [done|by intros p []|done|].
  cbn [mbind outcome_bind].
  assert (Hkey : forall p x, (p, x) ∈ extra <-> handlers h s !! p = Some x).
  { intros p x. by rewrite Hperm, elem_of_map_to_list. }
  assert (Hkeys : forall p, p ∈ extra.*1 <-> is_Some (handlers h s !! p)).
  { intros p. rewrite list_elem_of_fmap. split.
    - intros ([q x] & -> & Hx%Hkey). by eexists.
    - intros [x Hx%Hkey]. by exists (p, x). }
  destruct (installExtra_run s' extra (<[ defaultMetricsEndpoint := y ]> ∅)) as
    [(p & x & e & Hin & Hfail & E)|(mux & E & Hin & Hout)].
  - rewrite Hperm. apply NoDup_fst_map_to_list.
  - exact Hplain'.
  - intros p Hp%Hkeys. split; [by apply Hplain|]. destruct Hp as [x Hx].
    rewrite lookup_insert_ne; [done|]. intros <-. by rewrite Hb in Hx.
  - left. rewrite E. exists p, x, e. split_and!; [by apply Hkey|exact Hfail|done].
  - right. rewrite E. exists s', mux. split_and!; [done|done| |].
    + exists y. split; [done|]. rewrite Hout, lookup_insert_eq; [done|].
      rewrite Hkeys, Hb. by intros [].
    + intros p Hp. destruct (handlers h s !! p) as [x|] eqn:Ex; [by apply Hin, Hkey|].
      rewrite Hout by (rewrite Hkeys, Ex; by intros []). by rewrite lookup_insert_ne.
Qed.

(** A server just made has no logger, and its Start panics: it has to be copied with one first. *)
Theorem start_needs_logger tempDir o h s listener promHandler extra :
  NewServer tempDir o h = inr (Some s) ->
  is_panic (startMux s listener promHandler extra) = true.
Proof.
  unfold NewServer, startMux. destruct (String.eqb _ "0"); [done|]. case_bool_decide; [done|].
  destruct (FilterProvider _) as [[]|]; intros E; by simplify_eq.
Qed.

(** Where a secure server's certificate comes from: the options' own source; else the files, if neither is
    known to be missing; else one it signs itself.  And nothing is served in plain text then. *)
Theorem createListener_secure w s l :
  SecureServing (options s) = true -> createListener w s = inr l ->
  exists source, l = TLSListener (BindAddress (options s)) source /\
    match foldl (fun cfg op => op cfg) None (TLSOpts (options s)) with
    | Some c => source = FromOptions c
    | None =>
      let certPath := CertDir (options s) +:+ "/" +:+ CertName (options s) in
      let keyPath := CertDir (options s) +:+ "/" +:+ KeyName (options s) in
      if isNotExist w certPath || isNotExist w keyPath then source = SelfSigned
      else source = FromWatcher certPath keyPath /\ newCertWatcher w certPath keyPath = None
    end.
Proof.
  unfold createListener. intros ->. cbn [negb].
  destruct (foldl _ None (TLSOpts (options s))) as [c|].
  { destruct (listen _ _); [done|]. intros [= <-]. by eexists. }
  destruct (isNotExist w (CertDir (options s) +:+ "/" +:+ CertName (options s))),
    (isNotExist w (CertDir (options s) +:+ "/" +:+ KeyName (options s))); cbn [negb andb orb];
    [destruct (selfSigned w), (keyPair w)..|destruct (newCertWatcher w _ _)]; try done;
    destruct (listen _ _); try done; intros [= <-]; by eexists.
Qed.

End MetricsServer.
End MetricsServer.
