(* ===== verification/MetricsServe.v ===== *)
(** * pkg/metrics/server: how [Start] serves and ends

    The last part of [Start], after the handlers are in place: [Serve] in the caller's goroutine, and the
    goroutine that waits for the context and then shuts the server down, for at most a minute.  What is
    known of net/http: [Serve] returns only with an error, and with ErrServerClosed only once [Shutdown]
    was called; and [Shutdown] ends when its context does. *)

From S2P Require Import Prelude GoTime Errors.
Import GoTime Errors.

Module MetricsServe.

(** [context.WithTimeout(context.Background(), 1*time.Minute)] *)
Definition shutdownTimeout : Z := 1 * Minute.

(** [Start]: in [Serve]; waiting for the connections to be closed; returned. *)
Inductive mainPc : Type := MServe | MWait | MReturned (err : option error).

(** The goroutine: waiting for the context; in [Shutdown] since a time; after [close(idleConnsClosed)],
    with the error [Shutdown] gave, which is logged. *)
Inductive helperPc : Type := HWait | HShutdown (since : Z) | HDone (logged : option error).

Record ServeState : Type := mkServe { main : mainPc; helper : helperPc; ctxDone : bool; clock : Z }.

(** [Shutdown] was called. *)
Definition closing (h : helperPc) : bool := match h with HWait => false | _ => true end.

Inductive vstep : ServeState -> ServeState -> Prop :=
| v_cancel m h d t : vstep (mkServe m h d t) (mkServe m h true t)
| v_time m h d t t' :
    t <= t' -> (forall since, h = HShutdown since -> t' <= since + shutdownTimeout) ->
    vstep (mkServe m h d t) (mkServe m h d t')
| v_fails h d t err :
    vstep (mkServe MServe h d t) (mkServe (MReturned (Some err)) h d t)
| v_closed h d t : closing h = true -> vstep (mkServe MServe h d t) (mkServe MWait h d t)
| v_shutdown m t : vstep (mkServe m HWait true t) (mkServe m (HShutdown t) true t)
| v_down m since d t res : vstep (mkServe m (HShutdown since) d t) (mkServe m (HDone res) d t)
| v_return res d t :
    vstep (mkServe MWait (HDone res) d t) (mkServe (MReturned None) (HDone res) d t).

Definition start (d : bool) (t : Z) : ServeState := mkServe MServe HWait d t.

Record SInv (s : ServeState) : Prop := {
  s_closing : closing (helper s) = true -> ctxDone s = true;
  s_wait : main s = MWait -> closing (helper s) = true;
  s_return : main s = MReturned None -> exists res, helper s = HDone res;
  s_deadline since : helper s = HShutdown since -> since <= clock s <= since + shutdownTimeout
}.

Lemma vstep_inv s s' : vstep s s' -> SInv s -> SInv s'.
Proof.
  destruct 1 as [m h d t|m h d t t' Ht Hl|h d t err|h d t Hcl|m t|m since d t res|res d t];
    intros [Hc Hw Hr Hd]; split; cbn [main helper ctxDone clock closing] in *; try done.
  - intros since ->. specialize (Hd since eq_refl). specialize (Hl since eq_refl). lia.
  - intros Hm. by destruct (Hr Hm).
  - intros since [= <-]. unfold shutdownTimeout, Minute, Second. lia.
  - intros _. by exists res.
  - intros _. by exists res.
Qed.

Lemma serving_inv d t s : rtc vstep (start d t) s -> SInv s.
Proof.
  intros Hr. assert (H0 : SInv (start d t)) by (split; done). revert H0.
  induction Hr as [|s1 s2 s3 Hs Hr IH]; [done|]. intros H. by eapply IH, vstep_inv.
Qed.

Definition returns (s : ServeState) : Prop := exists s' err, rtc vstep s s' /\ main s' = MReturned err.

(** [Start] returns nil only after the context ended and [Shutdown] returned, so that no request is cut
    off before its minute is over; and once the context has ended it can return from wherever it is. *)
Theorem serve_ends d t s :
  rtc vstep (start d t) s ->
  (main s = MReturned None -> ctxDone s = true /\ exists res, helper s = HDone res) /\
  (forall since, helper s = HShutdown since -> clock s <= since + shutdownTimeout) /\
  (ctxDone s = true -> returns s).
Proof.
  intros Hr%serving_inv. destruct Hr as [Hc Hw Hr Hd]. split_and!.
  - intros Hm. destruct (Hr Hm) as [res E]. split; [|by exists res]. apply Hc. by rewrite E.
  - intros since E. apply (Hd since E).
  - destruct s as [m h d' t']. cbn in *. intros ->.
    assert (Hdone : forall res, returns (mkServe m (HDone res) true t')).
    { intros res. destruct m as [| |err].
      - eexists _, _. split; [eapply rtc_l; [by apply v_closed|apply rtc_once, v_return]|done].
      - eexists _, _. split; [apply rtc_once, v_return|done].
      - eexists _, _. split; [apply rtc_refl|done]. }
    assert (Hshut : forall since, returns (mkServe m (HShutdown since) true t')).
    { intros since. destruct (Hdone None) as (s' & err & Hs & He). exists s', err.
      split; [|done]. by eapply rtc_l; [apply v_down|]. }
    destruct h as [|since|res]; [|apply Hshut|apply Hdone].
    destruct (Hshut t') as (s' & err & Hs & He). exists s', err. split; [|done].
    by eapply rtc_l; [apply v_shutdown|].
Qed.

End MetricsServe.
