(* ===== verification/Shutdown.v ===== *)
(** * Controller.Run: workers and graceful shutdown

    [Run] with its worker goroutines as a step relation: the wait for the caches, the start of the
    workers, the end of the caller's context, the closing of the stop channel and of the queue, and the
    bounded wait for the workers.  [wait.Until] relaunches a worker two seconds after it returned until
    the stop channel is closed.  A worker is seen here from outside, in GetWithPriority or processing;
    file System has its accesses.  A worker that panics ends the process: that has no step here but in
    file Quickstart, which has the process around [Run]. *)

From S2P Require Import Prelude GoTime Errors Controller.
Import GoTime Errors.

Module Shutdown.

(** How [Run] returned. *)
Inductive ending : Type :=
| ESyncFailed
| EAbrupt
| EDrained
| EExpired (since timeout : Z).

(** Where [Run] is: waiting for the caches; waiting for the end of the context; with the timeout read,
    before [close(stopWorkers)], before [ShutDown], and after it; in the [select] of the drain, since
    a time; returned. *)
Inductive runPc : Type :=
| RSync
| RServe
| RClose (timeout : Z)
| RShut (timeout : Z)
| RBranch (timeout : Z)
| RForever
| RWait (since timeout : Z)
| RReturned (e : ending).

(** A worker goroutine: at the top of the loop of [wait.Until]; in runWorker, before or in
    GetWithPriority; processing an event; between two launches; gone. *)
Inductive worker : Type :=
| WLaunch
| WGet
| WBusy
| WBackoff (since : Z)
| WGone.

#[export] Instance worker_eq_dec : EqDecision worker.
Proof. solve_decision. Defined.

Record RunState : Type := mkRun {
  pc : runPc;
  pool : list worker;
  ctxDone : bool;
  stopWorkers : bool;       (* closed *)
  queueShut : bool;
  reconcileCancelled : bool;
  clock : Z;
  gracefulShutdownTimeout : Z
}.

(** The time [wait.Until] leaves between two launches. *)
Definition period : Z := 2 * Second.

(** One move of a worker, from the stop channel, the queue's flag and the clock. *)
Inductive wstep (stop shut : bool) (now : Z) : worker -> worker -> Prop :=
| w_launch : stop = false -> wstep stop shut now WLaunch WGet
| w_stopped : stop = true -> wstep stop shut now WLaunch WGone
| w_get : shut = false -> wstep stop shut now WGet WBusy
| w_shutdown : shut = true -> wstep stop shut now WGet (WBackoff now)
| w_done : wstep stop shut now WBusy WGet
| w_again t : t + period <= now -> wstep stop shut now (WBackoff t) WLaunch
| w_quit t : stop = true -> wstep stop shut now (WBackoff t) WGone.

Inductive pstep (stop shut : bool) (now : Z) : list worker -> list worker -> Prop :=
| p_one w w' l1 l2 :
    wstep stop shut now w w' -> pstep stop shut now (l1 ++ w :: l2) (l1 ++ w' :: l2).

Definition allGone (l : list worker) : Prop := Forall (fun w => w = WGone) l.

(** [Run] with [numWorkers] workers. *)
Section Run.
Context (numWorkers : nat).

Inductive rstep : RunState -> RunState -> Prop :=
| r_cancel k l d a b c t g : rstep (mkRun k l d a b c t g) (mkRun k l true a b c t g)
| r_tick k l d a b c t t' g : t <= t' -> rstep (mkRun k l d a b c t g) (mkRun k l d a b c t' g)
| r_setTimeout k l d a b c t g g' : rstep (mkRun k l d a b c t g) (mkRun k l d a b c t g')
| r_synced l d a b c t g :
    rstep (mkRun RSync l d a b c t g) (mkRun RServe (replicate numWorkers WLaunch) d a b c t g)
| r_syncFailed l a b c t g :
    rstep (mkRun RSync l true a b c t g) (mkRun (RReturned ESyncFailed) l true a true c t g)
| r_worker k l l' d a b c t g :
    pstep a b t l l' -> rstep (mkRun k l d a b c t g) (mkRun k l' d a b c t g)
| r_begin l a b c t g :
    rstep (mkRun RServe l true a b c t g) (mkRun (RClose g) l true a b c t g)
| r_close timeout l d a b c t g :
    rstep (mkRun (RClose timeout) l d a b c t g) (mkRun (RShut timeout) l d true b c t g)
| r_shutDown timeout l d a b c t g :
    rstep (mkRun (RShut timeout) l d a b c t g) (mkRun (RBranch timeout) l d a true c t g)
| r_abrupt l d a b c t g :
    rstep (mkRun (RBranch 0) l d a b c t g) (mkRun (RReturned EAbrupt) l d a true true t g)
| r_forever timeout l d a b c t g :
    timeout < 0 -> rstep (mkRun (RBranch timeout) l d a b c t g) (mkRun RForever l d a b c t g)
| r_wait timeout l d a b c t g :
    0 < timeout ->
    rstep (mkRun (RBranch timeout) l d a b c t g) (mkRun (RWait t timeout) l d a b c t g)
| r_drainedForever l d a b c t g :
    allGone l ->
    rstep (mkRun RForever l d a b c t g) (mkRun (RReturned EDrained) l d a true true t g)
| r_drained since timeout l d a b c t g :
    allGone l ->
    rstep (mkRun (RWait since timeout) l d a b c t g) (mkRun (RReturned EDrained) l d a true true t g)
| r_expired since timeout l d a b c t g :
    since + timeout <= t ->
    rstep (mkRun (RWait since timeout) l d a b c t g)
      (mkRun (RReturned (EExpired since timeout)) l d a true true t g).

(** A call of [Run] at time [t] with the drain window [g]. *)
Definition start (t g : Z) : RunState := mkRun RSync [] false false false false t g.

(** ** Workers *)

Definition isBusy (w : worker) : nat := match w with WBusy => 1%nat | _ => O end.
Definition busy (l : list worker) : nat := sum_list_with isBusy l.

(** How many moves a worker makes at most once the stop channel is closed and the queue shut. *)
Definition remaining (w : worker) : nat :=
  match w with WBusy => 4 | WGet => 3 | WBackoff _ => 2 | WLaunch => 1 | WGone => 0 end.

Lemma sum_middle {A} (f : A -> nat) (l1 l2 : list A) x :
  sum_list_with f (l1 ++ x :: l2) = (f x + (sum_list_with f l1 + sum_list_with f l2))%nat.
Proof. rewrite sum_list_with_app. simpl. lia. Qed.

(** A move of the pool after that, whatever the time. *)
Definition draining (l l' : list worker) : Prop := exists now, pstep true true now l l'.

(** C27. Once the stop channel is closed and the queue shut, the workers make at most four moves
    each; and as long as one of them is not gone there is a move, so none stays parked or is
    launched again. *)
Theorem drain_terminates l l' k :
  nsteps draining k l l' ->
  (k <= 4 * length l)%nat /\ ((forall l2, ~ draining l' l2) -> allGone l').
Proof.
  intros Hn. split.
  - assert (Hk : (k + sum_list_with remaining l' <= sum_list_with remaining l)%nat).
    { induction Hn as [|k l1 l2 l3 (now & [w w' la lb Hw]) Hn IH]; [lia|]. rewrite sum_middle in *.
      assert (remaining w' < remaining w)%nat by (destruct Hw; simpl; lia). lia. }
    assert (sum_list_with remaining l <= 4 * length l)%nat; [|lia].
    clear. induction l as [|w l IH]; simpl; [lia|]. destruct w; simpl; lia.
  - intros Hno. apply Forall_forall. intros w (l1 & l2 & ->)%list_elem_of_split.
    destruct w; [| | | |done]; exfalso; eapply Hno; exists 0; apply p_one;
      [by apply w_stopped|by apply w_shutdown|apply w_done|by apply w_quit].
Qed.

Lemma allGone_middle l1 l2 w : allGone (l1 ++ w :: l2) <-> w = WGone /\ allGone (l1 ++ l2).
Proof. unfold allGone. rewrite !Forall_app, Forall_cons. tauto. Qed.

Lemma gone_stays stop shut now l l' : pstep stop shut now l l' -> allGone l -> allGone l'.
Proof. intros [w w' l1 l2 Hw] [-> _]%allGone_middle. inversion Hw. Qed.

(** ** Run *)

(** What [Run] has done at each point, and what it returned with. *)
Definition progress (s : RunState) : Prop :=
  match pc s with
  | RSync => stopWorkers s = false /\ queueShut s = false /\ reconcileCancelled s = false
  | RServe => stopWorkers s = false /\ queueShut s = false /\ reconcileCancelled s = false
  | RClose _ => stopWorkers s = false /\ queueShut s = false /\ reconcileCancelled s = false
  | RShut _ => stopWorkers s = true /\ queueShut s = false /\ reconcileCancelled s = false
  | RBranch _ | RForever => stopWorkers s = true /\ queueShut s = true /\ reconcileCancelled s = false
  | RWait since timeout =>
    stopWorkers s = true /\ queueShut s = true /\ reconcileCancelled s = false /\ 0 < timeout
  | RReturned ESyncFailed => queueShut s = true /\ reconcileCancelled s = false
  | RReturned EAbrupt => stopWorkers s = true /\ queueShut s = true
  | RReturned EDrained => stopWorkers s = true /\ queueShut s = true /\ allGone (pool s)
  | RReturned (EExpired since timeout) =>
    stopWorkers s = true /\ queueShut s = true /\ 0 < timeout /\ since + timeout <= clock s
  end.

Lemma rstep_progress s s' : rstep s s' -> progress s -> progress s'.
Proof.
  destruct 1 as [k ? ? ? ? ? ? ?|k ? ? ? ? ? ? ? ? ?|k ? ? ? ? ? ? ? ?|?|?|k ? ? ? ? ? ? ? ? Hp|?|?|?|?|?|?|?|?|?];
    unfold progress; cbn; try (destruct k as [| | | | | | |[]]; cbn); try tauto;
    intros; destruct_and?; split_and?; try done; try lia.
  by eapply gone_stays.
Qed.

Lemma reachable_progress t g s : rtc rstep (start t g) s -> progress s.
Proof.
  intros Hr. assert (Hi : progress (start t g)) by done. revert Hi.
  induction Hr as [|s0 s1 s2 Hs Hr IH]; [done|]. intros Hi. by eapply IH, rstep_progress.
Qed.

(** C25. The grace period: the context of the reconciles is cancelled only when Run returns, and then the
    drain was disabled, or every worker has finished, or the whole window has passed since the queue
    was shut down. *)
Theorem grace_respected t g s :
  rtc rstep (start t g) s -> reconcileCancelled s = true ->
  queueShut s = true /\
  (pc s = RReturned EAbrupt \/
   (pc s = RReturned EDrained /\ allGone (pool s)) \/
   exists since timeout, pc s = RReturned (EExpired since timeout) /\
     0 < timeout /\ since + timeout <= clock s).
Proof.
  intros Hp%reachable_progress Hc. unfold progress in Hp.
  destruct (pc s) as [| | | | | | |[]]; try (destruct Hp as (? & ? & ?); congruence);
    try (destruct Hp as (? & ? & ? & ?); congruence); try (destruct Hp; congruence); naive_solver.
Qed.

(** No event is begun after the queue was shut down: from then on the workers that process one only
    become fewer. *)
Theorem no_new_work s s' :
  rtc rstep s s' -> queueShut s = true ->
  queueShut s' = true /\ (busy (pool s') <= busy (pool s))%nat.
Proof.
  induction 1 as [s|s1 s2 s3 Hs Hr IH]; [done|]. intros Hq.
  assert (H2 : queueShut s2 = true /\ (busy (pool s2) <= busy (pool s1))%nat).
  { destruct Hs as [| | | | |? ? ? ? ? ? ? ? ? [w w' l1 l2 Hw]| | | | | | | | |]; cbn in *; try done; split;
      try done.
    - clear. induction numWorkers as [|n IH]; simpl; [lia|]. cbn in *. lia.
    - unfold busy. rewrite !sum_middle. subst. destruct Hw; simpl; try done; lia. }
  destruct H2 as [Hq2 Hle]. destruct (IH Hq2) as [? ?]. split; [done|lia].
Qed.

(** ** Run returns *)

(** A move that leaves the drain window as it is. *)
Definition onward (s s' : RunState) : Prop :=
  rstep s s' /\ gracefulShutdownTimeout s' = gracefulShutdownTimeout s.

Definition returns (s : RunState) : Prop := exists s' e, rtc onward s s' /\ pc s' = RReturned e.

Lemma returns_step s s' :
  rstep s s' -> gracefulShutdownTimeout s' = gracefulShutdownTimeout s -> returns s' -> returns s.
Proof. intros Hs Hg (s2 & e & Hr & He). exists s2, e. split; [by eapply rtc_l|done]. Qed.

Lemma returns_now s s' e :
  rstep s s' -> gracefulShutdownTimeout s' = gracefulShutdownTimeout s -> pc s' = RReturned e -> returns s.
Proof. intros Hs Hg He. by exists s', e; split; [apply rtc_once|]. Qed.

Lemma worker_leaves now w : rtc (wstep true true now) w WGone.
Proof.
  assert (Hb : rtc (wstep true true now) (WBackoff now) WGone) by by apply rtc_once, w_quit.
  assert (Hg : rtc (wstep true true now) WGet WGone) by (eapply rtc_l; [by apply w_shutdown|done]).
  destruct w; [by apply rtc_once, w_stopped|done| |by apply rtc_once, w_quit|done].
  eapply rtc_l; [apply w_done|done].
Qed.

Lemma pool_leaves now l2 l1 :
  rtc (pstep true true now) (l1 ++ l2) (l1 ++ replicate (length l2) WGone).
Proof.
  revert l1. induction l2 as [|w l2 IH]; intros l1; [done|].
  transitivity (l1 ++ WGone :: l2).
  - generalize (worker_leaves now w). generalize WGone as w'. intros w' Hw.
    induction Hw as [w|w w1 w2 Hs _ IHw]; [done|]. eapply rtc_l; [by apply p_one|done].
  - specialize (IH (l1 ++ [WGone])). by rewrite <- !app_assoc in IH.
Qed.

Lemma returns_forever l d c t g : returns (mkRun RForever l d true true c t g).
Proof.
  pose proof (pool_leaves t l []) as Hl. cbn in Hl.
  assert (Hg : allGone (replicate (length l) WGone)) by by apply Forall_replicate.
  revert Hl Hg. generalize (replicate (length l) WGone). intros l' Hl Hg.
  induction Hl as [l|l l1 l2 Hs _ IH]; [by eapply returns_now; [apply r_drainedForever|..]|].
  eapply returns_step; [by apply r_worker|done|]. by apply IH.
Qed.

Lemma returns_wait since timeout l d a b c t g : returns (mkRun (RWait since timeout) l d a b c t g).
Proof.
  eapply returns_step; [apply (r_tick _ _ _ _ _ _ _ (Z.max t (since + timeout))); lia|done|].
  by eapply returns_now; [apply r_expired; lia|..].
Qed.

Lemma returns_branch timeout l d c t g : returns (mkRun (RBranch timeout) l d true true c t g).
Proof.
  destruct (Z.lt_trichotomy timeout 0) as [Ht|[->|Ht]].
  - eapply returns_step; [by apply r_forever|done|]. apply returns_forever.
  - by eapply returns_now; [apply r_abrupt|..].
  - eapply returns_step; [by apply r_wait|done|]. apply returns_wait.
Qed.

Lemma returns_cancelled s : progress s -> ctxDone s = true -> returns s.
Proof.
  intros Hp Hd. unfold progress in Hp. destruct s as [k l d a b c t1 g1]. cbn in *. subst d.
  assert (Hshut : forall timeout b c, returns (mkRun (RShut timeout) l true true b c t1 g1)).
  { intros timeout b0 c0. eapply returns_step; [apply r_shutDown|done|]. apply returns_branch. }
  destruct k as [| |timeout|timeout|timeout| |since timeout|e]; destruct_and?; subst.
  - by eapply returns_now; [apply r_syncFailed|..].
  - eapply returns_step; [apply r_begin|done|]. eapply returns_step; [apply r_close|done|]. by apply Hshut.
  - eapply returns_step; [apply r_close|done|]. by apply Hshut.
  - by apply Hshut.
  - apply returns_branch.
  - apply returns_forever.
  - apply returns_wait.
  - eexists _, _. split; [apply rtc_refl|done].
Qed.

(** C26. No deadlock: from every state that can be reached after the context has ended, whatever the drain
    window and whatever the workers are doing, Run can return, with the window it has. *)
Theorem run_returns t g s : rtc rstep (start t g) s -> ctxDone s = true -> returns s.
Proof. intros Hp%reachable_progress. by apply returns_cancelled. Qed.

End Run.
End Shutdown.
