(* ===== verification/Builder.v ===== *)
(** * pkg/controller/builder: options, defaults and the assembly of a controller

    The functional options, their defaults, and [Build], which validates the configuration, makes the
    controller's parts one after the other and hands them to [controller.New] (file Controller).  The
    parts that other packages make (trace ids, recorders, the dynamic client) are what making them gives:
    an error or none. *)

From S2P Require Import Prelude GoTime Errors Meta Event Controller MetricsServer.
Import GoTime Errors Event.

Module Builder.

Section Builder.
Context {P RL H C : Type}.

(** ** Options *)

Record ListWatcherConfiguration : Type := mkListWatcher {
  LabelSelector : option string;
  FieldSelector : option string
}.

(** The limiter: client-go's maximum of an exponential backoff per item, from a base to a maximal delay,
    and a token bucket of a rate and a size; or one that was given. *)
Inductive limiter : Type :=
| MaxOf (base max : Z) (qps burst : Z)
| GivenLimiter (rl : RL).

(** A pluralizer: the discovery-backed default, or a given one. *)
Inductive pluralizerImpl : Type :=
| DefaultPluralizer
| GivenPluralizer (p : P).

(** [None]: a nil interface, pointer or slice; the logger and the recorder of metrics as whether they are
    set. *)
Record options : Type := mkOptions {
  pluralizer : option pluralizerImpl;
  namespace : string;
  resyncInterval : Z;
  logger : bool;
  listWatcher : ListWatcherConfiguration;
  globalRateLimiter : option limiter;
  metricsRecorder : bool;
  metrics : MetricsServer.Options (H := H) (C := C);
  maxRetries : Z;
  watchAnnotations : option AnnotationEvents;
  actionsEvent : ActionsEvent;
  gracefulShutdownTimeout : option Z
}.

Definition Minute : Z := 60 * Second.

Definition defaultMetrics : MetricsServer.Options (H := H) (C := C) :=
  MetricsServer.mkOptions false "0" None None EmptyString EmptyString EmptyString [].

Definition defaultOptions : options :=
  let watchAnnotations := NewAnnotationEvents [] in
  let watchAnnotations :=
    Add watchAnnotations Observe Meta.AnnotationKeyReconciliationPaused OnAny false in
  let watchAnnotations :=
    Add watchAnnotations Create Meta.AnnotationKeyExternalCreatePending OnDelete false in
  mkOptions (Some DefaultPluralizer) EmptyString (3 * Minute) true (mkListWatcher None None)
    (Some (MaxOf (3 * Second) (180 * Second) 10 100)) false defaultMetrics 5 (Some watchAnnotations)
    NewDefaultActionsEvent None.

Definition FuncOption : Type := options -> options.

Definition WithPluralizer (p : option P) : FuncOption := fun o =>
  mkOptions (GivenPluralizer <$> p) (namespace o) (resyncInterval o) (logger o) (listWatcher o)
    (globalRateLimiter o) (metricsRecorder o) (metrics o) (maxRetries o) (watchAnnotations o)
    (actionsEvent o) (gracefulShutdownTimeout o).
Definition WithNamespace (ns : string) : FuncOption := fun o =>
  mkOptions (pluralizer o) ns (resyncInterval o) (logger o) (listWatcher o)
    (globalRateLimiter o) (metricsRecorder o) (metrics o) (maxRetries o) (watchAnnotations o)
    (actionsEvent o) (gracefulShutdownTimeout o).
Definition WithGracefulShutdownTimeout (d : Z) : FuncOption := fun o =>
  mkOptions (pluralizer o) (namespace o) (resyncInterval o) (logger o) (listWatcher o)
    (globalRateLimiter o) (metricsRecorder o) (metrics o) (maxRetries o) (watchAnnotations o)
    (actionsEvent o) (Some d).
Definition WithResyncInterval (d : Z) : FuncOption := fun o =>
  mkOptions (pluralizer o) (namespace o) d (logger o) (listWatcher o)
    (globalRateLimiter o) (metricsRecorder o) (metrics o) (maxRetries o) (watchAnnotations o)
    (actionsEvent o) (gracefulShutdownTimeout o).
Definition WithLogger (l : bool) : FuncOption := fun o =>
  mkOptions (pluralizer o) (namespace o) (resyncInterval o) l (listWatcher o)
    (globalRateLimiter o) (metricsRecorder o) (metrics o) (maxRetries o) (watchAnnotations o)
    (actionsEvent o) (gracefulShutdownTimeout o).
Definition WithListWatcher (lw : ListWatcherConfiguration) : FuncOption := fun o =>
  mkOptions (pluralizer o) (namespace o) (resyncInterval o) (logger o) lw
    (globalRateLimiter o) (metricsRecorder o) (metrics o) (maxRetries o) (watchAnnotations o)
    (actionsEvent o) (gracefulShutdownTimeout o).
Definition WithGlobalRateLimiter (rl : option RL) : FuncOption := fun o =>
  mkOptions (pluralizer o) (namespace o) (resyncInterval o) (logger o) (listWatcher o)
    (GivenLimiter <$> rl) (metricsRecorder o) (metrics o) (maxRetries o) (watchAnnotations o)
    (actionsEvent o) (gracefulShutdownTimeout o).
Definition WithTelemetryMetrics (m : bool) : FuncOption := fun o =>
  mkOptions (pluralizer o) (namespace o) (resyncInterval o) (logger o) (listWatcher o)
    (globalRateLimiter o) m (metrics o) (maxRetries o) (watchAnnotations o)
    (actionsEvent o) (gracefulShutdownTimeout o).
Definition WithMetrics (m : MetricsServer.Options (H := H) (C := C)) : FuncOption := fun o =>
  mkOptions (pluralizer o) (namespace o) (resyncInterval o) (logger o) (listWatcher o)
    (globalRateLimiter o) (metricsRecorder o) m (maxRetries o) (watchAnnotations o)
    (actionsEvent o) (gracefulShutdownTimeout o).
Definition WithMaxRetries (r : Z) : FuncOption := fun o =>
  mkOptions (pluralizer o) (namespace o) (resyncInterval o) (logger o) (listWatcher o)
    (globalRateLimiter o) (metricsRecorder o) (metrics o) r (watchAnnotations o)
    (actionsEvent o) (gracefulShutdownTimeout o).

Definition WithWatchAnnotations (anns : list AnnotationEvent) : FuncOption := fun o =>
  let ws := default (NewAnnotationEvents []) (watchAnnotations o) in
  let ws := foldl (fun ws ann => Add ws (aeEventType ann) (aeAnnotation ann) (aeOnAction ann) true) ws
              anns in
  mkOptions (pluralizer o) (namespace o) (resyncInterval o) (logger o) (listWatcher o)
    (globalRateLimiter o) (metricsRecorder o) (metrics o) (maxRetries o) (Some ws)
    (actionsEvent o) (gracefulShutdownTimeout o).

Definition WithActionEvent (onaction : ActionCustomResource) (t : EventType) : FuncOption := fun o =>
  mkOptions (pluralizer o) (namespace o) (resyncInterval o) (logger o) (listWatcher o)
    (globalRateLimiter o) (metricsRecorder o) (metrics o) (maxRetries o) (watchAnnotations o)
    (MutateEvent (actionsEvent o) onaction t) (gracefulShutdownTimeout o).

(** ** Build *)

(** [Config]: whether the pointer is set. *)
Record Configuration : Type := mkConfiguration {
  Config : bool;
  Group : string;
  Version : string;
  Resource : string;
  ProviderName : string
}.

Definition isEmpty (s : string) : bool := String.eqb s EmptyString.

Definition validate (c : Configuration) : option error :=
  if negb (Config c) then Some (New "kube config is required") else
  if isEmpty (Group c) || isEmpty (Version c) || isEmpty (Resource c)
  then Some (New "gvr is required") else
  if isEmpty (ProviderName c) then Some (New "provider name is required") else None.

(** What the other packages give. *)
Record surroundings : Type := mkSurroundings {
  shortidErr : option error;
  throttleErr : option error;
  recorderErr : option error;
  clientErr : option error;
  listWatcherErr : option error;
  tempDir : string
}.

(** The options [Build] gives to [controller.New]; the recorders and the client have been made. *)
Definition controllerOptions (c : Configuration) (o : options) : Controller.Options :=
  Controller.mkOptions true (isEmpty (Group c) && isEmpty (Version c) && isEmpty (Resource c)) true true
    (logger o) (bool_decide (is_Some (pluralizer o))) (bool_decide (is_Some (globalRateLimiter o)))
    (resyncInterval o) (maxRetries o) (metricsRecorder o) (gracefulShutdownTimeout o).

(** What is built: the options in force, the metrics server, the drain window. *)
Record built : Type := mkBuilt {
  bOptions : options;
  bServer : option (MetricsServer.defaultServer (H := H) (C := C));
  bDrain : Z
}.

(** A failing part is reported through the logger, which must be there for that. *)
Definition fails {A} (o : options) (what : string) (err : error) : outcome (error + A) :=
  if logger o then Ret (inl (errorfW what err))
  else Panic "invalid memory address or nil pointer dereference".

Definition Build (w : surroundings) (heap : gmap positive (gmap string H)) (c : Configuration)
  (optsFuncs : list FuncOption) : outcome (error + built) :=
  match validate c with
  | Some err => Ret (inl err)
  | None =>
    let opts := foldl (fun o f => f o) defaultOptions optsFuncs in
    match shortidErr w with
    | Some err => fails opts "failed to create shortid" err
    | None =>
    match throttleErr w with
    | Some err => fails opts "failed to create event recorder" err
    | None =>
    match recorderErr w with
    | Some err => fails opts "failed to create event recorder" err
    | None =>
    match MetricsServer.NewServer (tempDir w) (metrics opts) heap with
    | inl err => fails opts "failed to create metrics server" err
    | inr metricsServer =>
    match clientErr w with
    | Some err => fails opts "failed to create dynamic client" err
    | None =>
    match Controller.NewController (controllerOptions c opts) (listWatcherErr w) with
    | Panic why => Panic why
    | Ret (inl err) => fails opts "failed to create controller" err
    | Ret (inr drain) => Ret (inr (mkBuilt opts metricsServer drain))
    end end end end end end
  end.

(** ** Properties *)

(** What a set of options must keep of the defaults for Build to go through. *)
Definition usable (o : options) : Prop :=
  logger o = true /\ is_Some (pluralizer o) /\ is_Some (globalRateLimiter o) /\
  0 < resyncInterval o /\ 0 <= maxRetries o.

Lemma NewController_usable c o :
  validate c = None ->
  (usable o <-> logger o = true /\ Controller.NewController (controllerOptions c o) None =
     Ret (inr (default Controller.defaultGracefulShutdownPeriod (gracefulShutdownTimeout o)))).
Proof.
  intros Hv. assert (Hg : isEmpty (Group c) = false).
  { unfold validate in Hv. destruct (Config c), (isEmpty (Group c)); done. }
  unfold usable, Controller.NewController, Controller.validate, controllerOptions. cbn. rewrite Hg. cbn.
  destruct (logger o); cbn; [|naive_solver].
  case_bool_decide; cbn; [|naive_solver]. case_bool_decide; cbn; [|naive_solver].
  destruct (resyncInterval o <=? 0) eqn:E1, (maxRetries o <? 0) eqn:E2; bool_to_prop; cbn;
    (split; [intros; destruct_and?; try lia; done|intros [_ ?]; try done; split_and!; done || lia]).
Qed.

(** Build, with a complete configuration, surroundings that fail nowhere and metrics disabled, builds the
    controller exactly when the options are usable; the drain window is the one asked for, by default
    that of the controller. *)
Theorem Build_spec w heap c fs :
  validate c = None -> shortidErr w = None -> throttleErr w = None -> recorderErr w = None ->
  clientErr w = None -> listWatcherErr w = None ->
  let o := foldl (fun o f => f o) defaultOptions fs in
  MetricsServer.BindAddress (metrics o) = "0" ->
  usable o <->
  Build w heap c fs = Ret (inr (mkBuilt o None
    (default Controller.defaultGracefulShutdownPeriod (gracefulShutdownTimeout o)))).
Proof.
  intros Hv H1 H2 H3 H4 H5 o Hb. rewrite (NewController_usable c o Hv).
  unfold Build. rewrite Hv, H1, H2, H3, H4, H5. fold o. unfold MetricsServer.NewServer.
  change (MetricsServer.BindAddress (MetricsServer.setDefaults (tempDir w) (metrics o))) with
    (if String.eqb (MetricsServer.BindAddress (metrics o)) EmptyString
     then MetricsServer.DefaultBindAddress else MetricsServer.BindAddress (metrics o)).
  rewrite Hb. cbn [String.eqb Ascii.eqb Bool.eqb].
  destruct (Controller.NewController _ None) as [[e|d]|why] eqn:En; unfold fails.
  - split; [naive_solver|]. destruct (logger o); naive_solver.
  - split; [naive_solver|]. intros E. split; [|naive_solver].
    unfold Controller.NewController, Controller.validate in En.
    destruct (logger o) eqn:El; [done|]. cbn in En. rewrite El in En.
    by destruct (_ && _ && _) in En.
  - split; [naive_solver|done].
Qed.

(** The defaults can be built with: no option is needed. *)
Lemma defaults_usable : usable defaultOptions /\ MetricsServer.BindAddress (metrics defaultOptions) = "0".
Proof. split; [|done]. split_and!; [done|by eexists|by eexists|done|done]. Qed.

(** The number of retries is taken as it is given: 0 stays 0, and a negative one makes Build fail.  The
    comment on the option says that both stand for the default of 5. *)
Theorem WithMaxRetries_taken r :
  maxRetries (WithMaxRetries r defaultOptions) = r /\
  (usable (WithMaxRetries r defaultOptions) <-> 0 <= r).
Proof.
  split; [done|]. split; [by intros (_ & _ & _ & _ & ?)|].
  intros Hr. split_and!; [done|by eexists|by eexists|done|done].
Qed.

Lemma add_rules_spec anns ws a :
  NoDup (annotationsOf ws) ->
  let add ws ann := Add ws (aeEventType ann) (aeAnnotation ann) (aeOnAction ann) true in
  ruleOf (foldl add ws anns) a =
  match last (filter (fun r => aeAnnotation r = a) anns) with
  | Some r => Some r
  | None => ruleOf ws a
  end.
Proof.
  intros Hnd add. revert ws Hnd. induction anns as [|[t b act] anns IH]; intros ws Hnd; [done|].
  cbn [foldl]. destruct (Add_spec ws t b act true Hnd) as (Hnd' & Hb & Hother).
  change (add ws _) with (Add ws t b act true). rewrite IH by done.
  destruct (decide (b = a)) as [<-|Hne].
  - rewrite filter_cons_True by done. rewrite last_cons.
    destruct (last (filter _ anns)); [done|exact Hb].
  - rewrite filter_cons_False by done. rewrite Hother by congruence. done.
Qed.

(** The rules given to [WithWatchAnnotations] are in force, the last one of each annotation; the default
    rules stay for the annotations none is given for. *)
Theorem WithWatchAnnotations_spec anns a :
  exists ws, watchAnnotations (WithWatchAnnotations anns defaultOptions) = Some ws /\
    ruleOf ws a =
    match last (filter (fun r => aeAnnotation r = a) anns) with
    | Some r => Some r
    | None =>
      if bool_decide (a = Meta.AnnotationKeyReconciliationPaused)
      then Some (mkAnnotationEvent Observe a OnAny)
      else if bool_decide (a = Meta.AnnotationKeyExternalCreatePending)
      then Some (mkAnnotationEvent Create a OnDelete) else None
    end.
Proof.
  eexists. split; [done|]. rewrite add_rules_spec.
  - destruct (last _); [done|]. case_bool_decide as E1; [by subst|]. case_bool_decide as E2; [by subst|].
    cbn. unfold ruleOf. rewrite filter_cons_False by (cbn; congruence).
    by rewrite filter_cons_False by (cbn; congruence).
  - apply (bool_decide_unpack _). vm_compute. exact I.
Qed.

End Builder.
End Builder.
