(* ===== verification/Clients.v ===== *)
(** * pkg/listwatcher, pkg/pluralizer, pkg/signals and GetConfig of pkg/controller/builder

    The thin layers over the client libraries: what the informer's list and watch ask for, the
    resource of a kind, the configuration of the API client, and the signal handler as a state machine.
    The dynamic client, the plural names and the in-cluster configuration come from outside. *)

From S2P Require Import Prelude Errors.
Import Errors.

Module Clients.

(** ** The list watcher *)

Section ListWatcher.
Context {GVR Rest : Type}.

(** [metav1.ListOptions]: the selectors, and the other fields. *)
Record ListOptions : Type := mkListOptions {
  LabelSelector : string; FieldSelector : string; rest : Rest }.

Record CreateOption : Type := mkCreateOption {
  GVROf : GVR;
  LabelSelectorOf : option string;
  FieldSelectorOf : option string;
  Namespace : string
}.

(** The override both functions start with. *)
Definition override (opts : CreateOption) (lo : ListOptions) : ListOptions :=
  let lo := match LabelSelectorOf opts with
            | Some l => mkListOptions l (FieldSelector lo) (rest lo)
            | None => lo
            end in
  match FieldSelectorOf opts with
  | Some f => mkListOptions (LabelSelector lo) f (rest lo)
  | None => lo
  end.

(** A call of the dynamic client: the verb, the resource, the namespace, the options. *)
Inductive verb : Type := List | Watch.
Record clientCall : Type := mkCall {
  callVerb : verb; callGVR : GVR; callNamespace : string; callOptions : ListOptions }.

Definition ListFunc (opts : CreateOption) (lo : ListOptions) : clientCall :=
  mkCall List (GVROf opts) (Namespace opts) (override opts lo).
Definition WatchFunc (opts : CreateOption) (lo : ListOptions) : clientCall :=
  mkCall Watch (GVROf opts) (Namespace opts) (override opts lo).

(** The informer lists and watches the same objects, whatever options it passes to each: the configured
    selectors win, one that is not configured is the informer's, and nothing else of its options changes. *)
Theorem list_watch_agree opts lo lo' :
  LabelSelector lo = LabelSelector lo' -> FieldSelector lo = FieldSelector lo' ->
  let l := ListFunc opts lo in let w := WatchFunc opts lo' in
  callGVR l = callGVR w /\ callNamespace l = callNamespace w /\
  LabelSelector (callOptions l) = LabelSelector (callOptions w) /\
  FieldSelector (callOptions l) = FieldSelector (callOptions w) /\
  LabelSelector (callOptions l) = default (LabelSelector lo) (LabelSelectorOf opts) /\
  FieldSelector (callOptions l) = default (FieldSelector lo) (FieldSelectorOf opts) /\
  rest (callOptions l) = rest lo /\ rest (callOptions w) = rest lo'.
Proof.
  intros El Ef. unfold ListFunc, WatchFunc, override. cbn.
  destruct (LabelSelectorOf opts), (FieldSelectorOf opts); cbn; by split_and!.
Qed.

End ListWatcher.
Arguments ListOptions Rest : clear implicits.
Arguments CreateOption GVR : clear implicits.
Arguments clientCall GVR Rest : clear implicits.

(** ** The pluralizer *)

Record GroupVersionKind : Type := mkGVK { gvkGroup : string; gvkVersion : string; gvkKind : string }.
Record GroupVersionResource : Type := mkGVR { Group : string; Version : string; Resource : string }.

(** [plurals.Get], which reads and fills the cache; the plural of what it gives. *)
Definition GVKtoGVR {Cache Info} (Get : GroupVersionKind -> Cache -> (error + Info) * Cache)
  (Plural : Info -> string) (gvk : GroupVersionKind) (c : Cache)
  : (GroupVersionResource * option error) * Cache :=
  let '(r, c) := Get gvk c in
  match r with
  | inl err => ((mkGVR EmptyString EmptyString EmptyString, Some err), c)
  | inr info => ((mkGVR (gvkGroup gvk) (gvkVersion gvk) (Plural info), None), c)
  end.

(** ** GetConfig

    [zeroQPS]: whether the rate limit of a configuration is 0. *)
Definition GetConfig {C} (zeroQPS : C -> bool) (setQPS : Z -> C -> C) (inCluster : error + C) : error + C :=
  match inCluster with
  | inl err => inl err
  | inr cfg => inr (if zeroQPS cfg then setQPS (-1) cfg else cfg)
  end.

(** ** The signal handler *)

(** The signals that ask a process to end, and those of them the handler is registered for. *)
Inductive signal : Type := Interrupt | SIGTERM.

#[export] Instance signal_eq_dec : EqDecision signal.
Proof. solve_decision. Defined.

Definition shutdownSignals (windows : bool) : list signal :=
  if windows then [Interrupt] else [Interrupt; SIGTERM].

(** What of the process the handler acts on: whether it was set up, the signals waiting in the buffered
    channel, whether the stop channel is closed, and the exit code once the process has ended. *)
Record process : Type := mkProcess {
  handlerSet : bool; waiting : nat; goroutine : nat; stopClosed : bool; exited : option Z }.

Definition fresh_process : process := mkProcess false 0 0 false None.

Definition SetupSignalHandler (p : process) : outcome process :=
  if handlerSet p then Panic "close of closed channel"
  else Ret (mkProcess true (waiting p) 2 (stopClosed p) (exited p)).

(** [signal.Notify] delivers to a channel of size 2, and drops what does not fit. *)
Definition deliver (p : process) : process :=
  mkProcess (handlerSet p) (Nat.min 2 (S (waiting p))) (goroutine p) (stopClosed p) (exited p).

(** The handler's goroutine takes a signal: the first closes the stop channel, the second ends the process.
    [goroutine] is the number of signals it still receives. *)
Definition receive (p : process) : process :=
  match waiting p, goroutine p with
  | S n, 2%nat => mkProcess (handlerSet p) n 1 true (exited p)
  | S n, 1%nat => mkProcess (handlerSet p) n 0 (stopClosed p) (Some 1)
  | _, _ => p
  end.

(** Signals arrive and are taken in any order. *)
Inductive pstep : process -> process -> Prop :=
| p_deliver p : handlerSet p = true -> exited p = None -> pstep p (deliver p)
| p_receive p : exited p = None -> pstep p (receive p).

(** The states of the handler, by the signals its goroutine has taken. *)
Definition handling (p : process) : Prop :=
  handlerSet p = true /\ (waiting p <= 2)%nat /\
  ((goroutine p = 2%nat /\ stopClosed p = false /\ exited p = None) \/
   (goroutine p = 1%nat /\ stopClosed p = true /\ exited p = None) \/
   (goroutine p = 0%nat /\ stopClosed p = true /\ exited p = Some 1)).

Lemma pstep_handling p p' : pstep p p' -> handling p -> handling p'.
Proof.
  destruct 1 as [[set wt g st ex] _ _|[set wt g st ex] _]; intros (Hset & Hw & Hp);
    unfold handling, deliver, receive in *; cbn [handlerSet waiting goroutine stopClosed exited] in *.
  - split_and!; [done|apply Nat.le_min_l|exact Hp].
  - destruct Hp as [(-> & -> & ->)|[(-> & -> & ->)|(-> & -> & ->)]]; destruct wt as [|n];
      cbn [handlerSet waiting goroutine stopClosed exited]; (split_and!; [done|lia|naive_solver]).
Qed.

(** From setup on: the stop channel is closed once the first signal is taken and not before, the process
    ends, with code 1, when the second is and not before, and two more signals always suffice for that. *)
Theorem signals_invariant p0 p :
  SetupSignalHandler fresh_process = Ret p0 -> rtc pstep p0 p ->
  (stopClosed p = true <-> (goroutine p < 2)%nat) /\
  exited p = match goroutine p with O => Some 1 | _ => None end /\
  (exited p = None -> exited (receive (receive (deliver (deliver p)))) = Some 1).
Proof.
  intros [= <-] Hr. assert (H0 : handling (mkProcess true 0 2 false None)).
  { split_and!; [done|cbn; lia|by left]. }
  assert (Hp : handling p).
  { induction Hr as [|p1 p2 p3 Hs Hr IH]; [done|]. by eapply IH, pstep_handling. }
  destruct p as [set wt g st ex].
  unfold handling in Hp; cbn [handlerSet waiting goroutine stopClosed exited] in *.
  destruct Hp as (_ & Hw & [(-> & -> & ->)|[(-> & -> & ->)|(-> & -> & ->)]]);
    (split_and!; [split; intros ?; first [done|lia]|done|]); try done;
    by destruct wt as [|[|[|]]].
Qed.

(** A second setup panics, as the comment says. *)
Theorem one_signal_handler p p' :
  SetupSignalHandler p = Ret p' -> is_panic (SetupSignalHandler p') = true.
Proof. unfold SetupSignalHandler. destruct (handlerSet p); [done|]. by intros [= <-]. Qed.

End Clients.
