(* ===== verification/Quickstart.v ===== *)
(** * examples/quickstart: a program around the controller

    [main] from its command line to its exit code: flags, the configuration, [builder.Build], then
    [Controller.Run] with two workers, the signal handler and the goroutine between them, which ends the
    context of [Run].  The files Builder, Shutdown and Clients come together here.  The external client of the
    example does nothing. *)

From S2P Require Import Prelude GoTime Errors Event Runtime Controller MetricsServer Builder Shutdown Clients.
Import GoTime Errors Runtime.

Module Quickstart.

(** ** The external client *)

(** The surroundings with [nopExternalClient] for external system: it logs, and says that the resource
    exists and is up to date. *)
Definition nopExternalClient {E O GVR} (W : World E O GVR) : World E O GVR := {|
  wNow := wNow;
  wShortid := wShortid;
  wGVKtoGVR := wGVKtoGVR;
  wGet := wGet;
  wUpdate := wUpdate;
  wUpdateStatus := wUpdateStatus;
  wObserve mg e := ((mg, (mkObservation true true, None)), e);
  wCreate mg e := ((mg, None), e);
  wExtUpdate mg e := ((mg, None), e);
  wExtDelete mg e := ((mg, None), e)
|}.

(** ** The command line *)

Record flags : Type := mkFlags { group : string; version : string; resource : string; namespace : string }.

Definition defaultFlags : flags := mkFlags "samples.krateo.io" "v1" "samples" "".

(** One [-name=value]; the exit code of a flag that is not there. *)
Definition setFlag (f : flags) (arg : string * string) : Z + flags :=
  let '(name, value) := arg in
  if String.eqb name "group" then inr (mkFlags value (version f) (resource f) (namespace f)) else
  if String.eqb name "version" then inr (mkFlags (group f) value (resource f) (namespace f)) else
  if String.eqb name "resource" then inr (mkFlags (group f) (version f) value (namespace f)) else
  if String.eqb name "namespace" then inr (mkFlags (group f) (version f) (resource f) value) else
  if String.eqb name "help" || String.eqb name "h" then inl 0 else inl 2.

Fixpoint Parse (f : flags) (args : list (string * string)) : Z + flags :=
  match args with
  | [] => inr f
  | arg :: args => match setFlag f arg with inl code => inl code | inr f => Parse f args end
  end.

(** ** Until Run *)

Section Setup.
Context {P RL H C : Type}.

(** The exit code, or the controller that was built. *)
Definition setup (w : Builder.surroundings) (heap : gmap positive (gmap string H)) (kubeconfig : option error)
  (args : list (string * string)) : outcome (Z + Builder.built (P := P) (RL := RL) (C := C)) :=
  match Parse defaultFlags args with
  | inl code => Ret (inl code)
  | inr f =>
    match kubeconfig with
    | Some _ => Ret (inl 1)
    | None =>
      ctrl ← Builder.Build w heap
        (Builder.mkConfiguration true (group f) (version f) (resource f) "quickstart-provider")
        [Builder.WithLogger true; Builder.WithNamespace (namespace f)];
      match ctrl with
      | inl _ => Ret (inl 1)
      | inr ctrl => Ret (inr ctrl)
      end
    end
  end.

(** With surroundings that fail nowhere, the program gets to [Run] unless its flags leave the group, the
    version or the resource empty; the drain window is the default one, and no port is opened for metrics. *)
Theorem setup_runs w heap args f :
  Builder.shortidErr w = None -> Builder.throttleErr w = None -> Builder.recorderErr w = None ->
  Builder.clientErr w = None -> Builder.listWatcherErr w = None -> Parse defaultFlags args = inr f ->
  setup w heap None args =
    if Builder.isEmpty (group f) || Builder.isEmpty (version f) || Builder.isEmpty (resource f)
    then Ret (inl 1)
    else Ret (inr (Builder.mkBuilt
      (Builder.WithNamespace (namespace f) Builder.defaultOptions) None Controller.defaultGracefulShutdownPeriod)).
Proof.
  intros H1 H2 H3 H4 H5 Ef. unfold setup. rewrite Ef. unfold Builder.Build, Builder.validate.
  cbn [Builder.Config Builder.Group Builder.Version Builder.Resource Builder.ProviderName negb].
  destruct (Builder.isEmpty (group f)) eqn:Eg; [done|]. destruct (Builder.isEmpty (version f)) eqn:Ev; [done|].
  destruct (Builder.isEmpty (resource f)) eqn:Er; [done|]. rewrite H1, H2, H3, H4, H5.
  cbn. unfold Controller.NewController, Controller.validate. cbn.
  unfold Builder.isEmpty in *. by rewrite Eg.
Qed.

End Setup.

(** ** From Run to the exit *)

(** How a process ends: with a code, by a signal it has no handler for, or by the panic of a goroutine,
    which nothing recovers. *)
Inductive fate : Type := Exit (code : Z) | Killed (sig : Clients.signal) | Crashed.

Record program : Type := mkProgram {
  proc : Clients.process;
  run : Shutdown.RunState;
  ended : option fate
}.

(** [cancel], the end of the context of [Run]. *)
Definition cancel (r : Shutdown.RunState) : Shutdown.RunState :=
  Shutdown.mkRun (Shutdown.pc r) (Shutdown.pool r) true (Shutdown.stopWorkers r) (Shutdown.queueShut r)
    (Shutdown.reconcileCancelled r) (Shutdown.clock r) (Shutdown.gracefulShutdownTimeout r).

(** What the process ends with when its signal handler does. *)
Definition byHandler (p : Clients.process) : option fate := Exit <$> Clients.exited p.

(** What [main] returns with. *)
Definition exitCode (e : Shutdown.ending) : Z := match e with Shutdown.ESyncFailed => 1 | _ => 0 end.

Section Program.
Context (windows : bool).

Inductive qstep : program -> program -> Prop :=
| q_setup p p' r : Clients.handlerSet p = false -> Clients.SetupSignalHandler p = Ret p' ->
    qstep (mkProgram p r None) (mkProgram p' r None)
| q_killed sig p r : ~ (Clients.handlerSet p = true /\ sig ∈ Clients.shutdownSignals windows) ->
    qstep (mkProgram p r None) (mkProgram p r (Some (Killed sig)))
| q_signal p p' r : Clients.handlerSet p = true -> Clients.pstep p p' ->
    qstep (mkProgram p r None) (mkProgram p' r (byHandler p'))
| q_crash p r :
    qstep (mkProgram p r None) (mkProgram p r (Some Crashed))
| q_cancel p r : Clients.stopClosed p = true ->
    qstep (mkProgram p r None) (mkProgram p (cancel r) None)
| q_run p r r' : Shutdown.onward 2 r r' -> Shutdown.ctxDone r' = Shutdown.ctxDone r ->
    qstep (mkProgram p r None) (mkProgram p r' None)
| q_return p r e : Shutdown.pc r = Shutdown.RReturned e ->
    qstep (mkProgram p r None) (mkProgram p r (Some (Exit (exitCode e)))).

(** The program at the call of [Run], at time [t], with the drain window [g]. *)
Definition begin (t g : Z) : program := mkProgram Clients.fresh_process (Shutdown.start t g) None.

(** [main] up to the call of [Run]: the end it comes to before, or the program it is at that call. *)
Definition launch {P RL H C : Type} (t : Z) (w : Builder.surroundings)
  (heap : gmap positive (gmap string H)) (kubeconfig : option error) (args : list (string * string))
  : fate + program :=
  match setup (P := P) (RL := RL) (H := H) (C := C) w heap kubeconfig args with
  | Panic _ => inl Crashed
  | Ret (inl code) => inl (Exit code)
  | Ret (inr ctrl) => inr (begin t (Builder.bDrain ctrl))
  end.

(** The drain window that [Run] has read. *)
Definition windowRead (g : Z) (r : Shutdown.RunState) : Prop :=
  Shutdown.gracefulShutdownTimeout r = g /\
  match Shutdown.pc r with
  | Shutdown.RClose w | Shutdown.RShut w | Shutdown.RBranch w | Shutdown.RWait _ w
  | Shutdown.RReturned (Shutdown.EExpired _ w) => w = g
  | Shutdown.RReturned Shutdown.EAbrupt => g = 0
  | _ => True
  end.

Lemma onward_window g r r' : Shutdown.onward 2 r r' -> windowRead g r -> windowRead g r'.
Proof.
  intros [Hr Hg] [Hw Hpc]. split; [by rewrite Hg|]. destruct Hr; cbn in *; subst; try done.
Qed.

(** [Run] goes on until its context ends. *)
Definition serving (k : Shutdown.runPc) : bool :=
  match k with Shutdown.RSync | Shutdown.RServe => true | _ => false end.

(** What the parts have got to, and how they go together. *)
Record together (g : Z) (s : program) : Prop := mkTogether {
  tg_progress : Shutdown.progress (run s);
  tg_window : windowRead g (run s);
  tg_handler : Clients.handling (proc s) \/ proc s = Clients.fresh_process;
  tg_context : Shutdown.ctxDone (run s) = true -> Clients.stopClosed (proc s) = true;
  tg_stopping : serving (Shutdown.pc (run s)) = false -> Shutdown.ctxDone (run s) = true
}.

(** How a program can have ended. *)
Definition accounted (g : Z) (s : program) (how : fate) : Prop :=
  match how with
  | Killed sig => ~ (Clients.handlerSet (proc s) = true /\ sig ∈ Clients.shutdownSignals windows)
  | Crashed => True
  | Exit code => Clients.stopClosed (proc s) = true /\
    ((code = 1 /\ Clients.exited (proc s) = Some 1) \/
     exists e, Shutdown.pc (run s) = Shutdown.RReturned e /\ code = exitCode e)
  end.

Lemma fresh_or_handling g s : together g s ->
  Clients.handlerSet (proc s) = true -> Clients.handling (proc s).
Proof. intros [_ _ [Hh| ->] _ _]; [done|]. done. Qed.

Lemma pstep_stop p p' : Clients.pstep p p' -> Clients.stopClosed p = true -> Clients.stopClosed p' = true.
Proof.
  destruct 1 as [p _ _|p _]; [done|]. unfold Clients.receive.
  by destruct (Clients.waiting p), (Clients.goroutine p) as [|[|[|]]].
Qed.

Lemma qstep_together g s s' : qstep s s' -> together g s -> together g s'.
Proof.
  intros Hs Ht. pose proof (fresh_or_handling g s Ht) as Hhandling. destruct Ht as [Hp Hw Hh Hc Hr].
  destruct Hs as [p p' r Hset Hsetup| |p p' r Hset Hst| |p r Hstop|p r r' Ho Hd|]; cbn [proc run] in *;
    try by split.
  - destruct Hh as [[? _]| ->]; [congruence|]. injection Hsetup as <-. split; cbn [proc run]; try done.
    left. split_and!; [done|cbn; lia|by left].
  - split; cbn [proc run]; try done; [left; by eapply Clients.pstep_handling, Hhandling|].
    intros Hd. by eapply pstep_stop, Hc.
  - split; cbn [proc run]; [by eapply Shutdown.rstep_progress, Hp; apply Ho|by eapply onward_window|done|rewrite Hd; done|].
    rewrite Hd. destruct Ho as [Ho _]. destruct Ho; cbn in *; auto.
Qed.

Lemma qstep_accounted g s s' how :
  qstep s s' -> together g s -> ended s' = Some how -> accounted g s' how.
Proof.
  intros Hs Ht. pose proof (qstep_together g s s' Hs Ht) as Ht'.
  destruct Hs as [|sig p r Hn|p p' r Hset Hst|p r| | |p r e He]; cbn [ended proc run] in *; try done.
  - by intros [= <-].
  - unfold byHandler. destruct (Clients.exited p') as [code|] eqn:Ee; [|done]. intros [= <-].
    destruct (Clients.pstep_handling _ _ Hst (fresh_or_handling g _ Ht Hset)) as (_ & _ & [(_ & _ & E)|[(_ & _ & E)|(_ & Hstop & E)]]); [congruence..|].
    cbn. rewrite E in Ee. injection Ee as <-. split; [done|by left].
  - by intros [= <-].
  - intros [= <-]. split; [|by right; exists e]. apply (tg_context g _ Ht'), (tg_stopping g _ Ht').
    cbn. by rewrite He.
Qed.

Lemma reachable_together t g s : rtc qstep (begin t g) s ->
  together g s /\ forall how, ended s = Some how -> accounted g s how.
Proof.
  assert (H0 : together g (begin t g)).
  { split; cbn; try done; by right. }
  intros Hr. assert (Hinv : forall s0, rtc qstep s0 s -> together g s0 ->
    (forall how, ended s0 = Some how -> accounted g s0 how) ->
    together g s /\ forall how, ended s = Some how -> accounted g s how).
  { induction 1 as [s0|s0 s1 s2 Hs _ IH]; intros Ht Ha; [done|].
    apply IH; [done|by eapply qstep_together|]. intros how. by eapply qstep_accounted. }
  by apply (Hinv _ Hr).
Qed.

(** From the end of the context on, [Run] takes the program to its exit. *)
Lemma exits_cancelled g p r : together g (mkProgram p r None) -> Shutdown.ctxDone r = true ->
  exists e r', rtc qstep (mkProgram p r None) (mkProgram p r' (Some (Exit (exitCode e)))).
Proof.
  intros [Hp _ _ _ _] Hd. destruct (Shutdown.returns_cancelled 2 r Hp Hd) as (r' & e & Hr & He).
  exists e, r'. clear Hp. revert Hd. induction Hr as [r|r1 r2 r3 Ho _ IH]; intros Hd.
  - by apply rtc_once, q_return.
  - assert (Hd2 : Shutdown.ctxDone r2 = true).
    { destruct Ho as [Ho _]. destruct Ho; cbn in *; done. }
    eapply rtc_l; [apply q_run; [exact Ho|by rewrite Hd]|]. by apply IH.
Qed.

(** What a state reached after the call of [Run], with the drain window [g], tells. *)
Definition explained (g : Z) (s : program) : Prop :=
  match ended s with
  | Some (Killed sig) => ~ (Clients.handlerSet (proc s) = true /\ sig ∈ Clients.shutdownSignals windows)
  | Some Crashed => True
  | Some (Exit code) => Clients.stopClosed (proc s) = true /\
    (code = 0 -> g = 0 \/ Shutdown.allGone (Shutdown.pool (run s)) \/
       exists since, 0 < g /\ since + g <= Shutdown.clock (run s)) /\
    (code = 1 -> Clients.exited (proc s) = Some 1 \/ Shutdown.pc (run s) = Shutdown.RReturned Shutdown.ESyncFailed) /\
    (code = 0 \/ code = 1)
  | None => (Shutdown.ctxDone (run s) = true -> Clients.stopClosed (proc s) = true) /\
    (Clients.stopClosed (proc s) = true ->
     exists code s', rtc qstep s s' /\ ended s' = Some (Exit code) /\ proc s' = proc s)
  end.

Lemma reachable_explained t g s : rtc qstep (begin t g) s -> explained g s.
Proof.
  intros [Ht Ha]%reachable_together. unfold explained.
  destruct s as [p r [[code|sig|]|]]; cbn [ended proc run] in *.
  - destruct (Ha _ eq_refl) as (Hstop & Hcode). cbn [proc run] in *. split; [done|].
    pose proof (tg_progress g _ Ht) as Hp. pose proof (tg_window g _ Ht) as [_ Hw]. unfold Shutdown.progress in Hp.
    cbn [run] in *. destruct Hcode as [[-> He]|(e & He & ->)]; [naive_solver|].
    rewrite He in Hp, Hw. rewrite He. destruct e as [| | |since w]; cbn.
    + naive_solver.
    + naive_solver.
    + naive_solver.
    + subst w. naive_solver.
  - exact (Ha _ eq_refl).
  - done.
  - split; [apply Ht|]. intros Hstop.
    assert (Hc : together g (mkProgram p (cancel r) None)).
    { eapply qstep_together; [by apply q_cancel|done]. }
    destruct (exits_cancelled g p (cancel r) Hc eq_refl) as (e & r' & Hr).
    exists (exitCode e), (mkProgram p r' (Some (Exit (exitCode e)))).
    split; [|done]. eapply rtc_l; [by apply q_cancel|exact Hr].
Qed.

(** The call of [Build] that [main] makes. *)
Definition build {P RL H C : Type} (w : Builder.surroundings)
  (heap : gmap positive (gmap string H)) (f : flags)
  : outcome (error + Builder.built (P := P) (RL := RL) (H := H) (C := C)) :=
  Builder.Build w heap
    (Builder.mkConfiguration true (group f) (version f) (resource f) "quickstart-provider")
    [Builder.WithLogger true; Builder.WithNamespace (namespace f)].

(** It has a logger, so it reports what fails and does not panic; the drain window is the default one. *)
Lemma build_run {P RL H C : Type} w (heap : gmap positive (gmap string H)) f :
  (exists e, build (P := P) (RL := RL) (C := C) w heap f = Ret (inl e)) \/
  exists b, build (P := P) (RL := RL) (C := C) w heap f = Ret (inr b) /\
    Builder.bDrain b = Controller.defaultGracefulShutdownPeriod.
Proof.
  unfold build, Builder.Build. destruct (Builder.validate _) as [e|]; [left; by exists e|].
  cbv zeta. set (o := foldl _ _ _).
  assert (Hfails : forall what e, exists e',
    Builder.fails (A := Builder.built (P := P) (RL := RL) (H := H) (C := C)) o what e = Ret (inl e')).
  { intros what e. by eexists. }
  destruct (Builder.shortidErr w); [left; apply Hfails|]. destruct (Builder.throttleErr w); [left; apply Hfails|].
  destruct (Builder.recorderErr w); [left; apply Hfails|].
  destruct (MetricsServer.NewServer _ _ _); [left; apply Hfails|]. destruct (Builder.clientErr w); [left; apply Hfails|].
  unfold Controller.NewController. destruct (Controller.validate _); [left; apply Hfails|].
  destruct (Builder.listWatcherErr w); [left; apply Hfails|]. right. by eexists.
Qed.

(** C28. The program around the controller, when no signal comes before [Run] is called.  It ends before
    [Run] with 0 when asked for help, 2 on a flag it does not have, 1 when the configuration cannot be
    loaded or the controller cannot be built, and in no other way.  From the call of [Run] on, with the
    default drain window, only a signal that it has no handler for kills it, only the panic of a
    goroutine crashes it, and the context of [Run] ends only after a signal that it has a handler for.
    It exits then with code 0 only when the workers have left or the window has passed, and with code
    1 only when a second signal came or it was told to stop before its caches had synced.  After the
    first signal it can always get to its exit, without another one. *)
Theorem program_exits {P RL H C : Type} t w (heap : gmap positive (gmap string H)) kubeconfig args :
  match launch (P := P) (RL := RL) (C := C) t w heap kubeconfig args with
  | inl Crashed | inl (Killed _) => False
  | inl (Exit code) =>
    Parse defaultFlags args = inl code \/
    (code = 1 /\ exists f, Parse defaultFlags args = inr f /\
       (is_Some kubeconfig \/
        exists e, build (P := P) (RL := RL) (C := C) w heap f = Ret (inl e)))
  | inr s0 => s0 = begin t Controller.defaultGracefulShutdownPeriod /\
    forall s, rtc qstep s0 s -> explained Controller.defaultGracefulShutdownPeriod s
  end.
Proof.
  unfold launch, setup. destruct (Parse defaultFlags args) as [code|f] eqn:Ef; [by left|].
  destruct kubeconfig as [err|]; [right; split; [done|]; exists f; split; [done|by left]|].
  fold (build (P := P) (RL := RL) (H := H) (C := C) w heap f).
  destruct (build_run (P := P) (RL := RL) (C := C) w heap f) as [[e Eb]|(b & Eb & Ed)]; rewrite Eb;
    cbn [mbind outcome_bind].
  - right. split; [done|]. exists f. split; [done|]. right. by exists e.
  - rewrite Ed. split; [done|]. intros s. apply reachable_explained.
Qed.

End Program.
End Quickstart.
