(* ===== verification/MetricsRegistry.v ===== *)
(** * pkg/metrics, pkg/workqueue/metrics: collectors and the registry

    The Prometheus collectors of the runtime with their names and labels, where they are registered, the
    operations that write to them, and what the metrics server can show of them.  A vector of Prometheus
    is a map from label values to cells; durations are in nanoseconds.  Registering a name twice and
    giving the wrong number of label values panic, as the client library documents. *)

From S2P Require Import Prelude GoTime RateLimiter BTree PriorityQueue PriorityQueueFacts PQSpin PQTrace.
From S2P Require Import PQMetrics PQDepth.
From stdpp Require Import pretty.
#[local] Open Scope Z_scope.
Import GoTime PriorityQueue PQFacts PQSpin PQTrace PQMetrics PQDepth.

Module MetricsRegistry.

(** ** Collectors *)

Definition WorkQueueSubsystem : string := "workqueue".
Definition DepthKey : string := "depth".
Definition AddsKey : string := "adds_total".
Definition QueueLatencyKey : string := "queue_duration_seconds".
Definition WorkDurationKey : string := "work_duration_seconds".
Definition UnfinishedWorkKey : string := "unfinished_work_seconds".
Definition LongestRunningProcessorKey : string := "longest_running_processor_seconds".
Definition RetriesKey : string := "retries_total".

Record collector : Type := mkCollector { fqName : string; labelNames : list string }.

(** [prometheus.BuildFQName] with a subsystem. *)
Definition ofQueue (key : string) (labels : list string) : collector :=
  mkCollector (WorkQueueSubsystem +:+ "_" +:+ key) labels.

Definition workDurationWithPriority : collector :=
  ofQueue "work_duration_seconds_with_priority" ["name"; "controller"; "priority"].
Definition totalDuration : collector :=
  ofQueue "total_duration_seconds" ["name"; "controller"; "priority"].
Definition depth : collector := ofQueue DepthKey ["name"; "controller"; "priority"].
Definition adds : collector := ofQueue AddsKey ["name"; "controller"].
Definition latency : collector := ofQueue QueueLatencyKey ["name"; "controller"; "priority"].
Definition workDuration : collector := ofQueue WorkDurationKey ["name"; "controller"].
Definition unfinished : collector := ofQueue UnfinishedWorkKey ["name"; "controller"].
Definition longestRunningProcessor : collector :=
  ofQueue LongestRunningProcessorKey ["name"; "controller"].
Definition retries : collector := ofQueue RetriesKey ["name"; "controller"].

Definition leaderGauge : collector := mkCollector "leader_election_master_status" ["name"].
Definition leaderSlowpathCounter : collector := mkCollector "leader_election_slowpath_total" ["name"].
Definition requestResult : collector :=
  mkCollector "rest_client_requests_total" ["code"; "method"; "host"].
Definition ReadCertificateTotal : collector := mkCollector "certwatcher_read_certificate_total" [].
Definition ReadCertificateErrors : collector :=
  mkCollector "certwatcher_read_certificate_errors_total" [].
Definition reconcileTotal : collector :=
  mkCollector "controller_reconcile_total" ["kind"; "namespace"; "result"].
Definition reconcileDuration : collector :=
  mkCollector "controller_reconcile_duration_seconds" ["kind"; "namespace"].

(** ** Registration *)

(** A registry: the names registered, with their labels. *)
Definition MustRegister (c : collector) (r : gmap string (list string))
  : outcome (gmap string (list string)) :=
  match r !! fqName c with
  | Some _ => Panic "duplicate metrics collector registration attempted"
  | None => Ret (<[ fqName c := labelNames c ]> r)
  end.

Fixpoint registerAll (cs : list collector) (r : gmap string (list string))
  : outcome (gmap string (list string)) :=
  match cs with [] => Ret r | c :: cs => r ← MustRegister c r; registerAll cs r end.

(** What the packages' [init] functions register: with the registry of package metrics, which the metrics
    server serves, and with the default one. *)
Definition initRegistry : list collector :=
  [leaderGauge; requestResult; depth; adds; latency; workDuration; workDurationWithPriority;
   totalDuration; unfinished; longestRunningProcessor; retries; ReadCertificateTotal;
   ReadCertificateErrors].
Definition initDefault : list collector := [reconcileTotal; reconcileDuration].

(** ** Cells *)

(** The values written so far, per name and label values. *)
Abbreviation key := (string * list string)%type.
Record cells : Type := mkCells { numbers : gmap key Z; observed : gmap key (list Z) }.

Definition WithLabelValues (c : collector) (lvs : list string) : outcome key :=
  if Nat.eqb (length lvs) (length (labelNames c)) then Ret (fqName c, lvs)
  else Panic "inconsistent label cardinality".

Definition addNumber (c : collector) (lvs : list string) (n : Z) (s : cells) : outcome cells :=
  k ← WithLabelValues c lvs;
  mret (mkCells (<[ k := default 0 (numbers s !! k) + n ]> (numbers s)) (observed s)).
Definition setNumber (c : collector) (lvs : list string) (n : Z) (s : cells) : outcome cells :=
  k ← WithLabelValues c lvs; mret (mkCells (<[ k := n ]> (numbers s)) (observed s)).
Definition observe (c : collector) (lvs : list string) (d : Z) (s : cells) : outcome cells :=
  k ← WithLabelValues c lvs;
  mret (mkCells (numbers s) (<[ k := default [] (observed s !! k) ++ [d] ]> (observed s))).

(** [strconv.Itoa] *)
Definition Itoa (n : Z) : string := pretty n.

(** The calls of a queue's metrics, with the instruments the provider makes for the queue's [name]. *)
Definition providerCall (name : string) (c : call) : cells -> outcome cells :=
  match c with
  | AddsInc => addNumber adds [name; name] 1
  | RetriesInc => addNumber retries [name; name] 1
  | DepthInc => addNumber depth [name; name; EmptyString] 1
  | DepthDec => addNumber depth [name; name; EmptyString] (-1)
  | DepthWithPriorityInc p => addNumber depth [name; name; Itoa p] 1
  | DepthWithPriorityDec p => addNumber depth [name; name; Itoa p] (-1)
  | LatencyObserve d => observe latency [name; name; EmptyString] d
  | LatencyWithPriorityObserve p d => observe latency [name; name; Itoa p] d
  | WorkDurationObserve d => observe workDuration [name; name] d
  | WorkDurationWithPriorityObserve p d => observe workDurationWithPriority [name; name; Itoa p] d
  | TotalDurationWithPriorityObserve p d => observe totalDuration [name; name; Itoa p] d
  | UnfinishedWorkSet d => setNumber unfinished [name; name] d
  | LongestRunningSet d => setNumber longestRunningProcessor [name; name] d
  end.

(** The calls made so far, the latest first. *)
Fixpoint providerCalls (name : string) (cs : list call) (s : cells) : outcome cells :=
  match cs with [] => Ret s | c :: cs => s ← providerCalls name cs s; providerCall name c s end.

(** The adapters of the leader election, of client-go's requests, and [recordMetric] of the worker. *)
Definition On (name : string) : cells -> outcome cells := setNumber leaderGauge [name] 1.
Definition Off (name : string) : cells -> outcome cells := setNumber leaderGauge [name] 0.
Definition SlowpathExercised (name : string) : cells -> outcome cells :=
  addNumber leaderSlowpathCounter [name] 1.
Definition Increment (code method host : string) : cells -> outcome cells :=
  addNumber requestResult [code; method; host] 1.

Definition noCells : cells := mkCells ∅ ∅.

(** ** What the metrics server shows *)

(** The value of a series a registry gathers: none for a collector that is not registered with it. *)
Definition gathered (r : gmap string (list string)) (s : cells) (c : collector) (lvs : list string)
  : option Z :=
  match r !! fqName c with Some _ => numbers s !! (fqName c, lvs) | None => None end.

(** ** Properties *)

(** No two of the runtime's collectors share a name, so the [init] functions do not panic. *)
Theorem registration_succeeds :
  is_panic (registerAll initRegistry ∅) = false /\ is_panic (registerAll initDefault ∅) = false.
Proof. split; vm_compute; reflexivity. Qed.

Definition servedRegistry : gmap string (list string) :=
  match registerAll initRegistry ∅ with Ret r => r | Panic _ => ∅ end.

(** The metrics server serves neither the worker's counter of reconciles, which is registered elsewhere,
    nor the leader election's slow paths, which are registered nowhere, whatever is written to them. *)
Theorem not_served s lvs :
  gathered servedRegistry s reconcileTotal lvs = None /\
  gathered servedRegistry s reconcileDuration lvs = None /\
  gathered servedRegistry s leaderSlowpathCounter lvs = None.
Proof.
  assert (Hno : forall c, bool_decide (is_Some (servedRegistry !! fqName c)) = false ->
    gathered servedRegistry s c lvs = None).
  { intros c Hc%bool_decide_eq_false. unfold gathered.
    destruct (servedRegistry !! fqName c); [by destruct Hc; eexists|done]. }
  split_and!; apply Hno; vm_compute; reflexivity.
Qed.

Lemma gathered_depth s lvs : gathered servedRegistry s depth lvs = numbers s !! (fqName depth, lvs).
Proof. reflexivity. Qed.

(** What a call adds to the depth series of a priority. *)
Lemma providerCall_depth name c s :
  exists s', providerCall name c s = Ret s' /\
    forall p, c <> DepthInc -> c <> DepthDec ->
      default 0 (numbers s' !! (fqName depth, [name; name; Itoa p])) =
      default 0 (numbers s !! (fqName depth, [name; name; Itoa p])) +
        PQDepth.gauge1 (fun q => bool_decide (q = p)) c.
Proof.
  destruct c; cbn [providerCall]; unfold addNumber, setNumber, observe;
    (eexists; split; [reflexivity|]); intros p H1 H2; cbn [numbers PQDepth.gauge1]; try done;
    try (rewrite lookup_insert_ne by done); try lia.
  all: case_bool_decide as Ep; [subst; rewrite lookup_insert_eq; cbn [default from_option id]; lia|].
  all: rewrite lookup_insert_ne; [lia|]. all: intros [= E]; apply Ep; by apply (inj pretty).
Qed.

(** A provider with priorities never touches the series without one. *)
Definition hasPriority (c : call) : Prop := c <> DepthInc /\ c <> DepthDec.

Lemma providerCalls_depth name cs :
  Forall hasPriority cs ->
  exists s, providerCalls name cs noCells = Ret s /\
    forall p, default 0 (numbers s !! (fqName depth, [name; name; Itoa p])) =
      PQDepth.gauge (fun q => bool_decide (q = p)) cs.
Proof.
  induction 1 as [|c cs [H1 H2] _ (s & Es & Hs)]; [by eexists|]. cbn [providerCalls]. rewrite Es.
  destruct (providerCall_depth name c s) as (s' & E & Hd). exists s'. split; [exact E|]. intros p.
  rewrite (Hd p H1 H2), Hs. unfold PQDepth.gauge. cbn [foldr]. lia.
Qed.

Section Exposed.
Context {T : Type} `{Countable T} {B R : Type}.
Context `{!BTree (@less T) B, !BTreeLaws (@less T) B} `{!RateLimiter T R}.

Definition prioritized (m : defaultQueueMetrics T) : Prop :=
  withPriority m = true /\ Forall hasPriority (calls m).

Lemma observe_prioritized cs m :
  Forall hasPriority cs -> prioritized m -> prioritized (PQMetrics.observe cs m).
Proof. intros Hc [Hp Hm]. split; [done|]. by apply Forall_app. Qed.

Lemma retry_prioritized m : prioritized m -> prioritized (PQMetrics.retry m).
Proof. apply observe_prioritized. apply Forall_cons. by split; [split|apply Forall_nil_2]. Qed.

Lemma add_prioritized now k p m : prioritized m -> prioritized (PQMetrics.add now k p m).
Proof.
  intros [Hp Hm]. unfold PQMetrics.add. rewrite Hp. cbn. destruct (addTimes m !! k); (split; [done|]);
    repeat constructor; done.
Qed.

Lemma get_prioritized now k p m : prioritized m -> prioritized (PQMetrics.get now k p m).
Proof.
  intros [Hp Hm]. unfold PQMetrics.get. cbn. rewrite Hp. destruct (addTimes m !! k); (split; [done|]);
    repeat constructor; done.
Qed.

Lemma done_prioritized now k p m : prioritized m -> prioritized (PQMetrics.done now k p m).
Proof.
  intros [Hp Hm]. unfold PQMetrics.done.
  destruct (processingStartTimes m !! k); cbn; rewrite ?Hp; cbn; destruct (addTimes m !! k);
    rewrite ?Hp; (split; [done|]); repeat constructor; done.
Qed.

Lemma update_prioritized o n m :
  prioritized m -> prioritized (PQMetrics.updateDepthWithPriorityMetric (T := T) o n m).
Proof.
  intros [Hp Hm]. unfold PQMetrics.updateDepthWithPriorityMetric. rewrite Hp. split; [done|].
  repeat constructor; done.
Qed.

(** C17. What is shown of the queue: in every state a queue with the runtime's metrics provider can reach, the
    series of a priority that the metrics server serves has as its value the number of queued items of
    that priority that are ready, and 0, or no series, for a priority without one. *)
Theorem exposed_depth (rl : R) name t tr (r : Run) :
  qruns (mkRun (New rl (newDefaultQueueMetrics true)) t None) tr r ->
  exists s, providerCalls name (calls (metrics (runQueue r))) noCells = Ret s /\
    forall p, default 0 (gathered servedRegistry s depth [name; name; Itoa p]) =
      depthOf (fun q => bool_decide (q = p)) (items (runQueue r)) (becameReady (runQueue r)).
Proof.
  intros Hr. set (m0 := newDefaultQueueMetrics true) in *.
  pose proof (New_WF (B := B) rl m0) as Hw.
  assert (Hp : prioritized (metrics (runQueue r))).
  { apply (qruns_kept prioritized) with (r0 := mkRun (New rl m0) t None) (tr := tr);
      [apply add_prioritized|apply get_prioritized|apply update_prioritized|apply done_prioritized
      |intros m; apply retry_prioritized|exact Hw|exact Hr|by split; [done|apply Forall_nil_2]]. }
  destruct (providerCalls_depth name _ (proj2 Hp)) as (s & Es & Hs). exists s. split; [exact Es|].
  intros p. rewrite gathered_depth, Hs.
  destruct (qruns_truthful (mkRun (New rl m0) t None) _ _ Hw (New_truthful rl true) Hr) as [Hm _].
  apply (mi_depth _ _ _ _ Hm). left. apply Hp.
Qed.

End Exposed.
End MetricsRegistry.
