(* ===== verification/Telemetry.v ===== *)
(** * pkg/telemetry: instruments, recorders and trace propagation

    What the telemetry package sets up and what its recorders do with it.  The meter, the exporters and
    the SDK are OpenTelemetry's: creating an instrument gives an error or none, and a recorder's calls
    on instruments are a list of [emission]s.  Durations stay in nanoseconds; their conversion to
    float64 seconds is not modelled. *)

From S2P Require Import Prelude GoTime Errors Meta Runtime.
Import GoTime Errors.

Module Telemetry.

(** ** Configuration *)

Definition defaultServiceName : string := "unstructured-runtime".
Definition defaultExportInterval : Z := 30 * Second.

Record Config : Type := mkConfig {
  Enabled : bool;
  TracingEnabled : bool;
  ServiceName : string;
  ExportInterval : Z;
  DeploymentName : string;
  Namespace : string;
  Version : string;
  CompositionID : string
}.

Definition serviceName (cfg : Config) : string :=
  if String.eqb (ServiceName cfg) EmptyString then defaultServiceName else ServiceName cfg.
Definition exportInterval (cfg : Config) : Z :=
  if ExportInterval cfg <=? 0 then defaultExportInterval else ExportInterval cfg.

(** An attribute that is left out when it has no value. *)
Definition optional (k v : string) : list (string * string) :=
  if String.eqb v EmptyString then [] else [(k, v)].

(** The attributes of the resource, before they are merged with the default ones. *)
Definition resourceAttrs (cfg : Config) : list (string * string) :=
  [("service.name", serviceName cfg)] ++ optional "service.namespace" (Namespace cfg) ++
  optional "service.version" (Version cfg) ++
  optional "krateo.io/composition-id" (CompositionID cfg) ++
  optional "k8s.deployment.name" (DeploymentName cfg) ++
  optional "service.instance.id" (DeploymentName cfg).

(** ** Instruments *)

Inductive kind : Type :=
| Int64Counter
| Int64UpDownCounter
| Float64Histogram
| Int64ObservableGauge.

#[export] Instance kind_eq_dec : EqDecision kind.
Proof. solve_decision. Defined.

(** The fields of [Metrics] that hold instruments, in the order [newMetrics] fills them. *)
Inductive instrument : Type :=
| startupSuccess
| startupFailure
| getDuration
| getFailure
| reconcileDuration
| queueDepth
| queueWaitDuration
| queueOldestItemAge
| queueWorkDuration
| reconcileInFlight
| reconcileSuccess
| reconcileFailure
| reconcileRequeueAfter
| reconcileRequeueImmediate
| reconcileErrorRequeue
| queueRequeueTotal
| connectDuration
| connectFailure
| observeDuration
| observeFailure
| createDuration
| createFailure
| updateDuration
| updateFailure
| deleteDuration
| deleteFailure
| finalizerAddDuration
| finalizerAddFailure
| finalizerRemoveDuration
| finalizerRemoveFailure
| statusUpdateDuration
| statusUpdateFailure.

#[export] Instance instrument_eq_dec : EqDecision instrument.
Proof. solve_decision. Defined.

Definition instruments : list (instrument * kind * string) :=
  [(startupSuccess, Int64Counter, "unstructured_runtime.startup.success");
   (startupFailure, Int64Counter, "unstructured_runtime.startup.failure");
   (getDuration, Float64Histogram, "unstructured_runtime.reconcile.get.duration_seconds");
   (getFailure, Int64Counter, "unstructured_runtime.reconcile.get.failure");
   (reconcileDuration, Float64Histogram, "unstructured_runtime.reconcile.duration_seconds");
   (queueDepth, Int64UpDownCounter, "unstructured_runtime.reconcile.queue.depth");
   (queueWaitDuration, Float64Histogram, "unstructured_runtime.reconcile.queue.wait.duration_seconds");
   (queueOldestItemAge, Float64Histogram, "unstructured_runtime.reconcile.queue.oldest_item_age_seconds");
   (queueWorkDuration, Float64Histogram, "unstructured_runtime.reconcile.queue.work.duration_seconds");
   (reconcileInFlight, Int64ObservableGauge, "unstructured_runtime.reconcile.in_flight");
   (reconcileSuccess, Int64Counter, "unstructured_runtime.reconcile.success");
   (reconcileFailure, Int64Counter, "unstructured_runtime.reconcile.failure");
   (reconcileRequeueAfter, Int64Counter, "unstructured_runtime.reconcile.requeue.after");
   (reconcileRequeueImmediate, Int64Counter, "unstructured_runtime.reconcile.requeue.immediate");
   (reconcileErrorRequeue, Int64Counter, "unstructured_runtime.reconcile.requeue.error");
   (queueRequeueTotal, Int64Counter, "unstructured_runtime.reconcile.queue.requeues");
   (connectDuration, Float64Histogram, "unstructured_runtime.external.connect.duration_seconds");
   (connectFailure, Int64Counter, "unstructured_runtime.external.connect.failure");
   (observeDuration, Float64Histogram, "unstructured_runtime.external.observe.duration_seconds");
   (observeFailure, Int64Counter, "unstructured_runtime.external.observe.failure");
   (createDuration, Float64Histogram, "unstructured_runtime.external.create.duration_seconds");
   (createFailure, Int64Counter, "unstructured_runtime.external.create.failure");
   (updateDuration, Float64Histogram, "unstructured_runtime.external.update.duration_seconds");
   (updateFailure, Int64Counter, "unstructured_runtime.external.update.failure");
   (deleteDuration, Float64Histogram, "unstructured_runtime.external.delete.duration_seconds");
   (deleteFailure, Int64Counter, "unstructured_runtime.external.delete.failure");
   (finalizerAddDuration, Float64Histogram, "unstructured_runtime.finalizer.add.duration_seconds");
   (finalizerAddFailure, Int64Counter, "unstructured_runtime.finalizer.add.failure");
   (finalizerRemoveDuration, Float64Histogram, "unstructured_runtime.finalizer.remove.duration_seconds");
   (finalizerRemoveFailure, Int64Counter, "unstructured_runtime.finalizer.remove.failure");
   (statusUpdateDuration, Float64Histogram, "unstructured_runtime.status.update.duration_seconds");
   (statusUpdateFailure, Int64Counter, "unstructured_runtime.status.update.failure")].

Definition nameOf (r : instrument * kind * string) : string := r.2.
Definition fieldOf (r : instrument * kind * string) : instrument := r.1.1.
Definition kindOf (i : instrument) : option kind :=
  (fun r => r.1.2) <$> head (filter (fun r => fieldOf r = i) instruments).

(** The fields of [Metrics] that are not instruments. *)
Record Metrics : Type := mkMetrics {
  deploymentName : string;
  reconcileInFlightCount : Z
}.

(** The instruments created, in order, up to the first error; [create] is what the meter gives. *)
Fixpoint createAll (create : kind -> string -> option error) (l : list (instrument * kind * string))
  (created : list instrument) : list instrument * option error :=
  match l with
  | [] => (created, None)
  | (i, k, name) :: l =>
    match create k name with
    | Some err => (created, Some err)
    | None => createAll create l (created ++ [i])
    end
  end.

(** The metrics, or an error; and the instruments created.  [registered]: what registering the callback
    of the gauge gives. *)
Definition newMetrics (create : kind -> string -> option error) (registered : option error)
  (deployment : string) : (error + Metrics) * list instrument :=
  match createAll create instruments [] with
  | (created, Some err) => (inl err, created)
  | (created, None) =>
    (match registered with Some err => inl err | None => inr (mkMetrics deployment 0) end, created)
  end.

(** ** Setup *)

(** What [Setup] and [SetupTracing] do to the outside. *)
Inductive action : Type :=
| AShutdown
| ASetMeterProvider (interval : Z) (attrs : list (string * string))
| ASetPropagator
| ASetTracerProvider (attrs : list (string * string)).

(** What OpenTelemetry gives. *)
Record sdk : Type := mkSdk {
  exporterErr : option error;
  mergeErr : option error;
  createInstrument : kind -> string -> option error;
  registerErr : option error
}.

Definition buildResource (w : sdk) (cfg : Config) : error + list (string * string) :=
  match mergeErr w with Some err => inl err | None => inr (resourceAttrs cfg) end.

(** The nil metrics when they are disabled. *)
Definition Setup (w : sdk) (cfg : Config) : (error + option Metrics) * list action :=
  if negb (Enabled cfg) then (inr None, []) else
  match exporterErr w with
  | Some err => (inl err, [])
  | None =>
    match buildResource w cfg with
    | inl err => (inl err, [])
    | inr res =>
      match newMetrics (createInstrument w) (registerErr w) (DeploymentName cfg) with
      | (inl err, _) => (inl err, [AShutdown])
      | (inr m, _) => (inr (Some m), [ASetMeterProvider (exportInterval cfg) res])
      end
    end
  end.

Definition SetupTracing (w : sdk) (cfg : Config) : option error * list action :=
  if negb (TracingEnabled cfg) then (None, [ASetPropagator]) else
  match exporterErr w with
  | Some err => (Some err, [ASetPropagator])
  | None =>
    match buildResource w cfg with
    | inl err => (Some err, [ASetPropagator])
    | inr res => (None, [ASetPropagator; ASetTracerProvider res])
    end
  end.

(** What a reconcile does to its span. *)
Inductive spanCall : Type :=
| SRecordError (err : error)
| SSetStatusError (description : string).

Definition RecordSpanError (err : option error) : list spanCall :=
  match err with Some err => [SRecordError err; SSetStatusError (Errors.Error err)] | None => [] end.

(** ** Recorders *)

(** A call on an instrument: an amount with attributes, or a duration. *)
Inductive emission : Type :=
| EAdd (i : instrument) (n : Z) (attrs : list (string * string))
| ERecord (i : instrument) (d : Z).

(** A method of [*Metrics], called on a pointer that may be nil. *)
Definition method : Type := option Metrics -> outcome (option Metrics * list emission).

Definition nilSafe (es : list emission) : method := fun m =>
  match m with None => Ret (None, []) | Some m => Ret (Some m, es) end.
Definition add (i : instrument) (n : Z) : method := nilSafe [EAdd i n []].
Definition record (i : instrument) (d : Z) : method := nilSafe [ERecord i d].

Definition IncStartupSuccess : method := add startupSuccess 1.
Definition IncStartupFailure : method := add startupFailure 1.
Definition RecordGetDuration (d : Z) : method := record getDuration d.
Definition IncGetFailure : method := add getFailure 1.
Definition RecordReconcileDuration (d : Z) : method := record reconcileDuration d.
Definition RecordQueueWaitDuration (d : Z) : method := record queueWaitDuration d.
Definition RecordQueueWorkDuration (d : Z) : method := record queueWorkDuration d.
Definition IncReconcileSuccess : method := add reconcileSuccess 1.
Definition IncReconcileFailure : method := add reconcileFailure 1.
Definition RecordObserveDuration (d : Z) : method := record observeDuration d.
Definition IncObserveFailure : method := add observeFailure 1.
Definition RecordCreateDuration (d : Z) : method := record createDuration d.
Definition IncCreateFailure : method := add createFailure 1.
Definition RecordUpdateDuration (d : Z) : method := record updateDuration d.
Definition IncUpdateFailure : method := add updateFailure 1.
Definition RecordDeleteDuration (d : Z) : method := record deleteDuration d.
Definition IncDeleteFailure : method := add deleteFailure 1.
Definition RecordFinalizerAddDuration (d : Z) : method := record finalizerAddDuration d.
Definition IncFinalizerAddFailure : method := add finalizerAddFailure 1.
Definition RecordFinalizerRemoveDuration (d : Z) : method := record finalizerRemoveDuration d.
Definition IncFinalizerRemoveFailure : method := add finalizerRemoveFailure 1.
Definition RecordStatusUpdateDuration (d : Z) : method := record statusUpdateDuration d.
Definition IncStatusUpdateFailure : method := add statusUpdateFailure 1.
Definition AddQueueDepth (delta : Z) : method := add queueDepth delta.
Definition RecordQueueOldestItemAge (d : Z) : method := record queueOldestItemAge d.
Definition RecordConnectDuration (d : Z) : method := record connectDuration d.
Definition IncConnectFailure : method := add connectFailure 1.

Definition recordRequeue (reason : string) (counter : instrument) : method :=
  nilSafe [EAdd counter 1 []; EAdd queueRequeueTotal 1 [("reason", reason)]].

(** The argument reads a field of the receiver before [recordRequeue] can test it. *)
Definition requeueMethod (reason : string) (counter : instrument) : method := fun m =>
  match m with
  | None => Panic "invalid memory address or nil pointer dereference"
  | Some _ => recordRequeue reason counter m
  end.
Definition IncReconcileRequeueAfter : method := requeueMethod "after" reconcileRequeueAfter.
Definition IncReconcileRequeueImmediate : method := requeueMethod "immediate" reconcileRequeueImmediate.
Definition IncReconcileErrorRequeue : method := requeueMethod "error" reconcileErrorRequeue.

Definition AddReconcileInFlight (delta : Z) : method := fun m =>
  match m with
  | None => Ret (None, [])
  | Some r =>
    if delta =? 0 then Ret (m, []) else
    Ret (Some (mkMetrics (deploymentName r) (reconcileInFlightCount r +! delta)), [])
  end.

Definition instanceAttrs (m : option Metrics) : list (string * string) :=
  match m with None => [] | Some m => optional "service.instance.id" (deploymentName m) end.

(** The methods behind the telemetry calls of the worker (file Runtime). *)
Definition perform (c : Runtime.metric) : method :=
  match c with
  | Runtime.AddReconcileInFlight delta => AddReconcileInFlight delta
  | Runtime.RecordQueueWaitDuration d => RecordQueueWaitDuration d
  | Runtime.RecordQueueWorkDuration d => RecordQueueWorkDuration d
  | Runtime.RecordReconcileDuration d => RecordReconcileDuration d
  | Runtime.IncReconcileSuccess => IncReconcileSuccess
  | Runtime.IncReconcileFailure => IncReconcileFailure
  | Runtime.IncReconcileErrorRequeue => IncReconcileErrorRequeue
  | Runtime.RecordGetDuration d => RecordGetDuration d
  | Runtime.IncGetFailure => IncGetFailure
  | Runtime.RecordObserveDuration d => RecordObserveDuration d
  | Runtime.IncObserveFailure => IncObserveFailure
  | Runtime.RecordCreateDuration d => RecordCreateDuration d
  | Runtime.IncCreateFailure => IncCreateFailure
  | Runtime.RecordUpdateDuration d => RecordUpdateDuration d
  | Runtime.IncUpdateFailure => IncUpdateFailure
  | Runtime.RecordDeleteDuration d => RecordDeleteDuration d
  | Runtime.IncDeleteFailure => IncDeleteFailure
  end.

(** ** Properties of the instruments *)

(** The table has every field once, and no two instruments share a name. *)
Lemma instruments_distinct :
  NoDup (fieldOf <$> instruments) /\ NoDup (nameOf <$> instruments) /\
  forall i, is_Some (kindOf i).
Proof.
  split; [apply (bool_decide_unpack _); vm_compute; exact I|].
  split; [apply (bool_decide_unpack _); vm_compute; exact I|]. by intros []; eexists.
Qed.

Lemma createAll_run create l created :
  match createAll create l created with
  | (res, None) => res = created ++ (fieldOf <$> l) /\ forall i k n, (i, k, n) ∈ l -> create k n = None
  | (res, Some err) =>
    exists l1 i k n l2, l = l1 ++ (i, k, n) :: l2 /\ res = created ++ (fieldOf <$> l1) /\
      create k n = Some err /\ forall i k n, (i, k, n) ∈ l1 -> create k n = None
  end.
Proof.
  revert created. induction l as [|[[i k] n] l IH]; intros created; cbn [createAll].
  { rewrite app_nil_r. split; [done|]. by intros ? ? ? ?%not_elem_of_nil. }
  destruct (create k n) as [err|] eqn:E.
  { exists [], i, k, n, l. rewrite app_nil_r. split_and!; try done. by intros ? ? ? ?%not_elem_of_nil. }
  specialize (IH (created ++ [i])). destruct (createAll create l _) as [res [err|]].
  - destruct IH as (l1 & i' & k' & n' & l2 & -> & -> & He & Hl). exists ((i, k, n) :: l1), i', k', n', l2.
    rewrite <- app_assoc. split_and!; [done|done|done|].
    intros i2 k2 n2 [E2|?]%elem_of_cons; [by injection E2 as -> -> ->|by eapply Hl].
  - destruct IH as (-> & Hl). rewrite <- app_assoc. split; [done|].
    intros i2 k2 n2 [E2|?]%elem_of_cons; [by injection E2 as -> -> ->|by eapply Hl].
Qed.

(** [newMetrics] either creates every instrument, each once, or stops at the first the meter refuses and
    gives its error; metrics come out only when nothing was refused. *)
Theorem newMetrics_all create registered deployment :
  match newMetrics create registered deployment with
  | (inr m, created) =>
    (forall i, i ∈ created) /\ NoDup created /\ reconcileInFlightCount m = 0 /\ registered = None /\
    forall i k n, (i, k, n) ∈ instruments -> create k n = None
  | (inl err, created) =>
    (exists i k n, (i, k, n) ∈ instruments /\ create k n = Some err /\ i ∉ created) \/
    registered = Some err
  end.
Proof.
  unfold newMetrics. pose proof (createAll_run create instruments []) as Hc.
  destruct instruments_distinct as (Hnd & _ & _).
  destruct (createAll create instruments []) as [created [err|]].
  - destruct Hc as (l1 & i & k & n & l2 & E & -> & He & _). left. exists i, k, n. split_and!; [|done|].
    + rewrite E. set_solver.
    + rewrite E, fmap_app in Hnd. apply NoDup_app in Hnd as (_ & Hd & _). cbn. intros Hi.
      apply (Hd i Hi). cbn. by left.
  - destruct Hc as (-> & Hok). destruct registered as [err|]; [by right|]. split_and!; try done.
    intros i. apply (bool_decide_unpack _). by destruct i; vm_compute.
Qed.

(** ** Properties of the recorders *)

(** The methods that emit, with any duration and any amount. *)
Definition recorders (d delta : Z) : list method :=
  [IncStartupSuccess; IncStartupFailure; RecordGetDuration d; IncGetFailure; RecordReconcileDuration d;
   RecordQueueWaitDuration d; RecordQueueWorkDuration d; IncReconcileSuccess; IncReconcileFailure;
   RecordObserveDuration d; IncObserveFailure; RecordCreateDuration d; IncCreateFailure;
   RecordUpdateDuration d; IncUpdateFailure; RecordDeleteDuration d; IncDeleteFailure;
   RecordFinalizerAddDuration d; IncFinalizerAddFailure; RecordFinalizerRemoveDuration d;
   IncFinalizerRemoveFailure; RecordStatusUpdateDuration d; IncStatusUpdateFailure;
   AddQueueDepth delta; RecordQueueOldestItemAge d; RecordConnectDuration d; IncConnectFailure;
   AddReconcileInFlight delta].
Definition requeueRecorders : list method :=
  [IncReconcileRequeueAfter; IncReconcileRequeueImmediate; IncReconcileErrorRequeue].

(** An amount goes to a counter, by one unless it counts both ways; a duration to a histogram. *)
Definition wellKinded (e : emission) : Prop :=
  match e with
  | EAdd i n _ => (kindOf i = Some Int64Counter /\ n = 1) \/ kindOf i = Some Int64UpDownCounter
  | ERecord i _ => kindOf i = Some Float64Histogram
  end.

Definition instrumentOf (e : emission) : instrument :=
  match e with EAdd i _ _ => i | ERecord i _ => i end.

Lemma recorders_run m d delta f :
  f ∈ recorders d delta ++ requeueRecorders ->
  exists m' es, f (Some m) = Ret (Some m', es) /\ Forall wellKinded es.
Proof.
  revert f. rewrite <- Forall_forall. unfold recorders, requeueRecorders. cbn [app].
  assert (Hflight : exists m' es, AddReconcileInFlight delta (Some m) = Ret (Some m', es) /\
    Forall wellKinded es).
  { unfold AddReconcileInFlight. destruct (delta =? 0); eexists _, _; (split; [done|constructor]). }
  repeat (apply Forall_cons; split; [first [exact Hflight | eexists _, _; split; [reflexivity|]]|]);
    repeat first [apply Forall_nil_2 | apply Forall_cons; split];
    first [reflexivity | left; split; reflexivity | right; reflexivity].
Qed.

(** Where in the list the recorder of an instrument is. *)
Definition recorderIndex (i : instrument) : nat :=
  match i with
  | startupSuccess => 0%nat | startupFailure => 1%nat | getDuration => 2%nat
  | getFailure => 3%nat | reconcileDuration => 4%nat | queueDepth => 23%nat
  | queueWaitDuration => 5%nat | queueOldestItemAge => 24%nat | queueWorkDuration => 6%nat
  | reconcileSuccess => 7%nat | reconcileFailure => 8%nat | reconcileRequeueAfter => 28%nat
  | reconcileRequeueImmediate => 29%nat | reconcileErrorRequeue => 30%nat | queueRequeueTotal => 28%nat
  | connectDuration => 25%nat | connectFailure => 26%nat | observeDuration => 9%nat
  | observeFailure => 10%nat | createDuration => 11%nat | createFailure => 12%nat
  | updateDuration => 13%nat | updateFailure => 14%nat | deleteDuration => 15%nat
  | deleteFailure => 16%nat | finalizerAddDuration => 17%nat | finalizerAddFailure => 18%nat
  | finalizerRemoveDuration => 19%nat | finalizerRemoveFailure => 20%nat | statusUpdateDuration => 21%nat
  | statusUpdateFailure => 22%nat
  | reconcileInFlight => 27%nat
  end.

(** The recorders on metrics that are set up: none panics, and every value goes to an instrument of the
    kind that takes it; and every instrument but the observed gauge has a recorder that writes to it. *)
Theorem recorders_typed m d delta :
  (forall f, f ∈ recorders d delta ++ requeueRecorders ->
     exists m' es, f (Some m) = Ret (Some m', es) /\ Forall wellKinded es) /\
  (forall i, i <> reconcileInFlight ->
     exists f m' es, f ∈ recorders d delta ++ requeueRecorders /\
       f (Some m) = Ret (Some m', es) /\ i ∈ instrumentOf <$> es).
Proof.
  split; [apply recorders_run|]. intros i Hi.
  assert (Hhas : forall k f es, (recorders d delta ++ requeueRecorders) !! k = Some f ->
    f (Some m) = Ret (Some m, es) -> i ∈ instrumentOf <$> es ->
    exists f m' es, f ∈ recorders d delta ++ requeueRecorders /\
       f (Some m) = Ret (Some m', es) /\ i ∈ instrumentOf <$> es).
  { intros k f es Hk Hf Hin. exists f, m, es. split; [by eapply list_elem_of_lookup_2|done]. }
  assert (Hk : exists k f es, (recorders d delta ++ requeueRecorders) !! k = Some f /\
    f (Some m) = Ret (Some m, es) /\ i ∈ instrumentOf <$> es).
  { exists (recorderIndex i). by destruct i; try done; eexists _, _; (split; [reflexivity|]);
      (split; [reflexivity|]); repeat constructor. }
  destruct Hk as (k & f & es & ? & ? & ?). by eapply Hhas.
Qed.

(** A nil [*Metrics], as Setup gives it when metrics are disabled, takes every call and does nothing, but
    for the three requeue counters: these panic before they test for nil. *)
Theorem nil_metrics d delta f :
  (f ∈ recorders d delta -> f None = Ret (None, [])) /\
  (f ∈ requeueRecorders -> is_panic (f None) = true).
Proof.
  unfold recorders, requeueRecorders.
  split; repeat (intros [->|Hf]%elem_of_cons; [reflexivity|revert Hf]); by intros ?%not_elem_of_nil.
Qed.

(** ** Setup *)

(** Metrics come out of Setup exactly when they are enabled and nothing fails; only then the provider is
    installed, with the resource of the configuration and a positive interval; and a provider whose
    instruments could not be made is shut down again. *)
Theorem Setup_spec w cfg :
  match Setup w cfg with
  | (inr None, acts) => Enabled cfg = false /\ acts = []
  | (inr (Some m), acts) =>
    Enabled cfg = true /\ deploymentName m = DeploymentName cfg /\ reconcileInFlightCount m = 0 /\
    acts = [ASetMeterProvider (exportInterval cfg) (resourceAttrs cfg)] /\ 0 < exportInterval cfg
  | (inl err, acts) =>
    Enabled cfg = true /\ forall i a, ASetMeterProvider i a ∉ acts
  end.
Proof.
  unfold Setup, buildResource, newMetrics. destruct (Enabled cfg); [|done]. cbn [negb].
  assert (Hno : forall i a, ASetMeterProvider i a ∉ ([] : list action)) by set_solver.
  destruct (exporterErr w); [done|]. destruct (mergeErr w); [done|].
  destruct (createAll _ _ _) as [created [err|]]; [split; [done|set_solver]|].
  destruct (registerErr w); [split; [done|set_solver]|]. split_and!; try done.
  unfold exportInterval. destruct (_ <=? 0) eqn:Ei; bool_to_prop; [done|lia].
Qed.

(** ** Trace context on annotations

    [Inject] and [Extract] are the propagator's: the carrier of a span context, and the span context a
    carrier gives in place of another. *)
Section Tracing.
Context {SC : Type} (Inject : SC -> gmap string string) (Extract : gmap string string -> SC -> SC).

(** The annotations of an object; [None] is the nil map. *)
Definition extracted (annotations : option (gmap string string)) (ctx : SC) : SC :=
  match annotations with
  | None => ctx
  | Some ann =>
    let tp := default EmptyString (ann !! Meta.AnnotationKeyTraceparent) in
    if String.eqb tp EmptyString then ctx else
    let carrier := {[ "traceparent" := tp ]} in
    let ts := default EmptyString (ann !! Meta.AnnotationKeyTracestate) in
    Extract (if String.eqb ts EmptyString then carrier else <[ "tracestate" := ts ]> carrier) ctx
  end.

(** [StartReconcileSpan]: the context the span continues, and the span's attributes. *)
Definition StartReconcileSpan {O} `{MetaObject O} (ctx : SC) (obj : O)
  : SC * list (string * string) :=
  (extracted (GetAnnotations obj) ctx,
   [("k8s.object.kind", GetKind obj); ("k8s.object.name", GetName obj);
    ("k8s.object.namespace", GetNamespace obj)]).

Definition InjectTraceparent (ctx : SC) (annotations : option (gmap string string))
  : outcome (option (gmap string string)) :=
  let carrier := Inject ctx in
  let tp := default EmptyString (carrier !! "traceparent") in
  if String.eqb tp EmptyString then Ret annotations else
  match annotations with
  | None => Panic "assignment to entry in nil map"
  | Some ann =>
    let ann := <[ Meta.AnnotationKeyTraceparent := tp ]> ann in
    let ts := default EmptyString (carrier !! "tracestate") in
    Ret (Some (if String.eqb ts EmptyString then ann
               else <[ Meta.AnnotationKeyTracestate := ts ]> ann))
  end.

(** The propagator's promise for an active span context: it is carried by a traceparent, with a tracestate
    if it has one, and these give it back. *)
Definition active (sc : SC) : Prop :=
  default EmptyString (Inject sc !! "traceparent") <> EmptyString /\
  forall ctx, Extract (let carrier := {[ "traceparent" := default EmptyString (Inject sc !! "traceparent") ]} in
    match default EmptyString (Inject sc !! "tracestate") with
    | EmptyString => carrier
    | ts => <[ "tracestate" := ts ]> carrier
    end) ctx = sc.

(** C40. A trace continues through a child's annotations: what was injected is what the child's reconcile
    continues, provided the trace has a state of its own or the annotations keep none from before. *)
Theorem trace_continues sc ann ctx :
  active sc ->
  default EmptyString (Inject sc !! "tracestate") <> EmptyString \/
    default EmptyString (ann !! Meta.AnnotationKeyTracestate) = EmptyString ->
  exists ann', InjectTraceparent sc (Some ann) = Ret (Some ann') /\
    extracted (Some ann') ctx = sc /\
    forall k, k <> Meta.AnnotationKeyTraceparent -> k <> Meta.AnnotationKeyTracestate ->
      ann' !! k = ann !! k.
Proof.
  intros [Htp Hex] Hts. unfold InjectTraceparent.
  rewrite (proj2 (String.eqb_neq _ _) Htp). eexists. split; [done|].
  specialize (Hex ctx). unfold extracted.
  destruct (default EmptyString (Inject sc !! "tracestate")) as [|c ts] eqn:Ets; cbn [String.eqb].
  - destruct Hts as [?|Hold]; [done|]. rewrite lookup_insert_eq, lookup_insert_ne, Hold by done.
    cbn [default from_option id]. rewrite (proj2 (String.eqb_neq _ _) Htp). split; [exact Hex|].
    intros k Hk _. by rewrite lookup_insert_ne.
  - rewrite lookup_insert_ne, !lookup_insert_eq by done. cbn [default from_option id].
    rewrite (proj2 (String.eqb_neq _ _) Htp). cbn [String.eqb]. split; [exact Hex|].
    intros k Hk Hk2. by rewrite !lookup_insert_ne.
Qed.

(** Without a state of its own, the trace is continued with whatever state the annotations still hold from
    an earlier one. *)
Theorem stale_tracestate sc ann ctx old :
  default EmptyString (Inject sc !! "traceparent") <> EmptyString ->
  Inject sc !! "tracestate" = None -> ann !! Meta.AnnotationKeyTracestate = Some old ->
  old <> EmptyString ->
  exists ann', InjectTraceparent sc (Some ann) = Ret (Some ann') /\
    extracted (Some ann') ctx =
      Extract (<[ "tracestate" := old ]>
        {[ "traceparent" := default EmptyString (Inject sc !! "traceparent") ]}) ctx.
Proof.
  intros Htp Hno Hold Hne. unfold InjectTraceparent. rewrite (proj2 (String.eqb_neq _ _) Htp), Hno.
  eexists. split; [done|]. unfold extracted. cbn [default from_option id String.eqb].
  rewrite lookup_insert_eq, lookup_insert_ne, Hold by done. cbn [default from_option id].
  by rewrite (proj2 (String.eqb_neq _ _) Htp), (proj2 (String.eqb_neq _ _) Hne).
Qed.

End Tracing.

(** ** Logs *)

(** [SetupOTLPLogs]: the error, if any, and the resource of the provider it installs; a failed merge leaves
    the default resource. *)
Definition SetupOTLPLogs (w : sdk) (enabled : bool) (name : string)
  : option error * option (list (string * string)) :=
  if negb enabled then (None, None) else
  match exporterErr w with
  | Some err => (Some err, None)
  | None => (None, Some (match mergeErr w with
                         | Some _ => []
                         | None => [("service.name", name)]
                         end))
  end.

End Telemetry.
