(* ===== verification/Threads.v ===== *)
(** * Handlers and workers as threads

    The programs of files Worker and Controller run from start to end.  Here the parts of them that
    touch the state shared between goroutines, the queue and [items], are given as threads whose
    accesses can be interleaved with those of others, and it is proved that a thread that runs alone
    does what the program does.  For the informer the thread is derived from a specification: a
    notification leads to at most one request. *)

From S2P Require Import Prelude GoTime Errors Meta Event PriorityQueue QueueInstr Conditions Runtime.
From S2P Require Import Worker WorkerFacts Controller ControllerFacts.
Import GoTime Errors Event Runtime Controller WorkerFacts ControllerFacts.

Module Threads.

Section Threads.
Context {Q : Type} `{!WorkQueue anyObj Q}.

(** The rest of a goroutine's work, access by access. *)
Inductive thread : Type :=
| TEnd
| TNow (k : Time -> thread)
| TLoadOrStore (dig : string) (k : bool -> thread)
| TLoad (dig : string) (k : bool -> thread)
| TStore (dig : string) (k : thread)
| TDelete (dig : string) (k : thread)
| TAdd (opts : PriorityQueue.AddOpts) (obj : anyObj) (k : thread)
| TForget (obj : anyObj) (k : thread)
| TDone (obj : anyObj) (k : thread)
| TNumRequeues (obj : anyObj) (k : Z -> thread).

(** One access; the clock shows any time. *)
Inductive tstep : thread * (Q * gset string) -> thread * (Q * gset string) -> Prop :=
| t_now t k q its : tstep (TNow k, (q, its)) (k t, (q, its))
| t_loadOrStore dig k q its :
    tstep (TLoadOrStore dig k, (q, its)) (k (bool_decide (dig ∈ its)), (q, {[ dig ]} ∪ its))
| t_load dig k q its : tstep (TLoad dig k, (q, its)) (k (bool_decide (dig ∈ its)), (q, its))
| t_store dig k q its : tstep (TStore dig k, (q, its)) (k, (q, {[ dig ]} ∪ its))
| t_delete dig k q its : tstep (TDelete dig k, (q, its)) (k, (q, its ∖ {[ dig ]}))
| t_add t opts obj k q q' its :
    qAddWithOpts t opts [obj] q = Ret q' -> tstep (TAdd opts obj k, (q, its)) (k, (q', its))
| t_forget t obj k q its : tstep (TForget obj k, (q, its)) (k, (qForget t obj q, its))
| t_done t obj k q its : tstep (TDone obj k, (q, its)) (k, (qDone t obj q, its))
| t_num obj k q its : tstep (TNumRequeues obj k, (q, its)) (k (qNumRequeues obj q), (q, its)).

End Threads.

(** ** Threads in sequence *)

Definition Th (A : Type) : Type := (A -> thread) -> thread.
#[export] Instance Th_ret : MRet Th := fun A a k => k a.
#[export] Instance Th_bind : MBind Th := fun A B f m k => m (fun a => f a k).

Definition tNow : Th Time := TNow.
Definition tLoadOrStore (dig : string) : Th bool := TLoadOrStore dig.
Definition tLoad (dig : string) : Th bool := TLoad dig.
Definition tStore (dig : string) : Th () := fun k => TStore dig (k tt).
Definition tDelete (dig : string) : Th () := fun k => TDelete dig (k tt).
Definition tAdd (opts : PriorityQueue.AddOpts) (obj : anyObj) : Th () := fun k => TAdd opts obj (k tt).
Definition tForget (obj : anyObj) : Th () := fun k => TForget obj (k tt).
Definition tDone (obj : anyObj) : Th () := fun k => TDone obj (k tt).
Definition tNumRequeues (obj : anyObj) : Th Z := TNumRequeues obj.

(** ** A thread implements a program *)

Section Simulation.
Context {E O GVR Q : Type} `{!MetaObject O} `{!UnstructuredObject O} `{!World E O GVR}
  `{!WorkQueue anyObj Q}.
Implicit Types (c : ControllerT GVR) (s : St E Q O).

(** When the program [m] returns, the thread [T], run alone from the same queue and [items], gets to
    the same queue and [items] and to what follows it. *)
Definition sim {A} (m : M E Q O A) (T : Th A) : Prop :=
  forall s s' a k, m s = (s', Ret a) ->
    rtc tstep (T k, (queue s, Runtime.items s)) (k a, (queue s', Runtime.items s')).

Lemma sim_ret {A} (a : A) : sim (mret a) (mret a).
Proof. intros s s' b k [= <- <-]. apply rtc_refl. Qed.

Lemma sim_bind {A B} (m : M E Q O A) T (f : A -> M E Q O B) U :
  sim m T -> (forall a, sim (f a) (U a)) -> sim (m ≫= f) (T ≫= U).
Proof.
  intros Hm Hf s s' b k. unfold mbind, M_bind, Th_bind.
  destruct (m s) as [s1 [a|w]] eqn:Em; [|done]. intros Ef.
  etransitivity; [by apply (Hm s s1 a)|by apply Hf].
Qed.

Lemma sim_assoc {A B C} (m : M E Q O A) (f : A -> M E Q O B) (g : B -> M E Q O C) T :
  sim (a ← m; b ← f a; g b) T -> sim (b ← (a ← m; f a); g b) T.
Proof.
  intros Hs s s' c k Em. apply Hs. revert Em. unfold mbind, M_bind. by destruct (m s) as [? []].
Qed.

Lemma sim_ret_bind {A B} (a : A) (f : A -> M E Q O B) T : sim (f a) T -> sim (mret a ≫= f) T.
Proof. done. Qed.

(** Telemetry at the end needs no thread. *)
Lemma sim_then_metric (m : M E Q O ()) T c x : sim m T -> sim (m;; emitMetric c x) T.
Proof.
  intros Hm s s' [] k. unfold mbind, M_bind. destruct (m s) as [s1 [[]|w]] eqn:Em; [|done].
  destruct (emitMetric_run c x s1) as (l & -> & _). intros [= <-]. by apply (Hm s s1 tt).
Qed.

Lemma sim_lift_now : sim now tNow.
Proof.
  intros s s' t k. unfold now. rewrite lift_run. intros [= <- <-]. apply rtc_once, t_now.
Qed.

Lemma sim_loadOrStore dig : sim (loadOrStore dig) (tLoadOrStore dig).
Proof.
  intros s s' b k. unfold loadOrStore. rewrite (M_bind_ret (itemsHas dig) _ s s _ eq_refl).
  pose proof (t_loadOrStore dig k (queue s) (Runtime.items s)) as Hstep.
  destruct (decide (dig ∈ Runtime.items s)) as [Hin|Hin].
  - rewrite bool_decide_true in * by done. intros [= <- <-].
    assert (Es : {[ dig ]} ∪ Runtime.items s = Runtime.items s) by set_solver.
    rewrite Es in Hstep. by apply rtc_once.
  - rewrite bool_decide_false in * by done. intros [= <- <-]. by apply rtc_once.
Qed.

Lemma sim_load dig : sim (itemsHas dig) (tLoad dig).
Proof. intros s s' b k [= <- <-]. apply rtc_once, t_load. Qed.

Lemma sim_store dig : sim (itemsStore dig) (tStore dig).
Proof. intros s s' b k. rewrite itemsStore_run. intros [= <- <-]. apply rtc_once, t_store. Qed.

Lemma sim_delete dig : sim (itemsDelete dig) (tDelete dig).
Proof. intros s s' b k. rewrite itemsDelete_run. intros [= <- <-]. apply rtc_once, t_delete. Qed.

Lemma sim_add opts obj : sim (enqueue opts obj) (tAdd opts obj).
Proof.
  intros s s' b k. unfold enqueue. rewrite (M_bind_ret now _ _ _ _ (lift_run wNow _)).
  unfold mbind, M_bind, emit, onQueue. cbn [env queue Runtime.items trace].
  destruct (qAddWithOpts _ opts [obj] (queue s)) as [q|w] eqn:Eq; [|done].
  intros [= <- <-]. by eapply rtc_once, t_add.
Qed.

Lemma sim_forget obj : sim (queueForget obj) (tForget obj).
Proof.
  intros s s' b k. destruct (queueForget_run obj s) as [t ->]. intros [= <- <-].
  apply rtc_once, t_forget.
Qed.

Lemma sim_done obj : sim (queueDone obj) (tDone obj).
Proof.
  intros s s' b k. destruct (queueDone_run obj s) as [t ->]. intros [= <- <-].
  apply rtc_once, t_done.
Qed.

Lemma sim_num obj : sim (queueNumRequeues obj) (tNumRequeues obj).
Proof. intros s s' n k [= <- <-]. apply rtc_once, t_num. Qed.

End Simulation.

Create HintDb sim.
#[export] Hint Resolve sim_ret sim_lift_now sim_loadOrStore sim_load sim_store sim_delete sim_add
  sim_forget sim_done sim_num sim_then_metric : sim.

(** Follows the structure of a program. *)
Ltac simulate :=
  repeat first [solve [auto with sim] | apply sim_bind; [|intros ?] | case_match].

(** ** The informer *)

Section Informer.
Context {E O GVR Q : Type} `{!MetaObject O} `{!UnstructuredObject O} `{!World E O GVR}
  `{!WorkQueue anyObj Q}.
Context {Spec : Type} (NestedSpec : O -> error + option Spec)
  (cmpDiff : option Spec -> option Spec -> string).
Context (sum64 : string -> Z).
Context (actionsEvent : ActionsEvent) (watchAnnotations : AnnotationEvents).

Inductive notice : Type :=
| Added (obj : resource O)
| Updated (old new : resource O)
| Deleted (obj : resource O).

(** The program the informer calls. *)
Definition handler (n : notice) : M E Q O () :=
  match n with
  | Added obj => AddFunc sum64 actionsEvent obj
  | Updated old new => UpdateFunc NestedSpec cmpDiff sum64 actionsEvent watchAnnotations old new
  | Deleted obj => DeleteFunc actionsEvent obj
  end.

(** The specification: which event for which object, at what priority, and whether only once. *)
Record request : Type := mkRequest { once : bool; what : EventType; whom : O; urgency : Z }.

Definition wantedCompare (old new : O) : option request :=
  match NestedSpec new, NestedSpec old with
  | inr newSpec, inr oldSpec =>
    if String.eqb (cmpDiff newSpec oldSpec) EmptyString then
      if String.eqb (GetResourceVersion old) (GetResourceVersion new)
      then Some (mkRequest true (GetEventType actionsEvent CRObserved) new Worker.LowPriority)
      else None
    else Some (mkRequest true (GetEventType actionsEvent CRUpdated) new Worker.HighPriority)
  | _, _ => None
  end.

Definition wanted (n : notice) : option request :=
  match n with
  | Added (RUnstructured el) =>
    Some (mkRequest true (GetEventType actionsEvent CRCreated) el (addPriority el))
  | Updated (RUnstructured old) (RUnstructured new) =>
    if Meta.WasDeleted new
    then Some (mkRequest true (GetEventType actionsEvent CRDeleted) new Worker.HighPriority)
    else match List.find (fun rule => triggers rule old new) watchAnnotations with
         | Some rule => Some (mkRequest false (aeEventType rule) new Worker.NormalPriority)
         | None => wantedCompare old new
         end
  | Deleted obj =>
    el ← deletedObject obj;
    _ ← GetDeletionTimestamp el;
    Some (mkRequest false (GetEventType actionsEvent CRDeleted) el Worker.HighPriority)
  | _ => None
  end.

Definition tRequest (r : request) : Th () :=
  q ← tNow;
  let ev := mkEvent (what r) (Worker.refOf (whom r)) q in
  let add := tAdd (PriorityQueue.mkAddOpts 0 false (urgency r)) (inl ev) in
  if once r then
    loaded ← tLoadOrStore (DigestForEvent sum64 ev);
    if (loaded : bool) then mret tt else add
  else add.

Definition tHandler (n : notice) : Th () :=
  match wanted n with None => mret tt | Some r => tRequest r end.

(** The request as a program. *)
Definition runRequest (r : request) : M E Q O () :=
  item ← eventFor (what r) (whom r);
  if once r then addOnce sum64 (urgency r) item else addToQueue (urgency r) item.

Lemma sim_request r : sim (runRequest r) (tRequest r).
Proof.
  apply sim_assoc, sim_bind; [apply sim_lift_now|]. intros q. apply sim_ret_bind.
  unfold addOnce, addToQueue. destruct (once r); [|apply sim_add].
  apply sim_bind; [apply sim_loadOrStore|]. intros []; [apply sim_ret|apply sim_add].
Qed.

(** The first rule that fires makes the request of the loop. *)
Lemma watchLoop_run rules (old new : O) s :
  watchLoop rules old new s =
  match List.find (fun rule => triggers rule old new) rules with
  | Some rule => (runRequest (mkRequest false (aeEventType rule) new Worker.NormalPriority);; mret true) s
  | None => (s, Ret false)
  end.
Proof.
  induction rules as [|rule rules IH]; [done|]. cbn [watchLoop List.find].
  destruct (triggers rule old new); [|exact IH].
  unfold runRequest. cbn [what whom urgency once]. unfold mbind, M_bind.
  by destruct (eventFor _ _ s) as [s1 [item|why]].
Qed.

Lemma compareVersions_run (old new : O) s :
  compareVersions NestedSpec cmpDiff sum64 actionsEvent old new s =
  match wantedCompare old new with None => (s, Ret tt) | Some r => runRequest r s end.
Proof.
  unfold compareVersions, wantedCompare.
  destruct (NestedSpec new) as [e|sn]; [done|]. destruct (NestedSpec old) as [e|so]; [done|].
  destruct (cmpDiff sn so) as [|a d]; [|done].
  cbn [String.length String.eqb Z.of_nat Z.ltb Z.compare].
  by destruct (String.eqb (GetResourceVersion old) _).
Qed.

(** A handler does what its notification asks for, and nothing else. *)
Lemma handler_wanted (n : notice) s :
  handler n s = match wanted n with None => (s, Ret tt) | Some r => runRequest r s end.
Proof.
  destruct n as [[el|obj|]|[old|oo|] [new|on|]|obj]; cbn [handler wanted AddFunc UpdateFunc]; try done.
  - destruct (Meta.WasDeleted new); [done|].
    unfold mbind at 1, M_bind at 1. rewrite watchLoop_run.
    destruct (List.find _ watchAnnotations) as [rule|]; [|apply compareVersions_run].
    unfold mbind at 1, M_bind at 1. by destruct (runRequest _ s) as [s1 [[]|why]].
  - unfold DeleteFunc. destruct (deletedObject obj) as [el|]; [|done]. cbn.
    by destruct (GetDeletionTimestamp el).
Qed.

(** C12. The informer's handlers implement the specification: run alone, the thread of the request a
    notification asks for does to the queue and to [items] what the handler does. *)
Theorem informer_as_thread (n : notice) : sim (handler n) (tHandler n).
Proof.
  intros s s' a k Hr. rewrite handler_wanted in Hr. unfold tHandler.
  destruct (wanted n) as [r|]; [by apply (sim_request r)|].
  destruct a. by apply (sim_ret tt s).
Qed.

End Informer.

(** ** A worker *)

Create HintDb adds.

(** A change of the queue by additions alone. *)
Definition added {Q} `{!WorkQueue anyObj Q} (q q' : Q) : Prop :=
  exists t opts ev, qAddWithOpts t opts [inl ev] q = Ret q'.

Section Worker.
Context {E O GVR Q : Type} `{!MetaObject O} `{!UnstructuredObject O} `{!World E O GVR}
  `{!WorkQueue anyObj Q}.
Context (TypeNormal : string) (sum64 : string -> Z).
Implicit Types (c : ControllerT GVR) (s : St E Q O).

(** What the calls of a trace add to the gauge of reconciles in flight. *)
Definition gaugeOf (e : effect O) : Z :=
  match e with EMetric (AddReconcileInFlight delta) => delta | _ => 0 end.
Definition gauge (tr : list (effect O)) : Z := foldr (fun e n => gaugeOf e + n) 0 tr.

(** [m] leaves [items] and the gauge alone and changes the queue by at most [n] additions of events. *)
Record calm (n : nat) (s s' : St E Q O) : Prop := {
  calm_items : Runtime.items s' = Runtime.items s;
  calm_queue : bsteps added n (queue s) (queue s');
  calm_gauge : gauge (trace s') = gauge (trace s)
}.

Lemma calm_refl n s : calm n s s.
Proof. split; [done|constructor|done]. Qed.

Lemma calm_trans n k s1 s2 s3 : calm n s1 s2 -> calm k s2 s3 -> calm (n + k) s1 s3.
Proof.
  intros [Ei Eq Eg] [Ei2 Eq2 Eg2]. split; [congruence| |congruence]. by eapply bsteps_trans.
Qed.

Definition adds (n : nat) {A} (m : M E Q O A) : Prop := forall s, calm n s (m s).1.

Lemma adds_ret n {A} (a : A) : adds n (mret a).
Proof. intros s. apply calm_refl. Qed.

Lemma adds_bind n k {A B} (m : M E Q O A) (f : A -> M E Q O B) :
  adds n m -> (forall a, adds k (f a)) -> adds (n + k) (m ≫= f).
Proof.
  intros Hm Hf s. specialize (Hm s). unfold mbind, M_bind. destruct (m s) as [s1 [a|w]].
  - eapply calm_trans; [exact Hm|apply Hf].
  - destruct Hm as [Hi Hq Hg]. split; [done| |done]. eapply bsteps_weaken; [apply Nat.le_add_r|exact Hq].
Qed.

(** The additions all come before, or all after. *)
Lemma adds_then n {A B} (m : M E Q O A) (f : A -> M E Q O B) :
  adds 0 m -> (forall a, adds n (f a)) -> adds n (m ≫= f).
Proof. exact (adds_bind 0 n m f). Qed.

Lemma adds_first n {A B} (m : M E Q O A) (f : A -> M E Q O B) :
  adds n m -> (forall a, adds 0 (f a)) -> adds n (m ≫= f).
Proof. intros Hm Hf. pose proof (adds_bind n 0 m f Hm Hf) as H. by rewrite Nat.add_0_r in H. Qed.

Lemma adds_lift n {A} (f : E -> A * E) : adds n (lift f).
Proof. intros s. rewrite lift_run. split; [done|constructor|done]. Qed.

Lemma adds_liftO n {A} (x : outcome A) : adds n (liftO x).
Proof. intros s. apply calm_refl. Qed.

Lemma adds_emit n e : gaugeOf e = 0 -> adds n (emit e).
Proof. intros He s. split; cbn; [done|constructor|]. by rewrite He. Qed.

Lemma adds_enqueue n opts ev : adds (S n) (enqueue opts (inl ev)).
Proof.
  apply adds_then; [apply adds_lift|]. intros t. apply adds_then; [by apply adds_emit|]. intros _ s.
  unfold onQueue. destruct (qAddWithOpts t opts _ (queue s)) as [q|w] eqn:Eq; [|apply calm_refl].
  split; cbn; [done| |done]. apply bsteps_once. by exists t, opts, ev.
Qed.

#[local] Hint Resolve adds_ret adds_lift adds_liftO adds_emit adds_enqueue : adds.
#[local] Hint Extern 1 (gaugeOf _ = 0) => reflexivity : adds.

(** Follows the structure of a program down to its calls. *)
#[local] Ltac adds_only :=
  repeat first [solve [auto with adds] | apply adds_then; [solve [auto with adds]|intros ?]
    | progress case_match | progress cbn beta iota zeta | apply adds_then; [|intros ?]].

Lemma adds_timed n c start r f err :
  (forall d, gaugeOf (EMetric (r d)) = 0) -> gaugeOf (EMetric f) = 0 ->
  adds n (recordTimed c start r f err).
Proof. intros Hr Hf. unfold recordTimed, now. adds_only. Qed.
Lemma adds_fetch n c ref clean : adds n (fetch c ref clean).
Proof. unfold fetch, now. pose proof adds_timed. adds_only. Qed.
Lemma adds_Update n c el : adds n (Update c el).
Proof. unfold Update. adds_only. Qed.
Lemma adds_UpdateStatus n c el : adds n (UpdateStatus c el).
Proof. unfold UpdateStatus. adds_only. Qed.
Lemma adds_recordEvent n obj e : adds n (recordEvent TypeNormal obj e).
Proof. unfold recordEvent. adds_only. Qed.
Lemma adds_enqueueEvent n opts t ref : adds (S n) (Worker.enqueueEvent opts t ref).
Proof. unfold Worker.enqueueEvent, now. adds_only. Qed.

Lemma adds_setConditions n conds el : adds n (Worker.setConditions conds el).
Proof.
  unfold Worker.setConditions. apply adds_then.
  - induction conds as [|f conds IH]; simpl; unfold now; adds_only.
  - intros cs. adds_only.
Qed.

#[local] Hint Resolve adds_fetch adds_Update adds_UpdateStatus adds_recordEvent adds_timed
  adds_enqueueEvent adds_setConditions : adds.

Lemma adds_publish n c recOn action conds el k :
  (forall el, adds n (k el)) -> adds n (Worker.publish TypeNormal c recOn action conds el k).
Proof. intros Hk. unfold Worker.publish. adds_only; apply Hk. Qed.

Lemma adds_updated n c action el k :
  (forall el, adds n (k el)) -> adds n (Worker.updated TypeNormal c action el k).
Proof. intros Hk. unfold Worker.updated. adds_only; apply Hk. Qed.

Lemma adds_fetched n c ref k : (forall el, adds n (k el)) -> adds n (Worker.fetched c ref k).
Proof. intros Hk. unfold Worker.fetched. adds_only; apply Hk. Qed.

(** As [adds_only], through the shapes the handlers share; an addition may come first. *)
#[local] Ltac adds_handler :=
  repeat first [solve [auto with adds] | apply adds_publish; intros ? | apply adds_updated; intros ?
    | apply adds_fetched; intros ? | apply adds_then; [solve [auto with adds]|intros ?]
    | progress case_match | progress cbn beta iota zeta
    | apply adds_first; [solve [auto with adds]|intros ?] | apply adds_then; [|intros ?]].

Lemma adds_dispatch c evt : adds 1 (Worker.dispatch TypeNormal c evt).
Proof.
  unfold Worker.dispatch, Worker.handleCreate, Worker.handleUpdate, Worker.handleDelete,
    Worker.handleObserve, Worker.createSucceeded, Worker.createFailed, Worker.annotationsFailed,
    Worker.recordMetric, Observe, Create, ExtUpdate, ExtDelete, now.
  apply adds_first; [|intros ?]; adds_handler.
Qed.

(** Processing an event touches the shared state by one addition to the queue at most. *)
Lemma adds_processItem c obj : adds 1 (Worker.processItem TypeNormal c obj).
Proof.
  unfold Worker.processItem, Worker.pausedPhase, Worker.orphanPhase, Worker.recoveryPhase,
    Worker.recoveryObserve, Worker.finalizerPhase, Observe, now.
  pose proof adds_dispatch. adds_handler.
Qed.

(** What follows the processing of an event, as a thread. *)
Definition tHandleErr (maxRetries : Z) (err : option error) (obj : Event.Event) (priority : Z)
  : Th () :=
  match err with
  | None => mret tt
  | Some _ =>
    n ← tNumRequeues (inl obj);
    if maxRetries <=? n then mret tt else
    retryEvent ← (if IsZero (QueuedAt obj)
                  then t ← tNow; mret (mkEvent (eventType obj) (objectRef obj) t) else mret obj);
    let dig := DigestForEvent sum64 retryEvent in
    loaded ← tLoad dig;
    if (loaded : bool) then mret tt else
    tStore dig;;
    tAdd (PriorityQueue.mkAddOpts 0 true priority) (inl obj)
  end.

Definition tFinish (maxRetries : Z) (ev : Event.Event) (priority : Z) (err : option error) : Th () :=
  tDelete (DigestForEvent sum64 ev);;
  tForget (inl ev);;
  tDone (inl ev);;
  tHandleErr maxRetries err ev priority.

Lemma sim_handleErr c err ev p :
  sim (Worker.handleErr (E := E) (O := O) sum64 c err ev p) (tHandleErr (maxRetries c) err ev p).
Proof.
  unfold Worker.handleErr, tHandleErr. simulate.
Qed.

(** The end of an iteration of [runWorker] is its thread. *)
Theorem finish_as_thread c ev p err :
  sim (Worker.finishEvent (E := E) (O := O) sum64 c ev p err) (tFinish (maxRetries c) ev p err).
Proof.
  pose proof (sim_handleErr c err ev p). unfold Worker.finishEvent, tFinish. simulate.
Qed.

Lemma M_bind_inv {A A'} (m : M E Q O A) (f : A -> M E Q O A') s s' b :
  (m ≫= f) s = (s', Ret b) -> exists s1 a, m s = (s1, Ret a) /\ f a s1 = (s', Ret b).
Proof.
  unfold mbind, M_bind. destruct (m s) as [s1 [a|w]]; [|done]. intros Ef. by exists s1, a.
Qed.

Lemma adds_run n {A A'} (m : M E Q O A) (f : A -> M E Q O A') s s' b :
  adds n m -> (m ≫= f) s = (s', Ret b) -> exists s1 a, f a s1 = (s', Ret b) /\ calm n s s1.
Proof.
  intros Hm (s1 & a & Em & Ef)%M_bind_inv. exists s1, a. specialize (Hm s). by rewrite Em in Hm.
Qed.

Lemma adds_emitMetric n c x : gaugeOf (EMetric x) = 0 -> adds n (emitMetric c x).
Proof. intros Hx. unfold emitMetric. adds_only. Qed.
#[local] Hint Resolve adds_emitMetric : adds.

Lemma adds_reconcileMetrics n c ev t0 t1 err : adds n (Worker.reconcileMetrics c ev t0 t1 err).
Proof. unfold Worker.reconcileMetrics. adds_only. Qed.

(** An iteration of [runWorker] on an event that returns: up to its end the queue gets one more key at most. *)
Lemma iteration_splits c ev p s s' :
  Worker.reconcileEvent TypeNormal sum64 c ev p s = (s', Ret tt) ->
  (exists s1 err, bsteps added 1 (queue s) (queue s1) /\ Runtime.items s1 = Runtime.items s /\
     Worker.finishEvent sum64 c ev p err s1 = (s', Ret tt)) \/
  (is_Some (wShortid (wNow (env s)).2).1 /\
   queue s' = queue s /\ Runtime.items s' = Runtime.items s).
Proof.
  unfold Worker.reconcileEvent.
  destruct (emitMetric_run c (AddReconcileInFlight 1) s) as (l & E0 & _).
  rewrite (M_bind_ret _ _ _ _ _ E0), (M_bind_ret now _ _ _ _ (lift_run wNow _)).
  match goal with |- context [((if IsZero (QueuedAt ev) then _ else _) ≫= _) ?s1] =>
    destruct (wait_metric_run c ev (wNow (env s)).1 s1) as (l3 & E3 & _) end.
  rewrite (M_bind_ret _ _ _ _ _ E3), (M_bind_ret _ _ _ _ _ (lift_run wShortid _)).
  cbn [env queue Runtime.items trace].
  destruct (wShortid (wNow (env s)).2) as [[e|] e2]; cbn [fst snd].
  - intros Hr. right. split; [by eexists|].
    match type of Hr with emitMetric c ?x ?s2 = _ =>
      destruct (emitMetric_run c x s2) as (l4 & E4 & _) end.
    rewrite E4 in Hr. by injection Hr as <-.
  - intros Hr. left.
    apply (adds_run 1) in Hr as (s3 & err & Hr & H3); [|apply adds_processItem].
    apply (adds_run 0) in Hr as (s4 & t1 & Hr & H4); [|apply adds_lift].
    apply (adds_run 0) in Hr as (s5 & u & Hr & H5); [|apply adds_reconcileMetrics].
    pose proof (calm_trans _ _ _ _ _ (calm_trans _ _ _ _ _ H3 H4) H5) as H.
    exists s5, err. split; [apply (calm_queue _ _ _ H)|]. by split; [apply (calm_items _ _ _ H)|].
Qed.

(** C13. An iteration of [runWorker] on an event that returns is: one addition to the queue at most while the event is
    processed, then its last accesses one by one; or, when no trace id can be made, nothing. *)
Theorem iteration_as_thread c ev p s s' :
  Worker.reconcileEvent TypeNormal sum64 c ev p s = (s', Ret tt) ->
  (exists q err, bsteps added 1 (queue s) q /\
     rtc tstep (tFinish (maxRetries c) ev p err (fun _ => TEnd), (q, Runtime.items s))
       (TEnd, (queue s', Runtime.items s'))) \/
  (is_Some (wShortid (wNow (env s)).2).1 /\
   queue s' = queue s /\ Runtime.items s' = Runtime.items s).
Proof.
  intros [(s1 & err & Hq & <- & Hf)|Hleak]%iteration_splits; [left|by right].
  exists (queue s1), err. split; [done|]. exact (finish_as_thread c ev p err s1 s' tt (fun _ => TEnd) Hf).
Qed.

End Worker.
End Threads.
