(* ===== verification/Serving.v ===== *)
(** * A queue that serves one worker

    The view of the queue that a single worker has: GetWithPriority up to its answer, the worker's call
    and the iteration of [spin] it wakes up taken together, and later iterations while it waits.  The interface [ServingQueue] states what
    the worker's loop relies on; the priority queue has it. *)

From S2P Require Import Prelude GoTime RateLimiter BTree PriorityQueue PriorityQueueFacts PQSpin PQTrace.
From S2P Require Import QueueInstr QueueLaws.
Import GoTime PriorityQueue PQFacts PQSpin PQTrace.

(** The answer of a Get: none yet, the zero value of a queue that is shut down, or a key with its
    priority. *)
Inductive answer (T : Type) : Type :=
| Waits
| Closed
| Got (key : T) (priority : Z).
Arguments Waits {T}.
Arguments Closed {T}.
Arguments Got {T}.

(** The worker asks, or, when it is [parked] already, is looked at again. *)
Class GetQueue (T Q : Type) : Type := { qServe : bool -> Time -> Q -> Q * answer T }.

(** An addition without delay. *)
Definition immediate (o : AddOpts) : Prop := After o <= 0 /\ RateLimited o = false.

(** [qKeys]: the keys in the queue; [qDue]: by then, each of them can be handed out.
    [qHolds n parked due ready work q]: the keys [ready] are queued, none for later than [due]; those of
    [work] are being processed, the worker is [parked] or not in the queue, and there is room for [n]
    additions. *)
Class ServingQueue (T Q : Type) `{Countable T} `{QueueSafe T Q} `{GetQueue T Q} : Type := {
  qKeys : Q -> gset T;
  qDue : Z -> Q -> Prop;
  qHolds : nat -> bool -> Z -> gset T -> gset T -> Q -> Prop;
  holds_ok n parked due ready work q : qHolds n parked due ready work q -> qOk q;
  holds_keys n parked due ready work q : qHolds n parked due ready work q -> qKeys q = ready;
  holds_later n parked due due' ready work q :
    due <= due' -> qHolds n parked due ready work q -> qHolds n parked due' ready work q;
  holds_due n parked due ready work q : qHolds n parked due ready work q -> qDue due q;
  holds_by n parked due due' ready work q :
    qDue due' q -> qHolds n parked due ready work q -> qHolds n parked due' ready work q;
  holds_add n parked due ready work t o k q : qHolds (S n) parked due ready work q ->
    exists q' due', qAddWithOpts t o [k] q = Ret q' /\ due <= due' /\ (immediate o -> due' = due) /\
      qHolds n parked due' ({[ k ]} ∪ ready) work q';
  holds_done n parked due ready work t k q :
    qHolds n parked due ready work q -> qHolds n parked due ready (work ∖ {[ k ]}) (qDone t k q);
  holds_forget n parked due ready work t k q :
    qHolds n parked due ready work q -> qHolds n parked due ready work (qForget t k q);
  holds_serve n parked due ready work t q : qHolds n parked due ready work q ->
    ((qServe parked t q).2 = Waits /\ qHolds n true due ready work (qServe parked t q).1) \/
    (exists k p, (qServe parked t q).2 = Got k p /\ k ∈ ready /\ (k ∉ work) /\
       qHolds n false due (ready ∖ {[ k ]}) ({[ k ]} ∪ work) (qServe parked t q).1);
  holds_prompt n parked due ready work t q :
    qHolds n parked due ready work q -> due <= ns t -> ~ (ready ⊆ work) -> (qServe parked t q).2 <> Waits
}.

(** Another way to add to the same queue: other methods, by which an addition is one all the same. *)
Class SharedQueue (T Q : Type) `{ServingQueue T Q} (via : WorkQueue T Q) : Prop := {
  shared_add n parked due ready work t o k q : qHolds (S n) parked due ready work q ->
    exists q' due', @qAddWithOpts T Q via t o [k] q = Ret q' /\ due <= due' /\
      (immediate o -> due' = due) /\ qHolds n parked due' ({[ k ]} ∪ ready) work q'
}.

(** A queue is another way to itself. *)
#[export] Instance shared_self {T Q} `{Countable T} `{own : WorkQueue T Q} `{!QueueSafe T Q}
  `{!GetQueue T Q} `{!ServingQueue T Q} : SharedQueue T Q own.
Proof. split. apply holds_add. Qed.

Section Serving.
Context {T : Type} `{Countable T}.
Context {B R M : Type} `{!BTree (@less T) B, !BTreeLaws (@less T) B} `{!RateLimiter T R}
  `{!QueueMetrics T M}.
Implicit Types (w : PQ T B R M) (k : T).

(** Nobody else asks for items. *)
Definition nobody (_ : T) : nat := 0.

Lemma came_nobody (l : list (item T)) : came nobody l = 0%nat.
Proof. by induction l. Qed.

(** GetWithPriority and the iteration of [spin] that follows its wake-up; for a parked worker the
    iteration alone. *)
Definition GetWithPriority (parked : bool) (now : Time) w : PQ T B R M * answer T :=
  let '(w, enters) := if parked then (w, true) else enterGet w in
  if negb (enters : bool) then (w, Closed) else
  let '(w, out, _) := spin now nobody (fun _ => true) w in
  (w, match out with [] => Waits | it :: _ => let '(k, p, _) := receive w it in Got k p end).

#[export] Instance PQ_GetQueue : GetQueue T (PQ T B R M) := {| qServe := GetWithPriority |}.

(** Running, with no other worker. *)
Record holdsPQ (n : nat) (parked : bool) (due : Z) (ready work : gset T) w : Prop := mkHolds {
  hp_wf : WF w;
  hp_running : shutdown w = false;
  hp_waiters : waiters w = if parked then 1 else 0;
  hp_locked : locked w = work;
  hp_items k : k ∈ ready <-> is_Some (items w !! k);
  hp_due k it u : items w !! k = Some it -> ReadyAt it = Some u -> ns u <= due;
  hp_room : addedCounter w + Z.of_nat n < 2 ^ 64
}.

(** By [due], each item can be handed out. *)
Definition dueItem (due : Z) (it : item T) : Prop :=
  match ReadyAt it with Some u => ns u <= due | None => True end.
Definition dueBy (due : Z) w : Prop := map_Forall (fun _ => dueItem due) (items w).

#[export] Instance dueItem_dec due it : Decision (dueItem due it).
Proof. unfold dueItem. destruct (ReadyAt it); apply _. Defined.
#[export] Instance dueBy_dec due w : Decision (dueBy due w).
Proof. unfold dueBy. apply _. Defined.

(** When the entry an addition makes is due. *)
Lemma merged_due t o k w u :
  ReadyAt (merged t o k w) = Some u ->
  dueTime t o k w = Some u \/ exists old, items w !! k = Some old /\ ReadyAt old = Some u.
Proof.
  unfold merged. destruct (items w !! k) as [old|]; [|by left]. cbn. destruct (earlier _ _); [by left|].
  intros E. right. by exists old.
Qed.

Lemma dueTime_immediate t o k w : immediate o -> dueTime t o k w = None.
Proof.
  intros [Ha Hr]. unfold dueTime, effectiveAfter. rewrite Hr. cbn.
  by replace (0 <? After o) with false by (symmetry; apply Z.ltb_ge; lia).
Qed.

Lemma holdsPQ_add n parked due ready work t o k w :
  holdsPQ (S n) parked due ready work w ->
  exists w' due', PriorityQueue.AddWithOpts t o [k] w = Ret w' /\ due <= due' /\
    (immediate o -> due' = due) /\ holdsPQ n parked due' ({[ k ]} ∪ ready) work w'.
Proof.
  intros [Hw Hs Hwt Hl Hi Hd Hr].
  destruct (addItem_spec t o w k Hw ltac:(lia)) as (w1 & E1 & Hw1 & Hits & Hsame & Hctr).
  destruct Hsame as (_ & El & _ & Es & Ew).
  unfold PriorityQueue.AddWithOpts. rewrite Hs. cbn [addItems mbind outcome_bind]. rewrite E1.
  exists (notifyItemOrWaiterAdded w1), (match dueTime t o k w with Some u => Z.max due (ns u) | None => due end).
  split; [done|]. split; [destruct (dueTime t o k w); lia|].
  split; [intros Him; by rewrite dueTime_immediate|]. split; cbn.
  - by destruct Hw1; split.
  - congruence.
  - congruence.
  - congruence.
  - intros k'. rewrite Hits. destruct (decide (k' = k)) as [->|Hne].
    + rewrite lookup_insert_eq. split; [by eexists|set_solver].
    + rewrite lookup_insert_ne by done. rewrite <- Hi. set_solver.
  - intros k' it u. rewrite Hits. intros [[<- <-]|[_ Hk]]%lookup_insert_Some Hu.
    + destruct (merged_due _ _ _ _ _ Hu) as [->|(old & Eo & Eu)]; [lia|].
      specialize (Hd _ _ _ Eo Eu). destruct (dueTime t o k w); lia.
    + specialize (Hd _ _ _ Hk Hu). destruct (dueTime t o k w); lia.
  - rewrite Hctr. case_decide; lia.
Qed.

(** All that is due can be handed out. *)
Lemma readyPrefix_due now due (l : list (item T)) :
  due <= ns now -> (forall it u, it ∈ l -> ReadyAt it = Some u -> ns u <= due) -> readyPrefix now l = l.
Proof.
  intros Hdue. induction l as [|it l IH]; intros Hl; [done|]. rewrite readyPrefix_cons_ready.
  - f_equal. apply IH. intros x u Hx. apply Hl. by right.
  - unfold notReady. destruct (ReadyAt it) as [u|] eqn:Eu; [|done].
    specialize (Hl it u ltac:(by left) Eu). replace (0 <? Sub u now) with false; [done|].
    symmetry. apply Z.ltb_ge. unfold Sub, sat64, min_int64, max_int64. lia.
Qed.

(** What a Get finds: the first item that is ready and whose key is free, if there is one. *)
Definition firstFree now (work : gset T) w : option (item T) :=
  head (filter (fun it => Key it ∉ work) (readyPrefix now (elems w))).

(** One iteration of [spin] with one worker parked. *)
Lemma spin_one n due ready work now w :
  holdsPQ n true due ready work w ->
  let r := spin now nobody (fun _ => true) w in
  match firstFree now work w with
  | None => r.1.2 = [] /\ holdsPQ n true due ready work r.1.1
  | Some it =>
    it ∈ elems w /\ (Key it ∉ work) /\ r.1.2 = [it] /\
    holdsPQ n false due (ready ∖ {[ Key it ]}) ({[ Key it ]} ∪ work) r.1.1
  end.
Proof.
  intros [Hw Hs Hwt Hl Hi Hd Hr].
  destruct (spin_spec now nobody (fun _ => true) w Hw) as (taken & _ & _ & Hrun & Hw2 & _ & Elk & Eit &
    Esd & _ & Ec).
  destruct (Hrun Hs) as (-> & Eout & _ & _ & Ew & _). clear Hrun.
  rewrite (eligible_nobody _ _ _ _ _ (came_nobody _)), Hwt, Hl in Eout.
  rewrite came_nobody, (eligible_nobody _ _ _ _ _ (came_nobody _)), Hwt, Hl in Ew.
  rewrite (eligible_nobody _ _ _ _ _ (came_nobody _)), Hwt, Hl in Elk, Eit. cbn zeta.
  destruct (spin now nobody (fun _ => true) w) as [[w2 out] tm]. cbn [fst snd] in *. subst out. unfold firstFree.
  destruct (filter (fun it => Key it ∉ work) (readyPrefix now (elems w))) as [|it l] eqn:Ef.
  { rewrite take_nil in *. cbn in *. split; [done|]. split; [done|congruence|lia| | | |lia].
    - rewrite Elk. set_solver.
    - by rewrite Eit.
    - by rewrite Eit. }
  change (take (Z.to_nat 1) (it :: l)) with [it] in *. cbn [head hd_error fmap list_fmap foldr] in *.
  assert (Hin : it ∈ filter (fun it => Key it ∉ work) (readyPrefix now (elems w))) by (rewrite Ef; by left).
  apply list_elem_of_filter in Hin as [Hfree [Hin _]%readyPrefix_incl]. split_and!; [done|done|done|].
  split; [done|congruence|by rewrite Ew| | | |lia].
  - rewrite Elk. set_solver.
  - intros k. rewrite Eit. destruct (decide (k = Key it)) as [->|Hne].
    + rewrite lookup_delete_eq. split; [set_solver|by intros []].
    + rewrite lookup_delete_ne by done. rewrite <- Hi. set_solver.
  - intros k x u. rewrite Eit. intros [_ Hk]%lookup_delete_Some. by eapply Hd.
Qed.

(** A worker that asks is parked first. *)
Lemma enterGet_holds n due ready work w :
  holdsPQ n false due ready work w ->
  (enterGet w).2 = true /\ holdsPQ n true due ready work (enterGet w).1 /\ elems (enterGet w).1 = elems w.
Proof.
  intros [Hw Hs Hwt Hl Hi Hd Hr]. pose proof (enterGet_WF w Hw) as Hw1. revert Hw1.
  unfold enterGet. rewrite Hs. intros Hw1. split_and!; [done| |done]. split; cbn; try done. by rewrite Hwt.
Qed.

Lemma get_spec n parked due ready work now w :
  holdsPQ n parked due ready work w ->
  match firstFree now work w with
  | None => (GetWithPriority parked now w).2 = Waits /\
            holdsPQ n true due ready work (GetWithPriority parked now w).1
  | Some it =>
    it ∈ elems w /\ (Key it ∉ work) /\ (GetWithPriority parked now w).2 = Got (Key it) (Priority it) /\
    holdsPQ n false due (ready ∖ {[ Key it ]}) ({[ Key it ]} ∪ work) (GetWithPriority parked now w).1
  end.
Proof.
  intros Hh. assert (Hp : exists w1, (if parked then (w, true) else enterGet w) = (w1, true) /\
    holdsPQ n true due ready work w1 /\ elems w1 = elems w).
  { destruct parked; [by exists w|]. destruct (enterGet_holds n due ready work w Hh) as (E & Hh1 & Ee).
    exists (enterGet w).1. split_and!; [by apply pair_snd|done|done]. }
  destruct Hp as (w1 & Ep & Hh1 & Ee). unfold GetWithPriority. rewrite Ep. cbn [negb].
  pose proof (spin_one n due ready work now w1 Hh1) as Hs. cbn zeta in Hs. unfold firstFree in *.
  rewrite Ee in Hs. destruct (spin now nobody (fun _ => true) w1) as [[w2 out] tm]. cbn [fst snd] in *.
  destruct (head _) as [it|]; [|by destruct Hs as [-> ?]]. by destruct Hs as (? & ? & -> & ?).
Qed.

(** Once everything is due, there is nothing to hand out only when all keys are held. *)
Lemma firstFree_none n parked due ready work now w :
  holdsPQ n parked due ready work w -> due <= ns now -> firstFree now work w = None -> ready ⊆ work.
Proof.
  intros [Hw _ _ _ Hi Hd _] Hdue. unfold firstFree. rewrite (readyPrefix_due now due); [|done|]; cycle 1.
  { intros it u Hit. apply (Hd (Key it)). by apply (wf_items w Hw). }
  intros E k [it Hk]%Hi. apply (wf_items w Hw) in Hk as [Hin <-].
  destruct (filter _ (elems w)) eqn:Ef; [|done]. destruct (decide (Key it ∈ work)) as [|Hn]; [done|].
  assert (it ∈ filter (fun it => Key it ∉ work) (elems w)) as Hx by by apply list_elem_of_filter.
  rewrite Ef in Hx. by apply not_elem_of_nil in Hx.
Qed.

#[export] Instance PQ_ServingQueue : ServingQueue T (PQ T B R M).
Proof.
  refine {| qKeys := fun w => dom (items w); qDue := dueBy; qHolds := holdsPQ |}.
  - intros n parked due ready work w Hh. apply (hp_wf _ _ _ _ _ _ Hh).
  - intros n parked due ready work w Hh. apply set_eq. intros k.
    by rewrite elem_of_dom, (hp_items _ _ _ _ _ _ Hh).
  - intros n parked due due' ready work w Hle [Hw Hs Hwt Hl Hi Hd Hr]. split; try done.
    intros k it u Hk Hu. specialize (Hd k it u Hk Hu). lia.
  - intros n parked due ready work w Hh k it Hk. unfold dueItem.
    destruct (ReadyAt it) eqn:Eu; [by eapply (hp_due _ _ _ _ _ _ Hh k)|done].
  - intros n parked due due' ready work w Hdue [Hw Hs Hwt Hl Hi Hd Hr]. split; try done.
    intros k it u Hk Hu. specialize (Hdue k it Hk). unfold dueItem in Hdue. by rewrite Hu in Hdue.
  - apply holdsPQ_add.
  - intros n parked due ready work t k w [Hw Hs Hwt Hl Hi Hd Hr].
    split; cbn; [by apply Done_WF|done..| |done|done|done]. by rewrite Hl.
  - intros n parked due ready work t k w [Hw Hs Hwt Hl Hi Hd Hr]. split; cbn; [by apply Forget_WF|done..].
  - intros n parked due ready work t w Hh. pose proof (get_spec n parked due ready work t w Hh) as Hg.
    destruct (firstFree t work w) as [it|] eqn:Ef; [right|by left].
    destruct Hg as (Hin & Hn & Eg & Hh'). exists (Key it), (Priority it). split_and!; [done| |done|done].
    apply (hp_items _ _ _ _ _ _ Hh). exists it. by apply (wf_items w (hp_wf _ _ _ _ _ _ Hh)).
  - intros n parked due ready work t w Hh Hdue Hsub E.
    pose proof (get_spec n parked due ready work t w Hh) as Hg.
    destruct (firstFree t work w) as [it|] eqn:Ef.
    + destruct Hg as (_ & _ & Eg & _). change (qServe parked t w) with (GetWithPriority parked t w) in E.
      congruence.
    + by apply Hsub, (firstFree_none n parked due ready work t w Hh).
Defined.

(** A new queue has room for as many additions as its counter can count. *)
Lemma New_holds rl m n due :
  Z.of_nat n < 2 ^ 64 -> qHolds n false due ∅ ∅ (New rl m : PQ T B R M).
Proof.
  intros Hn. split; [apply New_WF|done|done|done| |done|done].
  intros k. cbn. rewrite lookup_empty. split; [set_solver|by intros []].
Qed.

End Serving.
