(* ===== verification/Backlog.v ===== *)
(** * The backlog of a worker

    The keys in the queue, seen as work to do: which of them may add another, how many turns of the loop they
    take at most, and how the digests that the handlers remember go with them. *)

From S2P Require Import Prelude Event Runtime.
Import Event Runtime.

Module Backlog.

Implicit Types (k : anyObj) (ready : gset anyObj) (I : gset string).

(** Every key is an event; the other kind of key comes from nobody. *)
Definition events ready : Prop := forall k, k ∈ ready -> exists ev, k = inl ev.

(** Each digest that is remembered is that of an event in the queue. *)
Definition remembered (sum64 : string -> Z) ready I : Prop :=
  forall dig, dig ∈ I -> exists ev, inl ev ∈ ready /\ DigestForEvent sum64 ev = dig.

Section Digests.
Context {sum64 : string -> Z}.
#[local] Abbreviation remembered := (remembered sum64).

Lemma remembered_more ready ready' I : ready ⊆ ready' -> remembered ready I -> remembered ready' I.
Proof. intros Hsub HI dig Hd. destruct (HI dig Hd) as (ev & Hev & Ed). exists ev. split; [by apply Hsub|done]. Qed.

Lemma remembered_served ready ready' I ev :
  ready ∖ {[ inl ev ]} ⊆ ready' -> remembered ready I -> remembered ready' (I ∖ {[ DigestForEvent sum64 ev ]}).
Proof.
  intros Hsub HI dig [Hd Hne]%elem_of_difference. destruct (HI dig Hd) as (ev' & Hev & Ed).
  exists ev'. split; [|done]. apply Hsub, elem_of_difference. split; [done|].
  rewrite elem_of_singleton. intros [= ->]. set_solver.
Qed.

Lemma remembered_event ready I ev :
  remembered ready I -> remembered ({[ inl ev ]} ∪ ready) ({[ DigestForEvent sum64 ev ]} ∪ I).
Proof.
  intros HI dig [->%elem_of_singleton|Hd]%elem_of_union; [exists ev; split; [set_solver|done]|].
  by apply (remembered_more ready _ I); [set_solver|..].
Qed.

Lemma remembered_none I : remembered ∅ I -> I = ∅.
Proof. intros HI. apply set_eq. intros dig. split; [|set_solver]. intros Hd. by destruct (HI dig Hd) as (ev & Hev & _). Qed.

End Digests.

(** ** The work there is *)

(** Whether an event only observes. *)
Definition observes (k : anyObj) : bool :=
  match k with
  | inl ev => negb (String.eqb (eventType ev) Event.Create) && negb (String.eqb (eventType ev) Event.Update)
  | inr _ => false
  end.

(** The observations in a queue, each of which may add an event, and the turns it takes to empty it. *)
Definition observations ready : nat := size (filter (fun k => observes k = true) ready).
Definition weight ready : nat := size ready + observations ready.

Lemma observations_empty : observations ∅ = 0%nat.
Proof. unfold observations. apply size_empty_iff. intros x. rewrite elem_of_filter. set_solver. Qed.

Lemma observations_add k ready :
  (observations ({[ k ]} ∪ ready) <= (if observes k then 1 else 0) + observations ready)%nat.
Proof.
  unfold observations. destruct (observes k) eqn:Ek.
  - etransitivity; [|apply (size_add_le k)]. apply subseteq_size. intros x.
    rewrite elem_of_union, !elem_of_filter. set_solver.
  - apply subseteq_size. intros x. rewrite !elem_of_filter. intros [Ho [->%elem_of_singleton|Hx]%elem_of_union];
      [congruence|done].
Qed.

(** No more than there are keys. *)
Lemma observations_le ready : (observations ready <= size ready)%nat.
Proof. unfold observations. apply subseteq_size. intros x. rewrite elem_of_filter. tauto. Qed.

Lemma observations_served k ready :
  k ∈ ready -> observations ready = ((if observes k then 1 else 0) + observations (ready ∖ {[ k ]}))%nat.
Proof.
  intros Hk. unfold observations. destruct (observes k) eqn:Ek.
  - rewrite (size_served k) by (by apply elem_of_filter). cbn. do 2 f_equal. apply set_eq. intros x.
    rewrite elem_of_difference, !elem_of_filter. set_solver.
  - cbn. f_equal. apply set_eq. intros x. rewrite !elem_of_filter, elem_of_difference, elem_of_singleton.
    split; [intros [Ho Hx]; split_and!; [done..|congruence]|tauto].
Qed.

Lemma weight_empty : weight ∅ = 0%nat.
Proof. unfold weight. by rewrite observations_empty, size_empty. Qed.

End Backlog.
