(* ===== verification/Lifecycle.v ===== *)
(** * From a notification to a converged cluster

    The informer's handler, the queue and the loop of a worker together, in surroundings that cooperate:
    what a notification asks for goes through the queue to the worker, and so does what its processing
    adds, until the worker waits again.  The system starts idle, and it is idle again at the end, with
    nothing queued, no key locked and no digest remembered.  The handlers add through [informerQueue], which
    may be another way to the queue than the worker's. *)

From S2P Require Import Prelude GoTime Errors Meta Event PriorityQueue QueueInstr QueueLaws.
From S2P Require Import Conditions Runtime Worker WorkerFacts Cooperation Convergence Deletion.
From S2P Require Import Serving Controller Threads Backlog.
Import GoTime Errors Event Runtime Unstructured Cooperation Convergence Deletion Controller Threads Backlog.

Module Lifecycle.

Section Run.
Context {E O GVR Q : Type} (informerQueue : WorkQueue anyObj Q) `{!MetaObject O, !MetaObjectLaws O} `{!UnstructuredObject O}
  `{!UnstructuredLaws O} `{!ObjectLaws O} `{!World E O GVR} `{!ClusterView E O}
  `{!WorkQueue anyObj Q, !QueueSafe anyObj Q, !GetQueue anyObj Q, !ServingQueue anyObj Q}.
Context `{!SharedQueue anyObj Q informerQueue}.
Context (ref : ObjectRef) `{!Cooperative E O GVR ref}.
Context {Spec : Type} (NestedSpec : O -> error + option Spec)
  (cmpDiff : option Spec -> option Spec -> string).
Context (TypeNormal : string) (sum64 : string -> Z).
Context (actionsEvent : ActionsEvent) (watchAnnotations : AnnotationEvents).
Implicit Types (c : ControllerT GVR) (o el : O) (so : option O) (s : St E Q O) (r : ExternalObservation)
  (ready work : gset anyObj) (I : gset string) (rq : @request O).
#[local] Abbreviation M := (M E Q O).
#[local] Abbreviation handler :=
  (Threads.handler (Q := Q) (WorkQueue0 := informerQueue) NestedSpec cmpDiff sum64 actionsEvent watchAnnotations).
#[local] Abbreviation remembered := (remembered sum64).
#[local] Abbreviation wanted := (wanted NestedSpec cmpDiff actionsEvent watchAnnotations).

(** ** The worker's loop *)

(** The answer GetWithPriority has now, for a worker that waits already or one that asks. *)
Definition answerAt (parked : bool) (t : Time) : M (answer anyObj) := fun s =>
  let '(q, a) := qServe parked t (queue s) in (mkSt (env s) q (items s) (trace s), Ret a).

Definition serve (parked : bool) : M (answer anyObj) := t ← now; answerAt parked t.

(** One turn of [runWorker]: whether the worker is parked then, or None when its loop has ended. *)
Definition turn (parked : bool) c : M (option bool) :=
  a ← serve parked;
  match a with
  | Waits => mret (Some true)
  | Closed => mret None
  | Got obj priority =>
    go ← Worker.runWorkerStep TypeNormal sum64 c (obj, priority, false);
    mret (if (go : bool) then Some false else None)
  end.

(** [runWorker], for at most [fuel] answers; true when the worker waits in GetWithPriority. *)
Fixpoint runWorker (fuel : nat) (parked : bool) c : M bool :=
  match fuel with
  | 0%nat => mret false
  | S fuel =>
    x ← turn parked c;
    match (x : option bool) with
    | Some true => mret true
    | Some false => runWorker fuel false c
    | None => mret false
    end
  end.

(** ** The state of the system *)

(** The worker's keys and those in the queue, room for [n] additions, the digests, and the cluster; it is
    [t] or later, and no key is delayed for longer. *)
Definition sys (n : nat) (parked : bool) ready work I so r (t : Z) s : Prop := exists q ev,
  at_ q ev so r t s /\ qHolds n parked t ready work q /\ items s = I.

(** A program that leaves [items] alone, as the processing of an event does. *)
Lemma wp_keep {A} (m : M A) (Φ : A -> St E Q O -> Prop) I s :
  adds 1 m -> items s = I -> wp m (fun a s' => items s' = I -> Φ a s') s -> wp m Φ s.
Proof.
  intros Hm Hi (a & s' & Em & HΦ). exists a, s'. split; [done|]. apply HΦ. rewrite <- Hi.
  specialize (Hm s). rewrite Em in Hm. apply Hm.
Qed.

(** A change of the queue and the digests. *)
Lemma sys_queue n parked ready work I so r t n' parked' ready' work' I' s s' :
  sys n parked ready work I so r t s ->
  env s' = env s -> (forall q, queue s = q -> qHolds n parked t ready work q -> qHolds n' parked' t ready' work' (queue s')) ->
  (items s = I -> items s' = I') -> sys n' parked' ready' work' I' so r t s'.
Proof.
  intros (q & ev & [Hq Hev Ho Hr Ht] & Hh & Hi) Ee Hq' Hi'.
  exists (queue s'), (enqueued (trace s')). split_and!; [split; by rewrite ?Ee| |by apply Hi'].
  by eapply Hq'.
Qed.

Section Sys.
Context (n : nat) (parked : bool) ready work I so r (t : Z).
#[local] Abbreviation here := (sys n parked ready work I so r t).

Lemma sys_now Φ s : here s -> (forall tm s', t <= ns tm -> here s' -> Φ tm s') -> wp now Φ s.
Proof.
  intros (q & ev & Hat & Hq & Hi) HΦ. eapply wp_keep; [apply adds_lift|done|].
  eapply (wp_now ref); [exact Hat|]. intros tm s' Htm Hle Hat' Hi'. apply HΦ; [done|]. exists q, ev.
  split_and!; [by eapply at_earlier|done|done].
Qed.

Lemma sys_emit e Φ s : here s -> (forall s', here s' -> Φ tt s') -> wp (emit e) Φ s.
Proof.
  intros Hs HΦ. eexists _, _. split; [done|]. apply HΦ. eapply sys_queue; [exact Hs|done| |done].
  by intros q <-.
Qed.

Lemma sys_emitMetric c x Φ s : here s -> (forall s', here s' -> Φ tt s') -> wp (emitMetric c x) Φ s.
Proof. intros Hs HΦ. unfold emitMetric. destruct (metrics c); [by apply sys_emit|by apply wp_ret, HΦ]. Qed.

Lemma sys_shortid Φ s : here s -> (forall s', here s' -> Φ None s') -> wp (lift wShortid) Φ s.
Proof.
  intros (q & ev & Hat & Hq & Hi) HΦ. eapply wp_keep; [apply adds_lift|done|].
  destruct (coop_shortid (ref := ref) (env s)) as [Hquiet Es].
  eapply wp_quiet; [exact Hat|exact Hquiet|]. intros s' Hat' Hi'. rewrite Es. apply HΦ. by exists q, ev.
Qed.

(** An operation of the queue that reads the clock first. *)
Lemma sys_onQueue (e : effect O) (f : Time -> Q -> outcome Q) n' ready' work' Φ s :
  here s ->
  (forall tm q, qHolds n parked t ready work q ->
     exists q', f tm q = Ret q' /\ qHolds n' parked t ready' work' q') ->
  (forall s', sys n' parked ready' work' I so r t s' -> Φ tt s') ->
  wp (tm ← now; emit e;; onQueue (f tm)) Φ s.
Proof.
  intros Hs Hf HΦ. apply wp_bind. eapply sys_now; [exact Hs|]. intros tm s1 _ Hs1.
  apply wp_bind. eapply sys_emit; [exact Hs1|]. intros s2 Hs2.
  pose proof Hs2 as (q & ev & Hat & Hq & Hi). destruct (Hf tm q Hq) as (q' & Ef & Hq').
  unfold wp, onQueue. rewrite (at_queue _ _ _ _ _ _ Hat), Ef. eexists _, _. split; [done|]. apply HΦ.
  eapply sys_queue; [exact Hs2|done|done|done].
Qed.

Lemma sys_serve Φ s :
  here s ->
  (ready ⊆ work -> forall s', sys n true ready work I so r t s' -> Φ Waits s') ->
  (forall k p s', k ∈ ready -> (k ∉ work) ->
     sys n false (ready ∖ {[ k ]}) ({[ k ]} ∪ work) I so r t s' -> Φ (Got k p) s') ->
  wp (serve parked) Φ s.
Proof.
  intros Hs Hwait Hgot. unfold serve. apply wp_bind. eapply sys_now; [exact Hs|]. intros tm s1 Htm Hs1.
  pose proof Hs1 as (q & ev & Hat & Hq & Hi). unfold wp, answerAt. rewrite (at_queue _ _ _ _ _ _ Hat).
  pose proof (holds_prompt n parked t ready work tm q Hq Htm) as Hprompt.
  destruct (holds_serve n parked t ready work tm q Hq) as [[Ea Hq']|(k & p & Ea & Hk & Hn & Hq')];
    destruct (qServe parked tm q) as [q' a]; cbn in *; subst a; (eexists _, _; split; [done|]).
  - apply Hwait.
    + destruct (decide (ready ⊆ work)) as [|Hsub]; [done|]. by destruct (Hprompt Hsub).
    + eapply sys_queue; [exact Hs1|done|done|done].
  - apply Hgot; [done|done|]. eapply sys_queue; [exact Hs1|done|done|done].
Qed.

End Sys.

(** ** One event *)

(** Additions, digests and cluster as [Ψ] says, with the worker at its keys. *)
Definition processed (Ψ : nat -> gset anyObj -> option O -> ExternalObservation -> Prop) work I (t : Z) s : Prop :=
  exists n ready so r, Ψ n ready so r /\ sys n false ready work I so r t s.

Lemma sys_itemsDelete dig n parked ready work I so r t Φ s :
  sys n parked ready work I so r t s ->
  (forall s', sys n parked ready work (I ∖ {[ dig ]}) so r t s' -> Φ tt s') -> wp (itemsDelete dig) Φ s.
Proof.
  intros Hs HΦ. apply wp_bind. eapply sys_emit; [exact Hs|]. intros s1 Hs1.
  eexists _, _. split; [done|]. apply HΦ. eapply sys_queue; [exact Hs1|done|by intros q <-|].
  cbn. by intros ->.
Qed.

(** What follows an event that was processed without error: its digest and its key are free again. *)
Lemma wp_finishEvent c ev p Ψ work I t s :
  processed Ψ work I t s ->
  wp (Worker.finishEvent sum64 c ev p None)
    (fun _ s' => processed Ψ (work ∖ {[ inl ev ]}) (I ∖ {[ DigestForEvent sum64 ev ]}) t s') s.
Proof.
  intros (n & ready & so & r & HΨ & Hs). unfold Worker.finishEvent.
  apply wp_bind. eapply sys_itemsDelete; [exact Hs|]. intros s1 Hs1.
  apply wp_bind. eapply sys_onQueue; [exact Hs1| |].
  { intros tm q Hq. eexists. split; [done|]. by apply holds_forget. }
  intros s2 Hs2. apply wp_bind. eapply sys_onQueue; [exact Hs2| |].
  { intros tm q Hq. eexists. split; [done|]. by apply holds_done. }
  intros s3 Hs3. apply wp_bind, wp_ret. eapply sys_emitMetric; [exact Hs3|]. intros s4 Hs4.
  by exists n, ready, so, r.
Qed.

Lemma wp_reconcileMetrics c ev t0 t1 err Ψ work I t s :
  processed Ψ work I t s ->
  wp (Worker.reconcileMetrics c ev t0 t1 err) (fun _ s' => processed Ψ work I t s') s.
Proof.
  intros (n & ready & so & r & HΨ & Hs). unfold Worker.reconcileMetrics.
  apply wp_bind. eapply sys_emitMetric; [exact Hs|]. intros s1 Hs1.
  apply wp_bind. eapply sys_emitMetric; [exact Hs1|]. intros s2 Hs2.
  assert (Hend : forall s', sys n false ready work I so r t s' -> processed Ψ work I t s')
    by (intros s' Hs'; by exists n, ready, so, r).
  destruct err; [apply wp_bind; eapply sys_emitMetric; [exact Hs2|]; intros s3 Hs3|];
    (eapply sys_emitMetric; [eassumption|exact Hend]).
Qed.

(** An iteration of the worker's loop whose event is processed without error. *)
Lemma wp_runWorkerStep c ev p Ψ n ready work I so r t s :
  sys n false ready work I so r t s ->
  (forall s', sys n false ready work I so r t s' ->
     wp (Worker.processItem TypeNormal c (inl ev)) (fun err s2 => err = None /\ processed Ψ work I t s2) s') ->
  wp (Worker.runWorkerStep TypeNormal sum64 c (inl ev, p, false))
    (fun go s' => go = true /\
       processed Ψ (work ∖ {[ inl ev ]}) (I ∖ {[ DigestForEvent sum64 ev ]}) t s') s.
Proof.
  intros Hs Hp. unfold Worker.runWorkerStep, Worker.reconcileEvent. apply wp_bind.
  apply wp_bind. eapply sys_emitMetric; [exact Hs|]. intros s1 Hs1.
  apply wp_bind. eapply sys_now; [exact Hs1|]. intros t0 s2 _ Hs2.
  apply wp_bind. apply (wp_mono _ (fun _ => sys n false ready work I so r t)).
  { destruct (IsZero (QueuedAt ev)); [by apply wp_ret|]. eapply sys_emitMetric; [exact Hs2|done]. }
  intros _ s3 Hs3. apply wp_bind. eapply sys_shortid; [exact Hs3|]. intros s4 Hs4. cbv beta iota.
  apply wp_bind. eapply wp_mono; [by apply Hp|]. intros err s5 [-> Hs5].
  pose proof Hs5 as (n5 & ready5 & so5 & r5 & HΨ & Hs5').
  apply wp_bind. eapply sys_now; [exact Hs5'|]. intros t1 s6 _ Hs6.
  apply wp_bind. eapply wp_mono; [apply wp_reconcileMetrics; by exists n5, ready5, so5, r5|].
  intros ? s7 Hs7. eapply wp_mono; [apply wp_finishEvent; exact Hs7|]. intros ? s8 Hs8. by apply wp_ret.
Qed.

(** ** A turn of the loop *)

Lemma wp_turn c parked Ψ n ready I so r t Φ s :
  sys n parked ready ∅ I so r t s -> events ready ->
  (ready = ∅ -> forall s', sys n true ∅ ∅ I so r t s' -> Φ (Some true) s') ->
  (forall ev s', inl ev ∈ ready -> sys n false (ready ∖ {[ inl ev ]}) {[ inl ev ]} I so r t s' ->
     wp (Worker.processItem TypeNormal c (inl ev))
       (fun err s2 => err = None /\ processed (Ψ ev) {[ inl ev ]} I t s2) s') ->
  (forall ev s', inl ev ∈ ready -> processed (Ψ ev) ∅ (I ∖ {[ DigestForEvent sum64 ev ]}) t s' ->
     Φ (Some false) s') ->
  wp (turn parked c) Φ s.
Proof.
  intros Hs Hev Hwait Hp HΦ. unfold turn. apply wp_bind. eapply sys_serve; [exact Hs| |].
  - intros He%equiv_empty_L s1 Hs1. apply wp_ret. rewrite He in Hs1. by apply Hwait.
  - intros k p s1 Hk _ Hs1. destruct (Hev k Hk) as [ev ->]. rewrite union_empty_r_L in Hs1.
    apply wp_bind. eapply wp_mono; [eapply (wp_runWorkerStep c ev p (Ψ ev)); [exact Hs1|]|].
    + intros s2 Hs2. by apply Hp.
    + intros go s2 [-> Hs2]. rewrite difference_diag_L in Hs2. apply wp_ret. by eapply HΦ.
Qed.

(** ** Notifications *)

(** What is wanted of the object for [ref]. *)
Definition asks (nt : notice) (rq : request) : Prop :=
  wanted nt = Some rq /\ Worker.refOf (whom rq) = ref.

(** A request is dropped when its digest is remembered, and queued otherwise. *)
Lemma sys_handler nt rq n parked ready I so r t Φ s :
  asks nt rq -> remembered ready I -> sys (S n) parked ready ∅ I so r t s ->
  (forall ev s', inl ev ∈ ready -> sys (S n) parked ready ∅ I so r t s' -> Φ tt s') ->
  (forall tm I' s', let ev := mkEvent (what rq) ref tm in
     remembered ({[ inl ev ]} ∪ ready) I' -> sys n parked ({[ inl ev ]} ∪ ready) ∅ I' so r t s' -> Φ tt s') ->
  wp (handler nt) Φ s.
Proof.
  intros [Hw Href] HI Hs Hold Hnew. unfold wp. rewrite handler_wanted, Hw. fold (wp (runRequest sum64 rq) Φ s).
  unfold runRequest, eventFor, addOnce, loadOrStore, addToQueue. rewrite Href.
  apply wp_bind, wp_bind. eapply sys_now; [exact Hs|]. intros tm s1 _ Hs1. apply wp_ret.
  set (ev := mkEvent (what rq) ref tm).
  assert (Hadd : forall I' s2, remembered ({[ inl ev ]} ∪ ready) I' -> sys (S n) parked ready ∅ I' so r t s2 ->
    wp (enqueue (H2 := informerQueue) (PriorityQueue.mkAddOpts 0 false (urgency rq)) (inl ev)) Φ s2).
  { intros I' s2 HI' Hs2. eapply sys_onQueue; [exact Hs2| |].
    - intros t2 q Hq.
      destruct (shared_add (via := informerQueue) n parked t ready ∅ t2 (PriorityQueue.mkAddOpts 0 false (urgency rq)) (inl ev) q Hq)
        as (q' & due' & Ea & _ & Him & Hq').
      exists q'. split; [done|]. rewrite (Him (conj (Z.le_refl 0) eq_refl)) in Hq'. exact Hq'.
    - intros s3 Hs3. by eapply Hnew. }
  destruct (once rq); [|by apply (Hadd I); [apply (remembered_more ready); [set_solver|]|]].
  pose proof Hs1 as (q & l & Hat & Hq & Hi). apply wp_bind. unfold itemsHas.
  apply wp_bind. eexists _, _. split; [done|]. rewrite Hi. case_bool_decide as Hd.
  { apply wp_ret. cbv iota. apply wp_ret. destruct (HI _ Hd) as (ev' & Hev & _). by eapply Hold. }
  apply wp_bind. eapply wp_bind, sys_emit; [exact Hs1|]. intros s2 Hs2.
  eexists _, _. split; [done|]. apply wp_ret. cbv iota.
  eapply (Hadd ({[ DigestForEvent sum64 ev ]} ∪ I)); [by apply remembered_event|].
  eapply sys_queue; [exact Hs2|done|by intros q' <-|]. cbn. by intros ->.
Qed.

(** ** Events of a live object *)

(** An event that reconciles the object: not a deletion, and an update only of a resource that exists. *)
Definition timely r (k : anyObj) : Prop := exists ev, k = inl ev /\ objectRef ev = ref /\
  eventType ev <> Event.Delete /\ (eventType ev = Event.Update -> ResourceExists r = true).

(** Reconciliation has got to its end. *)
Definition inOrder so r : Prop := r = inSync /\ exists o, so = Some o /\ Convergence.ready ref o /\
  Meta.ExternalCreateIncomplete o = false /\ synced o.

(** What an event leaves: all in order, or, after an observation, the next event in the queue. *)
Definition after (n : nat) ready r0 (ev : Event.Event) (n' : nat) (ready' : gset anyObj) so r : Prop :=
  (n' = n /\ ready' = ready /\ inOrder so r) \/
  (observes (inl ev) = true /\ n = S n' /\ r = r0 /\ exists o tm, so = Some o /\
   ready' = {[ next ref r0 tm ]} ∪ ready /\ Convergence.ready ref o /\ Meta.ExternalCreateIncomplete o = false).

Lemma settled_processed q l n ready r0 (ev : Event.Event) work I t s :
  qHolds n false t ready work q -> settled ref q l t s -> items s = I ->
  processed (after n ready r0 ev) work I t s.
Proof.
  intros Hq (o & Hat & Hr & Hi & Hs) HI. exists n, ready, (Some o), inSync.
  split; [left; split_and!; [done|done|split; [done|by exists o]]|by exists q, l].
Qed.

Lemma timely_next r tm r' : ResourceExists r' = ResourceExists r -> timely r' (next ref r tm).
Proof.
  intros Er. eexists. split; [done|]. unfold nextEvent. cbn. rewrite Er.
  destruct (ResourceExists r); split_and!; done.
Qed.

Lemma observes_next r tm : observes (next ref r tm) = false.
Proof. unfold observes, next, nextEvent. cbn. by destruct (ResourceExists r). Qed.

Lemma process_timely c ev n ready work I o r t s :
  wired c -> timely r (inl ev) -> live ref o -> decidable o r t ->
  (observes (inl ev) = true -> n <> 0%nat) ->
  sys n false ready work I (Some o) r t s ->
  wp (Worker.processItem TypeNormal c (inl ev))
    (fun err s2 => err = None /\ processed (after n ready r ev) work I t s2) s.
Proof.
  intros Hc (ev' & [= <-] & Href & Hdl & Hu) Hl Hd Hn (q & l & Hat & Hq & HI).
  eapply wp_keep; [apply adds_processItem; exact sum64|done|].
  assert (Hend : forall err s2, reaches ref q l t err s2 -> items s2 = I ->
    err = None /\ processed (after n ready r ev) work I t s2).
  { intros err s2 [-> Hs2] HI2. split; [done|]. by eapply settled_processed. }
  destruct (decide (eventType ev = Event.Create)) as [Ec|Ec].
  { eapply wp_mono; [by eapply wp_process_create|exact Hend]. }
  destruct (decide (eventType ev = Event.Update)) as [Eu|Eu].
  { eapply wp_mono; [by eapply wp_process_update, Hu|exact Hend]. }
  eapply wp_mono; [eapply (wp_process_observe ref); [done|by eapply holds_ok|done..|exact Hat|done|done]|].
  intros err s2 [-> [[-> Hs2]|(Hne & q' & o' & tm & t2 & Ea & Hat2 & Hr & Hi)]] HI2; [by apply Hend|].
  split; [done|].
  assert (Hobs : observes (inl ev) = true).
  { cbn. apply String.eqb_neq in Ec as ->, Eu as ->. done. }
  destruct n as [|n]; [by destruct (Hn Hobs)|].
  destruct (holds_add n false t ready work t2 nextOpts (next ref r tm) q Hq) as (q'' & due' & Ea' & _ & Him & Hq').
  rewrite Ea in Ea'. injection Ea' as <-. rewrite (Him (conj (Z.le_refl 0) eq_refl)) in Hq'.
  exists n, ({[ next ref r tm ]} ∪ ready), (Some o'), r. split; [|by exists q', ((nextOpts, next ref r tm) :: l)].
  right. split_and!; [done..|]. by exists o', tm.
Qed.

(** ** A backlog of events *)

(** A system with a live object whose queue holds a backlog of its events: each is due, each digest is that
    of a queued event, there is room for [b] additions besides those of the observations; and, once
    [begun], nothing is left to do when the queue is empty.  [exists_]: the external resource exists. *)
Definition busy (b : nat) (exists_ begun : Prop) (parked : bool) ready s : Prop := exists n I o r t,
  sys n parked ready ∅ I (Some o) r t s /\ live ref o /\ decidable o r t /\
  (forall k, k ∈ ready -> timely r k) /\ remembered ready I /\ (b + observations ready <= n)%nat /\
  (exists_ -> ResourceExists r = true) /\ (begun -> ready = ∅ -> inOrder (Some o) r).

Lemma timely_exists r r' k : (ResourceExists r = true -> ResourceExists r' = true) -> timely r k -> timely r' k.
Proof. intros Hr (ev & -> & Href & Hd & Hu). exists ev. split_and!; [done..|]. by intros E'; apply Hr, Hu. Qed.

(** A turn of the worker's loop takes an event, and the backlog gets lighter. *)
Lemma turn_busy c b x g parked ready s :
  wired c -> busy b x g parked ready s ->
  wp (turn parked c) (fun res s' =>
    (ready = ∅ /\ res = Some true /\ busy b x g true ∅ s') \/
    (res = Some false /\ exists ready', busy b x True false ready' s' /\ (weight ready' < weight ready)%nat)) s.
Proof.
  intros Hc (n & I & o & r & t & Hs & Hl & Hd & Ht & HI & Hn & Hx & Hg).
  eapply (wp_turn c parked (fun ev => after n (ready ∖ {[ inl ev ]}) r ev)); [exact Hs| | | |].
  - intros k Hk. destruct (Ht k Hk) as (ev & -> & _). by exists ev.
  - intros -> s' Hs'. left. split_and!; [done..|]. by exists n, I, o, r, t.
  - intros ev s' Hev Hs'. eapply process_timely; [done|by apply Ht|done|done| |exact Hs'].
    intros Ho. pose proof (observations_served _ _ Hev) as E'. rewrite Ho in E'. lia.
  - intros ev s' Hev (n' & rd & so & r' & Ha & Hs'). right. split; [done|]. exists rd.
    pose proof (observations_served _ _ Hev) as Eo. pose proof (size_served _ _ Hev) as Esz.
    destruct Ha as [(-> & -> & (-> & o' & -> & Hr & Hi & Hsy))|(Ho & -> & -> & o' & tm & -> & -> & Hr & Hi)].
    + split; [|unfold weight; lia].
      exists n, (I ∖ {[ DigestForEvent sum64 ev ]}), o', inSync, t.
      split_and!; [done|apply Hr|by intros E'; rewrite Hi in E'| |by eapply remembered_served|lia|done|].
      * intros k Hk. apply (timely_exists r); [done|]. apply Ht. set_solver.
      * intros _ _. split; [done|]. by exists o'.
    + rewrite Ho in Eo. pose proof (observations_add (next ref r tm) (ready ∖ {[ inl ev ]})) as Ea.
      pose proof (size_add_le (next ref r tm) (ready ∖ {[ inl ev ]})) as Es. rewrite observes_next in Ea.
      split; [|unfold weight; lia].
      exists n', (I ∖ {[ DigestForEvent sum64 ev ]}), o', r, t.
      split_and!; [done|apply Hr|by intros E'; rewrite Hi in E'| |eapply remembered_served; [|done]; set_solver|lia|done|].
      * intros k [->%elem_of_singleton|Hk]%elem_of_union; [by apply timely_next|]. apply Ht. set_solver.
      * intros _ E'. set_solver.
Qed.

(** The worker gets through the backlog. *)
Lemma runWorker_busy fuel : forall c b x (g : Prop) parked ready s,
  wired c -> busy b x g parked ready s -> (ready = ∅ -> g) -> (weight ready < fuel)%nat ->
  wp (runWorker fuel parked c) (fun waits s' => waits = true /\ busy b x True true ∅ s') s.
Proof.
  induction fuel as [|fuel IH]; intros c b x g parked ready s Hc Hs Hg Hw; [lia|]. cbn [runWorker].
  apply wp_bind. eapply wp_mono; [by apply turn_busy|].
  intros res s' [(-> & -> & n & I & o & r & t & Hs')|(-> & ready' & Hs' & Hlt)].
  - apply wp_ret. split; [done|]. exists n, I, o, r, t. intuition.
  - eapply IH; [done|exact Hs'|done|lia].
Qed.

(** A notification that asks for nothing, or for a reconciliation. *)
Definition reconciling (exists_ : Prop) rq : Prop :=
  what rq <> Event.Delete /\ (what rq = Event.Update -> exists_).

Definition reconciles (exists_ : Prop) nt : Prop :=
  wanted nt = None \/ exists rq, asks nt rq /\ reconciling exists_ rq.

Lemma handler_none nt Φ s : wanted nt = None -> Φ tt s -> wp (handler nt) Φ s.
Proof. intros Hw HΦ. unfold wp. rewrite handler_wanted, Hw. by exists tt, s. Qed.

Lemma handler_busy nt rq b x (g : Prop) parked ready s :
  asks nt rq -> reconciling x rq -> busy (2 + b) x g parked ready s ->
  wp (handler nt) (fun _ s' => exists ready', ready' <> ∅ /\ busy b x True parked ready' s' /\
    (weight ready' <= 2 + weight ready)%nat) s.
Proof.
  intros Ha [Hdl Hu] (n & I & o & r & t & Hs & Hl & Hd & Ht & HI & Hn & Hx & Hg).
  destruct n as [|n]; [lia|]. eapply sys_handler; [exact Ha|exact HI|exact Hs| |].
  - intros ev s' Hev Hs'. exists ready. split; [set_solver|]. split; [|unfold weight; lia].
    exists (S n), I, o, r, t. split_and!; [done..|lia|done|set_solver].
  - intros tm I' s' ev HI' Hs'. exists ({[ inl ev ]} ∪ ready). split; [set_solver|].
    pose proof (observations_add (inl ev) ready) as Ea. pose proof (size_add_le (inl ev) ready) as Es.
    assert (Hone : ((if observes (inl ev) then 1 else 0) <= 1)%nat) by (destruct (observes _); lia).
    split; [|unfold weight; lia]. exists n, I', o, r, t. split_and!; [done..| |done|lia|done|set_solver].
    intros k [->%elem_of_singleton|Hk]%elem_of_union; [|by apply Ht].
    exists ev. split_and!; [done..|]. intros E'. by apply Hx, Hu.
Qed.

(** ** Histories *)

(** Notifications, one after the other, each followed by the worker until it waits. *)
Fixpoint follow (fuel : nat) c (parked : bool) (ns : list notice) : M bool :=
  match ns with
  | [] => mret parked
  | nt :: ns =>
    handler nt;;
    waits ← runWorker fuel parked c;
    if (waits : bool) then follow fuel c true ns else mret false
  end.

Lemma follow_cons c parked nt ns (P : St E Q O -> Prop) Φ s :
  wp (handler nt;; runWorker 3 parked c) (fun waits s' => waits = true /\ P s') s ->
  (forall s', P s' -> wp (follow 3 c true ns) Φ s') -> wp (follow 3 c parked (nt :: ns)) Φ s.
Proof.
  intros (w & s1 & Ew & -> & HP) HΦ. destruct (HΦ s1 HP) as (w2 & s2 & Ew2 & Hs2).
  exists w2, s2. split; [|done]. revert Ew. cbn [follow]. unfold mbind, M_bind.
  destruct (handler nt s) as [s3 [[]|why]]; [|done]. intros ->. exact Ew2.
Qed.

(** Notifications and turns of the worker in any order: bursts of notifications are such a history, and
    notifications that come while the worker still has events to do. *)
Inductive move : Type := Notify (nt : notice (O := O)) | Turn.

Fixpoint play c (parked : bool) (ms : list move) : M (option bool) :=
  match ms with
  | [] => mret (Some parked)
  | Notify nt :: ms => handler nt;; play c parked ms
  | Turn :: ms =>
    x ← turn parked c;
    match (x : option bool) with Some parked => play c parked ms | None => mret None end
  end.

Definition noticesOf (ms : list move) : list notice :=
  omap (fun m => match m with Notify nt => Some nt | Turn => None end) ms.

(** The rest of a history, then the worker until it waits. *)
Definition playOut (fuel : nat) c (parked : bool) (ms : list move) : M bool :=
  x ← play c parked ms;
  match (x : option bool) with Some parked => runWorker fuel parked c | None => mret false end.

(** An idle system, and one that is idle at its goal. *)
Definition idle (n : nat) (parked : bool) s : Prop :=
  qHolds n parked (lastTime (env s)) ∅ ∅ (queue s) /\ items s = ∅.

Definition rests (goal : E -> Prop) (waits : bool) s : Prop :=
  waits = true /\ (exists n, idle n true s) /\ goal (env s).

Lemma idle_sys n parked s :
  idle n parked s -> sys n parked ∅ ∅ ∅ (storedObject (env s)) (Cooperation.resource (env s)) (lastTime (env s)) s.
Proof. intros [Hq Hi]. exists (queue s), (enqueued (trace s)). by split_and!. Qed.

Lemma sys_idle n parked so r t s : sys n parked ∅ ∅ ∅ so r t s -> idle n parked s.
Proof.
  intros (q & ev & Hat & Hq & Hi). split; [|done]. rewrite (at_queue _ _ _ _ _ _ Hat).
  eapply holds_later; [|exact Hq]. apply Hat.
Qed.

Lemma idle_busy b x parked o s :
  idle b parked s -> storedObject (env s) = Some o -> live ref o ->
  decidable o (Cooperation.resource (env s)) (lastTime (env s)) ->
  (x -> ResourceExists (Cooperation.resource (env s)) = true) -> busy b x False parked ∅ s.
Proof.
  intros Hs%idle_sys Ho Hl Hd Hx. rewrite Ho in Hs. eexists _, _, o, _, _. split; [exact Hs|].
  rewrite observations_empty, Nat.add_0_r. split_and!; done || set_solver.
Qed.

Lemma busy_rests b x waits s : waits = true /\ busy b x True true ∅ s -> rests (converged ref) waits s.
Proof.
  intros [-> (n & I & o & r & t & Hs & _ & _ & _ & HI & _ & _ & Hg)]. split; [done|].
  destruct (Hg Logic.I eq_refl) as (-> & o' & [= <-] & Ho). apply remembered_none in HI. subst I.
  split; [by eexists; eapply sys_idle|]. destruct Hs as (q & l & Hat & _ & _). exists o.
  by rewrite (at_stored _ _ _ _ _ _ Hat), (at_resource _ _ _ _ _ _ Hat).
Qed.

Lemma busy_fewer b b' x (g : Prop) parked ready s :
  (b <= b')%nat -> busy b' x g parked ready s -> busy b x g parked ready s.
Proof.
  intros Hb (n & I & o & r & t & Hs & Hl & Hd & Ht & HI & Hn & Hr). exists n, I, o, r, t.
  split_and!; [done..|lia|apply Hr|apply Hr].
Qed.

(** A resource whose reconciliation has got to its end exists. *)
Lemma busy_settled b x parked s : busy b x True parked ∅ s -> busy b True True parked ∅ s.
Proof.
  intros (n & I & o & r & t & Hs & Hl & Hd & Ht & HI & Hn & _ & Hg). exists n, I, o, r, t.
  destruct (Hg Logic.I eq_refl) as [-> ?]. by split_and!.
Qed.

(** One notification, and the worker until it waits. *)
Lemma follow_one c nt b x (g : Prop) parked s :
  wired c -> reconciles x nt -> (wanted nt = None -> g) -> busy (2 + b) x g parked ∅ s ->
  wp (handler nt;; runWorker 3 parked c) (fun waits s' => waits = true /\ busy b True True true ∅ s') s.
Proof.
  intros Hc Hnt Hg Hs.
  assert (Hrun : forall b' (g' : Prop) ready s', (ready = ∅ -> g') -> (weight ready < 3)%nat -> (b <= b')%nat ->
    busy b' x g' parked ready s' ->
    wp (runWorker 3 parked c) (fun waits s' => waits = true /\ busy b True True true ∅ s') s').
  { intros b' g' ready s' Hg' Hw Hb Hs'. eapply wp_mono; [by eapply runWorker_busy|].
    intros w s2 [-> Hs2]. split; [done|]. by eapply busy_fewer, busy_settled. }
  apply wp_bind. destruct Hnt as [Hnone|(rq & Hask & Hrq)].
  - apply handler_none; [done|]. apply (Hrun (2 + b)%nat g ∅); [by intros _; apply Hg|rewrite weight_empty; lia|lia|exact Hs].
  - eapply wp_mono; [by eapply handler_busy|]. intros ? s' (ready & Hne & Hs' & Hw). rewrite weight_empty in Hw.
    apply (Hrun b True ready); [done|lia|lia|exact Hs'].
Qed.

Lemma follow_rest c ns : forall s,
  wired c -> Forall (reconciles True) ns -> busy (2 * length ns) True True true ∅ s ->
  wp (follow 3 c true ns) (rests (converged ref)) s.
Proof.
  induction ns as [|nt ns IH]; intros s Hc Hns Hs; [apply wp_ret; by eapply busy_rests|].
  apply Forall_cons in Hns as [Hnt Hns]. cbn [length] in Hs.
  apply (follow_cons _ _ _ _ (busy (2 * length ns) True True true ∅)); [|by intros s'; apply IH].
  apply (follow_one c nt (2 * length ns) True True); [done|exact Hnt|done|].
  eapply busy_fewer; [|exact Hs]. lia.
Qed.

(** A history from a backlog. *)
Lemma play_busy c b x ms : forall parked ready (g : Prop) s,
  wired c -> Forall (reconciles x) (noticesOf ms) ->
  busy (2 * length (noticesOf ms) + b) x g parked ready s ->
  (ready = ∅ -> g \/ Exists (fun nt => wanted nt <> None) (noticesOf ms)) ->
  wp (play c parked ms) (fun res s' => exists parked' ready' (g' : Prop), res = Some parked' /\
    busy b x g' parked' ready' s' /\ (ready' = ∅ -> g') /\
    (weight ready' <= weight ready + 2 * length (noticesOf ms))%nat) s.
Proof.
  induction ms as [|[nt|] ms IH]; intros parked ready g s Hc Hns Hs Hg; cbn [play noticesOf] in *.
  - apply wp_ret. exists parked, ready, g. split_and!; [done|done| |cbn; lia].
    intros Hr. destruct (Hg Hr) as [|Hex]; [done|]. by apply Exists_nil in Hex.
  - cbn in Hns, Hs, Hg. fold (noticesOf ms) in *. apply Forall_cons in Hns as [Hnt Hns].
    apply wp_bind. destruct Hnt as [Hnone|(rq & Hask & Hrq)].
    + apply handler_none; [done|]. eapply wp_mono.
      { eapply IH; [done..|eapply busy_fewer; [|exact Hs]; lia|]. intros Hr.
        destruct (Hg Hr) as [|[?|Hex]%Exists_cons]; [by left|done|by right]. }
      intros res s' (p' & ready' & g' & -> & Hs' & Hg' & Hw). exists p', ready', g'.
      split_and!; [done..|cbn; fold (noticesOf ms); lia].
    + eapply wp_mono; [eapply (handler_busy nt rq (2 * length (noticesOf ms) + b)); [done..|]|].
      { eapply busy_fewer; [|exact Hs]. lia. }
      intros ? s1 (ready1 & Hne & Hs1 & Hw1). eapply wp_mono; [by eapply IH; [..|left]|].
      intros res s' (p' & ready' & g' & -> & Hs' & Hg' & Hw). exists p', ready', g'.
      split_and!; [done..|cbn; fold (noticesOf ms); lia].
  - apply wp_bind. eapply wp_mono; [by apply turn_busy|].
    intros res s1 [(-> & -> & Hs1)|(-> & ready1 & Hs1 & Hlt)].
    + eapply wp_mono; [by eapply IH|]. intros res s' (p' & ready' & g' & Hend). by exists p', ready', g'.
    + eapply wp_mono; [by eapply IH; [..|left]|].
      intros res s' (p' & ready' & g' & -> & Hs' & Hg' & Hw). exists p', ready', g'.
      split_and!; [done..|unfold noticesOf in *; cbn; lia].
Qed.

(** ** An object that is deleted *)

(** A notification that asks for nothing, or for anything of the object. *)
Definition concerns nt : Prop := wanted nt = None \/ exists rq, asks nt rq.

(** Object and external resource are gone. *)
Definition gone (n : nat) ready (n' : nat) (ready' : gset anyObj) so r : Prop :=
  n' = n /\ ready' = ready /\ so = None /\ r = absent.

Lemma process_delete c ev n ready work I o r t s :
  wired c -> objectRef ev = ref -> eventType ev = Event.Delete -> leaving ref o -> decidable o r t ->
  sys n false ready work I (Some o) r t s ->
  wp (Worker.processItem TypeNormal c (inl ev))
    (fun err s2 => err = None /\ processed (gone n ready) work I t s2) s.
Proof.
  intros Hc Href Hty Hl Hd (q & l & Hat & Hq & HI). eapply wp_keep; [apply adds_processItem; exact sum64|done|].
  eapply wp_mono; [by eapply wp_process_delete|]. intros err s2 [-> Hs2] HI2. split; [done|].
  exists n, ready, None, absent. split; [done|by exists q, l].
Qed.

Lemma process_gone c ev n ready work I t s :
  wired c -> objectRef ev = ref -> sys n false ready work I None absent t s ->
  wp (Worker.processItem TypeNormal c (inl ev))
    (fun err s2 => err = None /\ processed (gone n ready) work I t s2) s.
Proof.
  intros Hc Href (q & l & Hat & Hq & HI). eapply wp_keep; [apply adds_processItem; exact sum64|done|].
  eapply wp_mono; [by eapply wp_process_gone|]. intros err s2 [-> Hs2] HI2. split; [done|].
  exists n, ready, None, absent. split; [done|by exists q, l].
Qed.

(** A system without the object, whose queue holds events that are about it, with room for [b] more. *)
Definition over (b : nat) (parked : bool) ready s : Prop := exists n I t,
  (b <= n)%nat /\ sys n parked ready ∅ I None absent t s /\ remembered ready I /\
  (forall k, k ∈ ready -> exists ev, k = inl ev /\ objectRef ev = ref).

Lemma turn_over c b parked ready s :
  wired c -> over b parked ready s ->
  wp (turn parked c) (fun res s' =>
    (ready = ∅ /\ res = Some true /\ over b true ∅ s') \/
    (res = Some false /\ exists k, k ∈ ready /\ over b false (ready ∖ {[ k ]}) s')) s.
Proof.
  intros Hc (n & I & t & Hn & Hs & HI & Hk).
  eapply (wp_turn c parked (fun ev => gone n (ready ∖ {[ inl ev ]}))); [exact Hs| | | |].
  - intros k Hr. destruct (Hk k Hr) as (ev & -> & _). by exists ev.
  - intros -> s' Hs'. left. split_and!; [done..|]. by exists n, I, t.
  - intros ev s' Hev Hs'. destruct (Hk _ Hev) as (? & [= <-] & Href). by eapply process_gone.
  - intros ev s' Hev (n' & rd & so & r' & (-> & -> & -> & ->) & Hs'). right. split; [done|].
    exists (inl ev). split; [done|]. exists n, (I ∖ {[ DigestForEvent sum64 ev ]}), t.
    split_and!; [done|done|by eapply remembered_served|]. intros k Hr. apply Hk. set_solver.
Qed.

Lemma runWorker_over fuel : forall c b parked ready s,
  wired c -> over b parked ready s -> (size ready < fuel)%nat ->
  wp (runWorker fuel parked c) (fun waits s' => waits = true /\ over b true ∅ s') s.
Proof.
  induction fuel as [|fuel IH]; intros c b parked ready s Hc Hs Hw; [lia|]. cbn [runWorker].
  apply wp_bind. eapply wp_mono; [by apply turn_over|].
  intros res s' [(-> & -> & Hs')|(-> & k & Hk & Hs')]; [by apply wp_ret|].
  rewrite (size_served _ _ Hk) in Hw. eapply IH; [done|exact Hs'|lia].
Qed.

(** The events of a system without the object come from its notifications. *)
Lemma handler_over nt b parked ready s :
  concerns nt -> over (S b) parked ready s ->
  wp (handler nt) (fun _ s' => exists ready', (size ready' <= S (size ready))%nat /\ over b parked ready' s') s.
Proof.
  intros [Hnone|(rq & Hask)] (n & I & t & Hn & Hs & HI & Hk).
  { apply handler_none; [done|]. exists ready. split; [lia|]. exists n, I, t. by split_and!; [lia|..]. }
  destruct n as [|n]; [lia|]. eapply sys_handler; [exact Hask|exact HI|exact Hs| |].
  - intros ev s' Hev Hs'. exists ready. split; [lia|]. exists (S n), I, t. by split_and!; [lia|..].
  - intros tm I' s' ev HI' Hs'. exists ({[ inl ev ]} ∪ ready). split; [apply size_add_le|]. exists n, I', t.
    split_and!; [lia|done..|]. intros k [->%elem_of_singleton|Hr]%elem_of_union; [by exists ev|by apply Hk].
Qed.

(** One notification, and the worker until it waits. *)
Lemma follow_over c nt b parked s :
  wired c -> concerns nt -> over (S b) parked ∅ s ->
  wp (handler nt;; runWorker 3 parked c) (fun waits s' => waits = true /\ over b true ∅ s') s.
Proof.
  intros Hc Hnt Hs. apply wp_bind. eapply wp_mono; [by eapply handler_over|].
  intros ? s' (ready & Hw & Hs'). rewrite size_empty in Hw. eapply runWorker_over; [done|exact Hs'|lia].
Qed.

Lemma follow_gone c ns : forall s,
  wired c -> Forall concerns ns -> over (length ns) true ∅ s ->
  wp (follow 3 c true ns) (rests removed) s.
Proof.
  induction ns as [|nt ns IH]; intros s Hc Hns Hs.
  - destruct Hs as (n & I & t & _ & Hs & ->%remembered_none & _). apply wp_ret. split; [done|].
    split; [eexists; by eapply sys_idle|]. destruct Hs as (q & ev & Hat & _ & _). split; apply Hat.
  - apply Forall_cons in Hns as [Hnt Hns].
    apply (follow_cons _ _ _ _ (over (length ns) true ∅)); [by apply follow_over|by intros s'; apply IH].
Qed.

(** The notification of the deletion. *)
Lemma follow_delete c nt rq b parked o s :
  wired c -> asks nt rq -> what rq = Event.Delete -> idle (S b) parked s ->
  storedObject (env s) = Some o -> leaving ref o ->
  decidable o (Cooperation.resource (env s)) (lastTime (env s)) ->
  wp (handler nt;; runWorker 3 parked c) (fun waits s' => waits = true /\ over b true ∅ s') s.
Proof.
  intros Hc Hask Hty Hs%idle_sys Ho Hl Hdec. rewrite Ho in Hs.
  apply wp_bind. eapply (sys_handler nt rq b parked ∅ ∅); [done|done|exact Hs|set_solver|].
  intros tm I' s1 ev HI' Hs1. rewrite union_empty_r_L in HI', Hs1. cbn [runWorker].
  apply wp_bind. eapply (wp_turn c parked (fun ev => gone b ∅)); [exact Hs1| |set_solver| |].
  - intros k ->%elem_of_singleton. by exists ev.
  - intros ev' s2 [= ->]%elem_of_singleton Hs2. rewrite difference_diag_L in Hs2. by eapply process_delete.
  - intros ev' s2 [= ->]%elem_of_singleton (n' & rd & so & r' & (-> & -> & -> & ->) & Hs2).
    eapply (runWorker_over 2); [done| |by rewrite size_empty; lia].
    exists b, (I' ∖ {[ DigestForEvent sum64 ev ]}), (lastTime (env s)).
    split_and!; [done|exact Hs2|eapply remembered_served; [|exact HI']; set_solver|set_solver].
Qed.

(** ** The theorems *)

(** An idle system is told of a live object, by any notification that asks for it to be looked at, and
    then of any more changes that ask for no more than that.  Each time the event goes from the informer
    through the queue to the worker, and what its processing queues goes there too; at the end the
    worker waits, the queue holds nothing, no key is locked, no digest is remembered, and the object
    is in order. *)
Theorem notifications_converge c parked nt rq ns o s :
  wired c -> idle (2 * length (nt :: ns)) parked s ->
  asks nt rq -> reconciling (ResourceExists (Cooperation.resource (env s)) = true) rq ->
  Forall (reconciles True) ns ->
  storedObject (env s) = Some o -> live ref o ->
  decidable o (Cooperation.resource (env s)) (lastTime (env s)) ->
  exists s' waits, follow 3 c parked (nt :: ns) s = (s', Ret waits) /\ rests (converged ref) waits s'.
Proof.
  intros Hc Hidle Hask Hrq Hns Ho Hl Hdec.
  assert (Hwp : wp (follow 3 c parked (nt :: ns)) (rests (converged ref)) s).
  { apply (follow_cons _ _ _ _ (busy (2 * length ns) True True true ∅)); [|by intros s'; apply follow_rest].
    eapply (follow_one c nt (2 * length ns) _ False); [done|right; by exists rq| |].
    - intros Hn. destruct Hask as [Hw _]. by rewrite Hn in Hw.
    - eapply busy_fewer; [|by eapply (idle_busy _ (ResourceExists (Cooperation.resource (env s)) = true))].
      cbn [length]. lia. }
  destruct Hwp as (w & s' & Ew & Hrest). by exists s', w.
Qed.



End Run.
End Lifecycle.
