(* ===== verification/Recovery.v ===== *)
(** * After an outage

    File Lifecycle starts from a system that is idle and surroundings that cooperate.  Here the surroundings
    may first do as they please: calls fail, objects and resources change between calls and behind the
    controller's back, the clock shows anything.  What the handlers and the worker rely on is kept all the
    same: each digest that is remembered is that of an event in the queue, so that no notification is dropped
    for an event that is not there.  When the surroundings then cooperate and the backoffs have passed, the
    worker gets through what it was left with and the object is in order. *)

From S2P Require Import Prelude GoTime Errors Meta Event PriorityQueue QueueInstr QueueLaws.
From S2P Require Import Conditions Runtime Worker WorkerFacts Cooperation Convergence.
From S2P Require Import Serving Controller Threads Backlog Lifecycle.
Import GoTime Errors Event Runtime Unstructured Cooperation Convergence Controller WorkerFacts Threads Backlog Lifecycle.

Module Recovery.

Section Recovery.
Context {E O GVR Q : Type} (informerQueue : WorkQueue anyObj Q) `{!MetaObject O, !UnstructuredObject O}
  `{!WorkQueue anyObj Q, !QueueSafe anyObj Q, !GetQueue anyObj Q, !ServingQueue anyObj Q}.
Context `{!SharedQueue anyObj Q informerQueue}.
Context {Spec : Type} (NestedSpec : O -> error + option Spec)
  (cmpDiff : option Spec -> option Spec -> string).
Context (TypeNormal : string) (sum64 : string -> Z).
Context (actionsEvent : ActionsEvent) (watchAnnotations : AnnotationEvents).
Implicit Types (c : ControllerT GVR) (s : St E Q O) (ready work : gset anyObj) (I : gset string).

(** ** Trouble *)

(** A step in surroundings [W] of any kind, which may be others at the next step: anything happens to the
    cluster; a notification; a turn of the worker's loop.  Trace ids can be made. *)
Inductive trouble c : bool * St E Q O -> bool * St E Q O -> Prop :=
| outside parked s e : trouble c (parked, s) (parked, mkSt e (queue s) (items s) (trace s))
| notified (W : World E O GVR) nt parked s s' :
    Threads.handler (World0 := W) (WorkQueue0 := informerQueue) NestedSpec cmpDiff sum64 actionsEvent
      watchAnnotations nt s = (s', Ret tt) ->
    trouble c (parked, s) (parked, s')
| turned (W : World E O GVR) parked parked' s s' :
    (forall e, (@wShortid _ _ _ W e).1 = None) ->
    turn (World0 := W) TypeNormal sum64 parked c s = (s', Ret (Some parked')) ->
    trouble c (parked, s) (parked', s').

(** What is kept, of the queue, the worker's keys and the digests. *)
Definition keeps (b : nat) (parked : bool) ready work (q : Q) : Prop :=
  events ready /\ exists n due, qHolds n parked due ready work q /\ (b + size ready <= n)%nat.

Lemma events_add ev ready : events ready -> events ({[ inl ev ]} ∪ ready).
Proof. intros He k [->%elem_of_singleton|Hk]%elem_of_union; [by exists ev|by apply He]. Qed.

(** An addition by any way to the queue. *)
Lemma keeps_add (via : WorkQueue anyObj Q) `{!SharedQueue anyObj Q via} b parked ready work t o ev q q' :
  keeps (2 + b) parked ready work q -> @qAddWithOpts _ _ via t o [inl ev] q = Ret q' ->
  keeps b parked ({[ inl ev ]} ∪ ready) work q'.
Proof.
  intros (He & n & due & Hq & Hn) Ea. destruct n as [|n]; [lia|].
  destruct (shared_add (via := via) n parked due ready work t o (inl ev) q Hq) as (q2 & due' & Ea' & _ & _ & Hq').
  rewrite Ea in Ea'. injection Ea' as <-. split; [by apply events_add|]. exists n, due'. split; [done|].
  pose proof (size_add_le (inl ev) ready). lia.
Qed.

Lemma keeps_fewer b b' parked ready work q : (b <= b')%nat -> keeps b' parked ready work q -> keeps b parked ready work q.
Proof. intros Hb (He & n & due & Hq & Hn). split; [done|]. exists n, due. split; [done|lia]. Qed.

Lemma keeps_added b parked ready work q q' :
  keeps (2 + b) parked ready work q -> bsteps added 1 q q' ->
  exists ready', ready ⊆ ready' /\ keeps b parked ready' work q'.
Proof.
  intros Hk Hq. inversion Hq as [|? ? q1 ? (t & o & ev & Ea) Hrest]; subst.
  { exists ready. split; [done|]. eapply keeps_fewer; [|exact Hk]. lia. }
  inversion Hrest; subst. exists ({[ inl ev ]} ∪ ready). split; [set_solver|].
  eapply (keeps_add WorkQueue0); [exact Hk|exact Ea].
Qed.

(** A key that is served. *)
Lemma size_served_le k ready : (size (ready ∖ {[ k ]}) <= size ready)%nat.
Proof. apply subseteq_size. set_solver. Qed.

Lemma keeps_served b parked ready t q :
  keeps b parked ready ∅ q ->
  ((qServe parked t q).2 = Waits /\ keeps b true ready ∅ (qServe parked t q).1) \/
  (exists ev p, (qServe parked t q).2 = Got (inl ev) p /\
     keeps b false (ready ∖ {[ inl ev ]}) {[ inl ev ]} (qServe parked t q).1).
Proof.
  intros (He & n & due & Hq & Hn).
  destruct (holds_serve n parked due ready ∅ t q Hq) as [[Ea Hq']|(k & p & Ea & Hk & _ & Hq')].
  - left. split; [done|]. split; [done|]. by exists n, due.
  - right. destruct (He k Hk) as [ev ->]. exists ev, p. split; [done|]. rewrite union_empty_r_L in Hq'.
    split; [intros k' Hk'; apply He; set_solver|]. exists n, due. split; [done|].
    pose proof (size_served_le (inl ev) ready). lia.
Qed.

(** ** The accesses of a thread that gets to its end *)

Section Accesses.
Context (via : WorkQueue anyObj Q).
Implicit Types (q : Q) (its : gset string) (x : Q * gset string).

Definition ends (th : thread) x x' : Prop := rtc (tstep (WorkQueue0 := via)) (th, x) (TEnd, x').

#[local] Ltac first_access :=
  let H := fresh in
  intros H; inversion H as [|? [? ?] ? Hst ?]; subst; inversion Hst; subst; by eauto.

Lemma ends_end x x' : ends TEnd x x' -> x' = x.
Proof. intros H. inversion H as [|? [? ?] ? Hst]; subst; [done|inversion Hst]. Qed.
Lemma ends_now k x x' : ends (TNow k) x x' -> exists t, ends (k t) x x'.
Proof. first_access. Qed.
Lemma ends_loadOrStore dig k q its x' :
  ends (TLoadOrStore dig k) (q, its) x' -> ends (k (bool_decide (dig ∈ its))) (q, {[ dig ]} ∪ its) x'.
Proof. first_access. Qed.
Lemma ends_load dig k q its x' :
  ends (TLoad dig k) (q, its) x' -> ends (k (bool_decide (dig ∈ its))) (q, its) x'.
Proof. first_access. Qed.
Lemma ends_store dig k q its x' : ends (TStore dig k) (q, its) x' -> ends k (q, {[ dig ]} ∪ its) x'.
Proof. first_access. Qed.
Lemma ends_delete dig k q its x' : ends (TDelete dig k) (q, its) x' -> ends k (q, its ∖ {[ dig ]}) x'.
Proof. first_access. Qed.
Lemma ends_add opts obj k q its x' : ends (TAdd opts obj k) (q, its) x' ->
  exists t q', qAddWithOpts t opts [obj] q = Ret q' /\ ends k (q', its) x'.
Proof. first_access. Qed.
Lemma ends_forget obj k q its x' : ends (TForget obj k) (q, its) x' ->
  exists t, ends k (qForget t obj q, its) x'.
Proof. first_access. Qed.
Lemma ends_done obj k q its x' : ends (TDone obj k) (q, its) x' -> exists t, ends k (qDone t obj q, its) x'.
Proof. first_access. Qed.
Lemma ends_num obj k q its x' : ends (TNumRequeues obj k) (q, its) x' ->
  ends (k (qNumRequeues obj q)) (q, its) x'.
Proof. first_access. Qed.

End Accesses.

(** ** The parts of a step *)

(** The queue, and the digests that go with it, with room for [b]. *)
Definition sound (b : nat) (parked : bool) work (x : Q * gset string) : Prop :=
  exists ready, keeps b parked ready work x.1 /\ remembered sum64 ready x.2.

Definition disturbed (b : nat) (parked : bool) s : Prop := sound b parked ∅ (queue s, items s).

Lemma sound_fewer b b' parked work x : (b <= b')%nat -> sound b' parked work x -> sound b parked work x.
Proof. intros Hb (ready & Hk & HI). exists ready. split; [by eapply keeps_fewer|done]. Qed.

(** A digest that is there has its event in the queue; one that is new is followed by its event. *)
Lemma request_sound (rq : request (O := O)) b parked x x' :
  sound (2 + b) parked ∅ x -> ends informerQueue (tRequest sum64 rq (fun _ => TEnd)) x x' ->
  sound b parked ∅ x'.
Proof.
  destruct x as [q its]. intros (ready & Hk & HI) [tm Hr]%ends_now. cbn in Hk, HI.
  set (ev := mkEvent (what rq) (Worker.refOf (whom rq)) tm) in *.
  assert (Hadd : forall its1, remembered sum64 ({[ inl ev ]} ∪ ready) its1 ->
    ends informerQueue (tAdd (PriorityQueue.mkAddOpts 0 false (urgency rq)) (inl ev) (fun _ => TEnd)) (q, its1) x' ->
    sound b parked ∅ x').
  { intros its1 HI1 (t & q1 & Ea & ->%ends_end)%ends_add. exists ({[ inl ev ]} ∪ ready). split; [|done].
    by eapply (keeps_add informerQueue). }
  destruct (once rq); [|by apply (Hadd its), Hr; apply (remembered_more ready); [set_solver|]].
  unfold tLoadOrStore, mbind, Th_bind in Hr. apply ends_loadOrStore in Hr. case_bool_decide as Hd.
  - apply ends_end in Hr as ->. exists ready. split; [by eapply (keeps_fewer _ (2 + b)); [lia|]|].
    cbn [snd]. by rewrite subseteq_union_1_L by by apply singleton_subseteq_l.
  - by apply (Hadd _ (remembered_event ready its ev HI)).
Qed.

Lemma keeps_done b parked ready work t k q :
  keeps b parked ready work q -> keeps b parked ready (work ∖ {[ k ]}) (qDone t k q).
Proof. intros (He & n & due & Hq & Hn). split; [done|]. exists n, due. split; [by apply holds_done|done]. Qed.

Lemma keeps_forget b parked ready work t k q :
  keeps b parked ready work q -> keeps b parked ready work (qForget t k q).
Proof. intros (He & n & due & Hq & Hn). split; [done|]. exists n, due. split; [by apply holds_forget|done]. Qed.

(** A retry stores the digest of the event it adds. *)
Lemma retry_sound maxRetries err ev p b parked x x' :
  sound (2 + b) parked ∅ x ->
  ends WorkQueue0 (tHandleErr sum64 maxRetries err ev p (fun _ => TEnd)) x x' -> sound b parked ∅ x'.
Proof.
  intros Hx. assert (Hend : sound b parked ∅ x).
  { by eapply (sound_fewer _ (2 + b)); [lia|]. }
  destruct x as [q its], err as [err|]; [|by intros ->%ends_end].
  unfold tHandleErr, tNumRequeues, mbind, Th_bind. intros Hr%ends_num.
  destruct (maxRetries <=? qNumRequeues (inl ev) q); [by apply ends_end in Hr as ->|].
  assert (Hagain : forall again, DigestForEvent sum64 again = DigestForEvent sum64 ev ->
    ends WorkQueue0 (tLoad (DigestForEvent sum64 again) (fun loaded : bool => (if loaded then mret tt else
      tStore (DigestForEvent sum64 again);; tAdd (PriorityQueue.mkAddOpts 0 true p) (inl ev)) (fun _ => TEnd)))
      (q, its) x' -> sound b parked ∅ x').
  { intros again -> Hl%ends_load. case_bool_decide; [by apply ends_end in Hl as ->|].
    apply ends_store, ends_add in Hl as (t & q1 & Ea & ->%ends_end). destruct Hx as (ready & Hk & HI).
    exists ({[ inl ev ]} ∪ ready). split; [by eapply (keeps_add WorkQueue0)|by apply remembered_event]. }
  destruct (IsZero (QueuedAt ev)); [apply ends_now in Hr as [t Hr]|exact (Hagain ev eq_refl Hr)].
  by apply (Hagain (mkEvent (eventType ev) (objectRef ev) t)); [unfold DigestForEvent|exact Hr].
Qed.

(** The end of an iteration takes the digest of its event away, then the key. *)
Lemma finish_sound maxRetries err ev p b ready q its x' :
  keeps (2 + b) false ready {[ inl ev ]} q -> remembered sum64 ({[ inl ev ]} ∪ ready) its ->
  ends WorkQueue0 (tFinish sum64 maxRetries ev p err (fun _ => TEnd)) (q, its) x' -> sound b false ∅ x'.
Proof.
  intros Hk HI Hr. apply ends_delete, ends_forget in Hr as [t1 [t2 Hr]%ends_done].
  apply (retry_sound maxRetries err ev p b false _ x') in Hr; [done|]. exists ready. split.
  - cbn. rewrite <- (difference_diag_L {[ inl ev : anyObj ]}). by apply keeps_done, keeps_forget.
  - by eapply remembered_served; [|exact HI]; set_solver.
Qed.

(** The informer's handler. *)
Lemma handler_disturbed `{!World E O GVR} nt b parked s s' :
  disturbed (2 + b) parked s ->
  Threads.handler (WorkQueue0 := informerQueue) NestedSpec cmpDiff sum64 actionsEvent watchAnnotations nt s =
    (s', Ret tt) ->
  disturbed b parked s'.
Proof.
  intros Hs. rewrite handler_wanted. destruct (wanted _ _ _ _ nt) as [rq|].
  - intros Hr. apply (sim_request sum64 rq s s' tt (fun _ => TEnd)) in Hr.
    by apply (request_sound rq b parked _ (queue s', items s')) in Hr.
  - intros [= <-]. by eapply (sound_fewer _ (2 + b)); [lia|].
Qed.

(** An iteration of the worker's loop whose key was just served. *)
Lemma iteration_disturbed `{!World E O GVR} c ev p b ready s s' :
  (forall e, (wShortid (World := World0) e).1 = None) ->
  keeps (4 + b) false ready {[ inl ev ]} (queue s) -> remembered sum64 ({[ inl ev ]} ∪ ready) (items s) ->
  Worker.reconcileEvent TypeNormal sum64 c ev p s = (s', Ret tt) -> disturbed b false s'.
Proof.
  intros Hid Hk HI [(s1 & err & Hq & Ei & Hf)|[Hleak _]]%iteration_splits; [|rewrite Hid in Hleak; by destruct Hleak].
  destruct (keeps_added (2 + b) _ _ _ _ _ Hk Hq) as (ready' & Hsub & Hk').
  apply (finish_as_thread sum64 c ev p err s1 s' tt (fun _ => TEnd)) in Hf.
  apply (finish_sound (maxRetries c) err ev p b ready' _ _ (queue s', items s')) in Hf; [done|done|].
  rewrite Ei. eapply remembered_more; [|exact HI]. set_solver.
Qed.

Lemma turn_disturbed `{!World E O GVR} c b parked parked' s s' :
  (forall e, (wShortid (World := World0) e).1 = None) -> disturbed (4 + b) parked s ->
  turn TypeNormal sum64 parked c s = (s', Ret (Some parked')) -> disturbed b parked' s'.
Proof.
  intros Hid (ready & Hk & HI) (s1 & a & Ea & Hr)%M_bind_inv.
  apply M_bind_inv in Ea as (s0 & tm & E0 & Ea). unfold now in E0. rewrite lift_run in E0.
  injection E0 as <- <-. revert Ea. unfold answerAt. cbn [queue env items trace].
  destruct (keeps_served (4 + b) parked ready (wNow (env s)).1 (queue s) Hk) as [[Es Hk']|(ev & p & Es & Hk')];
    destruct (qServe parked _ (queue s)) as [q a']; cbn in Es, Hk'; subst a'; intros [= <- <-].
  - injection Hr as <- <-. exists ready. split; [|done]. eapply keeps_fewer; [|exact Hk']. lia.
  - apply M_bind_inv in Hr as (s2 & go & Hr & Hgo). cbn in Hr.
    apply M_bind_inv in Hr as (s3 & [] & Hr & [= <- <-]). injection Hgo as <- <-.
    eapply iteration_disturbed; [exact Hid| | |exact Hr]; [exact Hk'|].
    cbn [items]. eapply remembered_more; [|exact HI]. intros k Hk1. destruct (decide (k = inl ev)); set_solver.
Qed.

(** Each step takes what four additions take at most. *)
Lemma trouble_disturbed c b x y :
  trouble c x y -> disturbed (4 + b) x.1 x.2 -> disturbed b y.1 y.2.
Proof.
  intros Hst Hs. destruct Hst as [parked s e|W nt parked s s' Hr|W parked parked' s s' Hid Hr]; cbn in *.
  - by eapply (sound_fewer _ (4 + b)); [lia|].
  - eapply handler_disturbed; [|exact Hr]. by eapply (sound_fewer _ (4 + b)); [lia|].
  - by eapply turn_disturbed.
Qed.

Lemma troubles_disturbed c k : forall b x y,
  nsteps (trouble c) k x y -> disturbed (4 * k + b) x.1 x.2 -> disturbed b y.1 y.2.
Proof.
  induction k as [|k IH]; intros b x y Hst Hs; inversion Hst as [|? ? z ? Hx Hy]; subst; [done|].
  apply (IH b z y Hy). apply (trouble_disturbed c _ x z Hx).
  by replace (4 + (4 * k + b))%nat with (4 * S k + b)%nat by lia.
Qed.

(** ** Afterwards *)

Context `{!MetaObjectLaws O, !UnstructuredLaws O, !ObjectLaws O, !World E O GVR, !ClusterView E O}.
Context (ref : ObjectRef) `{!Cooperative E O GVR ref}.

(** The state when the surroundings have become [e]. *)
Definition within (e : E) s : St E Q O := mkSt e (queue s) (items s) (trace s).

(** What is left when the trouble is over, once its delays are: a backlog of the object's events. *)
Lemma disturbed_busy b parked s :
  disturbed b parked s -> (exists due, qDue due (queue s)) /\ forall (e : E) (o : O) (x : Prop),
    qDue (lastTime e) (queue s) -> storedObject e = Some o -> live ref o -> decidable o (Cooperation.resource e) (lastTime e) ->
    (forall k, k ∈ qKeys (queue s) -> timely ref (Cooperation.resource e) k) ->
    (x -> ResourceExists (Cooperation.resource e) = true) ->
    busy ref sum64 b x (qKeys (queue s) <> ∅) parked (qKeys (queue s)) (within e s).
Proof.
  intros (ready & (_ & n & due & Hq & Hn) & HI).
  split; [exists due; by eapply holds_due|]. intros e o x Hdue Ho Hl Hd Ht Hx.
  pose proof (holds_keys _ _ _ _ _ _ Hq) as Ek. cbn in Ek, Hq, HI. rewrite Ek in *.
  exists n, (items s), o, (Cooperation.resource e), (lastTime e). split_and!; [|done..| |done|].
  - exists (queue s), (enqueued (trace s)). split_and!; [by split| |done]. by eapply holds_by.
  - pose proof (observations_le ready). lia.
  - by intros Hne.
Qed.


End Recovery.
End Recovery.
