(* ===== verification/Assembly.v ===== *)
(** * pkg/controller/controller.go: the controller that [New] assembles

    The queue of a controller is the priority queue itself, or, with telemetry, the instrumented queue
    around it; the informer's handlers have kept the priority queue in either case.  The two ways to the
    one queue are two instances of [WorkQueue], and what file Lifecycle shows of a queue and its informer
    holds of them. *)

From S2P Require Import Prelude GoTime Errors Meta Event RateLimiter BTree PriorityQueue.
From S2P Require Import PriorityQueueFacts QueueInstr QueueLaws Conditions Runtime Cooperation.
From S2P Require Import Controller Threads Serving Lifecycle.
Import GoTime Errors Event PriorityQueue Runtime Instrumented Controller Threads.

Module Assembly.

(** ** The queue *)

Section Queue.
Context {T Q : Type} `{Countable T} `{!WorkQueue T Q}.

(** [finalQueue] *)
Inductive finalQueue : Type :=
| Bare (queue : Q)
| Wrapped (iq : InstrumentedQueue T Q).

(** The priority queue the informer's handlers refer to, and the calls they make of it. *)
Definition bare (fq : finalQueue) : Q := match fq with Bare q => q | Wrapped iq => inner iq end.

Definition withBare (fq : finalQueue) (q : Q) : finalQueue :=
  match fq with Bare _ => Bare q | Wrapped iq => Wrapped (withInner iq q) end.

Definition onBare (f : Q -> outcome Q) (fq : finalQueue) : outcome finalQueue :=
  q ← f (bare fq); Ret (withBare fq q).

Definition informerQueue : WorkQueue T finalQueue := {|
  qAdd t k := onBare (qAdd t k);
  qAddWithOpts t o ks := onBare (qAddWithOpts t o ks);
  qAddAfter t k d := onBare (qAddAfter t k d);
  qAddRateLimited t k := onBare (qAddRateLimited t k);
  qDone t k fq := withBare fq (qDone t k (bare fq));
  qForget t k fq := withBare fq (qForget t k (bare fq));
  qNumRequeues k fq := qNumRequeues k (bare fq);
  qLen t fq := qLen t (bare fq);
  qShuttingDown fq := qShuttingDown (bare fq);
  qShutDown := onBare qShutDown;
  qShutDownWithDrain := onBare qShutDownWithDrain
|}.

(** The methods of [finalQueue]. *)
Definition dispatch (f : Q -> outcome Q) (g : InstrumentedQueue T Q -> outcome (InstrumentedQueue T Q))
  (fq : finalQueue) : outcome finalQueue :=
  match fq with
  | Bare q => q ← f q; Ret (Bare q)
  | Wrapped iq => iq ← g iq; Ret (Wrapped iq)
  end.

#[export] Instance finalQueue_WorkQueue : WorkQueue T finalQueue := {|
  qAdd t k := dispatch (qAdd t k) (Add t k);
  qAddWithOpts t o ks := dispatch (qAddWithOpts t o ks) (AddWithOpts t o ks);
  qAddAfter t k d := dispatch (qAddAfter t k d) (AddAfter t k d);
  qAddRateLimited t k := dispatch (qAddRateLimited t k) (AddRateLimited t k);
  qDone t k fq := match fq with Bare q => Bare (qDone t k q) | Wrapped iq => Wrapped (Done t k iq) end;
  qForget t k fq := match fq with Bare q => Bare (qForget t k q) | Wrapped iq => Wrapped (Forget t k iq) end;
  qNumRequeues k fq := match fq with Bare q => qNumRequeues k q | Wrapped iq => NumRequeues k iq end;
  qLen t fq := match fq with Bare q => qLen t q | Wrapped iq => Len t iq end;
  qShuttingDown fq := match fq with Bare q => qShuttingDown q | Wrapped iq => ShuttingDown iq end;
  qShutDown := dispatch qShutDown ShutDown;
  qShutDownWithDrain := dispatch qShutDownWithDrain ShutDownWithDrain
|}.

(** GetWithPriority of the wrapper is the wrapped one, then a note of what it gave. *)
#[export] Instance finalQueue_GetQueue `{!GetQueue T Q} : GetQueue T finalQueue := {|
  qServe parked t fq :=
    let '(q, a) := qServe parked t (bare fq) in
    (match withBare fq q, a with
     | Wrapped iq, Got k p => Wrapped (GetWithPriority (k, p, false) iq).1
     | fq, _ => fq
     end, a)
|}.

Lemma bare_with fq q : bare (withBare fq q) = q.
Proof. by destruct fq. Qed.

Lemma enqueue_all_inner t ks (iq : InstrumentedQueue T Q) :
  inner (foldl (fun iq k => recordEnqueueAt t k iq) iq ks) = inner iq.
Proof.
  revert iq. induction ks as [|k ks IH]; intros iq; [done|]. cbn [foldl]. by rewrite IH, recordEnqueueAt_inner.
Qed.

(** An addition through the wrapper is one to the priority queue. *)
Lemma bare_add t o ks fq q :
  qAddWithOpts t o ks (bare fq) = Ret q -> exists fq', qAddWithOpts t o ks fq = Ret fq' /\ bare fq' = q.
Proof.
  intros Ea. destruct fq as [q0|iq]; cbn in *; [rewrite Ea; by eexists|].
  unfold AddWithOpts. rewrite enqueue_all_inner, Ea. by eexists.
Qed.

Lemma bare_done t k fq : bare (qDone t k fq) = qDone t k (bare fq).
Proof. by destruct fq. Qed.

Lemma bare_forget t k fq : bare (qForget t k fq) = qForget t k (bare fq).
Proof. by destruct fq. Qed.

Lemma bare_serve `{!GetQueue T Q} parked t fq :
  bare (qServe parked t fq).1 = (qServe parked t (bare fq)).1 /\
  (qServe parked t fq).2 = (qServe parked t (bare fq)).2.
Proof.
  cbn. destruct (qServe parked t (bare fq)) as [q a]. split; [|done].
  destruct fq as [q0|iq], a as [| |k p]; try done. cbn. by rewrite recordDequeueAt_inner.
Qed.

#[export] Instance finalQueue_QueueSafe `{!QueueSafe T Q} : QueueSafe T finalQueue.
Proof.
  refine {| qOk fq := qOk (bare fq) |}.
  - intros t k fq Hq. rewrite bare_done. by apply qOk_done.
  - intros t k fq Hq. rewrite bare_forget. by apply qOk_forget.
  - intros t o k fq Hq. destruct (qAdd_returns t o k _ Hq) as [q' Ea].
    destruct (bare_add t o [k] fq q' Ea) as (fq' & Ef & _). by exists fq'.
Defined.

#[export] Instance finalQueue_Forgetful `{!ForgetfulQueue T Q} : ForgetfulQueue T finalQueue.
Proof.
  split; intros; destruct q; cbn; try apply qNumRequeues_forget; try apply qNumRequeues_done.
Qed.

#[export] Instance finalQueue_ServingQueue `{!QueueSafe T Q, !GetQueue T Q, !ServingQueue T Q} :
  ServingQueue T finalQueue.
Proof.
  refine {| qKeys fq := qKeys (bare fq); qDue due fq := qDue due (bare fq);
            qHolds n parked due ready work fq := qHolds n parked due ready work (bare fq) |}.
  - intros n parked due ready work fq. apply (holds_ok (Q := Q)).
  - intros n parked due ready work fq. apply (holds_keys (Q := Q)).
  - intros n parked due due' ready work fq. apply (holds_later (Q := Q)).
  - intros n parked due ready work fq. apply (holds_due (Q := Q)).
  - intros n parked due due' ready work fq. apply (holds_by (Q := Q)).
  - intros n parked due ready work t o k fq Hq.
    destruct (holds_add n parked due ready work t o k (bare fq) Hq) as (q' & due' & Ea & Hle & Him & Hq').
    destruct (bare_add t o [k] fq q' Ea) as (fq' & Ef & <-). by exists fq', due'.
  - intros n parked due ready work t k fq Hq. rewrite bare_done. by apply holds_done.
  - intros n parked due ready work t k fq Hq. rewrite bare_forget. by apply holds_forget.
  - intros n parked due ready work t fq Hq. destruct (bare_serve parked t fq) as [-> ->].
    by apply holds_serve.
  - intros n parked due ready work t fq Hq Hdue Hsub. destruct (bare_serve parked t fq) as [_ ->].
    by apply (holds_prompt n parked due ready work).
Defined.

(** The informer's way to the queue and the controller's lead to one queue. *)
#[export] Instance informer_shares `{!QueueSafe T Q, !GetQueue T Q, !ServingQueue T Q} :
  SharedQueue T finalQueue informerQueue.
Proof.
  split. intros n parked due ready work t o k fq Hq.
  destruct (holds_add n parked due ready work t o k (bare fq) Hq) as (q' & due' & Ea & Hle & Him & Hq').
  exists (withBare fq q'), due'. cbn. unfold onBare. rewrite Ea. split_and!; [done..|].
  cbn. by rewrite bare_with.
Qed.

End Queue.
Arguments finalQueue T Q {_ _}.

(** ** New *)

Section New.
Context {B R Met GVR : Type} `{!BTree (@less anyObj) B, !BTreeLaws (@less anyObj) B}
  `{!RateLimiter anyObj R, !QueueMetrics anyObj Met}.
#[local] Abbreviation PQ := (PQ anyObj B R Met).

(** The fields of [Controller]; the informer is its handlers, the recorders and the logger are what the
    options give. *)
Record Controller : Type := mkCtl {
  fields : ControllerT GVR;
  queueOf : finalQueue anyObj PQ;
  itemsOf : gset string;
  gracefulShutdownTimeout : Z
}.

(** With the rate limiter of the options and the metrics that the queue's name gives. *)
Definition New (o : Options) (gvr : GVR) (rl : R) (m : Met) (lwErr : option error)
  : outcome (error + Controller) :=
  checked ← NewController o lwErr;
  match checked with
  | inl err => Ret (inl err)
  | inr timeout =>
    let queue : PQ := PriorityQueue.New rl m in
    let final := if oMetrics o then Wrapped (NewInstrumentedQueue queue true) else Bare queue in
    Ret (inr (mkCtl (mkController (oPluralizer o) (oClient o) gvr (oMetrics o) false (oMaxRetries o))
      final ∅ timeout))
  end.

Definition SetExternalClient (ec : bool) (c : Controller) : Controller :=
  let f := fields c in
  mkCtl (mkController (pluralizer f) (dynamicClient f) (gvr f) (Runtime.metrics f) ec (maxRetries f))
    (queueOf c) (itemsOf c) (gracefulShutdownTimeout c).

Definition SetGracefulShutdownTimeout (d : Z) (c : Controller) : Controller :=
  mkCtl (fields c) (queueOf c) (itemsOf c) d.

(** A controller that New returns has its clients once it is given the external one, and is idle, with room
    for as many additions as the counter of its queue can count. *)
Theorem New_idle {E O} `{!Cooperation.ClusterView E O} o gvr rl m lwErr c n (e : E) :
  New o gvr rl m lwErr = Ret (inr c) -> Z.of_nat n < 2 ^ 64 ->
  Cooperation.wired (fields (SetExternalClient true c)) /\
  (forall d, Lifecycle.idle n false (mkSt e (queueOf (SetGracefulShutdownTimeout d c)) (itemsOf c) [] : St E _ O)) /\
  (gracefulShutdownTimeout c = default defaultGracefulShutdownPeriod (oGracefulShutdownTimeout o)).
Proof.
  unfold New, NewController. destruct (validate o) as [err|] eqn:Ev; [by destruct (oLogger o)|].
  destruct lwErr; [done|]. intros [= <-] Hn. split_and!; [|intros d; split; [|done]|done].
  - revert Ev. unfold validate, Cooperation.wired. cbn.
    destruct (oClient o), (oGVREmpty o), (oRecorder o), (oLogger o), (oPluralizer o); naive_solver.
  - cbn. by destruct (oMetrics o); apply New_holds.
Qed.

End New.

(** ** What telemetry sees *)

Section Unseen.
Context {E O GVR Q : Type} `{!MetaObject O, !UnstructuredObject O, !World E O GVR, !WorkQueue anyObj Q}.
Context {Spec : Type} (NestedSpec : O -> error + option Spec)
  (cmpDiff : option Spec -> option Spec -> string).
Context (sum64 : string -> Z) (actionsEvent : ActionsEvent) (watchAnnotations : AnnotationEvents).
Implicit Types (s : St E (finalQueue anyObj Q) O).

(** What the recorder was told, and the keys it knows of. *)
Definition known (fq : finalQueue anyObj Q) : option (list Instrumented.record * gmap anyObj Time) :=
  match fq with Bare _ => None | Wrapped iq => r ← recorder iq; Some (r, enqueuedAt iq) end.

Lemma known_withBare fq q : known (withBare fq q) = known fq.
Proof. by destruct fq. Qed.

Lemma enqueue_unseen opts obj s :
  known (queue (Runtime.enqueue (H2 := informerQueue) opts obj s).1) = known (queue s).
Proof.
  unfold Runtime.enqueue, now, lift, emit, onQueue, mbind, M_bind.
  destruct (wNow (env s)) as [t e]. cbn. unfold onBare.
  destruct (qAddWithOpts t opts [obj] (bare (queue s))) as [q|w]; [|done]. cbn. apply known_withBare.
Qed.

Lemma request_unseen r s :
  known (queue (runRequest (WorkQueue0 := informerQueue) sum64 r s).1) = known (queue s).
Proof.
  unfold runRequest, eventFor, addOnce, addToQueue, loadOrStore, itemsHas, itemsStore, now, lift, emit,
    onItems, mbind, M_bind.
  destruct (wNow (env s)) as [t e]. cbn. destruct (once r); [|by rewrite enqueue_unseen].
  case_bool_decide; [done|]. cbn. by rewrite enqueue_unseen.
Qed.

(** Whatever the informer reports, the recorder of the queue is told nothing and knows of no more keys; and
    a key it does not know of leaves the queue unseen.  So depth and age are those of the events that the
    workers queue themselves. *)
Theorem informer_unseen `{!GetQueue anyObj Q} nt s parked t k p :
  known (queue (handler (WorkQueue0 := informerQueue) NestedSpec cmpDiff sum64 actionsEvent watchAnnotations
    nt s).1) = known (queue s) /\
  ((qServe parked t (queue s)).2 = Got k p ->
   (forall r at_, known (queue s) = Some (r, at_) -> at_ !! k = None) ->
   known (qServe parked t (queue s)).1 = known (queue s)).
Proof.
  split.
  - rewrite handler_wanted. destruct (wanted _ _ _ _ nt) as [r|]; [apply request_unseen|done].
  - cbn. destruct (qServe parked t (bare (queue s))) as [q a]. cbn. intros -> Hk.
    destruct (queue s) as [q0|iq]; [done|]. cbn in *. unfold recordDequeueAt. cbn.
    destruct (recorder iq) as [rs|] eqn:Er.
    + cbn in Hk. rewrite (Hk _ _ eq_refl). cbn. by rewrite Er.
    + destruct (enqueuedAt iq !! k); cbn; by rewrite ?Er.
Qed.

End Unseen.
End Assembly.
