(* ===== verification/InFlight.v ===== *)
(** * The gauge of reconciles in flight

    What a worker does to the gauge over an iteration of its loop, from the telemetry calls in its
    trace, and what the telemetry package makes of such calls. *)

From S2P Require Import Prelude GoTime Errors Meta Event QueueInstr Conditions Runtime Worker.
From S2P Require Import WorkerFacts Threads Telemetry.
Import GoTime Errors Event Runtime WorkerFacts Threads.

Module InFlight.

Create HintDb level.

Section InFlight.
Context {E O GVR Q : Type} `{!MetaObject O} `{!UnstructuredObject O} `{!World E O GVR}
  `{!WorkQueue anyObj Q}.
Context (TypeNormal : string) (sum64 : string -> Z).
Implicit Types (c : ControllerT GVR) (s : St E Q O).

(** When [m] returns, it has moved the gauge by [d]. *)
Definition level {A} (d : Z) (m : M E Q O A) : Prop :=
  forall s s' a, m s = (s', Ret a) -> gauge (trace s') = gauge (trace s) + d.

Lemma level_adds {A} (m : M E Q O A) : adds 1 m -> level 0 m.
Proof.
  intros Hm s s' a Em. specialize (Hm s). rewrite Em in Hm. pose proof (calm_gauge _ _ _ Hm) as Eg.
  cbn in Eg. lia.
Qed.

Lemma level_bind {A B} d1 d2 (m : M E Q O A) (f : A -> M E Q O B) :
  level d1 m -> (forall a, level d2 (f a)) -> level (d1 + d2) (m ≫= f).
Proof.
  intros Hm Hf s s' b (s1 & a & Em & Ef)%M_bind_inv. rewrite (Hf a s1 s' b Ef), (Hm s s1 a Em). lia.
Qed.

Lemma level_then {A B} d (m : M E Q O A) (f : A -> M E Q O B) :
  level 0 m -> (forall a, level d (f a)) -> level d (m ≫= f).
Proof. intros Hm Hf. exact (level_bind 0 d m f Hm Hf). Qed.

Lemma level_inFlight c d : level (if metrics c then d else 0) (emitMetric c (AddReconcileInFlight d)).
Proof. intros s s' []. unfold emitMetric. destruct (metrics c); intros [= <-];
    unfold gauge; cbn [trace foldr gaugeOf]; lia. Qed.

Lemma level_run {A} (m : M E Q O A) :
  (forall s, exists e s', m s = (s', Ret e) /\ gauge (trace s') = gauge (trace s)) -> level 0 m.
Proof.
  intros Hm s s' a Em. destruct (Hm s) as (b & s1 & E1 & Eg). rewrite E1 in Em.
  injection Em as <- _. rewrite Eg. lia.
Qed.

Lemma level_itemsDelete dig : level 0 (itemsDelete (Q := Q) dig : M E Q O ()).
Proof. apply level_run. intros s. rewrite itemsDelete_run. by eexists _, _. Qed.
Lemma level_itemsStore dig : level 0 (itemsStore (Q := Q) dig : M E Q O ()).
Proof. apply level_run. intros s. rewrite itemsStore_run. by eexists _, _. Qed.
Lemma level_forget obj : level 0 (queueForget (GVR := GVR) obj : M E Q O ()).
Proof. apply level_run. intros s. destruct (queueForget_run obj s) as [t ->]. by eexists _, _. Qed.
Lemma level_done obj : level 0 (queueDone (GVR := GVR) obj : M E Q O ()).
Proof. apply level_run. intros s. destruct (queueDone_run obj s) as [t ->]. by eexists _, _. Qed.

#[local] Hint Resolve level_itemsDelete level_itemsStore level_forget level_done : level.

Lemma level_handleErr c err ev p : level 0 (Worker.handleErr (E := E) (O := O) sum64 c err ev p).
Proof.
  unfold Worker.handleErr. destruct err as [e|]; [|by apply level_adds, adds_ret].
  apply level_then; [by apply level_run; intros s; eexists _, _|]. intros n.
  destruct (_ <=? _); [by apply level_adds, adds_ret|]. apply level_then.
  { destruct (IsZero _); [apply level_then; [apply level_adds, adds_lift|]; intros t|];
      apply level_adds, adds_ret. }
  intros retryEvent. apply level_then; [by apply level_run; intros s; eexists _, _|]. intros [].
  { by apply level_adds, adds_ret. }
  apply level_then; [auto with level|]. intros _. by apply level_adds, adds_enqueue.
Qed.

Lemma level_reconcileEvent c ev p :
  level 0 (Worker.reconcileEvent (E := E) (O := O) TypeNormal sum64 c ev p).
Proof.
  set (up := if metrics c then 1 else 0).
  assert (Hdown : level (- up) (emitMetric (E := E) (Q := Q) (O := O) c (AddReconcileInFlight (-1)))).
  { pose proof (level_inFlight c (-1)) as Hl. unfold up. by destruct (metrics c). }
  rewrite <- (Z.add_opp_diag_r up).
  apply level_bind; [apply level_inFlight|]. intros _.
  apply level_then; [apply level_adds, adds_lift|]. intros t0. apply level_then.
  { apply level_adds. destruct (IsZero _); [apply adds_ret|by apply adds_emitMetric]. }
  intros _. apply level_then; [apply level_adds, adds_lift|]. intros [e|]; [exact Hdown|].
  apply level_then; [apply level_adds, adds_processItem|]. intros err.
  apply level_then; [apply level_adds, adds_lift|]. intros t1.
  apply level_then; [apply level_adds, adds_reconcileMetrics|]. intros _. unfold Worker.finishEvent.
  do 3 (apply level_then; [auto with level|]; intros _).
  apply level_then; [apply level_handleErr|]. intros _. exact Hdown.
Qed.

(** C36. The balance of an iteration of the worker's loop that returns: whichever way the event goes, the gauge
    of reconciles in flight is where it was before; only an object that is no event takes it down. *)
Theorem gauge_balanced c obj p shutdown s s' b :
  Worker.runWorkerStep TypeNormal sum64 c (obj, p, shutdown) s = (s', Ret b) ->
  gauge (trace s') = gauge (trace s) +
    match obj with
    | inl _ => 0
    | inr _ => if negb shutdown && metrics c then -1 else 0
    end.
Proof.
  unfold Worker.runWorkerStep. destruct shutdown.
  { intros [= <- _]. destruct obj; cbn [negb andb]; lia. }
  destruct obj as [ev|z]; intros Er.
  - assert (Hl : level 0 (Worker.reconcileEvent (E := E) (O := O) TypeNormal sum64 c ev p;; mret true)).
    { apply (level_bind 0 0); [apply level_reconcileEvent|]. intros _. apply level_adds, adds_ret. }
    apply (Hl s s' b Er).
  - assert (Hl : level (if metrics c then -1 else 0)
      (queueForget (GVR := GVR) (inr z : anyObj);; queueDone (GVR := GVR) (inr z : anyObj);;
       emitMetric c (AddReconcileInFlight (-1));; mret true : M E Q O bool)).
    { do 2 (apply level_then; [auto with level|]; intros _).
      rewrite <- (Z.add_0_r (if metrics c then -1 else 0)).
      apply level_bind; [apply level_inFlight|]. intros _. apply level_adds, adds_ret. }
    rewrite (Hl s s' b Er). by destruct (metrics c).
Qed.

(** ** The counter behind the gauge *)

(** The telemetry calls of a trace, oldest first. *)
Definition metricCalls (tr : list (effect O)) : list metric :=
  omap (fun e => match e with EMetric m => Some m | _ => None end) (reverse tr).

Fixpoint performAll (calls : list metric) (m : Telemetry.Metrics)
  : outcome (option Telemetry.Metrics * list Telemetry.emission) :=
  match calls with
  | [] => Ret (Some m, [])
  | call :: calls =>
    match Telemetry.perform call (Some m) with
    | Ret (Some m, es) =>
      match performAll calls m with Ret (r, es') => Ret (r, es ++ es') | Panic w => Panic w end
    | Ret (None, es) => Ret (None, es)
    | Panic w => Panic w
    end
  end.

Definition deltaOf (m : metric) : Z := match m with AddReconcileInFlight d => d | _ => 0 end.

Lemma perform_count call m :
  exists m' es, Telemetry.perform call (Some m) = Ret (Some m', es) /\
    (min_int64 <= Telemetry.reconcileInFlightCount m <= max_int64 ->
     Telemetry.reconcileInFlightCount m' =
       wrap64 (Telemetry.reconcileInFlightCount m + deltaOf call)).
Proof.
  destruct call; cbn [Telemetry.perform deltaOf];
    try (eexists _, _; split; [reflexivity|]; intros Hr; by rewrite Z.add_0_r, wrap64_id).
  unfold Telemetry.AddReconcileInFlight. destruct (delta =? 0) eqn:Ed; bool_to_prop.
  - eexists _, _. split; [done|]. intros Hr. subst. by rewrite Z.add_0_r, wrap64_id.
  - eexists _, _. by split.
Qed.

Lemma wrap64_add a b : wrap64 (wrap64 a + b) = wrap64 (a + b).
Proof.
  unfold wrap64. f_equal. replace (_ - 2 ^ 63 + b + 2 ^ 63) with ((a + 2 ^ 63) mod 2 ^ 64 + b) by lia.
  rewrite Zplus_mod_idemp_l. f_equal. lia.
Qed.

Lemma performAll_count calls m :
  min_int64 <= Telemetry.reconcileInFlightCount m <= max_int64 ->
  exists m' es, performAll calls m = Ret (Some m', es) /\
    Telemetry.reconcileInFlightCount m' =
      wrap64 (Telemetry.reconcileInFlightCount m + foldr (fun x n => deltaOf x + n) 0 calls).
Proof.
  revert m. induction calls as [|call calls IH]; intros m Hm; cbn [performAll foldr].
  { eexists _, _. split; [done|]. by rewrite Z.add_0_r, wrap64_id. }
  destruct (perform_count call m) as (m1 & es & -> & Ec). specialize (Ec Hm).
  destruct (IH m1) as (m2 & es2 & -> & Ec2); [rewrite Ec; apply wrap64_range|].
  eexists _, _. split; [done|]. rewrite Ec2, Ec, wrap64_add. f_equal. lia.
Qed.

Lemma metricCalls_gauge tr : foldr (fun x n => deltaOf x + n) 0 (metricCalls tr) = gauge tr.
Proof.
  unfold metricCalls. induction tr as [|e tr IH]; [done|]. rewrite reverse_cons, omap_app, foldr_app.
  assert (Hacc : forall l a, foldr (fun x n => deltaOf x + n) a l =
    foldr (fun x n => deltaOf x + n) 0 l + a).
  { intros l a. induction l as [|c l IHl]; [done|]. cbn [foldr]. rewrite IHl. lia. }
  rewrite Hacc, IH. change (gauge (e :: tr)) with (gaugeOf e + gauge tr).
  rewrite Z.add_comm. f_equal. destruct e as [| | | | | | | | | | | | |[]|]; cbn; try done; lia.
Qed.

(** The counter the gauge is observed from: after the telemetry calls of any trace it is the sum of the
    moves in the trace, in int64, and none of the calls panics on metrics that are set up. *)
Theorem counter_follows_gauge tr m :
  Telemetry.reconcileInFlightCount m = 0 ->
  exists m' es, performAll (metricCalls tr) m = Ret (Some m', es) /\
    Telemetry.reconcileInFlightCount m' = wrap64 (gauge tr).
Proof.
  intros Hm. destruct (performAll_count (metricCalls tr) m) as (m' & es & Ep & Ec).
  { rewrite Hm. done. }
  exists m', es. split; [done|]. by rewrite Ec, Hm, metricCalls_gauge.
Qed.

End InFlight.
End InFlight.
