(* ===== verification/System.v ===== *)
(** * The system: informer, queue and workers interleaved

    The informer's goroutine, any number of workers and the queue's [spin] as one step relation: a step
    is one access of one thread to the shared state, one iteration of [spin], or a worker's move
    between its phases.  The invariants of the reachable states, up to the call of ShutDown: a worker
    per key, and no digest in [items] without an event that will be or is being processed. *)

From S2P Require Import Prelude GoTime Errors Meta Event RateLimiter BTree PriorityQueue.
From S2P Require Import PriorityQueueFacts PQSpin PQTrace QueueInstr Conditions Runtime Controller.
From S2P Require Import Threads.
Import GoTime Errors Event Runtime Controller PQFacts PQSpin PQTrace Threads.

Module System.

(** What a worker is doing: between two events, waiting in GetWithPriority, processing what it
    received, or past the processing. *)
Inductive wstate : Type :=
| WIdle
| WParked
| WWork (obj : anyObj) (priority : Z)
| WThread (th : thread).

(** The keys a thread has yet to release. *)
Fixpoint heldT (th : thread) : list anyObj :=
  match th with
  | TDelete _ k | TForget _ k => heldT k
  | TDone obj _ => [obj]
  | _ => []
  end.

Definition held (w : wstate) : list anyObj :=
  match w with WWork obj _ => [obj] | WThread th => heldT th | _ => [] end.

Definition parked1 (w : wstate) : Z := match w with WParked => 1 | _ => 0 end.
Definition parked (ws : list wstate) : Z := foldr (fun w n => parked1 w + n) 0 ws.

Section System.
Context {O Spec : Type} `{!MetaObject O}.
Context {B R M : Type} `{!BTree (@PriorityQueue.less anyObj) B}
  `{!BTreeLaws (@PriorityQueue.less anyObj) B} `{!RateLimiter anyObj R}
  `{!PriorityQueue.QueueMetrics anyObj M}.
Context (NestedSpec : O -> error + option Spec) (cmpDiff : option Spec -> option Spec -> string).
Context (sum64 : string -> Z).
Context (actionsEvent : ActionsEvent) (watchAnnotations : AnnotationEvents).
Context (maxRetries : Z).

#[local] Abbreviation Queue := (PriorityQueue.PQ anyObj B R M).

(** [sLeaked]: the keys of events no trace id could be made for. *)
Record Sys : Type := mkSys {
  sQueue : Queue;
  sItems : gset string;
  sInformer : thread;
  sWorkers : list wstate;
  sLeaked : list anyObj
}.

(** What the workers do while [spin] walks over the tree: the items it hands over go to workers that
    wait, to any of them; [n] workers come and wait, the load of [waiters] being past for those that
    come later; and one that received an event it can make no trace id for is back without a Done. *)
Inductive during : list (PriorityQueue.item anyObj) -> nat ->
    list wstate * list anyObj -> list wstate * list anyObj -> Prop :=
| during_nil st : during [] 0 st st
| during_hand it its n l1 l2 lk st :
    during its n
      (l1 ++ WWork (PriorityQueue.Key it) (PriorityQueue.Priority it) :: l2, lk) st ->
    during (it :: its) n (l1 ++ WParked :: l2, lk) st
| during_come its n l1 l2 lk st :
    during its n (l1 ++ WParked :: l2, lk) st ->
    during its (S n) (l1 ++ WIdle :: l2, lk) st
| during_leak its n ev p l1 l2 lk st :
    during its n (l1 ++ WIdle :: l2, inl ev :: lk) st ->
    during its n (l1 ++ WWork (inl ev) p :: l2, lk) st.

(** The workers that come during a walk of [spin]. *)
Definition arrivals (now : Time) (arrive : anyObj -> nat) (q : Queue) : nat :=
  came arrive (readyPrefix now (elems q)).

(** The counter of additions, a uint64, is not at its end. *)
Definition roomy (q : Queue) : Prop := PriorityQueue.addedCounter q + 1 < 2 ^ 64.

Inductive sstep : Sys -> Sys -> Prop :=
| s_notice n q its ws lk :
    sstep (mkSys q its TEnd ws lk)
      (mkSys q its (tHandler NestedSpec cmpDiff sum64 actionsEvent watchAnnotations n (fun _ => TEnd))
         ws lk)
| s_informer q its th q' its' th' ws lk :
    roomy q -> tstep (th, (q, its)) (th', (q', its')) ->
    sstep (mkSys q its th ws lk) (mkSys q' its' th' ws lk)
| s_get q its inf l1 l2 lk :
    sstep (mkSys q its inf (l1 ++ WIdle :: l2) lk)
      (mkSys (PriorityQueue.enterGet q).1 its inf (l1 ++ WParked :: l2) lk)
| s_spin now arrive accept q q' out tm its inf ws ws' lk lk' :
    PriorityQueue.spin now arrive accept q = (q', out, tm) ->
    during out (arrivals now arrive q) (ws, lk) (ws', lk') ->
    sstep (mkSys q its inf ws lk) (mkSys q' its inf ws' lk')
| s_add t opts ev ev' p q q' its inf l1 l2 lk :
    roomy q -> PriorityQueue.AddWithOpts t opts [inl ev'] q = Ret q' ->
    sstep (mkSys q its inf (l1 ++ WWork (inl ev) p :: l2) lk)
      (mkSys q' its inf (l1 ++ WWork (inl ev) p :: l2) lk)
| s_leak ev p q its inf l1 l2 lk :
    sstep (mkSys q its inf (l1 ++ WWork (inl ev) p :: l2) lk)
      (mkSys q its inf (l1 ++ WIdle :: l2) (inl ev :: lk))
| s_finish ev p err q its inf l1 l2 lk :
    sstep (mkSys q its inf (l1 ++ WWork (inl ev) p :: l2) lk)
      (mkSys q its inf (l1 ++ WThread (tFinish sum64 maxRetries ev p err (fun _ => TEnd)) :: l2) lk)
| s_unexpected z p q its inf l1 l2 lk :
    sstep (mkSys q its inf (l1 ++ WWork (inr z) p :: l2) lk)
      (mkSys q its inf (l1 ++ WThread (TForget (inr z) (TDone (inr z) TEnd)) :: l2) lk)
| s_worker q its inf th q' its' th' l1 l2 lk :
    roomy q -> tstep (th, (q, its)) (th', (q', its')) ->
    sstep (mkSys q its inf (l1 ++ WThread th :: l2) lk)
      (mkSys q' its' inf (l1 ++ WThread th' :: l2) lk)
| s_next q its inf l1 l2 lk :
    sstep (mkSys q its inf (l1 ++ WThread TEnd :: l2) lk)
      (mkSys q its inf (l1 ++ WIdle :: l2) lk).

(** A new controller with [n] workers. *)
Definition start (rl : R) (m : M) (n : nat) : Sys :=
  mkSys (PriorityQueue.New rl m) ∅ TEnd (replicate n WIdle) [].

(** ** Who has a digest *)

Definition carriesT (d : string) (th : thread) : Prop :=
  match th with
  | TDelete d' _ => d' = d
  | TAdd _ (inl ev) _ => DigestForEvent sum64 ev = d
  | _ => False
  end.

Definition carries (d : string) (w : wstate) : Prop :=
  match w with
  | WWork (inl ev) _ => DigestForEvent sum64 ev = d
  | WThread th => carriesT d th
  | _ => False
  end.

Definition queued (q : Queue) (d : string) : Prop :=
  exists ev, DigestForEvent sum64 ev = d /\ is_Some (PriorityQueue.items q !! (inl ev : anyObj)).

Definition leaked (lk : list anyObj) (d : string) : Prop :=
  exists ev, DigestForEvent sum64 ev = d /\ (inl ev : anyObj) ∈ lk.

(** ** Threads that store a digest add its event next, and release their key before all that *)

Definition owes (d : string) (th : thread) : Prop :=
  match th with TAdd _ (inl ev) _ => DigestForEvent sum64 ev = d | _ => False end.

Fixpoint orderly (th : thread) : Prop :=
  match th with
  | TEnd => True
  | TNow k => forall t, orderly (k t) /\ heldT (k t) = []
  | TLoadOrStore d k => owes d (k false) /\ forall b, orderly (k b) /\ heldT (k b) = []
  | TLoad _ k => forall b, orderly (k b) /\ heldT (k b) = []
  | TStore d k => owes d k /\ orderly k /\ heldT k = []
  | TDelete _ k | TForget _ k => orderly k
  | TAdd _ _ k | TDone _ k => orderly k /\ heldT k = []
  | TNumRequeues _ k => forall n, orderly (k n) /\ heldT (k n) = []
  end.

Definition orderlyW (w : wstate) : Prop := match w with WThread th => orderly th | _ => True end.

Lemma orderly_handler n :
  let th := tHandler NestedSpec cmpDiff sum64 actionsEvent watchAnnotations n (fun _ => TEnd) in
  orderly th /\ heldT th = [].
Proof.
  unfold tHandler. destruct (wanted _ _ _ _ n) as [[o t el p]|]; [|done]. split; [|done].
  intros q. destruct o; [|done]. split; [|done]. split; [done|]. by intros [].
Qed.

Lemma orderly_finish ev p err :
  let th := tFinish sum64 maxRetries ev p err (fun _ => TEnd) in
  orderly th /\ heldT th = [inl ev].
Proof.
  split; [|done]. destruct err as [e|]; [|done]. split; [|done]. cbn. intros n.
  destruct (maxRetries <=? n); [done|]. destruct (IsZero (QueuedAt ev)); cbn.
  - split; [|done]. intros t. split; [|done]. by intros [].
  - split; [|done]. by intros [].
Qed.

(** ** One access of a thread *)

Lemma owes_carries d th : owes d th -> carriesT d th.
Proof. by destruct th as [| | | | | |? [?|?] ?| | |]. Qed.

(** What one access changes.  A digest that is in [items] afterwards was there and was not the
    thread's, or is the thread's now, or its event is queued. *)
Record accessed (th : thread) (q : Queue) (its : gset string) (th' : thread) (q' : Queue)
  (its' : gset string) : Prop := mkAccessed {
  acc_wf : WF q';
  acc_running : PriorityQueue.shutdown q' = false;
  acc_waiters : PriorityQueue.waiters q' = PriorityQueue.waiters q;
  acc_orderly : orderly th';
  acc_locked : exists released, heldT th = released ++ heldT th' /\
    PriorityQueue.locked q' = PriorityQueue.locked q ∖ list_to_set released;
  acc_queued d : queued q d -> queued q' d;
  acc_digests d : d ∈ its' -> (d ∈ its /\ ~ carriesT d th) \/ carriesT d th' \/ queued q' d
}.

(** An addition keeps what is queued and queues its event. *)
Lemma add_queued t opts ev q q' :
  WF q -> PriorityQueue.shutdown q = false -> roomy q ->
  PriorityQueue.AddWithOpts t opts [ev] q = Ret q' ->
  WF q' /\ PriorityQueue.shutdown q' = false /\
  PriorityQueue.waiters q' = PriorityQueue.waiters q /\
  PriorityQueue.locked q' = PriorityQueue.locked q /\
  (forall k, is_Some (PriorityQueue.items q !! k) -> is_Some (PriorityQueue.items q' !! k)) /\
  is_Some (PriorityQueue.items q' !! ev).
Proof.
  intros Hw Hs Hr Ha.
  destruct (AddWithOpts_run t opts [ev] q q' Hw Ha Hr) as (Hw' & El & Ew & Es & _).
  unfold PriorityQueue.AddWithOpts in Ha. rewrite Hs in Ha.
  destruct (addItems_spec t opts [ev] q Hw Hr) as (q1 & E1 & _ & _ & Hout & Hold & Hnew).
  rewrite E1 in Ha. injection Ha as <-. cbn in El, Ew, Es, Hw' |- *. split_and!; try done.
  - by rewrite Es.
  - intros k [it Hk]. destruct (Hold k it Hk) as (it' & Hk' & _). by exists it'.
  - destruct (PriorityQueue.items q !! ev) as [it|] eqn:Hk.
    + destruct (Hold ev it Hk) as (it' & Hk' & _). by exists it'.
    + destruct (Hnew ev ltac:(by left) Hk) as (it' & Hk' & _). by exists it'.
Qed.

(** The accesses that change [items] alone. *)
Lemma accessed_items th q its th' its' :
  WF q -> PriorityQueue.shutdown q = false -> orderly th' -> heldT th = heldT th' ->
  (forall d, d ∈ its' -> (d ∈ its /\ ~ carriesT d th) \/ carriesT d th') ->
  accessed th q its th' q its'.
Proof.
  intros Hw Hs Ho Eh Hd. split; try done.
  - exists []. split; [done|]. set_solver.
  - intros d Hin. destruct (Hd d Hin); tauto.
Qed.

#[local] Ltac not_carried := left; split; [done|by intros []].

Lemma tstep_accessed th q its th' q' its' :
  tstep (th, (q, its)) (th', (q', its')) ->
  WF q -> PriorityQueue.shutdown q = false -> roomy q -> orderly th ->
  accessed th q its th' q' its'.
Proof.
  intros Hstep Hw Hs Hr Ho. inversion Hstep as
    [t k ? ?|d k ? ?|d k ? ?|d k ? ?|d k ? ?|t opts obj k ? ? ? Ha|t obj k ? ?|t obj k ? ?|obj k ? ?];
    subst; cbn [orderly] in Ho.
  - destruct (Ho t) as [Ho' Eh]. apply accessed_items; [done..|exact (eq_sym Eh)|]. intros d Hd. not_carried.
  - destruct Ho as [Hd Ho]. destruct (Ho (bool_decide (d ∈ its))) as [Ho' Eh].
    apply accessed_items; [done..|exact (eq_sym Eh)|]. intros d' Hd'.
    destruct (decide (d' ∈ its)); [not_carried|]. right. assert (d' = d) as -> by set_solver.
    rewrite bool_decide_false by done. by apply owes_carries.
  - destruct (Ho (bool_decide (d ∈ its'))) as [Ho' Eh]. apply accessed_items; [done..|exact (eq_sym Eh)|].
    intros d' Hd. not_carried.
  - destruct Ho as (Hd & Ho' & Eh). apply accessed_items; [done..|exact (eq_sym Eh)|]. intros d' Hd'.
    destruct (decide (d' ∈ its)); [not_carried|]. right. assert (d' = d) as -> by set_solver.
    by apply owes_carries.
  - apply accessed_items; [done..|]. intros d' Hd'. left. cbn. set_solver.
  - destruct Ho as [Ho' Eh]. destruct (add_queued t opts obj q q' Hw Hs Hr Ha)
      as (Hw' & Hs' & Ew & El & Hk & Hin).
    assert (Hq : forall d, queued q d -> queued q' d).
    { intros d (ev & Ed & Hev). exists ev. split; [done|]. by apply Hk. }
    split; try done.
    + exists []. rewrite Eh. split; [done|]. rewrite El. set_solver.
    + intros d Hd. destruct obj as [ev|z]; [|not_carried].
      destruct (decide (DigestForEvent sum64 ev = d)) as [Ed|Ed]; [|by left].
      right. right. by exists ev.
  - split; try done; [by apply Forget_WF|exists []; split; [done|]; set_solver|]. intros d Hd. not_carried.
  - destruct Ho as [Ho' Eh]. split; try done; [by apply Done_WF| |].
    + exists [obj]. rewrite Eh. split; [done|]. cbn. set_solver.
    + intros d Hd. not_carried.
  - destruct (Ho (qNumRequeues obj q')) as [Ho' Eh]. apply accessed_items; [done..|exact (eq_sym Eh)|].
    intros d Hd. not_carried.
Qed.

(** ** The invariant *)

Record Inv (s : Sys) : Prop := mkInv {
  inv_wf : WF (sQueue s);
  inv_running : PriorityQueue.shutdown (sQueue s) = false;
  inv_waiters : PriorityQueue.waiters (sQueue s) = parked (sWorkers s);
  inv_nodup : NoDup ((sWorkers s ≫= held) ++ sLeaked s);
  inv_locked : PriorityQueue.locked (sQueue s) = list_to_set ((sWorkers s ≫= held) ++ sLeaked s);
  inv_informer : orderly (sInformer s) /\ heldT (sInformer s) = [];
  inv_workers w : w ∈ sWorkers s -> orderlyW w;
  inv_digests d : d ∈ sItems s ->
    queued (sQueue s) d \/ leaked (sLeaked s) d \/ carriesT d (sInformer s) \/
    exists w, w ∈ sWorkers s /\ carries d w
}.

Lemma parked_app l1 l2 : parked (l1 ++ l2) = parked l1 + parked l2.
Proof. induction l1 as [|w l IH]; [done|]. cbn [parked foldr app]. fold (parked (l ++ l2)) (parked l). lia. Qed.

Lemma held_middle l1 w l2 : (l1 ++ w :: l2) ≫= held ≡ₚ held w ++ ((l1 ++ l2) ≫= held).
Proof. rewrite !bind_app, bind_cons. solve_Permutation. Qed.

(** One worker moves from [w] to [w']; the queue and [items] change as an access of it allows. *)
Lemma move_inv q its q' its' inf l1 w w' l2 lk lk' :
  Inv (mkSys q its inf (l1 ++ w :: l2) lk) ->
  WF q' -> PriorityQueue.shutdown q' = false ->
  PriorityQueue.waiters q' = PriorityQueue.waiters q - parked1 w + parked1 w' ->
  (exists released, held w ++ lk ≡ₚ released ++ held w' ++ lk' /\
     PriorityQueue.locked q' = PriorityQueue.locked q ∖ list_to_set released) ->
  orderlyW w' -> (forall d, queued q d -> queued q' d) -> lk ⊆ lk' ->
  (forall d, d ∈ its' ->
     (d ∈ its /\ ~ carries d w) \/ carries d w' \/ queued q' d \/ leaked lk' d) ->
  Inv (mkSys q' its' inf (l1 ++ w' :: l2) lk').
Proof.
  intros [Hw Hs Hwt Hnd Hl Hinf Hws Hd] Hw' Hs' Hwt' (rel & Hp & Hl') Ho Hq Hlk Hd'.
  cbn [sQueue sItems sInformer sWorkers sLeaked] in *.
  assert (Hall : ((l1 ++ w :: l2) ≫= held) ++ lk ≡ₚ rel ++ ((l1 ++ w' :: l2) ≫= held) ++ lk').
  { rewrite !held_middle. transitivity ((held w ++ lk) ++ ((l1 ++ l2) ≫= held)); [solve_Permutation|].
    rewrite Hp. solve_Permutation. }
  rewrite Hall in Hnd. apply NoDup_app in Hnd as (_ & Hdis & Hnd).
  split; cbn [sQueue sItems sInformer sWorkers sLeaked]; try done.
  - rewrite Hwt', Hwt, !parked_app. cbn [parked foldr]. lia.
  - rewrite Hl', Hl, (list_to_set_perm_L _ _ Hall), list_to_set_app_L. set_solver.
  - intros x [Hx|[->|Hx]%elem_of_cons]%elem_of_app; [|done|]; apply Hws; set_solver.
  - intros d Hin. destruct (Hd' d Hin) as [[Hin' Hn]|[?|[?|?]]]; [|by right; right; right; set_solver|by left|by right; left].
    destruct (Hd d Hin') as [?|[(ev & ? & ?)|[?|(x & Hx & Hc)]]].
    + left. by apply Hq.
    + right. left. exists ev. split; [done|]. by apply Hlk.
    + by right; right; left.
    + right. right. right. exists x. split; [|done].
      apply elem_of_app in Hx as [Hx|[->|Hx]%elem_of_cons]; [set_solver|done|set_solver].
Qed.

Lemma carries_dec d w : carries d w \/ ~ carries d w.
Proof.
  destruct w as [| |[ev|z] p|th]; cbn; try tauto; [destruct (decide (DigestForEvent sum64 ev = d)); tauto|].
  destruct th as [| | | | |d' k|opts [ev|z] k| | |]; cbn; try tauto.
  - destruct (decide (d' = d)); tauto.
  - destruct (decide (DigestForEvent sum64 ev = d)); tauto.
Qed.

(** As above when the queue and [items] stay. *)
Lemma move_inv_same q its inf l1 w w' l2 lk lk' :
  Inv (mkSys q its inf (l1 ++ w :: l2) lk) ->
  parked1 w = parked1 w' -> held w ++ lk ≡ₚ held w' ++ lk' -> orderlyW w' -> lk ⊆ lk' ->
  (forall d, carries d w -> carries d w' \/ leaked lk' d) ->
  Inv (mkSys q its inf (l1 ++ w' :: l2) lk').
Proof.
  intros Hi Ep Hh Ho Hlk Hc. eapply move_inv; [exact Hi|apply Hi..| | |done|done|done|].
  - cbn. lia.
  - exists []. split; [done|]. set_solver.
  - intros d Hd. destruct (carries_dec d w) as [Hd'|?]; [|by left]. destruct (Hc d Hd'); tauto.
Qed.

Lemma informer_inv q its th q' its' th' ws lk :
  roomy q -> tstep (th, (q, its)) (th', (q', its')) ->
  Inv (mkSys q its th ws lk) -> Inv (mkSys q' its' th' ws lk).
Proof.
  intros Hr Hstep [Hw Hs Hwt Hnd Hl [Ho Eh] Hws Hd].
  cbn [sQueue sItems sInformer sWorkers sLeaked] in *.
  destruct (tstep_accessed _ _ _ _ _ _ Hstep Hw Hs Hr Ho) as
    [Hw' Hs' Ewt Ho' (rel & Erel & El) Hq Hd'].
  rewrite Eh in Erel. destruct rel; [|done].
  split; cbn [sQueue sItems sInformer sWorkers sLeaked]; try done.
  - by rewrite Ewt.
  - rewrite El, Hl. set_solver.
  - intros d Hin. destruct (Hd' d Hin) as [[Hin' Hn]|[?|?]]; [|by right; right; left|by left].
    destruct (Hd d Hin') as [?|[?|[?|?]]]; [left; by apply Hq|by right; left|done|by right; right; right].
Qed.

Lemma worker_inv q its inf th q' its' th' l1 l2 lk :
  roomy q -> tstep (th, (q, its)) (th', (q', its')) ->
  Inv (mkSys q its inf (l1 ++ WThread th :: l2) lk) ->
  Inv (mkSys q' its' inf (l1 ++ WThread th' :: l2) lk).
Proof.
  intros Hr Hstep Hi.
  assert (Ho : orderly th) by (apply (inv_workers _ Hi (WThread th)); set_solver).
  destruct (tstep_accessed _ _ _ _ _ _ Hstep (inv_wf _ Hi) (inv_running _ Hi) Hr Ho) as
    [Hw' Hs' Ewt Ho' (rel & Erel & El) Hq Hd'].
  eapply move_inv; [exact Hi|done|done| | |done|done|done|].
  - cbn in *. lia.
  - exists rel. split; [|done]. cbn [held]. by rewrite Erel, app_assoc.
  - intros d Hd. destruct (Hd' d Hd) as [?|[?|?]]; tauto.
Qed.

(** ** The hand-over *)

Definition handedAs (it : PriorityQueue.item anyObj) : wstate :=
  WWork (PriorityQueue.Key it) (PriorityQueue.Priority it).

(** What a walk does to the workers [ws] and the leaked keys [lk]. *)
Record walked (out : list (PriorityQueue.item anyObj)) (n : nat) (ws : list wstate)
  (lk : list anyObj) (ws' : list wstate) (lk' : list anyObj) : Prop := {
  wk_parked : parked ws + Z.of_nat n = parked ws' + Z.of_nat (length out);
  wk_held : (ws' ≫= held) ++ lk' ≡ₚ (PriorityQueue.Key <$> out) ++ (ws ≫= held) ++ lk;
  wk_leaked : lk ⊆ lk';
  wk_carried d w : w ∈ ws \/ (exists it, it ∈ out /\ w = handedAs it) ->
    carries d w -> leaked lk' d \/ exists w', w' ∈ ws' /\ carries d w';
  wk_from w : w ∈ ws' -> orderlyW w \/ w ∈ ws
}.

(** One worker moves from [w] to [w'] before the rest of the walk. *)
Lemma walked_move out n l1 w w' l2 lk lk1 ws' lk' (its : list (PriorityQueue.item anyObj)) (m : nat) :
  walked out n (l1 ++ w' :: l2) lk1 ws' lk' ->
  parked1 w + Z.of_nat m = parked1 w' + Z.of_nat (length its) ->
  held w' ++ lk1 ≡ₚ (PriorityQueue.Key <$> its) ++ held w ++ lk ->
  lk ⊆ lk1 -> orderlyW w' ->
  (forall d, carries d w -> carries d w' \/ leaked lk1 d) ->
  (forall it, it ∈ its -> w' = handedAs it) ->
  walked (its ++ out) (m + n) (l1 ++ w :: l2) lk ws' lk'.
Proof.
  intros [Ep Eh Hlk Hc Hf] Hp Hh Hsub Ho Hcw Hits.
  assert (Hleak : forall d, leaked lk1 d -> leaked lk' d).
  { intros d (ev & ? & ?). exists ev. split; [done|]. by apply Hlk. }
  assert (Hw' : forall d, carries d w' -> leaked lk' d \/ exists x, x ∈ ws' /\ carries d x).
  { intros d. apply Hc. left. set_solver. }
  split.
  - rewrite length_app, !parked_app in *. cbn [parked foldr] in *. lia.
  - rewrite Eh, !held_middle, fmap_app.
    transitivity ((PriorityQueue.Key <$> out) ++ ((l1 ++ l2) ≫= held) ++ (held w' ++ lk1));
      [solve_Permutation|]. rewrite Hh. solve_Permutation.
  - set_solver.
  - intros d x Hx Hd. destruct Hx as [Hx|(it & [Hit|Hit]%elem_of_app & ->)].
    + apply elem_of_app in Hx as [Hx|[->|Hx]%elem_of_cons].
      * apply (Hc d x); [left; set_solver|done].
      * destruct (Hcw d Hd) as [?|?]; [by apply Hw'|left; by apply Hleak].
      * apply (Hc d x); [left; set_solver|done].
    + apply Hw'. by rewrite (Hits it Hit).
    + apply (Hc d (handedAs it)); [right; by exists it|done].
  - intros x Hx. destruct (Hf x Hx) as [?|Hx']; [by left|].
    apply elem_of_app in Hx' as [?|[->|?]%elem_of_cons]; [right; set_solver|by left|right; set_solver].
Qed.

Lemma during_walked out n st st' : during out n st st' -> walked out n st.1 st.2 st'.1 st'.2.
Proof.
  induction 1 as [st|it its n l1 l2 lk st _ IH|its n l1 l2 lk st _ IH|its n ev p l1 l2 lk st _ IH];
    cbn [fst snd] in *.
  - split; try done; [|by right]. intros d w [Hw|(it & ?%not_elem_of_nil & _)] Hd; [|done].
    right. by exists w.
  - apply (walked_move its n l1 WParked _ l2 lk lk _ _ [it] 0 IH); try done.
    by intros x ->%list_elem_of_singleton.
  - apply (walked_move its n l1 WIdle _ l2 lk lk _ _ [] 1 IH); try done.
    by intros x ?%not_elem_of_nil.
  - apply (walked_move its n l1 _ _ l2 lk _ _ _ [] 0 IH); try done; [set_solver| |].
    + intros d Hd. right. exists ev. split; [done|]. by left.
    + by intros x ?%not_elem_of_nil.
Qed.

Lemma spin_inv now arrive accept q q' out tm its inf ws ws' lk lk' :
  PriorityQueue.spin now arrive accept q = (q', out, tm) ->
  during out (arrivals now arrive q) (ws, lk) (ws', lk') ->
  Inv (mkSys q its inf ws lk) -> Inv (mkSys q' its inf ws' lk').
Proof.
  intros Hspin [Ep Eh Hlk Hcar Hfrom]%during_walked [Hw Hs Hwt Hnd Hl Hinf Hws Hd].
  unfold arrivals in Ep. cbn [sQueue sItems sInformer sWorkers sLeaked fst snd] in *.
  destruct (spin_spec now arrive accept q Hw) as
    (taken & _ & _ & Hrun & Hw' & _ & El & Eits & Es & _).
  rewrite Hspin in *. cbn [fst snd] in *. destruct (Hrun Hs) as (-> & Eout & _ & _ & Ewt & _).
  rewrite <- Eout in *.
  assert (Hdis : forall it, it ∈ out -> PriorityQueue.Key it ∉ PriorityQueue.locked q).
  { intros it Hit. rewrite Eout in Hit. by eapply eligible_props. }
  split; cbn [sQueue sItems sInformer sWorkers sLeaked]; try done.
  - by rewrite Es.
  - rewrite Ewt, Hwt. lia.
  - rewrite Eh. apply NoDup_app. split; [|split; [|done]].
    + rewrite Eout. by apply eligible_NoDup.
    + intros k (it & -> & Hit)%list_elem_of_fmap Hk. apply (Hdis it Hit). rewrite Hl.
      by apply elem_of_list_to_set.
  - rewrite El, Hl, (list_to_set_perm_L _ _ Eh), !list_to_set_app_L. set_solver.
  - intros w Hx. destruct (Hfrom w Hx) as [?|?]; [done|by apply Hws].
  - intros d Hin. destruct (Hd d Hin) as [(ev & Ed & it & Hit)|[(ev & ? & ?)|[?|(w & Hx & Hc)]]].
    + destruct (decide ((inl ev : anyObj) ∈ PriorityQueue.Key <$> out)) as [Ho|Ho].
      * apply list_elem_of_fmap in Ho as (x & Ek & Hx).
        destruct (Hcar d (handedAs x)) as [?|?]; [right; by exists x| |by right; left|by right; right; right].
        unfold handedAs. by rewrite <- Ek.
      * left. exists ev. split; [done|]. rewrite Eits, lookup_foldr_delete, bool_decide_false by done.
        by exists it.
    + right. left. exists ev. split; [done|]. by apply Hlk.
    + by right; right; left.
    + destruct (Hcar d w) as [?|?]; [by left|done|by right; left|by right; right; right].
Qed.

Lemma sstep_inv s s' : sstep s s' -> Inv s -> Inv s'.
Proof.
  destruct 1 as [n q its ws lk|q its th q' its' th' ws lk Hr Ht|q its inf l1 l2 lk|
    now arrive accept q q' out tm its inf ws ws' lk lk' Hsp Hdel|t opts ev ev' p q q' its inf l1 l2 lk Hr Ha|
    ev p q its inf l1 l2 lk|ev p err q its inf l1 l2 lk|z p q its inf l1 l2 lk|
    q its inf th q' its' th' l1 l2 lk Hr Ht|q its inf l1 l2 lk]; intros Hi.
  - destruct Hi as [? ? ? ? ? ? ? Hd]. split; try assumption; [apply orderly_handler|].
    intros d Hin. destruct (Hd d Hin) as [?|[?|[[]|?]]]; [by left|by right; left|by right; right; right].
  - by eapply informer_inv.
  - pose proof (enterGet_WF q (inv_wf _ Hi)) as Hw. pose proof (inv_running _ Hi) as Hs.
    cbn [sQueue] in Hs. unfold PriorityQueue.enterGet in *. rewrite Hs in *. cbn [fst] in *.
    eapply move_inv; [exact Hi|done|done|cbn; lia| |done|done|done|].
    + exists []. split; [done|]. cbn. set_solver.
    + intros d Hd. left. split; [done|]. by intros [].
  - by eapply spin_inv.
  - destruct (add_queued t opts _ q q' (inv_wf _ Hi) (inv_running _ Hi) Hr Ha) as
      (Hw' & Hs' & Ew & El & Hk & _).
    eapply move_inv; [exact Hi|done|done| | |done| |done|].
    + lia.
    + exists []. split; [done|]. rewrite El. set_solver.
    + intros d (e & Ed & He). exists e. split; [done|]. by apply Hk.
    + intros d Hd. destruct (carries_dec d (WWork (inl ev) p)); tauto.
  - eapply move_inv_same; [exact Hi|done|cbn; solve_Permutation|done|set_solver|].
    intros d Hc. right. exists ev. split; [done|]. by left.
  - destruct (orderly_finish ev p err) as [Ho Eh].
    eapply move_inv_same; [exact Hi|done|cbn [held]; by rewrite Eh|done|done|]. by left.
  - eapply move_inv_same; [exact Hi|done|done|done|done|by intros d []].
  - by eapply worker_inv.
  - eapply move_inv_same; [exact Hi|done|done|done|done|by intros d []].
Qed.

Lemma start_inv rl m n : Inv (start rl m n).
Proof.
  assert (Eh : replicate n WIdle ≫= held = []) by (induction n; done).
  split; cbn [sQueue sItems sInformer sWorkers sLeaked start]; try done.
  - apply New_WF.
  - clear Eh. induction n as [|n IH]; [done|exact IH].
  - rewrite Eh. constructor.
  - by rewrite Eh.
  - intros w [-> _]%elem_of_replicate. done.
Qed.

Lemma reachable_inv rl m n s : rtc sstep (start rl m n) s -> Inv s.
Proof.
  intros Hr. assert (Hi : Inv (start rl m n)) by apply start_inv. revert Hi.
  generalize dependent (start rl m n). intros s0 Hr. induction Hr as [s0|s0 s1 s2 Hst Hr IH]; [done|].
  intros Hi. by eapply IH, sstep_inv.
Qed.

(** C7. De-duplication loses nothing: as long as the queue is not shut down, a digest is in [items] only
    while an event that has it is queued, being processed, about to be queued by the thread that
    stored the digest, or stuck because no trace id could be made for it.  So a notification that is
    dropped as a duplicate is dropped in favour of work that is still to be done. *)
Theorem no_digest_lost rl m n s d :
  rtc sstep (start rl m n) s -> d ∈ sItems s ->
  queued (sQueue s) d \/ leaked (sLeaked s) d \/ carriesT d (sInformer s) \/
  exists w, w ∈ sWorkers s /\ carries d w.
Proof. intros Hr. apply (inv_digests _ (reachable_inv _ _ _ _ Hr)). Qed.

(** C8. A key is with one worker: in every reachable state the keys that workers process or have yet to
    release are all different, and together with the stuck ones they are the keys the queue has
    locked; and the queue's count of waiting workers is their number. *)
Theorem one_worker_per_key rl m n s :
  rtc sstep (start rl m n) s ->
  NoDup (sWorkers s ≫= held) /\
  (forall k, k ∈ PriorityQueue.locked (sQueue s) <->
     k ∈ sLeaked s \/ exists w, w ∈ sWorkers s /\ k ∈ held w) /\
  PriorityQueue.waiters (sQueue s) = parked (sWorkers s).
Proof.
  intros Hr%reachable_inv. split_and!.
  - pose proof (inv_nodup _ Hr) as Hnd. by apply NoDup_app in Hnd as (? & _).
  - intros k. rewrite (inv_locked _ Hr), elem_of_list_to_set, elem_of_app, list_elem_of_bind.
    naive_solver.
  - apply Hr.
Qed.

(** ** Running the informer *)

(** The informer's thread run to its end with the clock at [t]; a panic where it cannot go on. *)
Fixpoint exec (t : Time) (th : thread) (st : Queue * gset string) : outcome (Queue * gset string) :=
  let '(q, its) := st in
  if negb (PriorityQueue.addedCounter q + 1 <? 2 ^ 64) then Panic "counter" else
  match th with
  | TEnd => Ret st
  | TNow k => exec t (k t) st
  | TLoadOrStore d k => exec t (k (bool_decide (d ∈ its))) (q, {[ d ]} ∪ its)
  | TLoad d k => exec t (k (bool_decide (d ∈ its))) st
  | TStore d k => exec t k (q, {[ d ]} ∪ its)
  | TDelete d k => exec t k (q, its ∖ {[ d ]})
  | TAdd opts obj k =>
    match PriorityQueue.AddWithOpts t opts [obj] q with
    | Ret q' => exec t k (q', its)
    | Panic w => Panic w
    end
  | TForget obj k => exec t k (PriorityQueue.Forget t obj q, its)
  | TDone obj k => exec t k (PriorityQueue.Done t obj q, its)
  | TNumRequeues obj k => exec t (k (PriorityQueue.NumRequeues obj q)) st
  end.

Lemma exec_steps t th : forall q its q' its' ws lk,
  exec t th (q, its) = Ret (q', its') -> rtc sstep (mkSys q its th ws lk) (mkSys q' its' TEnd ws lk).
Proof.
  induction th as [|k IH|d k IH|d k IH|d k IH|d k IH|opts obj k IH|obj k IH|obj k IH|obj k IH];
    intros q its q' its' ws lk; cbn [exec];
    destruct (negb _) eqn:Er; try done; bool_to_prop.
  1: { intros [= <- <-]. apply rtc_refl. }
  all: intros He; try (destruct (PriorityQueue.AddWithOpts _ _ _ _) as [q1|w] eqn:Ea; [|done]).
  all: eapply rtc_l; [eapply s_informer; [exact Er|]|eapply IH, He].
  - exact (t_now t k q its).
  - apply t_loadOrStore.
  - apply t_load.
  - apply t_store.
  - apply t_delete.
  - by apply (t_add t).
  - exact (t_forget t obj k q its).
  - exact (t_done t obj k q its).
  - exact (t_num obj k q its).
Qed.

End System.
Arguments Sys B R M : clear implicits.
End System.
