(* ===== verification/Pool.v ===== *)
(** * The workers of System are the workers of Shutdown

    File System has every access of a worker to the shared state, file Shutdown only whether it is in
    GetWithPriority or processing.  The first refines the second: whatever the system does while it
    serves is a sequence of moves of the pool, so what is proved of [Run] holds of the real workers. *)

From S2P Require Import Prelude GoTime Errors Meta Event RateLimiter BTree PriorityQueue.
From S2P Require Import QueueInstr Conditions Runtime Controller Threads System Shutdown.
Import GoTime Errors Event Runtime Controller Threads System.

Module Pool.

(** What can be seen of a worker from outside. *)
Definition seenAs (w : wstate) : Shutdown.worker :=
  match w with
  | WIdle | WParked => Shutdown.WGet
  | WWork _ _ | WThread _ => Shutdown.WBusy
  end.

#[local] Abbreviation moves now := (rtc (Shutdown.pstep false false now)).

Lemma moves_middle now l1 l2 w w' :
  Shutdown.wstep false false now (seenAs w) (seenAs w') ->
  moves now (seenAs <$> (l1 ++ w :: l2)) (seenAs <$> (l1 ++ w' :: l2)).
Proof. intros Hw. rewrite !fmap_app, !fmap_cons. by apply rtc_once, Shutdown.p_one. Qed.

Lemma stays_middle now l1 l2 w w' :
  seenAs w = seenAs w' -> moves now (seenAs <$> (l1 ++ w :: l2)) (seenAs <$> (l1 ++ w' :: l2)).
Proof. intros Hw. by rewrite !fmap_app, !fmap_cons, Hw. Qed.

Lemma during_moves now its n st st' :
  during its n st st' -> moves now (seenAs <$> st.1) (seenAs <$> st'.1).
Proof.
  induction 1 as [|it its n l1 l2 lk st _ IH|its n l1 l2 lk st _ IH|its n ev p l1 l2 lk st _ IH];
    cbn [fst] in *; [done|etransitivity; [|exact IH]..].
  - by apply moves_middle, Shutdown.w_get.
  - by apply stays_middle.
  - by apply moves_middle, Shutdown.w_done.
Qed.

Section Pool.
Context {O Spec : Type} `{!MetaObject O}.
Context {B R M : Type} `{!BTree (@PriorityQueue.less anyObj) B}
  `{!BTreeLaws (@PriorityQueue.less anyObj) B} `{!RateLimiter anyObj R}
  `{!PriorityQueue.QueueMetrics anyObj M}.
Context (NestedSpec : O -> error + option Spec) (cmpDiff : option Spec -> option Spec -> string).
Context (sum64 : string -> Z).
Context (actionsEvent : ActionsEvent) (watchAnnotations : AnnotationEvents).
Context (maxRetries : Z).

#[local] Abbreviation sstep :=
  (sstep (B := B) (R := R) (M := M) NestedSpec cmpDiff sum64 actionsEvent watchAnnotations maxRetries).

Lemma sstep_moves now s s' :
  sstep s s' -> moves now (seenAs <$> sWorkers s) (seenAs <$> sWorkers s').
Proof.
  destruct 1; cbn [sWorkers]; try done;
    try (by apply stays_middle); try (by apply moves_middle, Shutdown.w_done).
  by eapply (during_moves now _ _ (_, _) (_, _)).
Qed.

(** While [Run] serves, every run of the system is one of [Run], with its workers seen from outside. *)
Theorem serving_refined n d cancelled t g s s' :
  rtc sstep s s' ->
  rtc (Shutdown.rstep n)
    (Shutdown.mkRun Shutdown.RServe (seenAs <$> sWorkers s) d false false cancelled t g)
    (Shutdown.mkRun Shutdown.RServe (seenAs <$> sWorkers s') d false false cancelled t g).
Proof.
  induction 1 as [s|s1 s2 s3 Hs _ IH]; [done|]. etransitivity; [|exact IH].
  pose proof (sstep_moves t s1 s2 Hs) as Hm. clear -Hm.
  induction Hm as [l|l1 l2 l3 Hp _ IHm]; [done|]. eapply rtc_l; [by apply Shutdown.r_worker|exact IHm].
Qed.

End Pool.
End Pool.
