(* ===== verification/StatusProjection.v ===== *)
(** * pkg/tools/statusprojection: values projected onto the status

    Go values of type [any], [normalize], and [Project], which evaluates one expression per mapping and
    writes the results under the object's [status].  The jq engine (jqutil), [DeepCopyJSONValue] and
    [SetNestedField] are other packages' code: operations of the class [ProjectionDeps], with what
    their documentation promises in [ProjectionLaws].

    Maps are shared in Go: the root holds the object's own map, so a mapping sees what the mappings
    before it wrote.  [buildRoot] therefore takes its keys from the object as it was when the root was
    built, and its values from the object as it is when the root is copied. *)

From S2P Require Import Prelude Errors GoStrings.
From Stdlib Require Import Floats.SpecFloat.
Import Errors GoStrings.

#[local] Set Warnings "-register-all".

Module StatusProjection.

(** ** Values *)

(** A value with its dynamic type; [ANilMap] is the nil map[string]any, [AMap] one that is not nil, and
    [X] is every type that has no constructor of its own. *)
Inductive any (X : Type) : Type :=
| ANil
| ABool (b : bool)
| AString (s : string)
| AInt64 (z : Z)
| AFloat64 (f : spec_float)
| AInt (z : Z)
| AInt32 (z : Z)
| AFloat32 (f : spec_float)
| ASlice (l : list (any X))
| AMap (m : gmap string (any X))
| ANilMap
| AOther (x : X).
Arguments ANil {X}.
Arguments ABool {X} b.
Arguments AString {X} s.
Arguments AInt64 {X} z.
Arguments AFloat64 {X} f.
Arguments AInt {X} z.
Arguments AInt32 {X} z.
Arguments AFloat32 {X} f.
Arguments ASlice {X} l.
Arguments AMap {X} m.
Arguments ANilMap {X}.
Arguments AOther {X} x.

(** The methods [normalize] looks for on a value of another type, [None] where the type lacks them, and
    how [%v] prints it. *)
Class Dynamic (X : Type) : Type := {
  Int64 : X -> option (error + Z);
  Float64 : X -> option (error + spec_float);
  Sprintf : X -> string
}.

(** Conversion of a float32 to float64. *)
Definition float64of32 (f : spec_float) : spec_float :=
  match f with
  | S754_finite s m e => binary_normalize 53 1024 (if s then Z.neg m else Z.pos m) e s
  | _ => f
  end.

(** The types [DeepCopyJSONValue] documents; it copies a nil map to a nil map. *)
Fixpoint jsonSafe {X} (v : any X) : bool :=
  match v with
  | ANil | ABool _ | AString _ | AInt64 _ | AFloat64 _ | ANilMap => true
  | ASlice l => forallb jsonSafe l
  | AMap m => map_fold (fun _ v acc => jsonSafe v && acc) true m
  | AInt _ | AInt32 _ | AFloat32 _ | AOther _ => false
  end.

(** No map in the value is nil. *)
Fixpoint nilFree {X} (v : any X) : bool :=
  match v with
  | ANilMap => false
  | ASlice l => forallb nilFree l
  | AMap m => map_fold (fun _ v acc => nilFree v && acc) true m
  | _ => true
  end.

Section Normalize.
Context {X : Type} `{!Dynamic X}.

Fixpoint normalize (v : any X) : any X :=
  match v with
  | AMap m => AMap (normalize <$> m)
  | ANilMap => AMap ∅
  | ASlice l => ASlice (normalize <$> l)
  | AInt x => AInt64 x
  | AInt32 x => AInt64 x
  | AInt64 _ | AFloat64 _ | AString _ | ABool _ | ANil => v
  | AFloat32 x => AFloat64 (float64of32 x)
  | AOther x =>
    match Int64 x with
    | Some (inr i) => AInt64 i
    | _ => match Float64 x with
           | Some (inr f) => AFloat64 f
           | _ => AString (Sprintf x)
           end
    end
  end.

(** ** Properties of values *)

Fixpoint size (v : any X) : nat :=
  match v with
  | ASlice l => S (sum_list_with size l)
  | AMap m => S (map_fold (fun _ v n => (size v + n)%nat) O m)
  | _ => O
  end.

Lemma size_map (m : gmap string (any X)) k v : m !! k = Some v -> (size v < size (AMap m))%nat.
Proof.
  intros Hk. cbn [size]. rewrite (map_fold_delete_L _ _ k v m); [lia| |done]. intros. lia.
Qed.

Lemma size_slice (l : list (any X)) v : v ∈ l -> (size v < size (ASlice l))%nat.
Proof. intros Hv. cbn [size]. apply sum_list_with_in with (f := size) in Hv. lia. Qed.

(** Induction on values, through slices and maps. *)
Lemma any_induction (P : any X -> Prop) :
  (forall v, match v with
             | ASlice l => forall x, x ∈ l -> P x
             | AMap m => forall k x, m !! k = Some x -> P x
             | _ => True
             end -> P v) ->
  forall v, P v.
Proof.
  intros Hstep v. induction v as [v IH] using (induction_ltof1 _ size). apply Hstep. unfold ltof in IH.
  destruct v; try done.
  - intros x Hx. by apply IH, size_slice.
  - intros k x Hx. by eapply IH, size_map.
Qed.

Lemma jsonSafe_map (m : gmap string (any X)) :
  jsonSafe (AMap m) = true <-> map_Forall (fun _ v => jsonSafe v = true) m.
Proof.
  cbn [jsonSafe]. induction m as [|k v m Hk Hfold IH] using map_first_key_ind.
  - rewrite map_fold_empty. split; [|done]. intros _. apply map_Forall_empty.
  - rewrite map_fold_insert_first_key, andb_true_iff, IH by done. by rewrite map_Forall_insert.
Qed.

Lemma jsonSafe_slice (l : list (any X)) :
  jsonSafe (ASlice l) = true <-> Forall (fun v => jsonSafe v = true) l.
Proof. cbn [jsonSafe]. rewrite forallb_forall, Forall_forall. by setoid_rewrite list_elem_of_In. Qed.

Lemma nilFree_map (m : gmap string (any X)) :
  nilFree (AMap m) = true <-> map_Forall (fun _ v => nilFree v = true) m.
Proof.
  cbn [nilFree]. induction m as [|k v m Hk Hfold IH] using map_first_key_ind.
  - rewrite map_fold_empty. split; [|done]. intros _. apply map_Forall_empty.
  - rewrite map_fold_insert_first_key, andb_true_iff, IH by done. by rewrite map_Forall_insert.
Qed.

Lemma nilFree_slice (l : list (any X)) :
  nilFree (ASlice l) = true <-> Forall (fun v => nilFree v = true) l.
Proof. cbn [nilFree]. rewrite forallb_forall, Forall_forall. by setoid_rewrite list_elem_of_In. Qed.

(** C32. Whatever [normalize] is given, its result has only the types [SetNestedField] accepts. *)
Theorem normalize_safe (v : any X) : jsonSafe (normalize v) = true.
Proof.
  induction v as [v IH] using any_induction. destruct v as [| | | | | | | |l|m| |x]; try done.
  - cbn [normalize]. apply jsonSafe_slice, Forall_fmap, Forall_forall. exact IH.
  - cbn [normalize]. apply jsonSafe_map, map_Forall_fmap. exact IH.
  - cbn [normalize]. destruct (Int64 x) as [[]|]; try done; by destruct (Float64 x) as [[]|].
Qed.

(** Nor does it have a nil map in it: maps are made anew. *)
Lemma normalize_nilFree (v : any X) : nilFree (normalize v) = true.
Proof.
  induction v as [v IH] using any_induction. destruct v as [| | | | | | | |l|m| |x]; try done.
  - cbn [normalize]. apply nilFree_slice, Forall_fmap, Forall_forall. exact IH.
  - cbn [normalize]. apply nilFree_map, map_Forall_fmap. exact IH.
  - cbn [normalize]. destruct (Int64 x) as [[]|]; try done; by destruct (Float64 x) as [[]|].
Qed.

(** A value that is safe and has no nil map is not changed, so normalizing twice changes no more. *)
Theorem normalize_id (v : any X) : jsonSafe v = true -> nilFree v = true -> normalize v = v.
Proof.
  induction v as [v IH] using any_induction. destruct v as [| | | | | | | |l|m| |x]; try done.
  - rewrite jsonSafe_slice, nilFree_slice, !Forall_forall. intros Hs Hn. cbn [normalize]. f_equal.
    rewrite <- (list_fmap_id l) at 2. apply list_fmap_ext. intros i y Hy%list_elem_of_lookup_2.
    by apply IH; [|apply Hs|apply Hn].
  - rewrite jsonSafe_map, nilFree_map. intros Hs Hn. cbn [normalize]. f_equal.
    rewrite <- (map_fmap_id m) at 2. apply map_fmap_ext. intros k y Hy.
    by apply (IH k y Hy); [apply (Hs k)|apply (Hn k)].
Qed.

End Normalize.

(** ** Other packages *)

Abbreviation fields X := (gmap string (any X)).

(** The [Object] of a resource: [None] is the nil map. *)
Abbreviation content X := (option (gmap string (any X))).

Definition asValue {X} (o : content X) : any X := match o with Some m => AMap m | None => ANilMap end.

(** The value at a path of nested maps. *)
Fixpoint within {X} (v : any X) (path : list string) : option (any X) :=
  match path with
  | [] => Some v
  | f :: path => match v with
                 | AMap m => match m !! f with Some v' => within v' path | None => None end
                 | _ => None
                 end
  end.
Definition nested {X} (o : content X) (path : list string) : option (any X) := within (asValue o) path.

(** What becomes of an assignment at a path: it succeeds, with maps made for the levels that miss; a
    level is there and is no map; or a level is the nil map, in which nothing can be stored. *)
Inductive passage : Type := Open | Blocked | NilMap.
Fixpoint way {X} (v : any X) (path : list string) : passage :=
  match path with
  | [] => Open
  | f :: path => match v with
                 | AMap m => match path, m !! f with
                             | _ :: _, Some v' => way v' path
                             | _, _ => Open
                             end
                 | ANilMap => NilMap
                 | _ => Blocked
                 end
  end.

(** [Eval] may change what it is given in place; it is only given copies.  [SetNestedField] gives the
    error, if any, and the map it was called on. *)
Class ProjectionDeps (X : Type) : Type := {
  MaybeQuery : string -> option string;
  Eval : string -> any X -> error + string;
  InferType : string -> any X;
  DeepCopyJSONValue : any X -> outcome (any X);
  SetNestedField : content X -> any X -> list string -> outcome (option error * content X);
  GetGeneration : content X -> Z
}.

(** Neither path goes through the other. *)
Definition apart (p p' : list string) : Prop := ~ p `prefix_of` p' /\ ~ p' `prefix_of` p.

(** [SetNestedField] stores a copy of the value and makes the maps that miss on the way; it returns an
    error, and changes nothing, when a level of the path is not a map; and storing in a nil map panics. *)
Class ProjectionLaws (X : Type) `{ProjectionDeps X} : Prop := {
  deep_copy_safe v : jsonSafe v = true -> DeepCopyJSONValue v = Ret v;
  set_open o v path :
    path <> [] -> jsonSafe v = true -> way (asValue o) path = Open ->
    exists o', SetNestedField o v path = Ret (None, o') /\ nested o' path = Some v;
  set_blocked o v path :
    path <> [] -> jsonSafe v = true -> way (asValue o) path = Blocked ->
    exists e, SetNestedField o v path = Ret (Some e, o);
  set_nil o v path :
    path <> [] -> jsonSafe v = true -> way (asValue o) path = NilMap ->
    exists why, SetNestedField o v path = Panic why;
  set_apart o v path r o' path' :
    SetNestedField o v path = Ret (r, o') -> apart path path' -> nested o' path' = nested o path';
  set_nilFree o v path r o' :
    SetNestedField o v path = Ret (r, o') -> nilFree (asValue o) = true -> nilFree v = true ->
    nilFree (asValue o') = true
}.

(** ** Project *)

Record Mapping : Type := mkMapping { ForPath : string; Expression : string }.

Section Project.
Context {X : Type} `{!Dynamic X} `{!ProjectionDeps X}.
Implicit Types (obj : content X) (m : Mapping).

(** The root: it gets its keys from the object as [built], and shares the object's maps, so its values
    are those of the object [now]. *)
Definition buildRoot (built now : content X) (resolved : fields X) : fields X :=
  let root := resolved in
  let root := <[ "self" := asValue now ]> root in
  let root := match built ≫= lookup "spec" with
              | Some _ => match now ≫= lookup "spec" with
                          | Some spec => <[ "spec" := spec ]> root | None => root end
              | None => root
              end in
  match built ≫= lookup "status" with
  | Some _ => match now ≫= lookup "status" with
              | Some status => <[ "status" := status ]> root | None => root end
  | None => root
  end.

Definition safeDeepCopy (v : any X) : error + any X :=
  match DeepCopyJSONValue v with
  | Ret v => inr v
  | Panic r => inl (New ("non-JSON-safe source data: " +:+ r))
  end.

(** [inr None]: nothing is to be written. *)
Definition evalOne (expression : string) (data : any X) : error + option (any X) :=
  match MaybeQuery expression with
  | Some q =>
    match Eval q data with
    | inl err => inl err
    | inr EmptyString => inr None
    | inr out => inr (Some (normalize (InferType out)))
    end
  | None => inr (Some (normalize (InferType expression)))
  end.

Definition pathOf (forPath : string) : list string := "status" :: Split "."%char forPath.

Definition setStatusField obj (forPath : string) (val : any X) : outcome (option error * content X) :=
  SetNestedField obj val (pathOf forPath).

Definition forPathError (forPath : string) (err : error) : error :=
  errorfW ("forPath " +:+ Quote forPath) err.

(** One iteration of the loop: the error it appends, if any, and the object. *)
Definition projectOne (built : content X) (resolved : fields X) obj (m : Mapping)
  : outcome (option error * content X) :=
  if String.eqb (ForPath m) EmptyString then Ret (Some (New "mapping with empty forPath"), obj) else
  match safeDeepCopy (AMap (buildRoot built obj resolved)) with
  | inl err => Ret (Some (forPathError (ForPath m) err), obj)
  | inr dataCopy =>
    match evalOne (Expression m) dataCopy with
    | inl err => Ret (Some (forPathError (ForPath m) err), obj)
    | inr None => Ret (None, obj)
    | inr (Some val) =>
      match setStatusField obj (ForPath m) val with
      | Ret (err, obj) => Ret (forPathError (ForPath m) <$> err, obj)
      | Panic why => Panic why
      end
    end
  end.

Fixpoint projectLoop (built : content X) (resolved : fields X) (mappings : list Mapping) obj
  (errs : list error) : outcome (list error * content X) :=
  match mappings with
  | [] => Ret (errs, obj)
  | m :: mappings =>
    r ← projectOne built resolved obj m;
    projectLoop built resolved mappings r.2 (errs ++ option_list r.1)
  end.

(** [None]: the nil resource; [Some None]: one whose [Object] is nil. *)
Definition Project (cr : option (content X)) (resolved : fields X) (mappings : list Mapping)
  : outcome (option error * option (content X)) :=
  match cr with
  | None => Ret (Some (New "nil cr"), None)
  | Some obj =>
    r ← projectLoop obj resolved mappings obj [];
    mret (joinErrors r.1, Some r.2)
  end.

Definition SetObservedGeneration (cr : option (content X))
  : outcome (option error * option (content X)) :=
  match cr with
  | None => Ret (Some (New "nil cr"), None)
  | Some obj =>
    r ← SetNestedField obj (AInt64 (GetGeneration obj)) ["status"; "observedGeneration"];
    mret (r.1, Some r.2)
  end.

End Project.

(** ** Properties of Project *)

Section Properties.
Context {X : Type} `{!Dynamic X} `{!ProjectionDeps X} `{!ProjectionLaws X}.
Implicit Types (obj o built : content X) (resolved : fields X) (m : Mapping) (l : list Mapping).

Lemma apart_head p p' k k' : k <> k' -> apart (k :: p) (k' :: p').
Proof. intros Hk. split; intros [q [=]]; congruence. Qed.

Lemma evalOne_normal e data v :
  evalOne e data = inr (Some v) -> jsonSafe v = true /\ nilFree v = true.
Proof.
  unfold evalOne. destruct (MaybeQuery e) as [q|]; [destruct (Eval q data) as [?|[]]; try done|];
    intros [= <-]; split; apply normalize_safe || apply normalize_nilFree.
Qed.

Lemma nilFree_way (v : any X) path : nilFree v = true -> way v path <> NilMap.
Proof.
  revert v. induction path as [|f path IH]; intros v Hv; [done|]. cbn [way].
  destruct v as [| | | | | | | | |m| |]; try done. destruct path as [|g path]; [done|].
  destruct (m !! f) as [v'|] eqn:Ef; [|done]. apply IH. by apply (proj1 (nilFree_map m) Hv f).
Qed.

(** A value is stored, refused without a change, or the store panics, as the path to it is. *)
Lemma setStatusField_run obj forPath v : jsonSafe v = true ->
  match way (asValue obj) (pathOf forPath) with
  | Open => exists obj', setStatusField obj forPath v = Ret (None, obj') /\
      nested obj' (pathOf forPath) = Some v
  | Blocked => exists e, setStatusField obj forPath v = Ret (Some e, obj)
  | NilMap => exists why, setStatusField obj forPath v = Panic why
  end.
Proof.
  intros Hv. unfold setStatusField. destruct (way _ _) eqn:Ew.
  - by apply set_open.
  - by apply set_blocked.
  - by apply set_nil.
Qed.

(** What a mapping that does not panic does: with an error it changes nothing, it leaves what is not
    under its path, and makes no map nil. *)
Lemma projectOne_ret built resolved obj m err obj' :
  projectOne built resolved obj m = Ret (err, obj') ->
  (is_Some err -> obj' = obj) /\
  (forall path, apart (pathOf (ForPath m)) path -> nested obj' path = nested obj path) /\
  (nilFree (asValue obj) = true -> nilFree (asValue obj') = true).
Proof.
  unfold projectOne. destruct (String.eqb (ForPath m) EmptyString); [by intros [= <- <-]|].
  destruct (safeDeepCopy _) as [e|data]; [by intros [= <- <-]|].
  destruct (evalOne _ data) as [e|[v|]] eqn:Ev; [by intros [= <- <-]| |by intros [= <- <-]].
  apply evalOne_normal in Ev as [Hv Hn]. pose proof (setStatusField_run obj (ForPath m) v Hv) as Hset.
  destruct (setStatusField obj (ForPath m) v) as [[e o1]|why] eqn:Es; [|done]. intros [= <- <-].
  split; [|split].
  - destruct (way _ _); [destruct Hset as (? & [= -> ->] & _); by intros []|
      by destruct Hset as (? & [= -> ->])|by destruct Hset].
  - intros path Hp. by eapply set_apart.
  - intros Ho. by eapply set_nilFree.
Qed.

(** It panics only on a nil map. *)
Lemma projectOne_total built resolved obj m :
  nilFree (asValue obj) = true -> exists err obj', projectOne built resolved obj m = Ret (err, obj').
Proof.
  intros Ho. unfold projectOne. destruct (String.eqb (ForPath m) EmptyString); [by eexists _, _|].
  destruct (safeDeepCopy _) as [e|data]; [by eexists _, _|].
  destruct (evalOne _ data) as [e|[v|]] eqn:Ev; [by eexists _, _| |by eexists _, _].
  apply evalOne_normal in Ev as [Hv _]. pose proof (setStatusField_run obj (ForPath m) v Hv) as Hset.
  destruct (way _ _) eqn:Ew; [| |by apply nilFree_way in Ew].
  - destruct Hset as (o1 & -> & _). by eexists _, _.
  - destruct Hset as (e & ->). by eexists _, _.
Qed.

Lemma projectLoop_errs built resolved l obj errs :
  projectLoop built resolved l obj errs =
  r ← projectLoop built resolved l obj []; mret (errs ++ r.1, r.2).
Proof.
  revert obj errs. induction l as [|m l IH]; intros obj errs; cbn [projectLoop].
  - change (Ret (errs, obj) = Ret (errs ++ [], obj)). by rewrite app_nil_r.
  - destruct (projectOne built resolved obj m) as [[err obj']|why]; [|done].
    change (projectLoop built resolved l obj' (errs ++ option_list err) =
      r ← projectLoop built resolved l obj' (option_list err); mret (errs ++ r.1, r.2)).
    rewrite (IH obj' (errs ++ _)), (IH obj' (option_list err)).
    destruct (projectLoop built resolved l obj' []) as [[es o]|w]; [|done].
    change (Ret ((errs ++ option_list err) ++ es, o) = Ret (errs ++ option_list err ++ es, o)).
    by rewrite app_assoc.
Qed.

Lemma projectLoop_app built resolved l1 l2 obj errs :
  projectLoop built resolved (l1 ++ l2) obj errs =
  r ← projectLoop built resolved l1 obj errs; projectLoop built resolved l2 r.2 r.1.
Proof.
  revert obj errs. induction l1 as [|m l1 IH]; intros obj errs; [done|].
  cbn [projectLoop app]. destruct (projectOne _ _ obj m) as [[err obj']|w]; [|done].
  exact (IH obj' _).
Qed.

Lemma projectLoop_run built resolved l obj :
  nilFree (asValue obj) = true ->
  exists errs obj', projectLoop built resolved l obj [] = Ret (errs, obj') /\
    nilFree (asValue obj') = true /\
    forall path, (forall m, m ∈ l -> apart (pathOf (ForPath m)) path) ->
      nested obj' path = nested obj path.
Proof.
  revert obj. induction l as [|m l IH]; intros obj Ho; cbn [projectLoop]; [by eexists _, _|].
  destruct (projectOne_total built resolved obj m Ho) as (err & obj1 & E1). rewrite E1.
  destruct (projectOne_ret _ _ _ _ _ _ E1) as (_ & H1 & Hn1).
  destruct (IH obj1 (Hn1 Ho)) as (errs & obj2 & E2 & Hn2 & H2).
  exists (option_list err ++ errs), obj2. split_and!; [|done|].
  - change (projectLoop built resolved l obj1 (option_list err) = Ret (option_list err ++ errs, obj2)).
    by rewrite projectLoop_errs, E2.
  - intros path Hp. rewrite H2 by (intros m' Hm'; apply Hp; by right). apply H1, Hp. by left.
Qed.

(** On an object without nil maps Project does not panic, whatever the expressions give, and it changes
    nothing but the status. *)
Theorem Project_only_status o resolved l :
  nilFree (asValue o) = true ->
  exists err o', Project (Some o) resolved l = Ret (err, Some o') /\
    forall k, k <> "status" -> nested o' [k] = nested o [k].
Proof.
  intros Ho. destruct (projectLoop_run o resolved l o Ho) as (errs & o' & E & _ & Hp).
  exists (joinErrors errs), o'. unfold Project. rewrite E. split; [done|]. intros k Hk.
  apply Hp. intros m _. by apply apart_head.
Qed.

(** A resource whose [Object] is nil: the first mapping that gets to write panics, outside the recover
    of [safeDeepCopy]. *)
Theorem Project_nil_panics resolved m l v :
  ForPath m <> EmptyString -> jsonSafe (AMap (buildRoot None None resolved)) = true ->
  evalOne (Expression m) (AMap (buildRoot None None resolved)) = inr (Some v) ->
  exists why, Project (Some None) resolved (m :: l) = Panic why.
Proof.
  intros Hf Hsafe Hev. apply String.eqb_neq in Hf. unfold Project. cbn [projectLoop]. unfold projectOne.
  rewrite Hf. unfold safeDeepCopy. rewrite (deep_copy_safe _ Hsafe), Hev.
  destruct (setStatusField_run None (ForPath m) v) as [why ->];
    [by eapply evalOne_normal|by exists why].
Qed.

(** C31. Degradation: a mapping that fails at its turn adds its error and is otherwise as if it were not
    there, also when a later one panics; the others are applied all the same.  A panic can only come
    from a nil map in the object: without one both calls return. *)
Theorem Project_degrades o resolved l1 m l2 es1 o1 e o1' :
  projectLoop o resolved l1 o [] = Ret (es1, o1) ->
  projectOne o resolved o1 m = Ret (Some e, o1') ->
  match projectLoop o resolved l2 o1 [] with
  | Ret (es2, o2) =>
    Project (Some o) resolved (l1 ++ m :: l2) = Ret (joinErrors (es1 ++ e :: es2), Some o2) /\
    Project (Some o) resolved (l1 ++ l2) = Ret (joinErrors (es1 ++ es2), Some o2)
  | Panic why =>
    nilFree (asValue o) = false /\
    Project (Some o) resolved (l1 ++ m :: l2) = Panic why /\
    Project (Some o) resolved (l1 ++ l2) = Panic why
  end.
Proof.
  intros E1 Em. destruct (projectOne_ret _ _ _ _ _ _ Em) as (Hfail & _).
  specialize (Hfail (mk_is_Some _ _ eq_refl)) as ->.
  unfold Project. rewrite !projectLoop_app, E1. cbn [projectLoop mbind outcome_bind fst snd].
  rewrite Em. cbn [mbind outcome_bind fst snd].
  rewrite !(projectLoop_errs _ _ l2 o1 (_ ++ _)), !(projectLoop_errs _ _ l2 o1 es1).
  destruct (projectLoop o resolved l2 o1 []) as [[es2 o2]|why] eqn:E2.
  - split; [|done]. cbn. by rewrite <- app_assoc.
  - split; [|done]. apply not_true_iff_false. intros Ho.
    destruct (projectLoop_run o resolved (l1 ++ l2) o Ho) as (es & o' & E & _).
    rewrite projectLoop_app, E1 in E. cbn [mbind outcome_bind fst snd] in E.
    by rewrite projectLoop_errs, E2 in E.
Qed.

(** C30. What is written, for an object without nil maps, which never makes Project panic: when the root as
    the mappings before left it has JSON types only, and no later mapping writes to a path that goes
    through the mapping's own, then in the end the normalized result of the expression over that root
    is at the mapping's path; unless a level of the path is there and is no map, in which case nothing
    is written there. *)
Theorem Project_written o resolved l1 m l2 v :
  nilFree (asValue o) = true -> ForPath m <> EmptyString ->
  (forall m', m' ∈ l2 -> apart (pathOf (ForPath m')) (pathOf (ForPath m))) ->
  exists e1 o1 err o',
    Project (Some o) resolved l1 = Ret (e1, Some o1) /\
    Project (Some o) resolved (l1 ++ m :: l2) = Ret (err, Some o') /\
    (jsonSafe (AMap (buildRoot o o1 resolved)) = true ->
     evalOne (Expression m) (AMap (buildRoot o o1 resolved)) = inr (Some v) ->
     nested o' (pathOf (ForPath m)) =
       match way (asValue o1) (pathOf (ForPath m)) with
       | Open => Some v
       | _ => nested o1 (pathOf (ForPath m))
       end).
Proof.
  intros Ho Hf Hap. destruct (projectLoop_run o resolved l1 o Ho) as (es1 & o1 & E1 & Ho1 & _).
  destruct (projectOne_total o resolved o1 m Ho1) as (e & o2 & Em).
  destruct (projectOne_ret _ _ _ _ _ _ Em) as (_ & _ & Ho2).
  destruct (projectLoop_run o resolved l2 o2 (Ho2 Ho1)) as (es2 & o3 & E3 & _ & Hp).
  exists (joinErrors es1), o1, (joinErrors ((es1 ++ option_list e) ++ es2)), o3. unfold Project.
  rewrite projectLoop_app, E1. cbn [mbind outcome_bind fst snd projectLoop]. rewrite Em.
  cbn [mbind outcome_bind fst snd]. rewrite (projectLoop_errs _ _ l2), E3. split_and!; [done..|].
  intros Hsafe Hev. rewrite (Hp _ Hap). unfold projectOne, safeDeepCopy in Em.
  apply String.eqb_neq in Hf. rewrite Hf, (deep_copy_safe _ Hsafe), Hev in Em.
  pose proof (setStatusField_run o1 (ForPath m) v (proj1 (evalOne_normal _ _ _ Hev))) as Hset.
  destruct (way _ _).
  - destruct Hset as (o2' & Es & Hn). rewrite Es in Em. by injection Em as <- <-.
  - destruct Hset as (e' & Es). rewrite Es in Em. by injection Em as <- <-.
  - destruct Hset as (why & Es). by rewrite Es in Em.
Qed.

(** [SetObservedGeneration] records the generation unless the status is no map, and changes nothing
    outside the status; it panics when the object or its status is a nil map. *)
Theorem SetObservedGeneration_spec o :
  match way (asValue o) ["status"; "observedGeneration"] with
  | NilMap => exists why, SetObservedGeneration (Some o) = Panic why
  | w => exists err o', SetObservedGeneration (Some o) = Ret (err, Some o') /\
      (w = Open -> err = None /\
         nested o' ["status"; "observedGeneration"] = Some (AInt64 (GetGeneration o))) /\
      (w = Blocked -> is_Some err /\ o' = o) /\
      forall k, k <> "status" -> nested o' [k] = nested o [k]
  end.
Proof.
  unfold SetObservedGeneration. set (path := ["status"; "observedGeneration"]).
  assert (Hap : forall r o' k, SetNestedField o (AInt64 (GetGeneration o)) path = Ret (r, o') ->
    k <> "status" -> nested o' [k] = nested o [k]).
  { intros r o' k E Hk. apply (set_apart _ _ _ _ _ _ E). by apply apart_head. }
  destruct (way (asValue o) path) eqn:Ew.
  - destruct (set_open o (AInt64 (GetGeneration o)) path) as (o' & E & Hn); [done..|].
    pose proof (fun k => Hap None o' k E) as Hk. rewrite E. eexists _, o'. by split_and!.
  - destruct (set_blocked o (AInt64 (GetGeneration o)) path) as (e & E); [done..|].
    rewrite E. by eexists _, o.
  - destruct (set_nil o (AInt64 (GetGeneration o)) path) as (why & E); [done..|].
    rewrite E. by exists why.
Qed.

End Properties.

End StatusProjection.
