(* ===== verification/ProjectionExamples.v ===== *)
(** * Status projection at work

    A small evaluator of paths in place of jq and the nested-field functions of apimachinery over
    finite maps, on which [Project] runs; the theorems of file StatusProjection applied there. *)

From S2P Require Import Prelude Errors GoStrings StatusProjection.
Import Errors GoStrings StatusProjection.

Module ProjectionExamples.

(** ** The other packages *)

(** Values of other types are numbers in text form, as [json.Number] is. *)
Fixpoint digits (acc : Z) (s : string) : option Z :=
  match s with
  | EmptyString => Some acc
  | String c s =>
    let d := Z.of_N (N_of_ascii c) - 48 in
    if (0 <=? d) && (d <=? 9) then digits (10 * acc + d) s else None
  end.

#[export] Instance Number_Dynamic : Dynamic string := {
  Int64 s := Some (match s, digits 0 s with
                   | String _ _, Some n => if n <=? max_int64 then inr n else inl (New "range")
                   | _, _ => inl (New "syntax")
                   end);
  Float64 _ := None;
  Sprintf s := s
}.

Abbreviation Fields := (fields string).
Abbreviation Content := (content string).

(** The assignment on a map that is not nil, along a path with no nil map on it. *)
Fixpoint setNested (m : Fields) (v : any string) (path : list string) : Fields :=
  match path with
  | [] => m
  | [f] => <[ f := v ]> m
  | f :: path =>
    match default (AMap ∅) (m !! f) with
    | AMap m1 => <[ f := AMap (setNested m1 v path) ]> m
    | _ => m
    end
  end.

Definition set (o : Content) (v : any string) (path : list string)
  : outcome (option error * Content) :=
  if negb (jsonSafe v) then Panic "cannot deep copy" else
  match way (asValue o) path with
  | NilMap => Panic "assignment to entry in nil map"
  | Blocked => Ret (Some (New "not a map"), o)
  | Open => Ret (None, (fun m => setNested m v path) <$> o)
  end.

(** A query starts with a dollar and is a dotted path to a text. *)
Definition lookupText (m : Fields) (path : string) : error + string :=
  match nested (Some m) (Split "."%char path) with
  | Some (AString s) => inr s
  | _ => inl (New "not found")
  end.

#[export] Instance Concrete_Deps : ProjectionDeps string := {
  MaybeQuery e := match e with String "$" q => Some q | _ => None end;
  Eval q data := match data with AMap m => lookupText m q | _ => inl (New "no object") end;
  InferType s := match s, digits 0 s with
                 | String _ _, Some n => AInt32 n
                 | _, _ => AString s
                 end;
  DeepCopyJSONValue v := if jsonSafe v then Ret v else Panic "cannot deep copy";
  SetNestedField := set;
  GetGeneration o := match nested o ["metadata"; "generation"] with Some (AInt64 n) => n | _ => 0 end
}.

Lemma setNested_cons m v f g path :
  setNested m v (f :: g :: path) =
  match default (AMap ∅) (m !! f) with
  | AMap m1 => <[ f := AMap (setNested m1 v (g :: path)) ]> m
  | _ => m
  end.
Proof. done. Qed.

Lemma way_cons (m : Fields) f g path :
  way (AMap m) (f :: g :: path) =
  match m !! f with Some v => way v (g :: path) | None => Open end.
Proof. done. Qed.

Lemma way_empty path : way (AMap (∅ : Fields)) path = Open.
Proof. destruct path as [|f [|g path]]; [done|done|]. by rewrite way_cons, lookup_empty. Qed.

Lemma setNested_written v path : forall m,
  path <> [] -> way (AMap m) path = Open -> within (AMap (setNested m v path)) path = Some v.
Proof.
  induction path as [|f path IH]; [done|]. intros m _ Hw.
  destruct path as [|g path]; [cbn; by rewrite lookup_insert_eq|].
  rewrite setNested_cons. rewrite way_cons in Hw. destruct (m !! f) as [x|]; cbn [default].
  - destruct x as [| | | | | | | | |m1| |]; try done. cbn [from_option id].
    cbn [within]. rewrite lookup_insert_eq. by apply IH.
  - cbn [from_option id within]. rewrite lookup_insert_eq. by apply IH, way_empty.
Qed.

Lemma apart_tail f p p' : apart (f :: p) (f :: p') -> apart p p'.
Proof. intros [H1 H2]. split; intros Hp; [apply H1|apply H2]; by apply prefix_cons. Qed.

Lemma within_empty path : path <> [] -> within (AMap (∅ : Fields)) path = None.
Proof. destruct path as [|f path]; [done|]. by cbn; rewrite lookup_empty. Qed.

Lemma setNested_apart v path : forall m path',
  apart path path' -> within (AMap (setNested m v path)) path' = within (AMap m) path'.
Proof.
  induction path as [|f path IH]; [done|]. intros m path' Hap.
  destruct path' as [|f' path']; [by destruct Hap as [_ []]; exists (f :: path)|].
  assert (Hother : forall x, f' <> f -> within (AMap (<[ f := x ]> m)) (f' :: path') =
    within (AMap m) (f' :: path')).
  { intros x Hf. cbn [within]. by rewrite lookup_insert_ne. }
  destruct path as [|g path].
  { apply Hother. intros ->. destruct Hap as [[] _]. by exists path'. }
  rewrite setNested_cons. destruct (default (AMap ∅) (m !! f)) as [| | | | | | | | |m1| |] eqn:Em;
    try done.
  destruct (decide (f' = f)) as [->|Hf]; [|by apply Hother]. apply apart_tail in Hap.
  cbn [within]. rewrite lookup_insert_eq, IH by done.
  destruct (m !! f) as [x|]; cbn in Em; [by rewrite Em|]. injection Em as <-. apply within_empty.
  intros ->. destruct Hap as [_ []]. by exists (g :: path).
Qed.

Lemma setNested_nilFree v path : forall m, nilFree v = true ->
  nilFree (AMap m) = true -> nilFree (AMap (setNested m v path)) = true.
Proof.
  induction path as [|f path IH]; [done|]. intros m Hv Hm.
  assert (Hin : forall x, nilFree x = true -> nilFree (AMap (<[ f := x ]> m)) = true).
  { intros x Hx. apply nilFree_map, map_Forall_insert_2; [done|]. by apply nilFree_map. }
  destruct path as [|g path]; [by apply Hin|]. rewrite setNested_cons.
  destruct (default (AMap ∅) (m !! f)) as [| | | | | | | | |m1| |] eqn:Em; try done.
  apply Hin, IH; [done|]. destruct (m !! f) as [x|] eqn:Ex; cbn in Em; [|by injection Em as <-].
  rewrite <- Em. by apply (proj1 (nilFree_map m) Hm f).
Qed.

Lemma set_ret o v path r o' : set o v path = Ret (r, o') ->
  o' = o \/ exists m, o = Some m /\ o' = Some (setNested m v path).
Proof.
  unfold set. destruct (negb (jsonSafe v)); [done|]. destruct (way (asValue o) path); [| |done].
  - intros [= <- <-]. destruct o as [m|]; [right|left; done]. by exists m.
  - intros [= <- <-]. by left.
Qed.

#[export] Instance Concrete_Laws : ProjectionLaws string.
Proof.
  split; cbn [SetNestedField DeepCopyJSONValue Concrete_Deps].
  - by intros v ->.
  - intros o v path Hp Hv Hw. unfold set. rewrite Hv, Hw. destruct o as [m|]; [|by destruct path].
    eexists. split; [done|]. by apply setNested_written.
  - intros o v path Hp Hv Hw. unfold set. rewrite Hv, Hw. by eexists.
  - intros o v path Hp Hv Hw. unfold set. rewrite Hv, Hw. by eexists.
  - intros o v path r o' path' [->|(m & -> & ->)]%set_ret Hap; [done|]. by apply setNested_apart.
  - intros o v path r o' [->|(m & -> & ->)]%set_ret Ho Hv; [done|]. by apply setNested_nilFree.
Qed.

(** ** Runs *)

Definition cr (status : Fields) : Content := Some $
  <[ "spec" := AMap {[ "host" := AString "h" ]} ]> (<[ "status" := AMap status ]>
    {[ "metadata" := AMap {[ "generation" := AInt64 4 ]} ]}).

Definition number : Mapping := mkMapping "network.port" "80".
Definition host : Mapping := mkMapping "network.host" "$spec.host".
Definition copied : Mapping := mkMapping "copy" "$self.status.network.host".
Definition broken : Mapping := mkMapping "other" "$helm.missing".

Definition after (ms : list Mapping) : outcome (option error * option Content) :=
  Project (Some (cr ∅)) ∅ ms.
Definition objectAfter (ms : list Mapping) : Content :=
  match after ms with Ret (_, Some o) => o | _ => None end.

(** Numbers are written as int64, and a failing mapping is reported. *)
Example project_run :
  after [number; broken] =
  Ret (joinErrors [forPathError "other" (New "not found")],
       Some (cr {[ "network" := AMap {[ "port" := AInt64 80 ]} ]})).
Proof. vm_compute. reflexivity. Qed.

(** The comment on the copies says that they isolate the mappings from one another.  They do not: the
    root holds the live object, so a mapping sees what an earlier one wrote, and the order matters. *)
Example mappings_not_isolated :
  nested (objectAfter [host; copied]) ["status"; "copy"] = Some (AString "h") /\
  nested (objectAfter [copied; host]) ["status"; "copy"] = None.
Proof. split; vm_compute; reflexivity. Qed.

(** ** Applications *)

Lemma Project_only_status_witness :
  exists err o', Project (Some (cr ∅)) ∅ [number; broken] = Ret (err, Some o') /\
    forall k, k <> "status" -> nested o' [k] = nested (cr ∅) [k].
Proof.
  apply (Project_only_status (cr ∅) ∅ [number; broken]). vm_compute. reflexivity.
Defined.

Lemma Project_nil_panics_witness :
  exists why, Project (Some None) (∅ : Fields) [number; broken] = Panic why.
Proof.
  apply (Project_nil_panics ∅ number [broken] (AInt64 80)); [done|vm_compute; reflexivity..].
Defined.

Lemma Project_degrades_witness :
  match projectLoop (cr ∅) ∅ [host] (objectAfter [number]) [] with
  | Ret (es2, o2) =>
    Project (Some (cr ∅)) ∅ ([number] ++ broken :: [host]) =
      Ret (joinErrors ([] ++ forPathError "other" (New "not found") :: es2), Some o2) /\
    Project (Some (cr ∅)) ∅ ([number] ++ [host]) = Ret (joinErrors ([] ++ es2), Some o2)
  | Panic why =>
    nilFree (asValue (cr ∅)) = false /\
    Project (Some (cr ∅)) ∅ ([number] ++ broken :: [host]) = Panic why /\
    Project (Some (cr ∅)) ∅ ([number] ++ [host]) = Panic why
  end.
Proof.
  assert (E1 : projectLoop (cr ∅) ∅ [number] (cr ∅) [] = Ret ([], objectAfter [number]))
    by (vm_compute; reflexivity).
  assert (E2 : projectOne (cr ∅) ∅ (objectAfter [number]) broken =
    Ret (Some (forPathError "other" (New "not found")), objectAfter [number]))
    by (vm_compute; reflexivity).
  exact (Project_degrades (cr ∅) ∅ [number] broken [host] [] (objectAfter [number])
    (forPathError "other" (New "not found")) (objectAfter [number]) E1 E2).
Defined.

(** Both cases of the match are met: a status that is a nil map makes the later mapping panic. *)
Example degrades_with_panic :
  let o : Content := Some {[ "status" := ANilMap ]} in
  (exists e o1, projectOne o ∅ o broken = Ret (Some e, o1)) /\
  is_panic (projectLoop o ∅ [number] o []) = true /\
  is_panic (projectLoop (cr ∅) ∅ [host] (objectAfter [number]) []) = false.
Proof. vm_compute. split; [by eexists _, _|done]. Qed.

Lemma Project_written_witness :
  exists e1 o1 err o',
    Project (Some (cr ∅)) ∅ [number] = Ret (e1, Some o1) /\
    Project (Some (cr ∅)) ∅ ([number] ++ host :: [copied]) = Ret (err, Some o') /\
    (jsonSafe (AMap (buildRoot (cr ∅) o1 ∅)) = true ->
     evalOne (Expression host) (AMap (buildRoot (cr ∅) o1 ∅)) = inr (Some (AString "h")) ->
     nested o' (pathOf (ForPath host)) =
       match way (asValue o1) (pathOf (ForPath host)) with
       | Open => Some (AString "h")
       | _ => nested o1 (pathOf (ForPath host))
       end).
Proof.
  apply (Project_written (cr ∅) ∅ [number] host [copied] (AString "h")).
  - vm_compute. reflexivity.
  - done.
  - intros m' ->%list_elem_of_singleton. by apply (bool_decide_unpack (apart _ _)).
Defined.

(** The value is written, and where the status is no map it is not. *)
Example written_and_refused :
  nested (objectAfter [number; host; copied]) (pathOf (ForPath host)) = Some (AString "h") /\
  Project (Some (Some {[ "status" := AString "up" ]})) ∅ [number] =
    Ret (joinErrors [forPathError "network.port" (New "not a map")],
         Some (Some {[ "status" := AString "up" ]})).
Proof. split; vm_compute; reflexivity. Qed.

End ProjectionExamples.
