(* ===== verification/ShutdownExamples.v ===== *)
(** * Shutdown at work

    Runs of [Run] with one worker that is processing an event when the context ends: with a window it
    finishes in, and with one it does not; the theorems of file Shutdown applied to them. *)

From S2P Require Import Prelude GoTime Shutdown.
Import GoTime Shutdown.

Module ShutdownExamples.

Definition window : Z := 30 * Second.

(** The state when the window opens, with the worker at [w]. *)
Definition waiting (now : Z) (w : worker) : RunState :=
  mkRun (RWait 0 window) [w] true true true false now window.

Ltac runStep r := eapply rtc_l; [apply r|].
Ltac moveWorker w := eapply rtc_l; [apply r_worker; eapply (p_one _ _ _ _ _ [] []); apply w; done|].
Ltac worker_moves w := exists 0; eapply (p_one _ _ _ _ _ [] []); by apply w.

Lemma run_to_drain : rtc (rstep 1) (start 0 window) (waiting 0 WBusy).
Proof.
  runStep r_synced. moveWorker w_launch. moveWorker w_get. runStep r_cancel. runStep r_begin. runStep r_close. runStep r_shutDown.
  apply rtc_once. by apply r_wait.
Qed.

(** The reconcile finishes, the worker leaves, Run returns. *)
Definition drained : RunState :=
  mkRun (RReturned EDrained) [WGone] true true true true 0 window.

Lemma run_drained : rtc (rstep 1) (start 0 window) drained.
Proof.
  etransitivity; [exact run_to_drain|]. moveWorker w_done. moveWorker w_shutdown. moveWorker w_quit.
  apply rtc_once, r_drained. by constructor.
Qed.

(** The reconcile does not finish in time. *)
Definition expired : RunState :=
  mkRun (RReturned (EExpired 0 window)) [WBusy] true true true true window window.

Lemma run_expired : rtc (rstep 1) (start 0 window) expired.
Proof.
  etransitivity; [exact run_to_drain|]. eapply rtc_l; [by apply (r_tick _ _ _ _ _ _ _ _ window)|].
  apply rtc_once. by apply r_expired.
Qed.

(** ** Applications *)

Lemma grace_respected_witness :
  queueShut expired = true /\
  (pc expired = RReturned EAbrupt \/
   (pc expired = RReturned EDrained /\ allGone (pool expired)) \/
   exists since timeout, pc expired = RReturned (EExpired since timeout) /\
     0 < timeout /\ since + timeout <= clock expired).
Proof. exact (grace_respected 1 0 window expired run_expired eq_refl). Defined.

Lemma no_new_work_witness :
  queueShut (waiting 0 WBusy) = true /\ (busy (pool (waiting 0 WBusy)) <= busy [WBusy])%nat.
Proof. exact (no_new_work 1 (waiting 0 WBusy) _ (rtc_refl _ _) eq_refl). Defined.

Lemma drain_terminates_witness :
  (3 <= 4 * length [WBusy])%nat /\ ((forall l2, ~ draining [WGone] l2) -> allGone [WGone]).
Proof.
  apply (drain_terminates [WBusy] [WGone] 3).
  apply (nsteps_l _ _ _ [WGet]); [worker_moves w_done|].
  apply (nsteps_l _ _ _ [WBackoff 0]); [worker_moves w_shutdown|].
  apply (nsteps_l _ _ _ [WGone]); [worker_moves w_quit|].
  apply nsteps_O.
Defined.

Lemma run_returns_witness : returns 1 (waiting 0 WBusy).
Proof. exact (run_returns 1 0 window _ run_to_drain eq_refl). Defined.

End ShutdownExamples.
