(* ===== verification/Concrete.v ===== *)
(** * A concrete cluster

    Instances of the interfaces of the development, on which its definitions run: an object as a
    record, an API server as a map of objects by name, an external resource that exists or not, a
    clock that advances by a second at each reading, and the priority queue over a sorted list with
    the controller's rate limiter.  The examples and the applications of the theorems use them. *)

From S2P Require Import Prelude GoTime Errors Meta Event RateLimiter BTree PriorityQueue.
From S2P Require Import PriorityQueueFacts PQSpin PQTrace PQMetrics QueueInstr QueueLaws.
From S2P Require Import Conditions Runtime Worker.
Import GoTime Errors Event Runtime SortedList PQMetrics.

Module Concrete.

(** ** Objects *)

Record Obj : Type := mkObj {
  annotations : option (gmap string string);
  labels : option (gmap string string);
  finalizers : list string;
  deletion : option Time;
  name : string;
  version : Z;
  content : gmap string Value
}.

#[export] Instance Obj_MetaObject : MetaObject Obj := {
  GetAnnotations := annotations;
  SetAnnotations o m :=
    mkObj m (labels o) (finalizers o) (deletion o) (name o) (version o) (content o);
  GetLabels := labels;
  SetLabels o m :=
    mkObj (annotations o) m (finalizers o) (deletion o) (name o) (version o) (content o);
  GetFinalizers := finalizers;
  SetFinalizers o f :=
    mkObj (annotations o) (labels o) f (deletion o) (name o) (version o) (content o);
  GetDeletionTimestamp := deletion;
  GetCreationTimestamp _ := mkTime Second 0;
  GetAPIVersion _ := "v1";
  GetKind _ := "Composition";
  GetName := name;
  GetNamespace _ := "default";
  GetResourceVersion o := appendInt (version o) 1
}.

#[export] Instance Obj_MetaObjectLaws : MetaObjectLaws Obj.
Proof. by split. Qed.

Definition valueAt (m : gmap string Value) (fields : list string) : option Value :=
  match fields with [] => None | f :: fields => Unstructured.lookupPath m f fields end.

Definition setContent (o : Obj) (m : gmap string Value) : Obj :=
  mkObj (annotations o) (labels o) (finalizers o) (deletion o) (name o) (version o) m.

#[export] Instance Obj_Unstructured : UnstructuredObject Obj := {
  Object := content;
  withObject := setContent;
  NestedSlice o fields := match valueAt (content o) fields with Some (VList l) => l | _ => [] end;
  SetNestedField o v fields :=
    match fields with
    | [] => inl (New "no fields")
    | f :: fields =>
      match Unstructured.setNestedLoop [] (content o) v f fields with
      | inl e => inl e
      | inr m => inr (setContent o m)
      end
    end;
  NestedFieldNoCopy o fields := inr (valueAt (content o) fields);
  RemoveNestedField o fields :=
    match fields with
    | [] => o
    | f :: fields => setContent o (Unstructured.removeNestedLoop (content o) f fields)
    end;
  marshalTime t := if IsZero t then VNull else VString (FormatRFC3339 (UTC t))
}.

#[export] Instance Obj_UnstructuredLaws : UnstructuredLaws Obj.
Proof.
  split.
  - intros o o' l fields. simpl. destruct fields as [|f fields]; [done|].
    destruct (Unstructured.setNestedLoop [] (content o) (VList l) f fields) as [e|m] eqn:Es; [done|].
    intros [= <-]. apply Unstructured.setNestedLoop_lookup in Es as [Es _]. simpl. by rewrite Es.
  - intros t Ht. simpl. by rewrite Ht.
  - intros t Ht. simpl. by rewrite Ht.
  - done.
Qed.

(** ** The cluster *)

Record Cluster : Type := mkCluster {
  clock : Z;
  store : gmap string Obj;
  external : bool;          (* the external resource exists *)
  upToDate : bool;
  failing : bool;           (* the external client's calls fail *)
  noTraceId : bool          (* no trace id can be generated *)
}.

Definition notFound : error := New "not found".
Definition unavailable : error := New "unavailable".

(** A write gets a new version; an object that is being deleted is gone with its last finalizer. *)
Definition write (o : Obj) (e : Cluster) : (error + Obj) * Cluster :=
  match store e !! name o with
  | None => (inl notFound, e)
  | Some old =>
    let o := mkObj (annotations o) (labels o) (finalizers o) (deletion o) (name o) (version old + 1)
               (content o) in
    let st := match deletion o, finalizers o with
              | Some _, [] => delete (name o) (store e)
              | _, _ => <[ name o := o ]> (store e)
              end in
    (inr o, mkCluster (clock e) st (external e) (upToDate e) (failing e) (noTraceId e))
  end.

Definition setExternal (b : bool) (e : Cluster) : Cluster :=
  mkCluster (clock e) (store e) b (upToDate e) (failing e) (noTraceId e).

#[export] Instance Cluster_World : World Cluster Obj string := {
  wNow e := (mkTime (clock e) 0,
             mkCluster (clock e + Second) (store e) (external e) (upToDate e) (failing e)
               (noTraceId e));
  wShortid e := ((if noTraceId e then Some unavailable else None), e);
  wGVKtoGVR _ _ e := (inr "compositions", e);
  wGet _ _ n e := (match store e !! n with Some o => inr o | None => inl notFound end, e);
  wUpdate _ _ o e := write o e;
  wUpdateStatus _ _ o e := write o e;
  wObserve o e :=
    ((o, (mkObservation (external e) (upToDate e), if failing e then Some unavailable else None)), e);
  wCreate o e := if failing e then ((o, Some unavailable), e) else ((o, None), setExternal true e);
  wExtUpdate o e := ((o, if failing e then Some unavailable else None), e);
  wExtDelete o e :=
    if failing e then ((o, Some unavailable), e) else ((o, None), setExternal false e)
}.

(** ** The queue *)

(** A limiter that delays by a second and forgets: the number of failures of each key. *)
Abbreviation Counts T := (gmap T Z).

#[export] Instance Counts_RateLimiter {T} `{Countable T} : RateLimiter T (Counts T) := {
  rlWhen _ k r := (Second, <[ k := default 0 (r !! k) + 1 ]> r);
  rlNumRequeues k r := default 0 (r !! k);
  rlForget _ k r := delete k r
}.

#[export] Instance Counts_ForgetResets {T} `{Countable T} : ForgetResets T (Counts T).
Proof. split. intros t k r. simpl. by rewrite lookup_delete_eq. Qed.

Abbreviation Queue T M := (PriorityQueue.PQ T (list (PriorityQueue.item T)) (Counts T) M).

Definition newQueue T `{Countable T} {M} `{QueueMetrics T M} (m : M) : Queue T M :=
  PriorityQueue.New (B := list (PriorityQueue.item T)) (∅ : Counts T) m.

(** ** A controller *)

Definition controller : ControllerT string := mkController true true "compositions" true true 3.

Abbreviation State := (St Cluster (Queue anyObj PQMetrics.noMetrics) Obj).

Definition epoch : Z := 63000000000 * Second.

Definition initial (o : Obj) (external upToDate failing noTraceId : bool) : State :=
  mkSt (mkCluster epoch {[ name o := o ]} external upToDate failing noTraceId)
    (newQueue anyObj (tt : PQMetrics.noMetrics)) ∅ [].

Definition object (a : gmap string string) (f : list string) (d : option Time) : Obj :=
  mkObj (Some a) None f d "db" 1 ∅.

Definition ref : ObjectRef := mkRef "v1" "Composition" "db" "default".
Definition eventOf (t : EventType) : Event.Event := mkEvent t ref (mkTime epoch 0).

(** The third-party hash: any function does. *)
Definition sum64 (s : string) : Z := Z.of_nat (String.length s).

Definition process (o : Obj) (ext up fail : bool) (t : EventType) : State * outcome (option error) :=
  Worker.processItem "Normal" controller (inl (eventOf t)) (initial o ext up fail false).

End Concrete.
