(* ===== verification/ConvergenceExamples.v ===== *)
(** * Convergence at work

    A cluster with one object that obeys the laws of file Cooperation: it accepts writes of its latest
    version only, keeps the status apart from the rest, and its external system does what it is told.
    The theorem of file Convergence applied to a create that was interrupted in it. *)

From S2P Require Import Prelude GoTime Errors Meta Event PriorityQueue QueueInstr QueueLaws.
From S2P Require Import PriorityQueueFacts PQMetrics BTree.
From S2P Require Import Conditions Runtime Worker Cooperation Convergence Concrete.
Import GoTime Errors Event Runtime Unstructured PQFacts SortedList PQMetrics Concrete Cooperation.
Import Convergence.

Module ConvergenceExamples.

(** ** Objects *)

(** A status whose conditions, if it has any, are as the controller writes them. *)
Definition statusShape (m : gmap string Value) : Prop :=
  m !! "status" = None \/
  exists st, m !! "status" = Some (VMap st) /\
    (st !! "conditions" = None \/
     exists cs, st !! "conditions" = Some (VList (encodeCondition (O := Obj) <$> cs)) /\ Forall dated cs).

Lemma stored_dated cs : Forall dated cs -> Forall dated (stored <$> cs).
Proof.
  intros Hcs. apply Forall_fmap. eapply Forall_impl; [exact Hcs|]. intros co [Ht [Ho Hf]].
  change (dated (stored co)). unfold dated, stored, truncSec, UTC. cbn [Condition.LastTransitionTime ns off].
  assert (E : ns (Condition.LastTransitionTime co) / Second * Second / Second =
    ns (Condition.LastTransitionTime co) / Second) by (unfold Second; lia).
  split; [unfold Second in *; lia|]. split; [exact Ho|]. cbn [ns off UTC] in *. by rewrite E.
Qed.

Lemma read_encoded (o : Obj) cs :
  NestedSlice o conditionsPath = (encodeCondition (O := Obj) <$> cs) -> Forall dated cs ->
  GetConditions (Some o) = Ret (Some (stored <$> cs)).
Proof.
  intros E Hcs. unfold GetConditions. rewrite E, <- (app_nil_r (encodeCondition <$> cs)).
  rewrite conditionsOf_encode; [done|]. eapply Forall_impl; [exact Hcs|apply dated_storable].
Qed.

#[export] Instance Obj_ObjectLaws : ObjectLaws Obj.
Proof.
  refine {| statusOk := fun o => statusShape (content o) |}; [done..| |].
  - intros o Hs. assert (Hread : exists cs, NestedSlice o conditionsPath =
        (encodeCondition (O := Obj) <$> cs) /\ Forall dated cs).
    { destruct Hs as [E|(st & E & [Ec|(cs & Ec & Hcs)])]; [exists []|exists []|exists cs];
        (split; [|done]); cbn; rewrite E; cbn; by rewrite ?Ec. }
    destruct Hread as (cs & E & Hcs). exists (Some (stored <$> cs)).
    split; [by apply read_encoded|by apply stored_dated].
  - intros o cs Hs Hcs. set (v := VList (encodeCondition (O := Obj) <$> cs)).
    assert (Hset : exists st, SetNestedField o v conditionsPath =
      inr (setContent o (<[ "status" := VMap (<[ "conditions" := v ]> st) ]> (content o)))).
    { destruct Hs as [E|(st & E & _)]; [exists ∅|exists st]; cbn; by rewrite E. }
    destruct Hset as [st Hset]. eexists. split; [exact Hset|]. split; [by split|]. split; [done|].
    right. cbn [content setContent]. eexists. split; [by rewrite lookup_insert_eq|]. right. exists cs.
    by rewrite lookup_insert_eq.
Defined.

(** ** The cluster *)

Record Coop : Type := mkCoop { clockOf : Z; objectOf : option Obj; externalOf : ExternalObservation }.

(** The clock stops at the end of the years that can be written. *)
Definition lastInstant : Z := 315537897599 * Second.
Definition reading (z : Z) : Z := Z.max Second (Z.min z lastInstant).

Definition conflict : error := New "the object has been modified".

Definition notFound : error := New "not found".

(** A write of the latest version, which gets the next one, with the content [m]. *)
Definition rewritten (o : Obj) (m : gmap string Value) : Obj :=
  mkObj (annotations o) (labels o) (finalizers o) (deletion o) (name o) (version o + 1) m.

Definition store (o : Obj) (m : Obj -> gmap string Value) (collects : bool) (e : Coop)
  : (error + Obj) * Coop :=
  match objectOf e with
  | None => (inl notFound, e)
  | Some cur =>
    if String.eqb (GetResourceVersion o) (GetResourceVersion cur) then
      let o' := rewritten o (m cur) in
      (inr o', mkCoop (clockOf e) (if collects && collected o' then None else Some o') (externalOf e))
    else (inl conflict, e)
  end.

Definition synchronize (e : Coop) : Coop := mkCoop (clockOf e) (objectOf e) inSync.

#[export] Instance Coop_World : World Coop Obj string := {
  wNow e := (mkTime (reading (clockOf e)) 0,
             mkCoop (clockOf e + Second) (objectOf e) (externalOf e));
  wShortid e := (None, e);
  wGVKtoGVR _ _ e := (inr "compositions", e);
  wGet _ _ _ e := (match objectOf e with Some o => inr o | None => inl notFound end, e);
  wUpdate _ _ o e := store o content true e;
  wUpdateStatus _ _ o e := store o (fun _ => content o) false e;
  wObserve o e := ((o, (externalOf e, None)), e);
  wCreate o e := ((o, None), synchronize e);
  wExtUpdate o e := ((o, None), synchronize e);
  wExtDelete o e := ((o, None), mkCoop (clockOf e) (objectOf e) absent)
}.

#[export] Instance Coop_View : ClusterView Coop Obj := {
  storedObject := objectOf;
  resource := externalOf;
  lastTime e := reading (clockOf e)
}.

Lemma quiet_refl (e : Coop) : quiet e e.
Proof. by split. Qed.

#[export] Instance Coop_Cooperative ref : Cooperative Coop Obj string ref.
Proof.
  split.
  - intros e. cbn. assert (Hr : Second <= reading (clockOf e) < 315537897600 * Second).
    { unfold reading, lastInstant, Second. lia. }
    assert (Hmono : reading (clockOf e) <= reading (clockOf e + Second)) by (unfold reading, Second; lia).
    assert (Hf : formattable (UTC (mkTime (reading (clockOf e)) 0))).
    { apply truncSec_UTC_formattable. cbn. unfold Second in *. lia. }
    split; [by split|]. split; [|cbn; lia]. split; [cbn; lia|by split].
  - intros a k e. split; [apply quiet_refl|by eexists].
  - intros e. split; [apply quiet_refl|done].
  - intros g e. split; [apply quiet_refl|]. cbn. destruct (objectOf e); [done|by eexists].
  - intros g o cur e Href Ho Hv Hs. cbn in Ho. cbn [wUpdate Coop_World]. unfold store.
    rewrite Ho, Hv, String.eqb_refl. eexists. by split_and!.
  - intros g o cur e Href Ho Hv Hs. cbn in Ho. cbn [wUpdateStatus Coop_World]. unfold store.
    rewrite Ho, Hv, String.eqb_refl. eexists. by split_and!.
  - intros o e Href. split; [apply quiet_refl|done].
  - done.
  - done.
  - done.
Qed.

(** ** A run *)

Abbreviation CoopState := (St Coop (Queue anyObj noMetrics) Obj).

(** An object without a finalizer, on which the process died after marking a create; the grace period is
    over and there is no external resource. *)
Definition interrupted : Obj :=
  object {[ Meta.AnnotationKeyExternalCreatePending := FormatRFC3339 (mkTime epoch 0) ]} [] None.

Definition begin : CoopState :=
  mkSt (mkCoop (epoch + 3 * Minute) (Some interrupted) absent)
    (newQueue anyObj (tt : noMetrics)) ∅ [].

Definition seen : Event.Event := eventOf Event.Observe.

Lemma pending_interrupted : Meta.GetExternalCreatePending interrupted = mkTime epoch 0.
Proof. vm_compute. reflexivity. Qed.

Lemma interrupted_live : live ref interrupted.
Proof. apply live_active; [reflexivity|reflexivity|vm_compute; reflexivity|by left]. Qed.

Lemma converges_witness : Meta.ExternalCreateIncomplete interrupted = true /\
  exists s', drive "Normal" 2 controller seen begin = (s', Ret true) /\ converged ref (env s').
Proof.
  split; [vm_compute; reflexivity|].
  apply (converges ref "Normal" controller seen interrupted begin).
  - done.
  - apply New_WF.
  - reflexivity.
  - discriminate.
  - discriminate.
  - reflexivity.
  - exact interrupted_live.
  - intros _. cbn [begin env storedObject Coop_View objectOf]. rewrite pending_interrupted.
    split; vm_compute; [reflexivity|discriminate].
Defined.

End ConvergenceExamples.
