(* ===== verification/QuickstartExamples.v ===== *)
(** * The quickstart example at work

    Command lines, a run of the program that is interrupted and drains, and what its reconciliation does to
    an object: the theorems of file Quickstart applied. *)

From S2P Require Import Prelude GoTime Errors Meta Event BTree PriorityQueue PQMetrics PriorityQueueFacts Conditions.
From S2P Require Import QueueInstr QueueLaws.
From S2P Require Import Runtime Worker Builder Shutdown Clients Quickstart Cooperation Convergence Concrete.
From S2P Require Import ConvergenceExamples.
Import GoTime Event Runtime Shutdown PQFacts SortedList PQMetrics Concrete Cooperation ConvergenceExamples Quickstart.

Module QuickstartExamples.

Example command_lines :
  Parse defaultFlags [] = inr defaultFlags /\
  Parse defaultFlags [("group", "a"); ("namespace", "n"); ("group", "b")] = inr (mkFlags "b" "v1" "samples" "n") /\
  Parse defaultFlags [("groups", "a")] = inl 2 /\ Parse defaultFlags [("h", "")] = inl 0.
Proof. done. Qed.

(** ** Setup *)

Definition smooth : Builder.surroundings := Builder.mkSurroundings None None None None None "/tmp".

Lemma setup_runs_witness :
  setup (P := unit) (RL := unit) (H := unit) (C := unit) smooth ∅ None [("namespace", "n")] =
    Ret (inr (Builder.mkBuilt (Builder.WithNamespace "n" Builder.defaultOptions) None (30 * Second))).
Proof.
  exact (setup_runs (P := unit) (RL := unit) (H := unit) (C := unit) smooth ∅ [("namespace", "n")]
    (mkFlags "samples.krateo.io" "v1" "samples" "n") eq_refl eq_refl eq_refl eq_refl eq_refl eq_refl).
Defined.

(** ** A run *)

Definition window : Z := 30 * Second.

(** The signal was taken, and the workers have left. *)
Definition signalled : Clients.process := Clients.mkProcess true 0 1 true None.
Definition left : RunState := mkRun (RReturned EDrained) [WGone; WGone] true true true true 0 window.

#[local] Ltac runs r := eapply rtc_l; [apply q_run; [split; [apply r|]|]; reflexivity|].
#[local] Ltac moves l1 l2 w :=
  eapply rtc_l; [apply q_run; [split; [apply r_worker; eapply (p_one _ _ _ _ _ l1 l2); apply w; done|]|]; reflexivity|].

Lemma interrupted_run : rtc (qstep false) (Quickstart.begin 0 window) (mkProgram signalled left (Some (Exit 0))).
Proof.
  eapply rtc_l; [by apply q_setup|]. runs r_synced.
  moves (@nil worker) [WLaunch] w_launch. moves (@nil worker) [WLaunch] w_get.
  eapply rtc_l; [by apply q_signal, Clients.p_deliver|]. eapply rtc_l; [by apply q_signal, Clients.p_receive|].
  eapply rtc_l; [by apply q_cancel|]. runs r_begin. runs r_close. runs r_shutDown.
  eapply rtc_l; [apply q_run; [split; [by apply r_wait|]|]; reflexivity|].
  moves (@nil worker) [WLaunch] w_done. moves (@nil worker) [WLaunch] w_shutdown. moves (@nil worker) [WLaunch] w_quit.
  moves [WGone] (@nil worker) w_stopped.
  eapply rtc_l; [apply q_run; [split; [apply r_drained; by repeat constructor|]|]; reflexivity|].
  by apply rtc_once, (q_return _ _ _ EDrained).
Qed.

(** Built on smooth surroundings, run, interrupted and drained: the exit code says that the workers left or
    the window passed. *)
Lemma program_exits_witness :
  launch (P := unit) (RL := unit) (H := unit) (C := unit) 0 smooth ∅ None [("namespace", "n")] =
    inr (Quickstart.begin 0 window) /\
  explained false window (mkProgram signalled left (Some (Exit 0))).
Proof.
  split; [reflexivity|].
  exact (proj2 (program_exits (P := unit) (RL := unit) (H := unit) (C := unit) false 0 smooth ∅ None
    [("namespace", "n")]) _ interrupted_run).
Defined.

(** A flag that is not there ends it before [Run]. *)
Example wrong_flag :
  launch (P := unit) (RL := unit) (H := unit) (C := unit) 0 smooth ∅ None [("groups", "a")] =
    inl (Exit 2).
Proof. reflexivity. Qed.

(** ** An object *)

Definition bare : Obj := object ∅ [] None.

Definition processed (o : Obj) (t : Event.EventType) : CoopState * outcome (option Errors.Errors.error) :=
  Worker.processItem (H1 := nopExternalClient Coop_World) "Normal" controller (inl (eventOf t))
    (mkSt (mkCoop epoch (Some o) absent) (newQueue anyObj (tt : noMetrics)) ∅ []).

(** The event of a new object, with the client of the example: there is nothing outside, before and after, but
    the object gets a finalizer and is said to be in order. *)
Example object_written :
  let '(s, res) := processed bare Event.Observe in
  res = Ret None /\ externalOf (env s) = absent /\ (finalizers <$> objectOf (env s)) = Some [Worker.finalizerName].
Proof. vm_compute. done. Qed.

End QuickstartExamples.
