(* ===== verification/Examples.v ===== *)
(** * Runs of the worker on the concrete cluster

    Evaluated examples: each runs the definitions on a small cluster and checks what they did. *)

From S2P Require Import Prelude GoTime Errors Meta Event RateLimiter BTree PriorityQueue.
From S2P Require Import PQMetrics QueueInstr Conditions Runtime Worker Protocol Concrete.
Import GoTime Errors Event Runtime SortedList PQMetrics Concrete.

Module Examples.

(** The calls of a run, oldest first, as short labels. *)
Definition label (e : effect Obj) : string :=
  match e with
  | EGet _ _ => "get"
  | EUpdate _ _ => "update"
  | EUpdateStatus _ _ => "status"
  | EObserve _ _ _ _ => "observe"
  | ECreate _ _ _ => "create"
  | EExtUpdate _ _ _ => "ext-update"
  | EExtDelete _ _ _ => "ext-delete"
  | EEnqueue _ _ => "enqueue"
  | _ => "other"
  end.
Definition labels (r : State * outcome (option error)) : list string :=
  label <$> rev (Protocol.calls (trace r.1)).

Definition plain : Obj := object ∅ [Worker.finalizerName] None.

(** A create writes its mark ahead and its success after. *)
Example create_run :
  labels (process plain false false false Event.Create) =
  ["get"; "get"; "update"; "get"; "create"; "get"; "update"; "get"; "status"].
Proof. vm_compute. reflexivity. Qed.

(** A missing resource is queued to be created. *)
Example observe_missing_run :
  labels (process plain false false false Event.Observe) = ["get"; "get"; "observe"; "get"; "enqueue"].
Proof. vm_compute. reflexivity. Qed.

(** The deletion of an object that should leave the external resource alone, and that another
    controller's finalizer still holds: the external resource is deleted all the same, and the other
    finalizer removed. *)
Definition orphan : Obj :=
  object {[ Meta.AnnotationKeyDeletionPolicy := "orphan" ]} [Worker.finalizerName; "other"]
    (Some (mkTime epoch 0)).

Example orphan_deleted_outside :
  Meta.ShouldDelete orphan = false /\
  labels (process orphan true true false Event.Delete) =
    ["get"; "update"; "get"; "ext-delete"; "get"; "status"; "update"] /\
  external (env (process orphan true true false Event.Delete).1) = false /\
  store (env (process orphan true true false Event.Delete).1) !! "db" = None.
Proof. vm_compute. done. Qed.

(** A create that the process did not see end, met again by a Create event: the recovery observes that the
    resource exists and records the success, and the event then creates it once more. *)
Definition unfinished : Obj :=
  object {[ Meta.AnnotationKeyExternalCreatePending := FormatRFC3339 (mkTime epoch 0) ]}
    [Worker.finalizerName] None.

Example recovered_created_again :
  Meta.ExternalCreateIncomplete unfinished = true /\
  labels (process unfinished true true false Event.Create) =
    ["get"; "observe"; "update"; "get"; "update"; "get"; "create"; "get"; "update"; "get"; "status"].
Proof. vm_compute. done. Qed.

(** The same deletion with no other finalizer: the object is gone once the controller's is, and the event
    ends in an error. *)
Definition orphanAlone : Obj :=
  object {[ Meta.AnnotationKeyDeletionPolicy := "orphan" ]} [Worker.finalizerName] (Some (mkTime epoch 0)).

Example orphan_deletion_fails :
  labels (process orphanAlone true true false Event.Delete) = ["get"; "update"; "get"] /\
  (process orphanAlone true true false Event.Delete).2 = Ret (Some notFound).
Proof. vm_compute. done. Qed.

(** An object that is being deleted, and whose external resource is gone already, met by an event that was
    queued before: the observation queues a create, and that creates the resource again. *)
Definition leavingObject : Obj := object ∅ [Worker.finalizerName; "other"] (Some (mkTime epoch 0)).

Example deleted_created_again :
  labels (process leavingObject false false false Event.Observe) =
    ["get"; "get"; "observe"; "get"; "enqueue"] /\
  labels (process leavingObject false false false Event.Create) =
    ["get"; "get"; "update"; "get"; "create"; "get"; "update"; "get"; "status"] /\
  external (env (process leavingObject false false false Event.Create).1) = true.
Proof. vm_compute. done. Qed.

End Examples.
