(* ===== verification/Witnesses.v ===== *)
(** * The theorems at work

    Each lemma applies one theorem of the development to a concrete input of file Concrete, where its
    hypotheses are discharged by computation. *)

From S2P Require Import Prelude GoTime Errors Meta Event RateLimiter BTree PriorityQueue.
From S2P Require Import PriorityQueueFacts PQSpin PQTrace PQMetrics PQDepth QueueInstr QueueLaws.
From S2P Require Import Conditions Runtime Worker Protocol WorkerFacts Controller ControllerFacts.
From S2P Require Import Concrete.
Import GoTime Errors Event Runtime SortedList PQFacts PQMetrics Controller Concrete.

Module Witnesses.

(** ** Runs of the worker *)

Definition plain : Obj := object ∅ [Worker.finalizerName] None.
Definition dying : Obj := object ∅ [Worker.finalizerName] (Some (mkTime epoch 0)).
Definition paused : Obj := object {[ Meta.AnnotationKeyReconciliationPaused := "true" ]} [] None.

Definition before (o : Obj) : State := initial o true true false false.
Definition missing (o : Obj) : State := initial o false false false false.

Definition createTrace : list (effect Obj) :=
  trace (Worker.processItem "Normal" controller (inl (eventOf Event.Create)) (missing plain)).1.
Definition deleteTrace : list (effect Obj) :=
  trace (Worker.processItem "Normal" controller (inl (eventOf Event.Delete)) (before dying)).1.
Definition observeTrace : list (effect Obj) :=
  trace (Worker.processItem "Normal" controller (inl (eventOf Event.Observe)) (missing plain)).1.

Definition subject (e : effect Obj) : Obj * Obj :=
  match e with
  | ECreate el el' _ | EExtUpdate el el' _ | EExtDelete el el' _ | EObserve el el' _ _ => (el, el')
  | EUpdate el (inr el') | EUpdateStatus el (inr el') => (el, el')
  | _ => (plain, plain)
  end.
Definition nothing : effect Obj := EMetric IncGetFailure.

Lemma processItem_refines_witness : exists new,
  Protocol.processed "Normal" controller (eventOf Event.Create) (missing plain) new /\
  Protocol.follows (eventOf Event.Create) (Protocol.calls new).
Proof. apply Protocol.processItem_refines. Defined.

Lemma write_ahead_witness : exists l3 u r l4 h t,
  skipn 5 (Protocol.calls createTrace) = l3 ++ EUpdate u (inr r) :: l4 /\
  Protocol.inHand l4 = Some h /\ u = Meta.SetExternalCreatePending h t /\
  Forall (fun e => match e with EUpdate _ _ | ECreate _ _ _ => False | _ => True end) l3.
Proof.
  apply (Protocol.write_ahead "Normal" controller (eventOf Event.Create) (missing plain) createTrace
    (firstn 4 (Protocol.calls createTrace))
    (subject (nth 4 (Protocol.calls createTrace) nothing)).1
    (subject (nth 4 (Protocol.calls createTrace) nothing)).2 None).
  - vm_compute. reflexivity.
  - vm_compute. reflexivity.
Defined.

Lemma one_external_change_witness :
  (length (filter (fun e => Protocol.mutates e = true) (Protocol.calls createTrace)) <= 1)%nat /\
  forall l2 e l1 el, Protocol.calls createTrace = l2 ++ e :: l1 ->
    match e with
    | EObserve u _ _ _ | ECreate u _ _ | EExtUpdate u _ _ | EExtDelete u _ _ => u = el
    | _ => False
    end -> Protocol.inHand l1 = Some el /\ existsb Protocol.mutates l1 = false.
Proof.
  apply (Protocol.one_external_change "Normal" controller (eventOf Event.Create) (missing plain)).
  vm_compute. reflexivity.
Defined.

Lemma finalizers_guarded_witness :
  existsb Protocol.deletedOk (skipn 1 (Protocol.calls deleteTrace)) = true \/
  (Meta.WasDeleted (subject (nth 1 (Protocol.calls deleteTrace) nothing)).2 = true /\
   Meta.ShouldDelete (subject (nth 1 (Protocol.calls deleteTrace) nothing)).2 = false).
Proof.
  apply (Protocol.finalizers_guarded "Normal" controller (eventOf Event.Delete) (before dying)
    deleteTrace [] (subject (nth 0 (Protocol.calls deleteTrace) nothing)).1
    (inr (subject (nth 0 (Protocol.calls deleteTrace) nothing)).2)
    (skipn 1 (Protocol.calls deleteTrace)) Worker.finalizerName).
  - vm_compute. reflexivity.
  - vm_compute. reflexivity.
  - vm_compute. reflexivity.
  - by left.
  - vm_compute. apply not_elem_of_nil.
Defined.

Lemma enqueues_what_it_saw_witness :
  let opts := PriorityQueue.mkAddOpts 0 false 100 in
  let obj : anyObj := inl (mkEvent Event.Create ref (mkTime (epoch + 8 * Second) 0)) in
  let l1 := skipn 1 (Protocol.calls observeTrace) in
  let evt := eventOf Event.Observe in
  (exists el el' h obs l0 t,
     l1 = EGet (objectRef evt) (inr h) :: EObserve el el' obs None :: l0 /\
     opts = PriorityQueue.mkAddOpts 0 false Worker.HighPriority /\
     ((ResourceExists obs = false /\ obj = inl (mkEvent Event.Create (Worker.refOf h) t)) \/
      (ResourceExists obs = true /\ ResourceUpToDate obs = false /\
       obj = inl (mkEvent Event.Update (Worker.refOf h) t)))) \/
  (exists el h obs l0 t t',
     l1 = EObserve el h obs None :: l0 /\ Protocol.inHand l0 = Some el /\
     Meta.ExternalCreateIncomplete el = true /\ ResourceExists obs = false /\
     Meta.ExternalCreatePendingDuring t h Worker.externalCreateRecoveryGracePeriod = true /\
     opts = PriorityQueue.mkAddOpts Worker.externalCreateRecoveryReobserveInterval false
              Worker.LowPriority /\
     obj = inl (mkEvent (eventType evt) (objectRef evt) t')).
Proof.
  apply (Protocol.enqueues_what_it_saw "Normal" controller (eventOf Event.Observe) (missing plain)
    observeTrace [] (PriorityQueue.mkAddOpts 0 false 100)
    (inl (mkEvent Event.Create ref (mkTime (epoch + 8 * Second) 0)))).
  - vm_compute. reflexivity.
  - vm_compute. reflexivity.
Defined.

(** *** Single answers *)

Lemma missing_object_dropped_witness : exists s' l,
  Worker.processItem "Normal" controller
    (inl (mkEvent Event.Observe (mkRef "v1" "Composition" "gone" "default") zeroTime)) (before plain)
  = (s', Ret None) /\ trace s' = l ++ [] /\ Forall WorkerFacts.harmless l /\
  queue s' = queue (before plain) /\ items s' = items (before plain).
Proof.
  eapply (WorkerFacts.missing_object_dropped "Normal" controller); vm_compute; reflexivity.
Defined.

Lemma paused_untouched_witness : exists l,
  trace (Worker.processItem "Normal" controller (inl (eventOf Event.Update)) (before paused)).1
  = l ++ [] /\ Forall WorkerFacts.harmless l.
Proof.
  eapply (WorkerFacts.paused_untouched "Normal" controller); vm_compute; reflexivity.
Defined.

Definition observeEnd : State :=
  (Worker.handleObserve "Normal" controller ref (missing plain)).1.
Definition deleteEnd : State := (Worker.handleDelete "Normal" controller ref (before dying)).1.

Lemma observe_returns :
  (Worker.handleObserve "Normal" controller ref (missing plain)).2 = Ret None.
Proof. vm_compute. reflexivity. Qed.

Lemma delete_returns :
  (Worker.handleDelete "Normal" controller ref (before dying)).2 = Ret None.
Proof. vm_compute. reflexivity. Qed.

Lemma handleObserve_success_witness : exists new,
  trace observeEnd = new ++ [] /\
  ((externalClient controller = false /\ Protocol.calls new = []) \/
   exists el el' obs h last,
     Protocol.calls new = [last; EGet ref (inr h); EObserve el el' obs None; EGet ref (inr el)] /\
     if ResourceExists obs then
       if ResourceUpToDate obs then exists u r, last = EUpdateStatus u (inr r)
       else exists t, last = EEnqueue (PriorityQueue.mkAddOpts 0 false Worker.HighPriority)
                               (inl (mkEvent Event.Update (Worker.refOf h) t))
     else exists t, last = EEnqueue (PriorityQueue.mkAddOpts 0 false Worker.HighPriority)
                             (inl (mkEvent Event.Create (Worker.refOf h) t))).
Proof.
  apply (WorkerFacts.handleObserve_success "Normal" controller ref (missing plain) observeEnd).
  exact (pair_snd _ _ observe_returns).
Defined.

Lemma handleDelete_success_witness : exists new,
  trace deleteEnd = new ++ [] /\
  ((externalClient controller = false /\ Protocol.calls new = []) \/
   exists el el' h u r res,
     Protocol.calls new =
       [EUpdate (SetFinalizers r []) (inr res); EUpdateStatus u (inr r); EGet ref (inr h);
        EExtDelete el el' None; EGet ref (inr el)]).
Proof.
  apply (WorkerFacts.handleDelete_success "Normal" controller ref (before dying) deleteEnd).
  exact (pair_snd _ _ delete_returns).
Defined.

Lemma failed_event_requeued_witness : exists s' l,
  Worker.finishEvent sum64 controller (eventOf Event.Create) 100 (Some unavailable) (missing plain)
  = (s', Ret tt) /\ trace s' = l ++ [] /\
  EEnqueue (PriorityQueue.mkAddOpts 0 true 100) (inl (eventOf Event.Create)) ∈ l /\
  DigestForEvent sum64 (eventOf Event.Create) ∈ items s'.
Proof.
  apply (WorkerFacts.failed_event_requeued sum64 controller).
  - done.
  - apply PQFacts.New_WF.
Defined.

Definition noId : State := initial plain true true false true.

Lemma shortid_failure_leaks_witness : exists s' l,
  Worker.runWorkerStep "Normal" sum64 controller
    (inl (eventOf Event.Observe), 0, false) noId
  = (s', Ret true) /\ queue s' = queue noId /\ items s' = items noId /\
  trace s' = l ++ trace noId /\ Forall (fun e : effect Obj => exists m, e = EMetric m) l.
Proof.
  eapply (WorkerFacts.shortid_failure_leaks "Normal" sum64 controller); vm_compute; reflexivity.
Defined.

(** ** The informer *)

Definition specOf (o : Obj) : error + option Z := inr (Some (match content o !! "spec" with
  | Some (VNumber n) => n | _ => 0 end)).
Definition specDiff (a b : option Z) : string := if bool_decide (a = b) then "" else "different".
Definition rule : AnnotationEvent := mkAnnotationEvent Event.Update "config" OnChange.

Definition bumped (o : Obj) : Obj :=
  mkObj (annotations o) (labels o) (finalizers o) (deletion o) (name o) (version o + 1) (content o).
Definition withSpec (n : Z) (o : Obj) : Obj := setContent (bumped o) {[ "spec" := VNumber n ]}.
Definition marked : Obj := bumped (Meta.SetExternalCreatePending plain (mkTime epoch 0)).

Lemma own_writes_ignored_witness :
  UpdateFunc specOf specDiff sum64 NewDefaultActionsEvent [rule]
    (RUnstructured plain) (RUnstructured marked) (before plain) = (before plain, Ret tt).
Proof.
  apply (ControllerFacts.own_writes_ignored sum64 NewDefaultActionsEvent specOf specDiff [rule]
    plain marked (Some 0) (Some 0)).
  - reflexivity.
  - intros r [->|Hr]%elem_of_cons; [vm_compute; reflexivity|by apply not_elem_of_nil in Hr].
  - reflexivity.
  - reflexivity.
  - reflexivity.
  - vm_compute. discriminate.
Defined.

Lemma AddFunc_once_witness :
  let s := before plain in
  ControllerFacts.wants sum64 (GetEventType NewDefaultActionsEvent CRCreated) plain
    (match Meta.lookupAnnotation plain Meta.AnnotationKeyExternalCreateFailed,
           Meta.lookupAnnotation plain Meta.AnnotationKeyExternalCreatePending,
           Meta.lookupAnnotation plain Meta.AnnotationKeyExternalCreateSucceeded with
     | None, None, None => Worker.NormalPriority
     | _, _, _ => Worker.LowPriority
     end)
    s (AddFunc sum64 NewDefaultActionsEvent (RUnstructured plain) s) /\
  forall s1, AddFunc sum64 NewDefaultActionsEvent (RUnstructured plain) s = (s1, Ret tt) ->
    forall (el' : Obj) (s2 : State),
      Worker.refOf el' = Worker.refOf plain -> items s1 ⊆ items s2 -> qOk (queue s2) ->
    exists s3, AddFunc sum64 NewDefaultActionsEvent (RUnstructured el') s2 = (s3, Ret tt) /\
      trace s3 = trace s2 /\ queue s3 = queue s2 /\ items s3 = items s2.
Proof.
  apply (ControllerFacts.AddFunc_once sum64 NewDefaultActionsEvent plain (before plain)).
  apply New_WF.
Defined.

Lemma UpdateFunc_deletion_witness :
  ControllerFacts.wants sum64 (GetEventType NewDefaultActionsEvent CRDeleted) dying
    Worker.HighPriority (before plain)
    (UpdateFunc specOf specDiff sum64 NewDefaultActionsEvent [rule]
       (RUnstructured plain) (RUnstructured dying) (before plain)).
Proof.
  apply (ControllerFacts.UpdateFunc_deletion sum64 NewDefaultActionsEvent specOf specDiff [rule]).
  - apply New_WF.
  - reflexivity.
Defined.

Lemma UpdateFunc_compare_witness :
  let new := withSpec 7 plain in
  (specDiff (Some 7) (Some 0) <> EmptyString ->
   ControllerFacts.wants sum64 (GetEventType NewDefaultActionsEvent CRUpdated) new
     Worker.HighPriority (before plain)
     (UpdateFunc specOf specDiff sum64 NewDefaultActionsEvent [rule]
        (RUnstructured plain) (RUnstructured new) (before plain))) /\
  (specDiff (Some 7) (Some 0) = EmptyString -> GetResourceVersion plain = GetResourceVersion new ->
   ControllerFacts.wants sum64 (GetEventType NewDefaultActionsEvent CRObserved) new
     Worker.LowPriority (before plain)
     (UpdateFunc specOf specDiff sum64 NewDefaultActionsEvent [rule]
        (RUnstructured plain) (RUnstructured new) (before plain))).
Proof.
  apply (ControllerFacts.UpdateFunc_compare sum64 NewDefaultActionsEvent specOf specDiff [rule]).
  - apply New_WF.
  - reflexivity.
  - intros r [->|Hr]%elem_of_cons; [vm_compute; reflexivity|by apply not_elem_of_nil in Hr].
  - reflexivity.
  - reflexivity.
Defined.

Definition configured (v : string) : Obj := object {[ "config" := v ]} [] None.

Lemma watched_annotation_witness : exists s' q,
  UpdateFunc specOf specDiff sum64 NewDefaultActionsEvent [rule]
    (RUnstructured (configured "a")) (RUnstructured (configured "b")) (before plain) = (s', Ret tt) /\
  trace s' = EEnqueue (PriorityQueue.mkAddOpts 0 false Worker.NormalPriority)
               (inl (mkEvent (aeEventType rule) (Worker.refOf (configured "b")) q)) :: [] /\
  items s' = items (before plain).
Proof.
  apply (ControllerFacts.watched_annotation_not_deduplicated sum64 NewDefaultActionsEvent specOf specDiff
    [rule] (configured "a") (configured "b") [] rule []).
  - apply New_WF.
  - reflexivity.
  - reflexivity.
  - intros r Hr. by apply not_elem_of_nil in Hr.
  - vm_compute. reflexivity.
Defined.

Lemma drain_bounds_witness :
  (0 <= 30 -> exists t, Some 12 = Some t /\ t <= 30) /\
  (forall d, Some 12 = Some d -> 30 < 0 \/ d < 30 -> 30 <> 0 -> false = false /\ Some 12 = Some d).
Proof.
  apply (ControllerFacts.drain_bounds 30 (Some 12)). by apply drain_in_time.
Defined.

End Witnesses.
