(* ===== verification/QueueWitnesses.v ===== *)
(** * The theorems at work: the queue and the libraries

    Applications of the theorems of the priority queue, its instrumentation, the metadata helpers, the
    conditions, the rate limiter and the errors to concrete inputs. *)

From S2P Require Import Prelude GoTime Errors Meta Event RateLimiter BTree PriorityQueue.
From S2P Require Import PriorityQueueFacts PQSpin PQTrace PQMetrics PQDepth QueueLoops QueueInstr QueueLaws.
From S2P Require Import Conditions Concrete.
Import GoTime PriorityQueue PQFacts PQSpin PQTrace SortedList PQMetrics Concrete.

Module QueueWitnesses.

Abbreviation StringQueue := (Queue string noMetrics).

Definition t0 : Time := mkTime epoch 0.
Definition empty : StringQueue := newQueue string (tt : noMetrics).
Definition orElse (x : outcome StringQueue) : StringQueue :=
  match x with Ret w => w | Panic _ => empty end.

(** Two items without a delay, of priorities 0 and 100, and two waiting workers. *)
Definition q1 : StringQueue := orElse (AddWithOpts t0 (mkAddOpts 0 false 0) ["a"] empty).
Definition q2 : StringQueue := orElse (AddWithOpts t0 (mkAddOpts 0 false 100) ["b"] q1).
Definition q3 : StringQueue := (enterGet q2).1.

Lemma run_q3 : qruns (mkRun empty t0 None) [] (mkRun q3 t0 None).
Proof.
  apply (runs_step _ [] (mkRun q2 t0 None) []); [|apply step_get].
  apply (runs_step _ [] (mkRun q1 t0 None) []);
    [|apply (step_add t0 (mkAddOpts 0 false 100) ["b"]); [reflexivity|vm_compute; reflexivity]].
  apply (runs_step _ [] (mkRun empty t0 None) []); [apply runs_nil|].
  apply (step_add t0 (mkAddOpts 0 false 0) ["a"]); [reflexivity|vm_compute; reflexivity].
Qed.

Lemma q3_WF : WF q3.
Proof. exact (qruns_WF (mkRun empty t0 None) [] (mkRun q3 t0 None) (New_WF _ _) run_q3). Qed.

Definition all (_ : string) : bool := true.
Definition none (_ : string) : nat := 0.
Definition q4 : StringQueue * list (item string) * option Z := spin t0 none all q3.

Lemma step_q4 :
  qstep (mkRun q3 t0 None) (EvHand <$> q4.1.2) (mkRun q4.1.1 t0 q4.2).
Proof. apply (step_spin t0 none all q3). unfold q4. by destruct (spin t0 none all q3) as [[? ?] ?]. Qed.

Lemma run_q4 : qruns (mkRun empty t0 None) (EvHand <$> q4.1.2) (mkRun q4.1.1 t0 q4.2).
Proof. exact (runs_step (mkRun empty t0 None) [] _ _ _ run_q3 step_q4). Qed.

Lemma mutual_exclusion_witness :
  exclusive (EvHand <$> q4.1.2) /\
  (shutdown q4.1.1 = false -> locked q4.1.1 = outstanding (EvHand <$> q4.1.2)).
Proof.
  apply (mutual_exclusion (∅ : Counts string) (tt : noMetrics) t0 (EvHand <$> q4.1.2) (mkRun q4.1.1 t0 q4.2)). exact run_q4.
Defined.

Lemma no_lost_wakeup_witness : quiet (mkRun q4.1.1 t0 q4.2).
Proof. apply (no_lost_wakeup (∅ : Counts string) (tt : noMetrics) t0 (EvHand <$> q4.1.2)). exact run_q4. Defined.

(** "a" was to be due in nine seconds and is asked for in five; "c" is new. *)
Definition q5 : StringQueue := orElse (AddWithOpts t0 (mkAddOpts (9 * Second) false 0) ["a"] empty).

Lemma AddWithOpts_merges_witness :
  let o := mkAddOpts (5 * Second) false 7 in
  requested t0 o (rateLimiter q5) ["a"; "c"] =
    [("a", Some (Add t0 (5 * Second))); ("c", Some (Add t0 (5 * Second)))] /\
  exists w', AddWithOpts t0 o ["a"; "c"] q5 = Ret w' /\ WF w' /\
    itemOrWaiterAdded w' = true /\ locked w' = locked q5 /\ waiters w' = waiters q5 /\
    (forall k, k ∉ ["a"; "c"] -> items w' !! k = items q5 !! k) /\
    forall k, k ∈ ["a"; "c"] -> exists it', items w' !! k = Some it' /\
      match items q5 !! k with
      | Some it =>
        AddedCounter it' = AddedCounter it /\ Priority it' = Z.max (Priority it) 7 /\
        earliest (fun d => d = ReadyAt it \/ (k, d) ∈ requested t0 o (rateLimiter q5) ["a"; "c"])
          (ReadyAt it')
      | None =>
        addedCounter q5 <= AddedCounter it' /\ Priority it' = 7 /\
        earliest (fun d => (k, d) ∈ requested t0 o (rateLimiter q5) ["a"; "c"]) (ReadyAt it')
      end.
Proof.
  assert (Hw : WF q5).
  { apply (qruns_WF (mkRun empty t0 None) [] (mkRun q5 t0 None) (New_WF _ _)).
    apply (runs_step _ [] (mkRun empty t0 None) []); [apply runs_nil|].
    apply (step_add t0 (mkAddOpts (9 * Second) false 0) ["a"]); [reflexivity|vm_compute; reflexivity]. }
  split; [reflexivity|].
  apply (AddWithOpts_merges t0 (mkAddOpts (5 * Second) false 7) ["a"; "c"] q5 Hw).
  - vm_compute. reflexivity.
  - vm_compute. reflexivity.
  - discriminate.
Defined.

(** A second worker comes when the walk is at "a". *)
Definition late (k : string) : nat := if decide (k = "a") then 1 else 0.

Lemma spin_hands_eligible_witness :
  let ready := readyPrefix t0 (elems q3) in
  let free := filter (fun it => Key it ∉ locked q3) ready in
  let out := (spin t0 late all q3).1.2 in
  let w' := (spin t0 late all q3).1.1 in
  out `sublist_of` free /\
  (forall pre it post, ready = pre ++ it :: post ->
     it ∈ out <-> ((Key it ∉ locked q3) /\
       Z.of_nat (length (filter (fun x => x ∈ out) pre)) <
         waiters q3 + Z.of_nat (came late (pre ++ [it])))) /\
  (came late ready = 0%nat -> out = take (Z.to_nat (waiters q3)) free) /\
  (spin t0 late all q3).2 = firstWait t0 (elems q3) /\
  WF w' /\ (forall it, it ∈ elems w' <-> it ∈ elems q3 /\ it ∉ out) /\
  locked w' = list_to_set (Key <$> out) ∪ locked q3 /\
  waiters w' = waiters q3 + Z.of_nat (came late ready) - Z.of_nat (length out) /\
  itemOrWaiterAdded w' = (0 <? came late ready)%nat.
Proof.
  apply (spin_hands_eligible t0 late all q3 q3_WF). vm_compute. reflexivity.
Defined.

(** The worker gets "b", of the greater priority; "a" stays. *)
Definition itemA : item string := mkItem "a" 0 0 None.
Definition itemB : item string := mkItem "b" 1 100 None.

Lemma handed_before_left_witness :
  (lessP itemB itemA /\
   (ReadyAt itemB = None -> ReadyAt itemA = None -> Priority itemA <= Priority itemB /\
     (Priority itemB = Priority itemA -> AddedCounter itemB < AddedCounter itemA)) /\
   (ReadyAt itemB <> None -> ReadyAt itemA <> None)) \/
  exists pre mid post, readyPrefix t0 (elems q3) = pre ++ itemA :: mid ++ itemB :: post /\
    waiters q3 + Z.of_nat (came none (pre ++ [itemA])) <=
      Z.of_nat (length (filter (fun x => x ∈ (spin t0 none all q3).1.2) pre)) /\
    (0 < came none (mid ++ [itemB]))%nat /\
    itemOrWaiterAdded (spin t0 none all q3).1.1 = true.
Proof.
  apply (handed_before_left t0 none all q3 itemB itemA q3_WF).
  - vm_compute. reflexivity.
  - vm_compute. by left.
  - vm_compute. by left.
  - reflexivity.
  - vm_compute. by intros ?.
Defined.

(** The exception at work: no worker waits when the walk passes "b", one comes before it is at "a", and
    gets "a", of the lesser priority. *)
Example late_worker :
  let '(w, out, _) := spin t0 late all q2 in
  out = [itemA] /\ elems w = [itemB] /\ itemOrWaiterAdded w = true.
Proof. vm_compute. done. Qed.

Lemma shutdown_final_witness :
  let w' := ShutDown q3 in
  ShutDown w' = w' /\ AddWithOpts t0 (mkAddOpts 0 false 0) ["z"] w' = Ret w' /\
  enterGet w' = (w', false) /\
  forall tr r t tm, qruns (mkRun w' t tm) tr r -> WF q3 -> shutdown (runQueue r) = true.
Proof. apply (shutdown_final t0 (mkAddOpts 0 false 0) ["z"] q3). Defined.

(** *** Metrics *)

Abbreviation MeteredQueue := (Queue string (defaultQueueMetrics string)).
Definition metered : MeteredQueue := newQueue string (newDefaultQueueMetrics true).

Definition metered1 : MeteredQueue :=
  match AddWithOpts t0 (mkAddOpts 0 false 5) ["a"; "b"] metered with Ret w => w | Panic _ => metered end.

Lemma metrics_truthful_witness :
  (forall P, true = true \/ P = (fun _ => true) ->
     PQDepth.gauge P (calls (metrics metered1)) =
     PQDepth.depthOf P (items metered1) (becameReady metered1)) /\
  (forall k, is_Some (addTimes (metrics metered1) !! k) <->
     exists it, items metered1 !! k = Some it /\ PQDepth.counted (becameReady metered1) k it = true) /\
  dom (processingStartTimes (metrics metered1)) = locked metered1.
Proof.
  apply (PQDepth.metrics_truthful (∅ : Counts string) true t0 [] (mkRun metered1 t0 None)).
  apply (runs_step _ [] (mkRun metered t0 None) []); [apply runs_nil|].
  apply (step_add t0 (mkAddOpts 0 false 5) ["a"; "b"]); [reflexivity|vm_compute; reflexivity].
Defined.

(** ** Metadata *)

Definition bare : Obj := object ∅ ["a"; "composition.krateo.io/finalizer"; "b"] None.
Definition at_ (s : Z) : Time := mkTime (epoch + s * Second) 0.
Definition attempts : list Meta.attempt :=
  [Meta.mkAttempt (at_ 1) (Meta.Failed (at_ 2)); Meta.mkAttempt (at_ 3) Meta.Crashed].

Lemma at_ns s : ns (at_ s) = (63000000000 + s) * 1000000000.
Proof.
  assert (ns (at_ s) = epoch + s * Second) as -> by reflexivity. unfold epoch, Second. lia.
Qed.

Lemma at_formattable s : 0 <= s <= 9 -> formattable (at_ s).
Proof.
  intros Hs. apply (truncSec_UTC_formattable (at_ s)). rewrite at_ns. unfold Second. lia.
Qed.

Lemma handshake_history_witness :
  Meta.ExternalCreateIncomplete (Meta.runAttempts bare attempts) = true.
Proof.
  pose proof at_formattable as Hf.
  apply (Meta.handshake_history 0 bare attempts).
  - vm_compute. repeat split; discriminate.
  - repeat split; try (apply Hf; lia); vm_compute; congruence.
Defined.

(** Another finalizer is listed twice. *)
Definition twice : Obj := object ∅ ["a"; "composition.krateo.io/finalizer"; "a"] None.

Lemma RemoveFinalizer_once_witness :
  Meta.RemoveFinalizer twice "composition.krateo.io/finalizer" =
    Ret (SetFinalizers twice
      (filter (fun y => y <> "composition.krateo.io/finalizer") (GetFinalizers twice))) /\
  "composition.krateo.io/finalizer" ∉
    filter (fun y => y <> "composition.krateo.io/finalizer") (GetFinalizers twice).
Proof.
  apply (Meta.RemoveFinalizer_once twice "composition.krateo.io/finalizer").
  vm_compute. reflexivity.
Defined.

(** ** Events *)

Definition ref1 : Event.ObjectRef := Event.mkRef "v1" "Composition" "db" "default".
Definition ref2 : Event.ObjectRef := Event.mkRef "v1" "Composition" "web" "default".
Definition e1 : Event.Event := Event.mkEvent Event.Create ref1 t0.
Definition e2 : Event.Event := Event.mkEvent Event.Create ref2 t0.

Definition sum (s : string) : Z := Z.of_nat (String.length s) mod 2 ^ 64.

Lemma digest_spec_witness :
  (Event.DigestForEvent sum e1 = Event.DigestForEvent sum e2 <->
   sum (Event.cleanText (Event.eventType e1) (Event.objectRef e1)) =
   sum (Event.cleanText (Event.eventType e2) (Event.objectRef e2))) /\
  (Event.cleanText (Event.eventType e1) (Event.objectRef e1) =
   Event.cleanText (Event.eventType e2) (Event.objectRef e2) <->
   Event.eventType e1 = Event.eventType e2 /\ Event.objectRef e1 = Event.objectRef e2).
Proof.
  apply (Event.digest_spec sum e1 e2).
  - intros s. apply Z.mod_pos_bound. reflexivity.
  - reflexivity.
  - reflexivity.
Defined.

Definition rules : Event.AnnotationEvents :=
  [Event.mkAnnotationEvent Event.Update "config" Event.OnChange].

Lemma Add_spec_witness :
  let ae := Event.Add rules Event.Observe "config" Event.OnAny true in
  NoDup (Event.annotationsOf ae) /\
  Event.ruleOf ae "config" = Some (Event.mkAnnotationEvent Event.Observe "config" Event.OnAny) /\
  (forall b, b <> "config" -> Event.ruleOf ae b = Event.ruleOf rules b).
Proof.
  apply (Event.Add_spec rules Event.Observe "config" Event.OnAny true).
  apply (bool_decide_unpack _). vm_compute. exact I.
Defined.

(** ** The rate limiter *)

Lemma delays_exponential_witness :
  RateLimiting.delays 0 "a" [at_ 0; at_ 0; at_ 0; at_ 0]
    (RateLimiting.NewExponentialTimedFailureRateLimiter (3 * Second) (20 * Second)) =
  (fun k => Z.min (20 * Second) (3 * Second * 2 ^ k)) <$> seqZ 0 4.
Proof.
  apply (RateLimiting.delays_exponential 0 "a" (3 * Second) (20 * Second) (at_ 0)
    [at_ 0; at_ 0; at_ 0]).
  - split; [vm_compute; split; congruence|]. split; [reflexivity|]. split; [vm_compute; congruence|].
    intros k Hk Heq. assert (2 ^ 63 mod 3 = 0) as Hm; [|by vm_compute in Hm].
    rewrite <- Heq. replace (3 * Second * 2 ^ k) with ((Second * 2 ^ k) * 3) by lia.
    by apply Z.mod_mul.
  - simpl. lia.
  - vm_compute. repeat split; congruence.
Defined.

(** ** Conditions *)

Import Condition Unstructured.

Definition fresh : Obj := object ∅ [] None.
Definition withConditions (cs : list Condition) (o : Obj) : Obj :=
  match SetConditions (Some o) cs with Ret (None, Some o') => o' | _ => o end.
Definition available : Obj := withConditions [Available (at_ 0)] fresh.

Lemma storable_at s c : 0 <= s <= 9 -> LastTransitionTime c = at_ s -> storable c.
Proof.
  intros Hs Hc. unfold storable. rewrite Hc. split.
  - unfold IsZero. rewrite at_ns. apply Z.eqb_neq. lia.
  - by apply (at_formattable s).
Qed.

Lemma SetConditions_roundtrip_witness :
  GetConditions (Some (withConditions [Creating (at_ 1); ReconcileSuccess (at_ 2)] available)) =
  Ret (Some (stored <$> foldl Upsert (default [] (Some [stored (Available (at_ 0))]))
    [Creating (at_ 1); ReconcileSuccess (at_ 2)])).
Proof.
  apply (SetConditions_roundtrip available _ (Some [stored (Available (at_ 0))])).
  - vm_compute. reflexivity.
  - vm_compute. reflexivity.
  - discriminate.
  - apply Forall_singleton, (storable_at 0); [lia|]. vm_compute. reflexivity.
  - apply Forall_cons. split; [by apply (storable_at 1)|].
    apply Forall_singleton. by apply (storable_at 2).
Defined.

Definition creating : Obj := withConditions [Creating (at_ 1)] fresh.

Lemma IsAvailable_spec_witness :
  (IsAvailable (Some creating) = Ret (true, None) <->
   Forall (fun c => has positives (Type_ c) = true -> Status c = "True")
     (default [] (Some [stored (Creating (at_ 1))]))) /\
  forall e, IsAvailable (Some creating) = Ret (false, Some e) ->
    exists c, c ∈ default [] (Some [stored (Creating (at_ 1))]) /\
      has positives (Type_ c) = true /\ Status c <> "True" /\
      FailedObjectRef e = Some (refOf creating) /\ Err e = Errors.New (Reason c).
Proof. apply (IsAvailable_spec creating). vm_compute. reflexivity. Defined.

Definition failed : Obj :=
  match SetFailedObjectRef (Some fresh) (Some ref2) with Ret (inr o) => o | _ => fresh end.

Lemma failedObjectRef_roundtrip_witness :
  (exists m, lookupPath (Object failed) "status" ["failedObjectRef"] = Some (VMap m) /\
     m !! "apiVersion" = Some (VString "v1") /\ m !! "kind" = Some (VString "Composition") /\
     m !! "name" = Some (VString "web") /\ m !! "namespace" = Some (VString "default")) /\
  (exists o'', UnsetFailedObjectRef (Some failed) = Ret (Some o'') /\
     lookupPath (Object o'') "status" ["failedObjectRef"] = None /\
     forall g, g <> "status" -> Object o'' !! g = Object fresh !! g).
Proof. apply (failedObjectRef_roundtrip fresh failed ref2). vm_compute. reflexivity. Defined.

(** ** A line of the debug log *)

Definition added (p : Z) (k : string) (q : MeteredQueue) : MeteredQueue :=
  match AddWithOpts (at_ 0) (mkAddOpts 0 false p) [k] q with Ret q => q | Panic _ => q end.

(** The items are collected, then the priority of the second one is raised, then the line is written: it shows
    an order in which the queue never stood. *)
Example line_torn :
  let q := added 0 "b" (added 0 "a" metered) in
  let line := QueueLoops.reads (added 5 "b" q) <$> elems q in
  (Key <$> line) = ["a"; "b"] /\ (Priority <$> line) = [0; 5] /\
  (Key <$> elems (added 5 "b" q)) = ["b"; "a"].
Proof. vm_compute. done. Qed.

End QueueWitnesses.
