(* ===== verification/SystemExamples.v ===== *)
(** * The system at work

    A concrete run of the informer, [spin] and two workers, to which the invariants of the system are
    applied, and which shows what they do not give: the queue keeps two workers from one key, but a
    key is a whole event, so two workers can process one object at the same time. *)

From S2P Require Import Prelude GoTime Errors Meta Event RateLimiter BTree PriorityQueue PQMetrics.
From S2P Require Import PriorityQueueFacts PQTrace QueueInstr Conditions Runtime Controller Threads.
From S2P Require Import System.
From S2P Require Import Concrete Witnesses.
Import GoTime Event Runtime Controller SortedList PQFacts PQMetrics Threads System Concrete.

Module SystemExamples.

Abbreviation EventQueue := (Queue anyObj noMetrics).

Definition t0 : Time := mkTime epoch 0.
Definition t1 : Time := mkTime (epoch + Second) 0.

Abbreviation step :=
  (sstep Witnesses.specOf Witnesses.specDiff sum64 NewDefaultActionsEvent [Witnesses.rule] 5).
Abbreviation thread_of n :=
  (tHandler Witnesses.specOf Witnesses.specDiff sum64 NewDefaultActionsEvent [Witnesses.rule] n
     (fun _ => TEnd)).

Definition seen : notice (O := Obj) := Added (RUnstructured Witnesses.plain).
Definition changed : notice (O := Obj) :=
  Updated (RUnstructured Witnesses.plain) (RUnstructured (Witnesses.withSpec 1 Witnesses.plain)).

(** The queue and [items] after the object was seen, and after its spec was changed. *)
Definition orStart (x : outcome (EventQueue * gset string)) : EventQueue * gset string :=
  match x with Ret st => st | Panic _ => (newQueue anyObj (tt : noMetrics), ∅) end.
Definition st0 : EventQueue * gset string := (newQueue anyObj (tt : noMetrics), ∅).
Definition st1 : EventQueue * gset string := orStart (exec t0 (thread_of seen) st0).
Definition st2 : EventQueue * gset string := orStart (exec t1 (thread_of changed) st1).

(** Both workers ask, and [spin] runs. *)
Definition q3 : EventQueue := (PriorityQueue.enterGet (PriorityQueue.enterGet st2.1).1).1.
Definition spun : EventQueue * list (PriorityQueue.item anyObj) * option Z :=
  PriorityQueue.spin t1 (fun _ => 0%nat) (fun _ => true) q3.

Definition observeEvent : Event.Event := mkEvent Event.Observe (Worker.Worker.refOf Witnesses.plain) t0.
Definition updateEvent : Event.Event := mkEvent Event.Update (Worker.Worker.refOf Witnesses.plain) t1.

Lemma exec_ret (t : Time) (th : thread) (st : EventQueue * gset string) :
  is_panic (exec t th st) = false -> exec t th st = Ret (orStart (exec t th st)).
Proof. by destruct (exec t th st). Qed.

Lemma handed_both : spun.1.2 =
  [PriorityQueue.mkItem (inl updateEvent) 1 100 None;
   PriorityQueue.mkItem (inl observeEvent) 0 0 None].
Proof. vm_compute. reflexivity. Qed.

Lemma none_came : arrivals t1 (fun _ => 0%nat) q3 = 0%nat.
Proof. vm_compute. reflexivity. Qed.

Lemma run_informer (n : notice (O := Obj)) (t : Time) (st : EventQueue * gset string)
  (ws : list wstate) (lk : list anyObj) :
  is_panic (exec t (thread_of n) st) = false ->
  rtc step (mkSys st.1 st.2 TEnd ws lk)
    (mkSys (orStart (exec t (thread_of n) st)).1 (orStart (exec t (thread_of n) st)).2 TEnd ws lk).
Proof.
  intros He%exec_ret. eapply rtc_l; [apply (s_notice _ _ _ _ _ _ n)|].
  eapply exec_steps. rewrite <- surjective_pairing, He. by destruct (orStart _).
Qed.

(** The state in which the two workers have an event each. *)
Definition both : Sys (list (PriorityQueue.item anyObj)) (Counts anyObj) noMetrics :=
  mkSys spun.1.1 st2.2 TEnd [WWork (inl updateEvent) 100; WWork (inl observeEvent) 0] [].

Lemma run_both : rtc step (start (∅ : Counts anyObj) (tt : noMetrics) 2) both.
Proof.
  etransitivity; [exact (run_informer seen t0 st0 [WIdle; WIdle] [] ltac:(vm_compute; reflexivity))|].
  etransitivity; [exact (run_informer changed t1 st1 [WIdle; WIdle] [] ltac:(vm_compute; reflexivity))|].
  eapply rtc_l; [apply (s_get _ _ _ _ _ _ _ _ _ [] [WIdle])|].
  eapply rtc_l; [apply (s_get _ _ _ _ _ _ _ _ _ [WParked] [])|]. apply rtc_once.
  eapply (s_spin _ _ _ _ _ _ t1 (fun _ => 0%nat) (fun _ => true) q3 _ _ spun.2).
  - fold spun. rewrite <- surjective_pairing. apply surjective_pairing.
  - rewrite handed_both, none_came. apply (during_hand _ _ _ [] [WParked]).
    apply (during_hand _ _ _ [_] []). apply during_nil.
Qed.

(** Two workers on one object: an object that is seen and then changed before a worker gets to it is
    observed by one worker and updated by another at the same time. *)
Example two_workers_one_object : exists e1 e2 p1 p2,
  rtc step (start (∅ : Counts anyObj) (tt : noMetrics) 2) both /\
  sWorkers both = [WWork (inl e1) p1; WWork (inl e2) p2] /\
  e1 <> e2 /\ objectRef e1 = objectRef e2.
Proof.
  exists updateEvent, observeEvent, 100, 0. split; [exact run_both|]. split; [done|].
  split; [by intros [=]|done].
Qed.

Lemma no_digest_lost_witness :
  DigestForEvent sum64 observeEvent ∈ sItems both /\
  (queued sum64 (sQueue both) (DigestForEvent sum64 observeEvent) \/
   leaked sum64 (sLeaked both) (DigestForEvent sum64 observeEvent) \/
   carriesT sum64 (DigestForEvent sum64 observeEvent) (sInformer both) \/
   exists w, w ∈ sWorkers both /\ carries sum64 (DigestForEvent sum64 observeEvent) w).
Proof.
  assert (Hin : DigestForEvent sum64 observeEvent ∈ sItems both).
  { apply (bool_decide_eq_true_1 (DigestForEvent sum64 observeEvent ∈ sItems both)). vm_compute.
    reflexivity. }
  split; [exact Hin|]. exact (no_digest_lost _ _ _ _ _ _ _ _ _ _ _ run_both Hin).
Defined.

Lemma one_worker_per_key_witness :
  NoDup (sWorkers both ≫= held) /\
  (forall k, k ∈ PriorityQueue.locked (sQueue both) <->
     k ∈ sLeaked both \/ exists w, w ∈ sWorkers both /\ k ∈ held w) /\
  PriorityQueue.waiters (sQueue both) = parked (sWorkers both).
Proof. exact (one_worker_per_key _ _ _ _ _ _ _ _ _ _ run_both). Defined.

End SystemExamples.
