(* ===== verification/LifecycleExamples.v ===== *)
(** * Lifecycles at work

    The theorems of file Lifecycle applied to the cooperative cluster of ConvergenceExamples, with a
    controller that [New] assembled, telemetry included: an object whose create was interrupted is noticed,
    changed and noticed again, also in a burst, and while its provider is unavailable; a deleted object is
    let go of. *)

From S2P Require Import Prelude GoTime Errors Meta Event RateLimiter BTree PriorityQueue PQMetrics.
From S2P Require Import PriorityQueueFacts QueueInstr QueueLaws Conditions Runtime Worker.
From S2P Require Import Cooperation Convergence Deletion Controller Threads Serving Backlog Lifecycle Recovery Assembly.
From S2P Require Import Concrete ConvergenceExamples Witnesses.
Import GoTime Event Runtime Controller PQFacts SortedList PQMetrics Concrete Threads Cooperation Convergence.
Import Deletion Backlog Lifecycle Recovery Assembly ConvergenceExamples.

Module LifecycleExamples.

(** A controller with telemetry, and its queue. *)
Definition options : Options := mkOptions true false true true true true true (3 * Minute) 3 true None.

Abbreviation ControllerQueue := (finalQueue anyObj (Queue anyObj noMetrics)).

Definition made : Assembly.Controller :=
  mkCtl (mkController true true "compositions" true false 3)
    (Wrapped (Instrumented.NewInstrumentedQueue (newQueue anyObj (tt : noMetrics)) true)) ∅ (30 * Second).

Lemma New_made : Assembly.New options "compositions" (∅ : Counts anyObj) (tt : noMetrics) None = Ret (inr made).
Proof. reflexivity. Qed.

Definition ours : ControllerT string := fields (SetExternalClient true made).

Lemma ours_wired : wired ours.
Proof. done. Qed.

Definition startWith (e : Coop) : St Coop ControllerQueue Obj := mkSt e (queueOf made) (itemsOf made) [].

Lemma made_idle n e : Z.of_nat n < 2 ^ 64 -> idle n false (startWith e).
Proof.
  intros Hn. destruct (New_idle (O := Obj) _ _ _ _ _ _ n e New_made Hn) as (_ & Hi & _). exact (Hi 0).
Qed.

Abbreviation run := (follow informerQueue Witnesses.specOf Witnesses.specDiff "Normal" sum64 NewDefaultActionsEvent []).
Abbreviation asksFor := (asks ref Witnesses.specOf Witnesses.specDiff NewDefaultActionsEvent []).

(** The object is noticed; a write of the controller itself comes back; the spec changes; the informer
    comes by again. *)
Definition noticed : notice := Added (RUnstructured interrupted).
Definition later : list notice :=
  [Updated (RUnstructured interrupted) (RUnstructured (Witnesses.bumped interrupted));
   Updated (RUnstructured interrupted) (RUnstructured (Witnesses.withSpec 1 interrupted));
   Updated (RUnstructured interrupted) (RUnstructured interrupted)].

Definition observeIt : request :=
  mkRequest true Event.Observe interrupted Worker.LowPriority.

Abbreviation soft := (reconciles ref Witnesses.specOf Witnesses.specDiff NewDefaultActionsEvent []).

Lemma later_reconciles : Forall (soft True) later.
Proof.
  unfold later. rewrite !Forall_cons. split_and!; [by left|right|right|done];
    (eexists; split; [split; [vm_compute; reflexivity|reflexivity]|split; [discriminate|done]]).
Qed.

Lemma notifications_converge_witness :
  Meta.ExternalCreateIncomplete interrupted = true /\
  exists s' waits, run 3 ours false (noticed :: later) (startWith (env begin)) = (s', Ret waits) /\
    rests (converged ref) waits s'.
Proof.
  split; [vm_compute; reflexivity|].
  apply (notifications_converge informerQueue ref Witnesses.specOf Witnesses.specDiff "Normal" sum64
    NewDefaultActionsEvent [] ours false noticed observeIt later interrupted (startWith (env begin))).
  - done.
  - by apply made_idle.
  - split; [vm_compute; reflexivity|reflexivity].
  - split; discriminate.
  - exact later_reconciles.
  - reflexivity.
  - exact interrupted_live.
  - intros _. cbn [begin env]. rewrite pending_interrupted. split; vm_compute; [reflexivity|discriminate].
Defined.

(** A burst of notifications, one of them dropped for its digest, another that comes while the worker is at
    the events of the burst, and one that asks for nothing. *)
Definition touched : notice := Updated (RUnstructured interrupted) (RUnstructured interrupted).
Definition burst : list (move (O := Obj)) :=
  [Notify noticed; Notify touched; Notify noticed; Turn; Notify touched; Turn; Turn;
   Notify (Updated (RUnstructured interrupted) (RUnstructured (Witnesses.bumped interrupted)))].

Abbreviation playedOut := (playOut informerQueue Witnesses.specOf Witnesses.specDiff "Normal" sum64 NewDefaultActionsEvent []).

Lemma burst_soft (exists_ : Prop) : Forall (soft exists_) (noticesOf burst).
Proof.
  cbn. rewrite !Forall_cons. split_and!; [right|right|right|right|by left|done];
    (eexists; split; [split; [vm_compute; reflexivity|reflexivity]|split; discriminate]).
Qed.


(** The event of a notification is in the queue, and the recorder of the queue's depth was told nothing. *)
Example noticed_unseen :
  let q := queue (handler (WorkQueue0 := informerQueue) Witnesses.specOf Witnesses.specDiff sum64
    NewDefaultActionsEvent [] noticed (startWith (env begin))).1 in
  qLen (mkTime (epoch + Minute) 0) q = 1 /\ known q = Some ([], ∅).
Proof. split; vm_compute; reflexivity. Qed.

(** ** A deletion *)

(** An object with its external resource, being deleted, with a finalizer of another controller too. *)
Definition dying : Obj := object ∅ [Worker.finalizerName; "other"] (Some (mkTime epoch 0)).

Definition beginDying : St Coop ControllerQueue Obj := startWith (mkCoop (epoch + 3 * Minute) (Some dying) inSync).

(** The deletion comes as an update of the object, and again when the object is gone. *)
Definition deleting : notice := Updated (RUnstructured dying) (RUnstructured dying).
Definition deleted : notice := Deleted (RTombstone (Some dying)).
Definition deleteIt : request := mkRequest true Event.Delete dying Worker.HighPriority.


(** ** An outage *)

Definition unavailable : Errors.Errors.error := Errors.Errors.New "the provider is unavailable".

(** The clock stands still; reads of the cluster go through; its writes do not, nor does anything of the
    external system. *)
Definition Outage : World Coop Obj string := {|
  wNow e := (mkTime (reading (clockOf e)) 0, e);
  wShortid := wShortid;
  wGVKtoGVR := wGVKtoGVR;
  wGet := wGet;
  wUpdate _ _ _ e := (inl conflict, e);
  wUpdateStatus _ _ _ e := (inl conflict, e);
  wObserve o e := ((o, (absent, Some unavailable)), e);
  wCreate o e := ((o, Some unavailable), e);
  wExtUpdate o e := ((o, Some unavailable), e);
  wExtDelete o e := ((o, Some unavailable), e)
|}.

Abbreviation state := (St Coop ControllerQueue Obj).

(** The object is noticed; its event fails, and is queued again for later; then nothing is due. *)
Definition outage1 : state := (handler (World0 := Outage) (WorkQueue0 := informerQueue) Witnesses.specOf
  Witnesses.specDiff sum64 NewDefaultActionsEvent [] noticed (startWith (env begin))).1.
Definition outage2 : state := (turn (World0 := Outage) "Normal" sum64 false ours outage1).1.
Definition outage3 : state := (turn (World0 := Outage) "Normal" sum64 false ours outage2).1.

Example outage_results :
  (handler (World0 := Outage) (WorkQueue0 := informerQueue) Witnesses.specOf Witnesses.specDiff sum64
    NewDefaultActionsEvent [] noticed (startWith (env begin))).2 = Ret tt /\
  (turn (World0 := Outage) "Normal" sum64 false ours outage1).2 = Ret (Some false) /\
  (turn (World0 := Outage) "Normal" sum64 false ours outage2).2 = Ret (Some true).
Proof. split_and!; vm_compute; reflexivity. Qed.

(** Meanwhile somebody makes the resource. *)
Definition back : Coop := mkCoop (epoch + 10 * Minute) (Some interrupted) (mkObservation true false).

Abbreviation troubled := (trouble (GVR := string) informerQueue Witnesses.specOf Witnesses.specDiff "Normal" sum64 NewDefaultActionsEvent [] ours).

Lemma outage_steps : nsteps troubled 3 (false, startWith (env begin)) (true, outage3).
Proof.
  destruct outage_results as (E1 & E2 & E3).
  eapply nsteps_l; [exact (notified _ _ _ _ _ _ _ _ Outage noticed _ _ _ (pair_snd _ _ E1))|].
  eapply nsteps_l; [eapply (turned _ _ _ _ _ _ _ _ Outage); [done|exact (pair_snd _ _ E2)]|].
  eapply nsteps_l; [eapply (turned _ _ _ _ _ _ _ _ Outage); [done|exact (pair_snd _ _ E3)]|].
  apply nsteps_O.
Qed.

(** What is left is the event, to be tried again, and its digest. *)
Lemma outage_left :
  qKeys (queue outage3) = {[ inl (mkEvent Event.Observe ref (mkTime (epoch + 3 * Minute) 0)) ]} /\
  Runtime.items outage3 <> ∅ /\ ~ dueBy (epoch + 3 * Minute) (bare (queue outage3)).
Proof.
  split; [|split].
  - apply (bool_decide_unpack (qKeys (queue outage3) = _)). vm_compute. exact I.
  - apply (bool_decide_unpack (Runtime.items outage3 <> ∅)). vm_compute. exact I.
  - apply (bool_decide_unpack (~ dueBy (epoch + 3 * Minute) (bare (queue outage3)))). vm_compute. exact I.
Qed.


End LifecycleExamples.
