(* ===== verification/RuntimeExamples.v ===== *)
(** * The runtime's surroundings at work

    Applications of the theorems about the certificate watcher, the metrics server, the collectors, the
    telemetry and the threads of file Threads to concrete inputs. *)

From S2P Require Import Prelude GoTime Errors Meta Event RateLimiter BTree PriorityQueue.
From S2P Require Import PriorityQueueFacts PQSpin PQTrace PQMetrics PQDepth QueueInstr Conditions.
From S2P Require Import Runtime Worker WorkerFacts CertWatcher CertWatch MetricsServer MetricsRegistry Telemetry.
From S2P Require Import Threads InFlight.
From S2P Require Import Concrete Witnesses QueueWitnesses.
Import GoTime Errors Event SortedList PQFacts PQTrace PQMetrics Runtime Concrete.

Module RuntimeExamples.

(** ** The certificate watcher *)

(** The leaf is the content of the file, and a key of another length does not fit. *)
Definition X509KeyPair (c k : string) : error + CertWatcher.TLSCertificate () :=
  if Nat.eqb (String.length c) (String.length k) then inr (CertWatcher.mkCert [c; "root"] tt)
  else inl (New "tls: private key does not match public key").

Lemma X509KeyPair_leaf c k cert : X509KeyPair c k = inr cert -> CertWatcher.Certificate cert <> [].
Proof. unfold X509KeyPair. destruct (Nat.eqb _ _); [|done]. by intros [= <-]. Qed.

Abbreviation watcher := (CertWatcher.CertWatcherT string ()).
Definition orWatcher (x : outcome watcher) (d : watcher) : watcher :=
  match x with Ret w => w | Panic _ => d end.

(** Loaded, with a callback; then the files change while the key is read half written, and again. *)
Definition w0 : watcher :=
  CertWatcher.mkCW (Some (CertWatcher.mkCert ["one"; "root"] tt)) "key" None
    CertWatcher.defaultWatchInterval "tls.crt" "tls.key" 1 0 [] [].
Definition w1 : watcher := orWatcher (CertWatcher.RegisterCallback (Some "reload") w0) w0.
Definition halfRead : outcome (watcher * option error) :=
  CertWatcher.ReadCertificate X509KeyPair (inr "other") (inr "ke") w1.
Definition w2 : watcher := match halfRead with Ret r => r.1 | Panic _ => w1 end.
Definition fullRead : outcome (watcher * option error) :=
  CertWatcher.ReadCertificate X509KeyPair (inr "other") (inr "fresh") w2.
Definition w3 : watcher := match fullRead with Ret r => r.1 | Panic _ => w2 end.

Lemma w3_reachable : CertWatcher.reachable X509KeyPair w3.
Proof.
  exists "tls.crt", "tls.key", (inr "one"), (inr "key"), w0. split; [reflexivity|].
  eapply rtc_l; [apply (CertWatcher.c_register _ (Some "reload") w0 w1); reflexivity|].
  eapply rtc_l; [eapply (CertWatcher.c_read _ (inr "other") (inr "ke") w1 w2); reflexivity|].
  apply rtc_once. eapply (CertWatcher.c_read _ (inr "other") (inr "fresh") w2 w3). reflexivity.
Qed.

(** The callback was called with the first certificate, and a goroutine will call it with the second. *)
Example w3_callbacks :
  CertWatcher.called w3 = [("reload", CertWatcher.mkCert ["one"; "root"] tt)] /\
  CertWatcher.pending w3 = [CertWatcher.mkCert ["other"; "root"] tt] /\
  CertWatcher.readErrors w3 = 1.
Proof. repeat split. Qed.

Lemma watcher_invariant_witness :
  (exists cert certPEM, CertWatcher.currentCert w3 = Some cert /\
     X509KeyPair certPEM (CertWatcher.cachedKeyPEMBlock w3) = inr cert) /\
  (forall cb cert, CertWatcher.callback w3 = Some cb -> CertWatcher.currentCert w3 = Some cert ->
     cert ∈ CertWatcher.pending w3 \/ (cb, cert) ∈ CertWatcher.called w3) /\
  (forall certFile keyFile,
     is_panic (CertWatcher.ReadCertificate X509KeyPair certFile keyFile w3) = false) /\
  (forall i, is_panic (CertWatcher.runCallback i w3) = false).
Proof. exact (CertWatcher.watcher_invariant X509KeyPair X509KeyPair_leaf w3 w3_reachable). Defined.

(** The files change three seconds after the start, nothing announces it, and the tick after ten takes the
    new pair over. *)
Abbreviation watched := (CertWatch.WatchState (CB := string) (Rest := ())).
Definition disk1 : (error + string) * (error + string) := (inr "other", inr "fresh").
Definition s0 : watched :=
  CertWatch.begins (CertWatcher.WithWatchInterval 10 w0) (inr "one", inr "key") 0.
Definition at_time (t : Z) (s : watched) : watched :=
  CertWatch.mkWatch (CertWatch.watcher s) (CertWatch.disk s) (CertWatch.changedAt s)
    (CertWatch.tickedAt s) t (CertWatch.started s) (CertWatch.watching s).
Definition on_disk (s : watched) : watched :=
  CertWatch.mkWatch (CertWatch.watcher s) disk1 (CertWatch.clock s) (CertWatch.tickedAt s)
    (CertWatch.clock s) (CertWatch.started s) (CertWatch.watching s).
Definition ticked (s : watched) : watched :=
  match CertWatch.onTick X509KeyPair s with Ret s' => s' | Panic _ => s end.
Definition s14 : watched := at_time 14 (ticked (at_time 10 (on_disk (at_time 3 s0)))).

Lemma w0_reachable : CertWatcher.reachable X509KeyPair w0.
Proof.
  exists "tls.crt", "tls.key", (inr "one"), (inr "key"), w0. split; [reflexivity|constructor].
Qed.

Lemma s14_runs : rtc (CertWatch.wstep X509KeyPair) s0 s14.
Proof.
  eapply rtc_l; [apply (CertWatch.w_time _ 3); vm_compute; congruence|].
  eapply rtc_l; [apply (CertWatch.w_disk _ disk1)|].
  eapply rtc_l; [apply (CertWatch.w_time _ 10); vm_compute; congruence|].
  eapply rtc_l; [apply (CertWatch.w_tick _ _ (ticked (at_time 10 (on_disk (at_time 3 s0))))); reflexivity|].
  apply rtc_once. apply (CertWatch.w_time _ 14); vm_compute; congruence.
Qed.

Lemma disk_taken_over_witness :
  CertWatcher.cachedKeyPEMBlock (CertWatch.watcher s14) = "fresh" /\
  exists cur, CertWatcher.GetCertificate (CertWatch.watcher s14) = Some cur /\
    CertWatcher.leaf cur = CertWatcher.leaf (CertWatcher.mkCert ["other"; "root"] tt).
Proof.
  apply (CertWatch.disk_taken_over X509KeyPair X509KeyPair_leaf 10 w0 (inr "one", inr "key") 0 s14
    w0_reachable eq_refl s14_runs eq_refl eq_refl "other" "fresh"); reflexivity.
Defined.

(** ** The metrics server *)

(** A server with a filter that marks what it wraps and refuses one path, a logger, and a handler. *)
Definition mark (path handler : string) : error + string :=
  if String.eqb path "/secret" then inl (New "forbidden") else inr ("filtered " +:+ handler).

Definition serverOptions : MetricsServer.Options (H := string) (C := string) :=
  MetricsServer.mkOptions true EmptyString None (Some (inr mark)) EmptyString EmptyString EmptyString [].
Definition server0 : MetricsServer.defaultServer (H := string) (C := string) :=
  MetricsServer.mkServer (MetricsServer.setDefaults "/tmp" serverOptions) (Some mark) EmptyString false.
Definition server1 := MetricsServer.WithLogger server0 ∅.
Definition server2 := MetricsServer.AddExtraHandler "/debug" "pprof" server1.1 server1.2.

Lemma server_api : MetricsServer.api server2.2.2 server2.2.1.
Proof.
  apply (MetricsServer.api_add "/debug" "pprof" server1.1 server1.2 server2.1).
  - apply (MetricsServer.api_log server0 ∅); [|apply surjective_pairing].
    by apply (MetricsServer.api_new "/tmp" serverOptions).
  - unfold server2. by destruct (MetricsServer.AddExtraHandler _ _ _ _) as [? []].
Qed.

(** Patterns that are no plain paths are refused here. *)
Definition refuse (pattern handler : string) (mux : gmap string string) : outcome (gmap string string) :=
  Panic "unsupported pattern".

Lemma start_serves_witness :
  let run := MetricsServer.startMux refuse server2.2.1 (inr "0.0.0.0:8080") "prometheus"
    [("/debug", "pprof")] in
  let metrics := MetricsServer.defaultMetricsEndpoint in
  (exists e, MetricsServer.filtered server2.2.1 metrics "prometheus" = inl e /\
     run = Ret (inl (MetricsServer.promError e))) \/
  (exists p x e, MetricsServer.handlers server2.2.2 server2.2.1 !! p = Some x /\
     MetricsServer.filtered server2.2.1 p x = inl e /\
     run = Ret (inl (MetricsServer.extraError p e))) \/
  exists s' mux, run = Ret (inr (s', mux)) /\
    MetricsServer.GetBindAddr s' = "0.0.0.0:8080" /\
    (exists y, MetricsServer.filtered server2.2.1 metrics "prometheus" = inr y /\
       mux !! metrics = Some y) /\
    forall p, p <> metrics ->
      match MetricsServer.handlers server2.2.2 server2.2.1 !! p with
      | Some x => exists y, MetricsServer.filtered server2.2.1 p x = inr y /\ mux !! p = Some y
      | None => mux !! p = None
      end.
Proof.
  apply (MetricsServer.start_serves refuse server2.2.2 server2.2.1 (inr "0.0.0.0:8080") "prometheus"
    [("/debug", "pprof")] server_api).
  - reflexivity.
  - intros p [x Hx]. revert Hx.
    replace (MetricsServer.handlers server2.2.2 server2.2.1) with ({[ "/debug" := "pprof" ]} : gmap string string)
      by (vm_compute; reflexivity).
    by intros [<- _]%lookup_singleton_Some.
  - assert (E : map_to_list (MetricsServer.handlers server2.2.2 server2.2.1) = [("/debug", "pprof")])
      by (vm_compute; reflexivity).
    by rewrite E.
Defined.

(** And it serves: the last case is the one. *)
Example serves : exists s',
  MetricsServer.startMux refuse server2.2.1 (inr "0.0.0.0:8080") "prometheus" [("/debug", "pprof")] =
  Ret (inr (s', {[ "/metrics" := "filtered prometheus"; "/debug" := "filtered pprof" ]})).
Proof. eexists. vm_compute. reflexivity. Qed.

(** ** The collectors *)

Import QueueWitnesses.

Lemma exposed_depth_witness : exists s,
  MetricsRegistry.providerCalls "controller" (calls (PriorityQueue.metrics metered1)) MetricsRegistry.noCells = Ret s /\
  forall p, default 0 (MetricsRegistry.gathered MetricsRegistry.servedRegistry s MetricsRegistry.depth
      ["controller"; "controller"; MetricsRegistry.Itoa p]) =
    PQDepth.depthOf (fun q => bool_decide (q = p)) (PriorityQueue.items metered1) (PriorityQueue.becameReady metered1).
Proof.
  apply (MetricsRegistry.exposed_depth (∅ : Counts string) "controller" t0 [] (mkRun metered1 t0 None)).
  apply (runs_step _ [] (mkRun metered t0 None) []); [apply runs_nil|].
  apply (step_add t0 (PriorityQueue.mkAddOpts 0 false 5) ["a"; "b"]); [reflexivity|vm_compute; reflexivity].
Defined.

(** ** The trace context *)

(** A span context as its traceparent and tracestate, carried as they are. *)
Definition Inject (sc : string * string) : gmap string string :=
  let m := {[ "traceparent" := sc.1 ]} in
  if String.eqb sc.2 EmptyString then m else <[ "tracestate" := sc.2 ]> m.
Definition Extract (m : gmap string string) (sc : string * string) : string * string :=
  match m !! "traceparent" with
  | Some tp => (tp, default EmptyString (m !! "tracestate"))
  | None => sc
  end.

Definition annotations : gmap string string :=
  {[ Meta.AnnotationKeyTracestate := "vendor=old"; "app" := "web" ]}.

Lemma trace_continues_witness : exists ann',
  Telemetry.InjectTraceparent Inject ("00-7b-01", "vendor=new") (Some annotations) = Ret (Some ann') /\
  Telemetry.extracted Extract (Some ann') ("none", EmptyString) = ("00-7b-01", "vendor=new") /\
  forall k, k <> Meta.AnnotationKeyTraceparent -> k <> Meta.AnnotationKeyTracestate ->
    ann' !! k = annotations !! k.
Proof.
  apply (Telemetry.trace_continues Inject Extract ("00-7b-01", "vendor=new") annotations
    ("none", EmptyString)).
  - split; [discriminate|]. intros ctx. reflexivity.
  - left. discriminate.
Defined.

(** ** An iteration of the worker *)

Definition afterObserve : State :=
  (Worker.runWorkerStep "Normal" sum64 controller (inl (eventOf Event.Observe), 0, false)
    (Witnesses.before Witnesses.plain)).1.

Lemma observe_iterates :
  (Worker.runWorkerStep "Normal" sum64 controller (inl (eventOf Event.Observe), 0, false)
    (Witnesses.before Witnesses.plain)).2 = Ret true.
Proof. vm_compute. reflexivity. Qed.

Lemma gauge_balanced_witness :
  Threads.gauge (trace afterObserve) =
  Threads.gauge (trace (Witnesses.before Witnesses.plain)) + 0.
Proof.
  apply (InFlight.gauge_balanced "Normal" sum64 controller (inl (eventOf Event.Observe)) 0 false
    (Witnesses.before Witnesses.plain) afterObserve true).
  unfold afterObserve. rewrite <- observe_iterates. apply surjective_pairing.
Defined.

Definition reconciled : State :=
  (Worker.reconcileEvent "Normal" sum64 controller (eventOf Event.Observe) 0
    (Witnesses.before Witnesses.plain)).1.

Lemma observe_reconciles :
  (Worker.reconcileEvent "Normal" sum64 controller (eventOf Event.Observe) 0
    (Witnesses.before Witnesses.plain)).2 = Ret tt.
Proof. vm_compute. reflexivity. Qed.

Lemma iteration_as_thread_witness :
  (exists q err, bsteps Threads.added 1 (queue (Witnesses.before Witnesses.plain)) q /\
     rtc Threads.tstep
       (Threads.tFinish sum64 (maxRetries controller) (eventOf Event.Observe) 0 err
          (fun _ => Threads.TEnd), (q, Runtime.items (Witnesses.before Witnesses.plain)))
       (Threads.TEnd, (queue reconciled, Runtime.items reconciled))) \/
  (is_Some (wShortid (wNow (env (Witnesses.before Witnesses.plain))).2).1 /\
   queue reconciled = queue (Witnesses.before Witnesses.plain) /\
   Runtime.items reconciled = Runtime.items (Witnesses.before Witnesses.plain)).
Proof.
  apply (Threads.iteration_as_thread "Normal" sum64 controller (eventOf Event.Observe) 0
    (Witnesses.before Witnesses.plain) reconciled).
  unfold reconciled. rewrite <- observe_reconciles. apply surjective_pairing.
Defined.

End RuntimeExamples.
